(** * Attic Viewer: unified robot model, Xacro asset resolution and the
      MuJoCo physics bridge

    A shallow embedding of the parts of the viewer that its specification
    talks about, with the properties of the specification stated and proved
    (or refuted) against that embedding.

    Conventions used throughout.
    - A JavaScript [Map] is an insertion-ordered association list with
      unique keys ([JsMap]); [get] and [set] follow ECMAScript: [set] on an
      existing key replaces the value in place, [set] on a new key appends.
    - JavaScript objects that are shared by reference live in a store
      ([gmap] from locations to objects); a field holding an object holds
      its location.
    - Numbers are IEEE-754 doubles ([PrimFloat.float]): the entries of
      buffers and vectors, and the frame clock of the simulation loop.
      [Number.toQ] reads a finite double as the rational it stands for.
    - A function that can raise returns a [result]; a [try]/[catch] is a
      [match] on it. *)

From Stdlib Require Import ZArith QArith Qround Lqa Floats Ascii String List Lia.
From stdpp Require Import base option list gmap strings pretty.

Local Open Scope string_scope.
Local Open Scope list_scope.
Set Warnings "-inexact-float".

(** ** Results of fallible code *)

Inductive result (A : Type) : Type :=
| Ok (a : A)
| Throw (msg : string).
Arguments Ok {A} a.
Arguments Throw {A} msg.

(** ** JavaScript string methods used by the adapters *)

Module JsString.

(** [s.startsWith(p)] *)
Definition startsWith (s p : string) : bool := String.prefix p s.

(** [s.substring(n)] *)
Fixpoint substring_from (n : nat) (s : string) : string :=
  match n, s with
  | O, _ => s
  | S _, EmptyString => EmptyString
  | S n', String _ s' => substring_from n' s'
  end.

(** [s.substring(0, n)] *)
Fixpoint substring_to (n : nat) (s : string) : string :=
  match n, s with
  | O, _ => EmptyString
  | S _, EmptyString => EmptyString
  | S n', String c s' => String c (substring_to n' s')
  end.

(** [s.indexOf(c)] for a one-character needle; [None] stands for [-1]. *)
Fixpoint indexOf (c : ascii) (s : string) : option nat :=
  match s with
  | EmptyString => None
  | String d s' =>
      if Ascii.eqb d c then Some O
      else match indexOf c s' with
           | Some i => Some (S i)
           | None => None
           end
  end.

(** [s.lastIndexOf(c)] for a one-character needle. *)
Fixpoint lastIndexOf (c : ascii) (s : string) : option nat :=
  match s with
  | EmptyString => None
  | String d s' =>
      match lastIndexOf c s' with
      | Some i => Some (S i)
      | None => if Ascii.eqb d c then Some O else None
      end
  end.

(** [s.includes(c)] for a one-character needle. *)
Definition includes_char (c : ascii) (s : string) : bool :=
  match indexOf c s with Some _ => true | None => false end.

(** [s.includes(t)] *)
Fixpoint includes (t s : string) : bool :=
  String.prefix t s ||
  match s with
  | EmptyString => false
  | String _ s' => includes t s'
  end.

(** [s.split(c)]: never empty, [''.split('/')] is [['']]. *)
Fixpoint split (c : ascii) (s : string) : list string :=
  match s with
  | EmptyString => [EmptyString]
  | String d s' =>
      if Ascii.eqb d c then EmptyString :: split c s'
      else match split c s' with
           | h :: t => String d h :: t
           | [] => [String d EmptyString]
           end
  end.

(** [parts.join(sep)] *)
Fixpoint join (sep : string) (parts : list string) : string :=
  match parts with
  | [] => EmptyString
  | [p] => p
  | p :: rest => p +:+ sep +:+ join sep rest
  end.

(** [parts.pop()] read as a value: the last element.  The arrays it is
    applied to come from [split] and are never empty. *)
Definition pop (parts : list string) : string := List.last parts EmptyString.

(** [s.split('/').pop()] *)
Definition basename (s : string) : string := pop (split "/" s).

(** [s.replace(/^p/, '')] for a literal prefix [p]. *)
Definition strip_prefix (p s : string) : string :=
  if String.prefix p s then substring_from (String.length p) s else s.

(** [s.replace(/^\/+/, '')] *)
Fixpoint strip_leading_slashes (s : string) : string :=
  match s with
  | String "/" s' => strip_leading_slashes s'
  | _ => s
  end.

(** The longest prefix without a slash, and what follows it. *)
Fixpoint span_no_slash (s : string) : string * string :=
  match s with
  | EmptyString => (EmptyString, EmptyString)
  | String c s' =>
      if Ascii.eqb c "/" then (EmptyString, s)
      else let '(a, b) := span_no_slash s' in (String c a, b)
  end.

(** [s.replace(/^blob:[^\/]+\//, '')]: the scheme, a non-empty run of
    non-slash characters and one slash are removed when all three are
    there; otherwise the string is kept. *)
Definition strip_blob_origin (s : string) : string :=
  if String.prefix "blob:" s then
    match span_no_slash (substring_from 5 s) with
    | (String _ _, String _ rest) => rest
    | _ => s
    end
  else s.

(** Truthiness of a string: [''] is falsy. *)
Definition truthy (s : string) : bool :=
  match s with EmptyString => false | _ => true end.

(** [s.toLowerCase()] on ASCII letters. *)
Definition lower (c : ascii) : ascii :=
  let n := nat_of_ascii c in
  if (65 <=? n)%nat && (n <=? 90)%nat then ascii_of_nat (n + 32) else c.

Fixpoint toLowerCase (s : string) : string :=
  match s with
  | EmptyString => EmptyString
  | String c s' => String (lower c) (toLowerCase s')
  end.

(** [s.endsWith(t)] *)
Definition endsWith (s t : string) : bool :=
  String.eqb (substring_from (String.length s - String.length t) s) t
  && (String.length t <=? String.length s)%nat.

(** [/\.(e1|e2|...)$/i.test(s)] *)
Definition hasExtension (exts : list string) (s : string) : bool :=
  existsb (fun e => endsWith (toLowerCase s) ("." +:+ e)) exts.

(** A line terminator, which [.] of a regular expression does not match. *)
Definition isLineTerminator (c : ascii) : bool :=
  Ascii.eqb c "010" || Ascii.eqb c "013".

Fixpoint noLineTerminator (s : string) : bool :=
  match s with
  | EmptyString => true
  | String c s' => negb (isLineTerminator c) && noLineTerminator s'
  end.

(** [s.match(/^blob:https?:\/\/[^\/]+\/(.+)$/)]: the captured group. *)
Definition matchBlobHttp (s : string) : option string :=
  let after :=
    if String.prefix "blob:https://" s then Some (substring_from 13 s)
    else if String.prefix "blob:http://" s then Some (substring_from 12 s)
    else None in
  match after with
  | Some r =>
      match span_no_slash r with
      | (String _ _, String _ (String c tail)) =>
          if noLineTerminator (String c tail) then Some (String c tail) else None
      | _ => None
      end
  | None => None
  end.

End JsString.

(** ** JavaScript [Map] with string keys *)

Module JsMap.

Definition t (V : Type) : Type := list (string * V).

Definition empty {V} : t V := [].

(** [m.get(k)]; [None] stands for [undefined]. *)
Fixpoint get {V} (k : string) (m : t V) : option V :=
  match m with
  | [] => None
  | (k', v) :: m' => if String.eqb k' k then Some v else get k m'
  end.

Definition has {V} (k : string) (m : t V) : bool :=
  match get k m with Some _ => true | None => false end.

(** [m.set(k, v)]: an existing key keeps its position. *)
Fixpoint set {V} (k : string) (v : V) (m : t V) : t V :=
  match m with
  | [] => [(k, v)]
  | (k', v') :: m' =>
      if String.eqb k' k then (k', v) :: m' else (k', v') :: set k v m'
  end.

Definition keys {V} (m : t V) : list string := map fst m.

(** [m.size] *)
Definition size {V} (m : t V) : nat := length m.

(** The first entry, in iteration order, whose key satisfies [p]:
    [for (const [key, v] of m.entries()) if (p(key)) return v]. *)
Fixpoint find_key {V} (p : string -> bool) (m : t V) : option V :=
  match m with
  | [] => None
  | (k, v) :: m' => if p k then Some v else find_key p m'
  end.

Lemma get_set_eq {V} k (v : V) m : get k (set k v m) = Some v.
Proof.
  induction m as [|[k' v'] m IH]; simpl.
  - now rewrite String.eqb_refl.
  - destruct (String.eqb k' k) eqn:E; simpl; rewrite E; auto.
Qed.

Lemma get_set_ne {V} k k' (v : V) m : k <> k' -> get k' (set k v m) = get k' m.
Proof.
  intros Hne. induction m as [|[k0 v0] m IH]; simpl.
  - destruct (String.eqb_spec k k'); congruence.
  - destruct (String.eqb_spec k0 k) as [->|Hk]; simpl.
    + destruct (String.eqb_spec k k'); congruence.
    + now rewrite IH.
Qed.

Lemma get_None_keys {V} k (m : t V) : get k m = None <-> ~ In k (keys m).
Proof.
  induction m as [|[k0 v0] m IH]; simpl.
  - tauto.
  - destruct (String.eqb_spec k0 k) as [->|Hk].
    + split; [discriminate | tauto].
    + rewrite IH. tauto.
Qed.

Lemma keys_set_present {V} k (v : V) m :
  get k m <> None -> keys (set k v m) = keys m.
Proof.
  induction m as [|[k0 v0] m IH]; simpl; [congruence|].
  destruct (String.eqb_spec k0 k) as [->|Hk]; simpl; [reflexivity|].
  intros H. now rewrite IH.
Qed.

Lemma keys_set_absent {V} k (v : V) m :
  get k m = None -> keys (set k v m) = keys m ++ [k].
Proof.
  induction m as [|[k0 v0] m IH]; simpl; [reflexivity|].
  destruct (String.eqb_spec k0 k) as [->|Hk]; simpl; [discriminate|].
  intros H. now rewrite IH.
Qed.

Lemma NoDup_keys_set {V} k (v : V) m :
  List.NoDup (keys m) -> List.NoDup (keys (set k v m)).
Proof.
  intros Hnd. destruct (get k m) eqn:E.
  - rewrite keys_set_present; [assumption | congruence].
  - rewrite keys_set_absent by assumption.
    apply get_None_keys in E.
    apply NoDup_ListNoDup. apply NoDup_ListNoDup in Hnd.
    apply NoDup_app. split; [assumption|]. split.
    + intros x Hx Hk. apply list_elem_of_In in Hx.
      apply list_elem_of_In in Hk. simpl in Hk. destruct Hk as [<-|[]].
      contradiction.
    + apply NoDup_singleton.
Qed.

Lemma size_set_present {V} k (v : V) m :
  get k m <> None -> size (set k v m) = size m.
Proof.
  intros H. unfold size.
  rewrite <- (length_map fst (set k v m)), <- (length_map fst m).
  fold (keys (set k v m)). fold (keys m). now rewrite keys_set_present.
Qed.

End JsMap.

(** ** The unified robot model (UnifiedRobotModel.ts) *)

(** Locations of shared JavaScript objects. *)
Definition loc : Type := nat.

Module Link.
(** [class Link]; the render handle and the geometries are references.
    The free-form [userData] bag is left out. *)
Record t : Type := mk {
  name : string;
  visuals : list loc;
  collisions : list loc;
  inertial : option loc;
  threeObject : option loc
}.
End Link.

Module JointLimits.
Record t : Type := mk {
  lower : float;
  upper : float;
  effort : option float;
  velocity : option float
}.
End JointLimits.

Module Joint.
Record t : Type := mk {
  name : string;
  type : string;
  parent : option string;
  child : option string;
  origin_xyz : list float;
  origin_rpy : list float;
  origin_quat : option (list float);
  axis_xyz : list float;
  limits : option JointLimits.t;
  currentValue : float;
  threeObject : option loc
}.
End Joint.

Module Material.
Record t : Type := mk {
  name : string;
  color : float * float * float;
  texture : option string;
  rgba : option (list float);
  specular : option (list float);
  shininess : option float
}.
End Material.

Module Constraint.
Record t : Type := mk {
  name : string;
  type : string;
  body1 : option string;
  body2 : option string;
  anchor : option (list float);
  torquescale : option float;
  joint1 : option string;
  joint2 : option string;
  polycoef : option (list float);
  distance : option float;
  threeObject : option loc
}.
End Constraint.

Module UnifiedRobotModel.

Record t : Type := mk {
  name : string;
  links : JsMap.t Link.t;
  joints : JsMap.t Joint.t;
  materials : JsMap.t Material.t;
  constraints : JsMap.t Constraint.t;
  rootLink : option string;
  threeObject : option loc
}.

(** [new UnifiedRobotModel()] *)
Definition new : t := mk "" JsMap.empty JsMap.empty JsMap.empty JsMap.empty None None.

Definition with_links (f : JsMap.t Link.t -> JsMap.t Link.t) (m : t) : t :=
  mk (name m) (f (links m)) (joints m) (materials m) (constraints m)
     (rootLink m) (threeObject m).

Definition with_joints (f : JsMap.t Joint.t -> JsMap.t Joint.t) (m : t) : t :=
  mk (name m) (links m) (f (joints m)) (materials m) (constraints m)
     (rootLink m) (threeObject m).

Definition with_constraints
    (f : JsMap.t Constraint.t -> JsMap.t Constraint.t) (m : t) : t :=
  mk (name m) (links m) (joints m) (materials m) (f (constraints m))
     (rootLink m) (threeObject m).

(** [this.links.set(link.name, link)] *)
Definition addLink (link : Link.t) (m : t) : t :=
  with_links (JsMap.set (Link.name link) link) m.

Definition addJoint (joint : Joint.t) (m : t) : t :=
  with_joints (JsMap.set (Joint.name joint) joint) m.

Definition addConstraint (constraint : Constraint.t) (m : t) : t :=
  with_constraints (JsMap.set (Constraint.name constraint) constraint) m.

(** [this.links.get(name)] *)
Definition getLink (n : string) (m : t) : option Link.t := JsMap.get n (links m).
Definition getJoint (n : string) (m : t) : option Joint.t := JsMap.get n (joints m).
Definition getConstraint (n : string) (m : t) : option Constraint.t :=
  JsMap.get n (constraints m).

(** The three mappings have no repeated key. *)
Definition unique_keys (m : t) : Prop :=
  List.NoDup (JsMap.keys (links m)) /\
  List.NoDup (JsMap.keys (joints m)) /\
  List.NoDup (JsMap.keys (constraints m)).

End UnifiedRobotModel.

(** ** Xacro adapter: resolution against the uploaded-file bundle
       (XacroAdapter.js) *)

Module File.
(** A browser [File]: its name and what [text()] resolves to. *)
Record t : Type := mk { name : string; text : string }.
End File.

Module XacroAdapter.
Import JsString.

(** The first path of [paths] that the bundle has:
    [for (const tryPath of possiblePaths) { const file = fileMap.get(tryPath); if (file) ... }] *)
Fixpoint tryPaths (paths : list string) (fileMap : JsMap.t File.t) : option File.t :=
  match paths with
  | [] => None
  | p :: rest =>
      match JsMap.get p fileMap with
      | Some file => Some file
      | None => tryPaths rest fileMap
      end
  end.

(** [cleanPath]: one leading slash removed, then a leading [./]. *)
Definition cleanPath (path : string) : string :=
  strip_prefix "./" (if startsWith path "/" then substring_from 1 path else path).

(** [cleanPath.includes('/') ? cleanPath.substring(cleanPath.indexOf('/') + 1) : cleanPath] *)
Definition withoutFirstComponent (cp : string) : string :=
  match indexOf "/" cp with
  | Some i => substring_from (i + 1) cp
  | None => cp
  end.

Definition possiblePaths (path workingPath : string) : list string :=
  let cp := cleanPath path in
  [ cp;
    workingPath +:+ cp;
    path;
    workingPath +:+ strip_leading_slashes path;
    withoutFirstComponent cp ].

(** The filename-only scan over the bundle, in iteration order. *)
Definition findByFileName (fileName : string) (fileMap : JsMap.t File.t) : option File.t :=
  JsMap.find_key (fun key => String.eqb (basename key) fileName) fileMap.

Definition loadFileFromMap (path : string) (fileMap : JsMap.t File.t)
    (workingPath : string) : result string :=
  match tryPaths (possiblePaths path workingPath) fileMap with
  | Some file => Ok (File.text file)
  | None =>
      match findByFileName (basename (cleanPath path)) fileMap with
      | Some file => Ok (File.text file)
      | None => Throw ("Cannot find included file: " +:+ path)
      end
  end.

(** The resolution order as the specification words it, for comparison
    with [loadFileFromMap]: the literal (cleaned) path, the path under the
    including document's directory, the filename-only fallback. *)
Definition loadFileFromMap_as_specified (path : string)
    (fileMap : JsMap.t File.t) (workingPath : string) : result string :=
  match JsMap.get (cleanPath path) fileMap with
  | Some file => Ok (File.text file)
  | None =>
      match JsMap.get (workingPath +:+ cleanPath path) fileMap with
      | Some file => Ok (File.text file)
      | None =>
          match findByFileName (basename (cleanPath path)) fileMap with
          | Some file => Ok (File.text file)
          | None => Throw ("Cannot find included file: " +:+ path)
          end
      end
  end.

(** [const workingPath = fileName.includes('/') ? fileName.substring(0, fileName.lastIndexOf('/') + 1) : ''] *)
Definition workingPathOf (fileName : string) : string :=
  match lastIndexOf "/" fileName with
  | Some i => substring_to (i + 1) fileName
  | None => ""
  end.

(** [package://pkg/rest] becomes [rest]; a reference with the scheme but
    no slash after the package name keeps the name. *)
Definition stripPackage (meshPath : string) : string :=
  if startsWith meshPath "package://" then
    let p := strip_prefix "package://" meshPath in
    match split "/" p with
    | _ :: (_ :: _) as rest => join "/" rest
    | _ => p
    end
  else meshPath.

(** [findFileInMapByPath(path, fileMap, urdfDir)]; [None] is [null]. *)
Definition findFileInMapByPath (path : string) (fileMap : JsMap.t File.t)
    (urdfDir : string) : option File.t :=
  let meshPath := strip_prefix "./" (stripPackage (strip_blob_origin path)) in
  let fullPath := urdfDir +:+ meshPath in
  match JsMap.get fullPath fileMap with
  | Some file => Some file
  | None =>
      match JsMap.get meshPath fileMap with
      | Some file => Some file
      | None => findByFileName (basename meshPath) fileMap
      end
  end.

(** The [../] resolution loop of the URL modifier. *)
Fixpoint resolveParts (parts resolved : list string) : list string :=
  match parts with
  | [] => resolved
  | part :: rest =>
      if String.eqb part ".." then resolveParts rest (removelast resolved)
      else if negb (String.eqb part ".") && negb (String.eqb part "")
           then resolveParts rest (resolved ++ [part])
           else resolveParts rest resolved
  end.

Definition normalizePath (meshPath : string) : string :=
  if includes "../" meshPath
  then join "/" (resolveParts (split "/" meshPath) [])
  else meshPath.

Definition imageOrMeshExtensions : list string :=
  ["jpg"; "jpeg"; "png"; "gif"; "bmp"; "tga"; "tiff"; "webp";
   "dae"; "stl"; "obj"; "gltf"; "glb"].

Section UrlModifier.
(** Browser services the modifier calls: [URL.createObjectURL] and the
    path of a parsed [http(s)] URL ([None] when [new URL] throws). *)
Variable createObjectURL : File.t -> string.
Variable urlPathname : string -> option string.

(** The bundle lookup of the modifier, after normalisation. *)
Definition matchInBundle (meshPath : string) (fileMap : JsMap.t File.t)
    (urdfDir : string) : option File.t :=
  let normalizedPath := normalizePath meshPath in
  let fullPath := urdfDir +:+ normalizedPath in
  let altPath := urdfDir +:+ meshPath in
  let m1 := JsMap.get fullPath fileMap in
  let m2 := match m1 with
            | None => if negb (String.eqb altPath fullPath)
                      then JsMap.get altPath fileMap else None
            | Some _ => m1
            end in
  let m3 := match m2 with None => JsMap.get normalizedPath fileMap | Some _ => m2 end in
  let m4 := match m3 with None => JsMap.get meshPath fileMap | Some _ => m3 end in
  match m4 with
  | None =>
      let targetFileName :=
        if truthy (basename normalizedPath) then basename normalizedPath
        else basename meshPath in
      findByFileName targetFileName fileMap
  | Some _ => m4
  end.

Definition stripHttp (meshPath : string) : string :=
  if startsWith meshPath "http://" || startsWith meshPath "https://" then
    match urlPathname meshPath with
    | Some pathname =>
        if startsWith pathname "/" then substring_from 1 pathname else pathname
    | None => meshPath
    end
  else meshPath.

(** [urlModifier(url)] as installed on the loading manager by [parse];
    the two [isTextureFile]/[isMeshFile] constants it computes are never
    read and are left out. *)
Definition urlModifier (fileMap : JsMap.t File.t) (urdfDir : string)
    (url : string) : string :=
  let continue (url' : string) : string :=
    let meshPath := strip_prefix "./" (stripPackage (stripHttp url')) in
    match matchInBundle meshPath fileMap urdfDir with
    | Some matchedFile => createObjectURL matchedFile
    | None => url'
    end in
  if startsWith url "blob:" then
    match matchBlobHttp url with
    | Some fileName =>
        if hasExtension imageOrMeshExtensions fileName
        then continue fileName
        else url
    | None => url
    end
  else continue url.
End UrlModifier.

Section Parse.
(** What [parse] delegates to: the xacro-parser expansion, which calls
    back into [getFileContents] for every inclusion, the two textual
    preprocessing passes, and the URDF stage that follows a successful
    expansion. *)
Variables Xml Model Args : Type.
Variable injectBooleanConstants : string -> string.
Variable extractXacroArguments : string -> Args.
Variable XacroParser_parse :
  (string -> result string) -> Args -> string -> string -> result Xml.
Variable defaultGetFileContents : string -> result string.
Variable loadUrdf : Xml -> option (JsMap.t File.t) -> string -> result Model.

(** [static async parse(xacroContent, fileName, fileMap)]: whatever the
    expansion throws is rethrown by the [catch] with a prefix. *)
Definition parse (xacroContent fileName : string)
    (fileMap : option (JsMap.t File.t)) : result Model :=
  let workingPath := workingPathOf fileName in
  let xacroContent := injectBooleanConstants xacroContent in
  let xacroArgs := extractXacroArguments xacroContent in
  let getFileContents :=
    match fileMap with
    | Some fm => fun path => loadFileFromMap path fm workingPath
    | None => defaultGetFileContents
    end in
  match XacroParser_parse getFileContents xacroArgs workingPath xacroContent with
  | Throw msg => Throw ("Xacro parsing failed: " +:+ msg)
  | Ok urdfXML => loadUrdf urdfXML fileMap workingPath
  end.
End Parse.

End XacroAdapter.

(** ** JavaScript values and the object store *)

Module Js.

(** Values a field typed [any] can hold. *)
Inductive value : Type :=
| Undefined
| Null
| Num (x : float)
| Str (s : string)
| Bool (b : bool)
| Ref (l : loc).

(** Stored objects: a plain object with its own enumerable properties in
    creation order, or an array. *)
Inductive object : Type :=
| Obj (props : JsMap.t value)
| Arr (elems : list value).

Abbreviation heap := (gmap loc object).

(** [new]: the object is placed at a location the store does not use. *)
Definition alloc (o : object) (h : heap) : heap * loc :=
  let l := fresh (dom h) in (<[l := o]> h, l).

(** Truthiness, as the conditional operator sees it. *)
Definition truthy (v : value) : bool :=
  match v with
  | Undefined | Null => false
  | Num x => negb (PrimFloat.eqb x 0%float) && negb (PrimFloat.is_nan x)
  | Str s => JsString.truthy s
  | Bool b => b
  | Ref _ => true
  end.

(** Index keys ["0"], ["1"], ... paired with the elements. *)
Fixpoint indexed (i : nat) (vs : list value) : JsMap.t value :=
  match vs with
  | [] => []
  | v :: vs' => (pretty i, v) :: indexed (S i) vs'
  end.

Fixpoint chars (s : string) : list value :=
  match s with
  | EmptyString => []
  | String c s' => Str (String c EmptyString) :: chars s'
  end.

(** The properties copied by an object spread [{...v}]. *)
Definition spreadProps (h : heap) (v : value) : JsMap.t value :=
  match v with
  | Ref l =>
      match h !! l with
      | Some (Obj props) => props
      | Some (Arr elems) => indexed 0 elems
      | None => []
      end
  | Str s => indexed 0 (chars s)
  | _ => []
  end.

(** [o[k]] and [a[i]]; a missing property reads as [undefined]. *)
Definition getProp (h : heap) (l : loc) (k : string) : value :=
  match h !! l with
  | Some (Obj props) => default Undefined (JsMap.get k props)
  | _ => Undefined
  end.

Definition getIndex (h : heap) (l : loc) (i : nat) : value :=
  match h !! l with
  | Some (Arr elems) => default Undefined (elems !! i)
  | _ => Undefined
  end.

(** [o[k] = v] *)
Definition setProp (l : loc) (k : string) (v : value) (h : heap) : heap :=
  match h !! l with
  | Some (Obj props) => <[l := Obj (JsMap.set k v props)]> h
  | _ => h
  end.

(** [a[i] = v]; writing past the end extends the array with holes. *)
Definition setIndex (l : loc) (i : nat) (v : value) (h : heap) : heap :=
  match h !! l with
  | Some (Arr elems) =>
      if decide (i < length elems)
      then <[l := Arr (<[i := v]> elems)]> h
      else <[l := Arr (elems ++ replicate (i - length elems) Undefined ++ [v])]> h
  | _ => h
  end.

Lemma alloc_fresh o (h : heap) : h !! (alloc o h).2 = None.
Proof. unfold alloc; simpl. apply not_elem_of_dom, is_fresh. Qed.

Lemma alloc_lookup_new o (h : heap) : (alloc o h).1 !! (alloc o h).2 = Some o.
Proof. unfold alloc; simpl. apply lookup_insert_eq. Qed.

Lemma alloc_lookup_old o (h : heap) l :
  is_Some (h !! l) -> (alloc o h).1 !! l = h !! l.
Proof.
  intros Hl. unfold alloc; simpl. apply lookup_insert_ne.
  intros <-. pose proof (alloc_fresh o h) as Hf. unfold alloc in Hf; simpl in Hf.
  rewrite Hf in Hl. destruct Hl; discriminate.
Qed.

End Js.

(** ** Geometry descriptions (UnifiedRobotModel.ts, [class GeometryType]) *)

Module GeometryType.
Import Js.

Record t : Type := mk {
  type : string;
  size : value;                 (* size: any *)
  filename : option string;
  meshScale : option loc;       (* number[] | null *)
  fromto : value;               (* fromto: any *)
  inlineVertices : option bool;
  inlineScale : option loc      (* number[] | null *)
}.

(** [new GeometryType(type)] *)
Definition new (ty : string) : t := mk ty Null None None Null None None.

(** [a ? [...a] : null] for a field typed [number[] | null]; spreading
    something that is not an array raises. *)
Definition cloneArray (h : heap) (a : option loc) : result (heap * option loc) :=
  match a with
  | None => Ok (h, None)
  | Some l =>
      match h !! l with
      | Some (Arr elems) => let '(h', l') := alloc (Arr elems) h in Ok (h', Some l')
      | _ => Throw "TypeError: object is not iterable"
      end
  end.

(** [this.size ? { ...this.size } : null] *)
Definition cloneSize (h : heap) (s : value) : heap * value :=
  if truthy s
  then let '(h', l') := alloc (Obj (spreadProps h s)) h in (h', Ref l')
  else (h, Null).

(** [clone()] *)
Definition clone (h : heap) (this : t) : result (heap * t) :=
  let '(h1, size') := cloneSize h (size this) in
  match cloneArray h1 (meshScale this) with
  | Throw e => Throw e
  | Ok (h2, meshScale') =>
      match cloneArray h2 (inlineScale this) with
      | Throw e => Throw e
      | Ok (h3, inlineScale') =>
          Ok (h3, mk (type this) size' (filename this) meshScale'
                     (fromto this) (inlineVertices this) inlineScale')
      end
  end.

(** The fields point where their declared types say. *)
Definition isArray (h : heap) (a : option loc) : Prop :=
  match a with
  | None => True
  | Some l => exists elems, h !! l = Some (Arr elems)
  end.

Definition isRecordOrNull (h : heap) (v : value) : Prop :=
  match v with
  | Null => True
  | Ref l => exists props, h !! l = Some (Obj props)
  | _ => False
  end.

Definition wellTyped (h : heap) (g : t) : Prop :=
  isRecordOrNull h (size g) /\ isArray h (meshScale g) /\ isArray h (inlineScale g).

End GeometryType.

(** ** XML documents as the DOM presents them *)

Module Dom.

#[warnings="-register-all"]
Inductive node : Type :=
| Element (tagName : string) (attributes : JsMap.t string) (childNodes : list node)
| Text (data : string)
| Comment (data : string).

(** Induction over a tree whose elements carry a list of children. *)
Section NodeInd.
Variable P : node -> Prop.
Hypothesis HElement : forall t a cs, Forall P cs -> P (Element t a cs).
Hypothesis HText : forall d, P (Text d).
Hypothesis HComment : forall d, P (Comment d).

Fixpoint node_rect' (n : node) : P n :=
  match n with
  | Element t a cs =>
      HElement t a cs
        ((fix children (l : list node) : Forall P l :=
            match l with
            | [] => @List.Forall_nil _ P
            | c :: r => @List.Forall_cons _ P c r (node_rect' c) (children r)
            end) cs)
  | Text d => HText d
  | Comment d => HComment d
  end.
End NodeInd.

(** [e.getAttribute(name)] *)
Definition getAttribute (name : string) (n : node) : option string :=
  match n with
  | Element _ attrs _ => JsMap.get name attrs
  | _ => None
  end.

(** [e.setAttribute(name, value)] *)
Definition setAttribute (name value : string) (n : node) : node :=
  match n with
  | Element t attrs cs => Element t (JsMap.set name value attrs) cs
  | _ => n
  end.

(** [doc.createElement(tag)] *)
Definition createElement (tag : string) : node := Element tag [] [].

Definition childNodesOf (n : node) : list node :=
  match n with
  | Element _ _ cs => cs
  | _ => []
  end.

(** The two selector shapes the loader uses: [tag] and [tag[attr="value"]]. *)
Record selector : Type := mkSelector {
  selTag : string;
  selAttr : option (string * string)
}.

Definition matches (sel : selector) (n : node) : bool :=
  match n with
  | Element t attrs _ =>
      String.eqb t (selTag sel) &&
      match selAttr sel with
      | None => true
      | Some (a, v) =>
          match JsMap.get a attrs with
          | Some v' => String.eqb v' v
          | None => false
          end
      end
  | _ => false
  end.

(** The first node in document order, among [n] and its descendants,
    that satisfies [p]. *)
Fixpoint findFirst (p : node -> bool) (n : node) : option node :=
  if p n then Some n
  else match n with
       | Element _ _ cs =>
           (fix inChildren (l : list node) : option node :=
              match l with
              | [] => None
              | c :: r =>
                  match findFirst p c with
                  | Some x => Some x
                  | None => inChildren r
                  end
              end) cs
       | _ => None
       end.

Fixpoint findFirstIn (p : node -> bool) (l : list node) : option node :=
  match l with
  | [] => None
  | c :: r =>
      match findFirst p c with
      | Some x => Some x
      | None => findFirstIn p r
      end
  end.

(** [document.querySelector(sel)]: the root element is a candidate. *)
Definition querySelectorDoc (sel : selector) (doc : node) : option node :=
  findFirst (matches sel) doc.

(** [element.querySelector(sel)]: descendants only. *)
Definition querySelector (sel : selector) (e : node) : option node :=
  findFirstIn (matches sel) (childNodesOf e).

(** The document after an in-place change [f] of the first node, in
    document order, that satisfies [p]; [None] when there is none. *)
Fixpoint updateFirst (p : node -> bool) (f : node -> node) (n : node) : option node :=
  if p n then Some (f n)
  else match n with
       | Element t a cs =>
           option_map (Element t a)
             ((fix inChildren (l : list node) : option (list node) :=
                 match l with
                 | [] => None
                 | c :: r =>
                     match updateFirst p f c with
                     | Some c' => Some (c' :: r)
                     | None => option_map (cons c) (inChildren r)
                     end
                 end) cs)
       | _ => None
       end.

Fixpoint updateFirstIn (p : node -> bool) (f : node -> node) (l : list node)
    : option (list node) :=
  match l with
  | [] => None
  | c :: r =>
      match updateFirst p f c with
      | Some c' => Some (c' :: r)
      | None => option_map (cons c) (updateFirstIn p f r)
      end
  end.

(** [parent.insertBefore(newChild, parent.firstChild)] and
    [parent.appendChild(newChild)] *)
Definition insertBeforeFirst (newChild : node) (parent : node) : node :=
  match parent with
  | Element t a cs => Element t a (newChild :: cs)
  | _ => parent
  end.

Definition appendChild (newChild : node) (parent : node) : node :=
  match parent with
  | Element t a cs => Element t a (cs ++ [newChild])
  | _ => parent
  end.

(** Number of elements named [tag] among [n] and its descendants. *)
Fixpoint countTag (tag : string) (n : node) : nat :=
  match n with
  | Element t _ cs =>
      (if String.eqb t tag then 1 else 0) +
      (fix inChildren (l : list node) : nat :=
         match l with
         | [] => 0
         | c :: r => countTag tag c + inChildren r
         end) cs
  | _ => 0
  end.

Fixpoint countTagIn (tag : string) (l : list node) : nat :=
  match l with
  | [] => 0
  | c :: r => countTag tag c + countTagIn tag r
  end.

Lemma findFirst_Element p t a cs :
  findFirst p (Element t a cs) =
  if p (Element t a cs) then Some (Element t a cs) else findFirstIn p cs.
Proof.
  simpl. destruct (p _); [reflexivity|].
  induction cs as [|c r IH]; simpl; [reflexivity|].
  destruct (findFirst p c); [reflexivity | exact IH].
Qed.

Lemma updateFirst_Element p f t a cs :
  updateFirst p f (Element t a cs) =
  if p (Element t a cs) then Some (f (Element t a cs))
  else option_map (Element t a) (updateFirstIn p f cs).
Proof.
  simpl. destruct (p _); [reflexivity|]. f_equal.
  induction cs; simpl; [reflexivity|]. now rewrite IHcs.
Qed.

Lemma countTag_Element tag t a cs :
  countTag tag (Element t a cs) =
  (if String.eqb t tag then 1 else 0) + countTagIn tag cs.
Proof.
  simpl. f_equal. induction cs as [|c r IH]; simpl; [reflexivity|].
  now rewrite IH.
Qed.

End Dom.

(** ** The physics engine's in-memory file system *)

Module FS.

(** A node of the tree: a file with its content or a directory with its
    entries.  A path is the list of names from the root. *)
#[warnings="-register-all"]
Inductive entry : Type :=
| File (content : string)
| Dir (entries : list (string * entry)).

Definition path : Type := list string.

Fixpoint removeKey (n : string) (es : list (string * entry)) : list (string * entry) :=
  match es with
  | [] => []
  | (k, e) :: es' => if String.eqb k n then es' else (k, e) :: removeKey n es'
  end.

Fixpoint alterKey (n : string) (f : entry -> entry) (es : list (string * entry))
    : list (string * entry) :=
  match es with
  | [] => []
  | (k, e) :: es' => if String.eqb k n then (k, f e) :: es' else (k, e) :: alterKey n f es'
  end.

(** The node a path leads to. *)
Fixpoint lookup (p : path) (e : entry) : option entry :=
  match p with
  | [] => Some e
  | n :: rest =>
      match e with
      | Dir es =>
          match JsMap.get n es with
          | Some c => lookup rest c
          | None => None
          end
      | File _ => None
      end
  end.

(** The tree with the node at [p] replaced by its image under [f]. *)
Fixpoint alterAt (f : entry -> entry) (p : path) (e : entry) : entry :=
  match p with
  | [] => f e
  | n :: rest =>
      match e with
      | Dir es => Dir (alterKey n (alterAt f rest) es)
      | File c => File c
      end
  end.

(** Dropping the entry called [n] from a directory node. *)
Definition dropEntry (n : string) (e : entry) : entry :=
  match e with
  | Dir es => Dir (removeKey n es)
  | File c => File c
  end.

(** The tree without the node at [p]; the root cannot be removed. *)
Definition removeAt (p : path) (e : entry) : entry :=
  match p with
  | [] => e
  | _ => alterAt (dropEntry (List.last p "")) (removelast p) e
  end.

(** [FS.readdir(p)] *)
Definition readdir (p : path) (fs : entry) : result (list string) :=
  match lookup p fs with
  | Some (Dir es) => Ok ("." :: ".." :: map fst es)
  | Some (File _) => Throw "ENOTDIR"
  | None => Throw "ENOENT"
  end.

(** [FS.stat(p)]; [FS.isDir(stat.mode)] is [isDir] of the node. *)
Definition stat (p : path) (fs : entry) : result entry :=
  match lookup p fs with
  | Some e => Ok e
  | None => Throw "ENOENT"
  end.

Definition isDir (e : entry) : bool :=
  match e with Dir _ => true | File _ => false end.

(** [FS.unlink(p)] *)
Definition unlink (p : path) (fs : entry) : result entry :=
  match p, lookup p fs with
  | _ :: _, Some (File _) => Ok (removeAt p fs)
  | _, Some (Dir _) => Throw "EISDIR"
  | _, _ => Throw "ENOENT"
  end.

(** [FS.rmdir(p)] *)
Definition rmdir (p : path) (fs : entry) : result entry :=
  match p, lookup p fs with
  | _ :: _, Some (Dir []) => Ok (removeAt p fs)
  | _, Some (Dir _) => Throw "ENOTEMPTY"
  | _, Some (File _) => Throw "ENOTDIR"
  | _, None => Throw "ENOENT"
  end.

(** Height of a tree: the number of nested directories. *)
Fixpoint depth (e : entry) : nat :=
  match e with
  | File _ => 0
  | Dir es =>
      S ((fix inEntries (l : list (string * entry)) : nat :=
            match l with
            | [] => 0
            | (_, c) :: r => Nat.max (depth c) (inEntries r)
            end) es)
  end.

Fixpoint depthIn (l : list (string * entry)) : nat :=
  match l with
  | [] => 0
  | (_, c) :: r => Nat.max (depth c) (depthIn r)
  end.

(** No entry is called [.] or [..]: these two names are reserved. *)
Definition validName (n : string) : bool :=
  negb (String.eqb n ".") && negb (String.eqb n "..").

Fixpoint validNames (e : entry) : bool :=
  match e with
  | File _ => true
  | Dir es =>
      (fix inEntries (l : list (string * entry)) : bool :=
         match l with
         | [] => true
         | (n, c) :: r => validName n && validNames c && inEntries r
         end) es
  end.

Fixpoint validNamesIn (l : list (string * entry)) : bool :=
  match l with
  | [] => true
  | (n, c) :: r => validName n && validNames c && validNamesIn r
  end.

Lemma depth_Dir es : depth (Dir es) = S (depthIn es).
Proof. reflexivity. Qed.

Lemma validNames_Dir es : validNames (Dir es) = validNamesIn es.
Proof. reflexivity. Qed.

(** *** Algebra of [lookup] and [alterAt] *)

Lemma get_alterKey n f es :
  JsMap.get n (alterKey n f es) = option_map f (JsMap.get n es).
Proof.
  induction es as [|[k e] r IH]; simpl; [reflexivity|].
  destruct (String.eqb k n) eqn:E; simpl; rewrite E; auto.
Qed.

Lemma alterKey_alterKey n f g es :
  alterKey n g (alterKey n f es) = alterKey n (fun e => g (f e)) es.
Proof.
  induction es as [|[k e] r IH]; simpl; [reflexivity|].
  destruct (String.eqb k n) eqn:E; simpl; rewrite E; [reflexivity|].
  now rewrite IH.
Qed.

Lemma alterKey_ext_at n f g es c :
  JsMap.get n es = Some c -> f c = g c -> alterKey n f es = alterKey n g es.
Proof.
  induction es as [|[k e] r IH]; simpl; [discriminate|].
  destruct (String.eqb k n) eqn:E.
  - intros [= ->] ->. reflexivity.
  - intros H1 H2. now rewrite IH.
Qed.

Lemma alterKey_absent n f es : JsMap.get n es = None -> alterKey n f es = es.
Proof.
  induction es as [|[k e] r IH]; simpl; [reflexivity|].
  destruct (String.eqb k n) eqn:E; [discriminate|].
  intros H. now rewrite IH.
Qed.

Lemma removeKey_alterKey n f es : removeKey n (alterKey n f es) = removeKey n es.
Proof.
  induction es as [|[k e] r IH]; simpl; [reflexivity|].
  destruct (String.eqb k n) eqn:E; simpl; rewrite E; [reflexivity|].
  now rewrite IH.
Qed.

Lemma lookup_app p q fs :
  lookup (p ++ q) fs =
  match lookup p fs with Some e => lookup q e | None => None end.
Proof.
  revert fs. induction p as [|n p IH]; intros fs; simpl; [reflexivity|].
  destruct fs as [c|es]; [reflexivity|].
  destruct (JsMap.get n es); [apply IH | reflexivity].
Qed.

Lemma lookup_alterAt f p fs :
  lookup p (alterAt f p fs) = option_map f (lookup p fs).
Proof.
  revert fs. induction p as [|n p IH]; intros fs; simpl; [reflexivity|].
  destruct fs as [c|es]; simpl; [reflexivity|].
  rewrite get_alterKey. destruct (JsMap.get n es); simpl; [apply IH | reflexivity].
Qed.

Lemma alterAt_alterAt f g p fs :
  alterAt g p (alterAt f p fs) = alterAt (fun e => g (f e)) p fs.
Proof.
  revert fs. induction p as [|n p IH]; intros fs; simpl; [reflexivity|].
  destruct fs as [c|es]; simpl; [reflexivity|].
  rewrite alterKey_alterKey. f_equal.
  destruct (JsMap.get n es) as [c|] eqn:E.
  - apply (alterKey_ext_at n _ _ es c E). apply IH.
  - now rewrite !alterKey_absent.
Qed.

Lemma alterAt_ext_at f g p fs d :
  lookup p fs = Some d -> f d = g d -> alterAt f p fs = alterAt g p fs.
Proof.
  revert fs. induction p as [|n p IH]; intros fs; simpl.
  - intros [= ->]. auto.
  - destruct fs as [c|es]; [discriminate|].
    destruct (JsMap.get n es) as [c|] eqn:E; [|discriminate].
    intros Hl Hfg. f_equal. apply (alterKey_ext_at n _ _ es c E). now apply IH.
Qed.

Lemma alterAt_id_at f p fs d :
  lookup p fs = Some d -> f d = d -> alterAt f p fs = fs.
Proof.
  revert fs. induction p as [|n p IH]; intros fs; simpl.
  - intros [= ->]. auto.
  - destruct fs as [c|es]; [discriminate|].
    destruct (JsMap.get n es) as [c|] eqn:E; [|discriminate].
    intros Hl Hfd. f_equal.
    rewrite (alterKey_ext_at n _ (fun e => e) es c E) by now apply IH.
    clear. induction es as [|[k e] r IH]; simpl; [reflexivity|].
    destruct (String.eqb k n); [reflexivity | now rewrite IH].
Qed.

(** Removing an entry makes no difference between the tree and the tree
    with that entry changed beforehand. *)
Lemma dropEntry_after_alter n g q fs :
  alterAt (dropEntry n) q (alterAt g (q ++ [n]) fs) = alterAt (dropEntry n) q fs.
Proof.
  revert fs. induction q as [|m q IH]; intros fs; simpl.
  - destruct fs as [c|es]; simpl; [reflexivity|]. now rewrite removeKey_alterKey.
  - destruct fs as [c|es]; simpl; [reflexivity|]. f_equal.
    rewrite alterKey_alterKey.
    destruct (JsMap.get m es) as [c|] eqn:E.
    + apply (alterKey_ext_at m _ _ es c E). apply IH.
    + now rewrite !alterKey_absent.
Qed.

Lemma removeAt_snoc q n fs : removeAt (q ++ [n]) fs = alterAt (dropEntry n) q fs.
Proof.
  unfold removeAt. destruct (q ++ [n]) eqn:E.
  - destruct q; discriminate.
  - rewrite <- E. now rewrite last_last, removelast_last.
Qed.

End FS.

(** ** JavaScript numbers *)

Module Number.

(** [Number.isFinite(x)]: neither an infinity nor [NaN]. *)
Definition isFinite (x : float) : bool :=
  match Prim2SF x with
  | S754_zero _ | S754_finite _ _ _ => true
  | _ => false
  end.

(** A finite double as a whole number of units of [2^-1074], the smallest
    positive double. *)
Definition ulps (x : float) : Z :=
  match Prim2SF x with
  | S754_finite s m e => (if s then -1 else 1) * (Z.pos m * 2 ^ (e + 1074))
  | _ => 0
  end.

Definition scale : positive := 2 ^ 1074.

(** The rational number a finite double stands for. *)
Definition toQ (x : float) : Q := ulps x # scale.

End Number.

(** ** The render library's vectors and scene objects *)

Module Vector3.
Record t : Type := mk { x : float; y : float; z : float }.

(** [v.sub(w)] and [v.multiplyScalar(s)], read as values. *)
Definition sub (v w : t) : t :=
  mk (x v - x w)%float (y v - y w)%float (z v - z w)%float.
Definition multiplyScalar (v : t) (s : float) : t :=
  mk (x v * s)%float (y v * s)%float (z v * s)%float.
End Vector3.

Module Quaternion.
Record t : Type := mk { x : float; y : float; z : float; w : float }.
End Quaternion.

Module Object3D.
Record t : Type := mk {
  visible : bool;
  parent : option loc;
  position : Vector3.t;
  quaternion : Quaternion.t
}.

(** [new THREE.Group()]: visible, detached, at the origin. *)
Definition new : t :=
  mk true None (Vector3.mk 0 0 0) (Quaternion.mk 0 0 0 1).

Definition setVisible (b : bool) (o : t) : t :=
  mk b (parent o) (position o) (quaternion o).
Definition setParent (p : option loc) (o : t) : t :=
  mk (visible o) p (position o) (quaternion o).
Definition setPose (pos : Vector3.t) (q : Quaternion.t) (o : t) : t :=
  mk (visible o) (parent o) pos q.
End Object3D.

(** ** Coordinate conversion between the engine and the render library
       (MujocoSimulationManager.js) *)

Module Swizzle.

(** [buffer[i]] on a typed array.  A read past the end gives [undefined],
    which arithmetic turns into NaN. *)
Definition read (buffer : list float) (i : nat) : float :=
  default PrimFloat.nan (buffer !! i).

(** [getPosition(buffer, index, target, swizzle)]: the value [target] is
    set to. *)
Definition getPosition (buffer : list float) (index : nat) (swizzle : bool)
    : Vector3.t :=
  if swizzle then
    Vector3.mk (read buffer (index * 3 + 0))
               (read buffer (index * 3 + 2))
               (- read buffer (index * 3 + 1))%float
  else
    Vector3.mk (read buffer (index * 3 + 0))
               (read buffer (index * 3 + 1))
               (read buffer (index * 3 + 2)).

(** [getQuaternion(buffer, index, target, swizzle)] *)
Definition getQuaternion (buffer : list float) (index : nat) (swizzle : bool)
    : Quaternion.t :=
  if swizzle then
    Quaternion.mk (- read buffer (index * 4 + 1))%float
                  (- read buffer (index * 4 + 3))%float
                  (read buffer (index * 4 + 2))
                  (- read buffer (index * 4 + 0))%float
  else
    Quaternion.mk (read buffer (index * 4 + 1))
                  (read buffer (index * 4 + 2))
                  (read buffer (index * 4 + 3))
                  (read buffer (index * 4 + 0)).

(** [toMujocoPos(target)]: [target.set(target.x, -target.z, target.y)] *)
Definition toMujocoPos (target : Vector3.t) : Vector3.t :=
  Vector3.mk (Vector3.x target) (- Vector3.z target)%float (Vector3.y target).

(** Negation of a double is an involution: it flips the sign bit. *)
Lemma opp_involutive (a : float) : (- (- a))%float = a.
Proof.
  apply Prim2SF_inj. rewrite !opp_spec.
  destruct (Prim2SF a) as [ [|] | [|] | | [|] m e ]; reflexivity.
Qed.

End Swizzle.

(** ** The physics bridge: state (MujocoSimulationManager.js) *)

Module MujocoSimulationManager.

(** Which loading entry points the engine module offers:
    [Model.load_from_xml] (with [State] and [Simulation]),
    [MjModel.loadFromXML] (with [MjData]), or neither. *)
Inductive Api : Type := SimulationApi | MjDataApi | NoApi.

(** The engine module: its API and its file system. *)
Record Mujoco : Type := mkMujoco { api : Api; FS : FS.entry }.

(** The compiled model: its native handle and the fields the bridge reads. *)
Record MjModel : Type := mkMjModel {
  model_handle : loc;
  timestep : float;
  nbody : nat;
  body_mass : list float
}.

(** The typed-array views of the engine state that the bridge touches. *)
Record EngineState : Type := mkEngineState {
  qfrc_applied : list float;
  xpos : list float;
  xquat : list float
}.

(** [MjData] and [Simulation]: a native handle and the arrays behind it. *)
Record MjData : Type := mkMjData {
  data_handle : loc;
  data_arrays : EngineState
}.

Record Simulation : Type := mkSimulation {
  sim_handle : loc;
  sim_arrays : EngineState
}.

(** The interactive drag controller of the physics view. *)
Record DragStateManager : Type := mkDragStateManager {
  drag_enabled : bool;
  active : bool;
  physicsObject : option nat;        (* the dragged body's [bodyID] *)
  currentWorld : Vector3.t;
  worldHit : Vector3.t;
  arrow : option loc
}.

Definition set_drag_enabled (b : bool) (d : DragStateManager) : DragStateManager :=
  mkDragStateManager b (active d) (physicsObject d) (currentWorld d) (worldHit d) (arrow d).

(** The static model's own drag controls and highlighter. *)
Record DragControls : Type := mkDragControls { enabled : bool }.
Record HighlightManager : Type := mkHighlightManager { highlighted : bool }.

Record SceneManager : Type := mkSceneManager {
  scene : loc;
  currentModel : option UnifiedRobotModel.t;
  dragControls : option DragControls;
  highlightManager : option HighlightManager;
  groundPlane : option Vector3.t
}.

Definition scene_set_scene (v : loc) (r : SceneManager) : SceneManager :=
  mkSceneManager v (currentModel r) (dragControls r) (highlightManager r) (groundPlane r).
Definition scene_set_currentModel (v : option UnifiedRobotModel.t) (r : SceneManager) : SceneManager :=
  mkSceneManager (scene r) v (dragControls r) (highlightManager r) (groundPlane r).
Definition scene_set_dragControls (v : option DragControls) (r : SceneManager) : SceneManager :=
  mkSceneManager (scene r) (currentModel r) v (highlightManager r) (groundPlane r).
Definition scene_set_highlightManager (v : option HighlightManager) (r : SceneManager) : SceneManager :=
  mkSceneManager (scene r) (currentModel r) (dragControls r) v (groundPlane r).
Definition scene_set_groundPlane (v : option Vector3.t) (r : SceneManager) : SceneManager :=
  mkSceneManager (scene r) (currentModel r) (dragControls r) (highlightManager r) v.

Record Manager : Type := mkManager {
  mujoco : option Mujoco;
  model : option MjModel;
  simulation : option Simulation;
  state : option loc;
  data : option MjData;
  bodies : gmap nat loc;
  lights : list loc;
  mujocoRoot : option loc;
  dragStateManager : option DragStateManager;
  originalModel : option UnifiedRobotModel.t;
  paused : bool;
  mujoco_time : float;
  isLoaded : bool;
  isSimulating : bool;
  isOldAPI : bool
}.

Definition set_mujoco (v : option Mujoco) (r : Manager) : Manager :=
  mkManager v (model r) (simulation r) (state r) (data r) (bodies r) (lights r) (mujocoRoot r) (dragStateManager r) (originalModel r) (paused r) (mujoco_time r) (isLoaded r) (isSimulating r) (isOldAPI r).
Definition set_model (v : option MjModel) (r : Manager) : Manager :=
  mkManager (mujoco r) v (simulation r) (state r) (data r) (bodies r) (lights r) (mujocoRoot r) (dragStateManager r) (originalModel r) (paused r) (mujoco_time r) (isLoaded r) (isSimulating r) (isOldAPI r).
Definition set_simulation (v : option Simulation) (r : Manager) : Manager :=
  mkManager (mujoco r) (model r) v (state r) (data r) (bodies r) (lights r) (mujocoRoot r) (dragStateManager r) (originalModel r) (paused r) (mujoco_time r) (isLoaded r) (isSimulating r) (isOldAPI r).
Definition set_state (v : option loc) (r : Manager) : Manager :=
  mkManager (mujoco r) (model r) (simulation r) v (data r) (bodies r) (lights r) (mujocoRoot r) (dragStateManager r) (originalModel r) (paused r) (mujoco_time r) (isLoaded r) (isSimulating r) (isOldAPI r).
Definition set_data (v : option MjData) (r : Manager) : Manager :=
  mkManager (mujoco r) (model r) (simulation r) (state r) v (bodies r) (lights r) (mujocoRoot r) (dragStateManager r) (originalModel r) (paused r) (mujoco_time r) (isLoaded r) (isSimulating r) (isOldAPI r).
Definition set_bodies (v : gmap nat loc) (r : Manager) : Manager :=
  mkManager (mujoco r) (model r) (simulation r) (state r) (data r) v (lights r) (mujocoRoot r) (dragStateManager r) (originalModel r) (paused r) (mujoco_time r) (isLoaded r) (isSimulating r) (isOldAPI r).
Definition set_lights (v : list loc) (r : Manager) : Manager :=
  mkManager (mujoco r) (model r) (simulation r) (state r) (data r) (bodies r) v (mujocoRoot r) (dragStateManager r) (originalModel r) (paused r) (mujoco_time r) (isLoaded r) (isSimulating r) (isOldAPI r).
Definition set_mujocoRoot (v : option loc) (r : Manager) : Manager :=
  mkManager (mujoco r) (model r) (simulation r) (state r) (data r) (bodies r) (lights r) v (dragStateManager r) (originalModel r) (paused r) (mujoco_time r) (isLoaded r) (isSimulating r) (isOldAPI r).
Definition set_dragStateManager (v : option DragStateManager) (r : Manager) : Manager :=
  mkManager (mujoco r) (model r) (simulation r) (state r) (data r) (bodies r) (lights r) (mujocoRoot r) v (originalModel r) (paused r) (mujoco_time r) (isLoaded r) (isSimulating r) (isOldAPI r).
Definition set_originalModel (v : option UnifiedRobotModel.t) (r : Manager) : Manager :=
  mkManager (mujoco r) (model r) (simulation r) (state r) (data r) (bodies r) (lights r) (mujocoRoot r) (dragStateManager r) v (paused r) (mujoco_time r) (isLoaded r) (isSimulating r) (isOldAPI r).
Definition set_paused (v : bool) (r : Manager) : Manager :=
  mkManager (mujoco r) (model r) (simulation r) (state r) (data r) (bodies r) (lights r) (mujocoRoot r) (dragStateManager r) (originalModel r) v (mujoco_time r) (isLoaded r) (isSimulating r) (isOldAPI r).
Definition set_mujoco_time (v : float) (r : Manager) : Manager :=
  mkManager (mujoco r) (model r) (simulation r) (state r) (data r) (bodies r) (lights r) (mujocoRoot r) (dragStateManager r) (originalModel r) (paused r) v (isLoaded r) (isSimulating r) (isOldAPI r).
Definition set_isLoaded (v : bool) (r : Manager) : Manager :=
  mkManager (mujoco r) (model r) (simulation r) (state r) (data r) (bodies r) (lights r) (mujocoRoot r) (dragStateManager r) (originalModel r) (paused r) (mujoco_time r) v (isSimulating r) (isOldAPI r).
Definition set_isSimulating (v : bool) (r : Manager) : Manager :=
  mkManager (mujoco r) (model r) (simulation r) (state r) (data r) (bodies r) (lights r) (mujocoRoot r) (dragStateManager r) (originalModel r) (paused r) (mujoco_time r) (isLoaded r) v (isOldAPI r).
Definition set_isOldAPI (v : bool) (r : Manager) : Manager :=
  mkManager (mujoco r) (model r) (simulation r) (state r) (data r) (bodies r) (lights r) (mujocoRoot r) (dragStateManager r) (originalModel r) (paused r) (mujoco_time r) (isLoaded r) (isSimulating r) v.

(** The manager together with the objects it shares with the rest of
    the page: the scene manager, the scene graph and the engine's native
    objects that have not been released. *)
Record World : Type := mkWorld {
  manager : Manager;
  sceneManager : SceneManager;
  objects : gmap loc Object3D.t;
  live : gset loc
}.

Definition world_set_manager (v : Manager) (r : World) : World :=
  mkWorld v (sceneManager r) (objects r) (live r).
Definition world_set_sceneManager (v : SceneManager) (r : World) : World :=
  mkWorld (manager r) v (objects r) (live r).
Definition world_set_objects (v : gmap loc Object3D.t) (r : World) : World :=
  mkWorld (manager r) (sceneManager r) v (live r).
Definition world_set_live (v : gset loc) (r : World) : World :=
  mkWorld (manager r) (sceneManager r) (objects r) v.

(** [new MujocoSimulationManager(sceneManager)] *)
Definition newManager : Manager :=
  mkManager None None None None None ∅ [] None None None true 0 false false false.

(** Field updates of the manager inside a world. *)
Definition upd (f : Manager -> Manager) (w : World) : World :=
  world_set_manager (f (manager w)) w.

(** Updates of one scene object. *)
Definition updObject (l : loc) (f : Object3D.t -> Object3D.t) (w : World) : World :=
  world_set_objects (alter f l (objects w)) w.

Definition isVisible (w : World) (l : loc) : bool :=
  match objects w !! l with
  | Some o => Object3D.visible o
  | None => false
  end.

(** What a call leaves behind: it returns or it throws, and in both cases
    the world is as the call left it; or it never comes back. *)
Inductive outcome (A : Type) : Type :=
| Return (a : A) (w : World)
| Raise (msg : string) (w : World)
| Diverge.
Arguments Return {A} a w.
Arguments Raise {A} msg w.
Arguments Diverge {A}.

Definition bind {A B} (c : outcome A) (k : A -> World -> outcome B) : outcome B :=
  match c with
  | Return a w => k a w
  | Raise msg w => Raise msg w
  | Diverge => Diverge
  end.

(** A statement that cannot throw. *)
Definition run (f : World -> World) : World -> outcome unit :=
  fun w => Return tt (f w).

(** [try { c } catch (e) { }] *)
Definition ignoreErrors (c : outcome unit) : outcome unit :=
  match c with
  | Raise _ w => Return tt w
  | _ => c
  end.

Definition worldOf {A} (c : outcome A) : option World :=
  match c with
  | Return _ w => Some w
  | Raise _ w => Some w
  | Diverge => None
  end.

Definition returned {A} (c : outcome A) : option World :=
  match c with
  | Return _ w => Some w
  | _ => None
  end.

(** *** Unload: [clearScene] and [removeDirectory] *)

(** [handle.delete()] / [handle.free()]: releasing a native object that
    was already released raises a binding error. *)
Definition release (h : loc) : World -> outcome unit :=
  fun w =>
    if decide (h ∈ live w)
    then Return tt (world_set_live (live w ∖ {[h]}) w)
    else Raise "BindingError: object already deleted" w.

Definition releaseEngine : World -> outcome unit :=
  fun w =>
    if isOldAPI (manager w) then
      bind (match data (manager w) with
            | Some d => bind (release (data_handle d) w)
                          (fun _ => run (upd (set_data None)))
            | None => Return tt w
            end)
        (fun _ w1 =>
           match model (manager w1) with
           | Some m => bind (release (model_handle m) w1)
                         (fun _ => run (upd (set_model None)))
           | None => Return tt w1
           end)
    else
      bind (match simulation (manager w) with
            | Some s => bind (release (sim_handle s) w)
                          (fun _ => run (upd (set_simulation None)))
            | None => Return tt w
            end)
        (fun _ => run (fun w1 => upd (set_model None) (upd (set_state None) w1))).

(** The body both deletion loops share: [stat] the path, then either
    recurse into the directory or [unlink] the file.  The flag tells
    whether the body completed ([true]) or threw ([false]); [None] means
    the recursive call never returned. *)
Definition removeEntryAt (rec : FS.path -> FS.entry -> option FS.entry)
    (fullPath : FS.path) (fs : FS.entry) : option (bool * FS.entry) :=
  match FS.stat fullPath fs with
  | Throw _ => Some (false, fs)
  | Ok st =>
      if FS.isDir st then
        match rec fullPath fs with
        | Some fs' => Some (true, fs')
        | None => None
        end
      else
        match FS.unlink fullPath fs with
        | Ok fs' => Some (true, fs')
        | Throw _ => Some (false, fs)
        end
  end.

Definition isDotEntry (file : string) : bool :=
  String.eqb file "." || String.eqb file "..".

(** The loop of [removeDirectory]: the first exception leaves it. *)
Fixpoint removeEach (rec : FS.path -> FS.entry -> option FS.entry)
    (path : FS.path) (files : list string) (fs : FS.entry)
    : option (bool * FS.entry) :=
  match files with
  | [] => Some (true, fs)
  | file :: rest =>
      if isDotEntry file then removeEach rec path rest fs
      else
        match removeEntryAt rec (path ++ [file]) fs with
        | Some (true, fs') => removeEach rec path rest fs'
        | other => other
        end
  end.

(** [removeDirectory(path)]: the whole body sits in a [try] whose [catch]
    is empty.  The recursion follows the tree that is being deleted; the
    first argument bounds its depth, and [None] is returned when the bound
    is hit. *)
Fixpoint removeDirectory (bound : nat) (path : FS.path) (fs : FS.entry)
    : option FS.entry :=
  match bound with
  | O => None
  | S bound' =>
      match FS.readdir path fs with
      | Throw _ => Some fs
      | Ok files =>
          match removeEach (removeDirectory bound') path files fs with
          | None => None
          | Some (false, fs') => Some fs'
          | Some (true, fs') =>
              match FS.rmdir path fs' with
              | Ok fs'' => Some fs''
              | Throw _ => Some fs'
              end
          end
      end
  end.

(** The loop of [clearScene] over [/working]: each file has its own
    [try]/[catch], so an exception moves on to the next file. *)
Fixpoint clearEach (rec : FS.path -> FS.entry -> option FS.entry)
    (files : list string) (fs : FS.entry) : option FS.entry :=
  match files with
  | [] => Some fs
  | file :: rest =>
      if isDotEntry file then clearEach rec rest fs
      else
        match removeEntryAt rec (["working"] ++ [file]) fs with
        | Some (_, fs') => clearEach rec rest fs'
        | None => None
        end
  end.

Definition clearVFS : World -> outcome unit :=
  fun w =>
    match mujoco (manager w) with
    | None => Return tt w
    | Some mj =>
        match FS.readdir ["working"] (FS mj) with
        | Throw _ => Return tt w
        | Ok files =>
            match clearEach (removeDirectory (FS.depth (FS mj))) files (FS mj) with
            | Some fs' => Return tt (upd (set_mujoco (Some (mkMujoco (api mj) fs'))) w)
            | None => Diverge
            end
        end
    end.

(** [parent.remove(child)] when the child has a parent. *)
Definition detach (l : loc) (w : World) : World :=
  match objects w !! l with
  | Some o =>
      match Object3D.parent o with
      | Some _ => updObject l (Object3D.setParent None) w
      | None => w
      end
  | None => w
  end.

Definition clearThree (w : World) : World :=
  match mujocoRoot (manager w) with
  | Some root => upd (set_mujocoRoot None) (detach root w)
  | None => w
  end.

Definition clearDrag (w : World) : World :=
  match dragStateManager (manager w) with
  | Some dsm =>
      let w1 := upd (set_dragStateManager (Some (set_drag_enabled false dsm))) w in
      let w2 := match arrow dsm with
                | Some a => detach a w1
                | None => w1
                end in
      upd (set_dragStateManager None) w2
  | None => w
  end.

Definition clearFlags (w : World) : World :=
  upd (fun m =>
         set_paused true (set_isSimulating false (set_isLoaded false
           (set_lights [] (set_bodies ∅ (set_originalModel None m)))))) w.

(** [clearScene()] *)
Definition clearScene : World -> outcome unit :=
  fun w =>
    bind (releaseEngine w) (fun _ w1 =>
    bind (clearVFS w1) (fun _ w2 =>
    Return tt (clearFlags (clearDrag (clearThree w2))))).

(** *** Start, pause, toggle *)

Definition showRoot (w : World) : World :=
  match mujocoRoot (manager w) with
  | Some root =>
      let w1 :=
        match objects w !! root with
        | Some o =>
            match Object3D.parent o with
            | None => updObject root (Object3D.setParent (Some (scene (sceneManager w)))) w
            | Some _ => w
            end
        | None => w
        end in
      updObject root (Object3D.setVisible true) w1
  | None => w
  end.

Definition hideOriginal (w : World) : World :=
  match currentModel (sceneManager w) with
  | Some m =>
      match UnifiedRobotModel.threeObject m with
      | Some o => updObject o (Object3D.setVisible false) w
      | None => w
      end
  | None => w
  end.

Definition setDragEnabled (b : bool) (w : World) : World :=
  match dragStateManager (manager w) with
  | Some dsm => upd (set_dragStateManager (Some (set_drag_enabled b dsm))) w
  | None => w
  end.

Definition setDragControls (b : bool) (w : World) : World :=
  match dragControls (sceneManager w) with
  | Some _ =>
      world_set_sceneManager
        (scene_set_dragControls (Some (mkDragControls b)) (sceneManager w)) w
  | None => w
  end.

Definition clearHighlight (w : World) : World :=
  match highlightManager (sceneManager w) with
  | Some _ =>
      world_set_sceneManager
        (scene_set_highlightManager (Some (mkHighlightManager false)) (sceneManager w)) w
  | None => w
  end.

(** [startSimulation()] *)
Definition startSimulation (w : World) : World :=
  let w0 := upd (fun m => set_isSimulating true (set_paused false m)) w in
  clearHighlight (setDragControls false (setDragEnabled true (hideOriginal (showRoot w0)))).

Definition hideRoot (w : World) : World :=
  match mujocoRoot (manager w) with
  | Some root => updObject root (Object3D.setVisible false) w
  | None => w
  end.

(** [pauseSimulation()] *)
Definition pauseSimulation (w : World) : World :=
  let w0 := upd (fun m => set_isSimulating false (set_paused true m)) w in
  setDragControls true (hideRoot (setDragEnabled false w0)).

(** [toggleSimulation()]: the new world and the returned flag. *)
Definition toggleSimulation (w : World) : bool * World :=
  let w' := if paused (manager w) then startSimulation w else pauseSimulation w in
  (negb (paused (manager w')), w').

Definition hasScene (w : World) : bool := isLoaded (manager w).
Definition isSimulationRunning (w : World) : bool := isSimulating (manager w).

(** *** The per-frame update *)

Section Engine.
(** The engine and the drag controller, as far as [update] and [reset]
    call them.  [mj_applyFT] is called with a zero torque. *)
Variable mj_step : MjModel -> EngineState -> EngineState.
Variable simulation_step : EngineState -> EngineState.
Variable mj_applyFT :
  MjModel -> EngineState -> Vector3.t -> Vector3.t -> nat -> EngineState.
Variable mj_reset : MjModel -> EngineState -> EngineState.
Variable simulation_reset : EngineState -> EngineState.
Variable dragUpdate : gmap loc Object3D.t -> DragStateManager -> DragStateManager.

(** [this.isOldAPI ? this.data : this.simulation], read for its arrays;
    [None] is the [TypeError] of reading a property of [null]. *)
Definition engineArrays (w : World) : option EngineState :=
  if isOldAPI (manager w)
  then option_map data_arrays (data (manager w))
  else option_map sim_arrays (simulation (manager w)).

(** Copy every body's pose from the engine into its render group. *)
Definition syncBody (arr : EngineState) (w : World) (b : nat) : World :=
  match bodies (manager w) !! b with
  | Some bodyGroup =>
      updObject bodyGroup
        (Object3D.setPose (Swizzle.getPosition (xpos arr) b true)
                          (Swizzle.getQuaternion (xquat arr) b true)) w
  | None => w
  end.

Definition syncBodies (m : MjModel) (arr : EngineState) (w : World) : World :=
  fold_left (syncBody arr) (seq 0 (nbody m)) w.

Definition zeroForces (arr : EngineState) : EngineState :=
  mkEngineState (map (fun _ => 0%float) (qfrc_applied arr)) (xpos arr) (xquat arr).

(** "Clear old applied forces": only under the [MjData] API. *)
Definition clearForces : World -> outcome unit :=
  fun w =>
    if isOldAPI (manager w) then
      match data (manager w) with
      | Some d =>
          Return tt (upd (set_data
            (Some (mkMjData (data_handle d) (zeroForces (data_arrays d))))) w)
      | None => Raise "TypeError: this.data is null" w
      end
    else Return tt w.

(** "Apply drag force" *)
Definition applyDrag (m : MjModel) : World -> outcome unit :=
  fun w =>
    match dragStateManager (manager w) with
    | Some dsm =>
        if active dsm then
          match physicsObject dsm with
          | Some bodyID =>
              if negb (bodyID =? 0)%nat then
                match engineArrays w with
                | None => Raise "TypeError: engine state is null" w
                | Some arr =>
                    let w1 := syncBodies m arr w in
                    let dsm' := dragUpdate (objects w1) dsm in
                    let w2 := upd (set_dragStateManager (Some dsm')) w1 in
                    let gain := (Swizzle.read (body_mass m) bodyID * 250)%float in
                    let force := Swizzle.toMujocoPos
                      (Vector3.multiplyScalar
                         (Vector3.sub (currentWorld dsm') (worldHit dsm')) gain) in
                    let point := Swizzle.toMujocoPos (worldHit dsm') in
                    if isOldAPI (manager w2) then
                      match data (manager w2) with
                      | Some d =>
                          Return tt (upd (set_data
                            (Some (mkMjData (data_handle d)
                               (mj_applyFT m (data_arrays d) force point bodyID)))) w2)
                      | None => Raise "TypeError: this.data is null" w2
                      end
                    else Return tt w2
                end
              else Return tt w
          | None => Return tt w
          end
        else Return tt w
    | None => Return tt w
    end.

(** The world as it is handed to the engine's stepper. *)
Definition beforeStep (m : MjModel) : World -> outcome unit :=
  fun w => bind (clearForces w) (fun _ => applyDrag m).

(** [mj_step(model, data)] or [simulation.step()] *)
Definition physicsStep (m : MjModel) : World -> outcome unit :=
  fun w =>
    if isOldAPI (manager w) then
      match data (manager w) with
      | Some d =>
          Return tt (upd (set_data
            (Some (mkMjData (data_handle d) (mj_step m (data_arrays d))))) w)
      | None => Raise "TypeError: this.data is null" w
      end
    else
      match simulation (manager w) with
      | Some s =>
          Return tt (upd (set_simulation
            (Some (mkSimulation (sim_handle s) (simulation_step (sim_arrays s))))) w)
      | None => Raise "TypeError: this.simulation is null" w
      end.

(** [this.mujoco_time += timestep * 1000.0] *)
Definition advanceTime (m : MjModel) (w : World) : World :=
  upd (fun mg => set_mujoco_time (mujoco_time mg + timestep m * 1000)%float mg) w.

(** One turn of the [while] loop. *)
Definition stepOnce (m : MjModel) : World -> outcome unit :=
  fun w =>
    bind (beforeStep m w) (fun _ w1 =>
    bind (physicsStep m w1) (fun _ => run (advanceTime m))).

(** [while (this.mujoco_time < timeMS) { ... }].  The value returned is
    the number of turns taken.  [fuel] bounds the number of turns;
    running out of it is [Diverge]. *)
Fixpoint stepLoop (fuel : nat) (m : MjModel) (timeMS : float) (w : World) : outcome nat :=
  if (mujoco_time (manager w) <? timeMS)%float then
    match fuel with
    | O => Diverge
    | S fuel' =>
        bind (stepOnce m w) (fun _ w1 =>
        bind (stepLoop fuel' m timeMS w1) (fun n w2 => Return (S n) w2))
    end
  else Return O w.

(** "Time synchronization" *)
Definition syncTime (timeMS : float) (w : World) : World :=
  if (35 <? timeMS - mujoco_time (manager w))%float
  then upd (set_mujoco_time timeMS) w
  else w.

(** [update(timeMS)]; the value returned is the number of physics steps
    taken in this frame. *)
Definition update (fuel : nat) (timeMS : float) : World -> outcome nat :=
  fun w =>
    match isLoaded (manager w), model (manager w) with
    | true, Some m =>
        bind (if paused (manager w) then Return O w
              else stepLoop fuel m timeMS (syncTime timeMS w))
          (fun n w1 =>
             match engineArrays w1 with
             | Some arr => Return n (syncBodies m arr w1)
             | None => Raise "TypeError: engine state is null" w1
             end)
    | _, _ => Return O w
    end.

(** [reset()] *)
Definition reset : World -> outcome unit :=
  fun w =>
    match model (manager w) with
    | Some m =>
        bind
          (if isOldAPI (manager w) then
             match data (manager w) with
             | Some d =>
                 Return tt (upd (set_data
                   (Some (mkMjData (data_handle d) (mj_reset m (data_arrays d))))) w)
             | None => Raise "TypeError: this.data is null" w
             end
           else
             match simulation (manager w) with
             | Some s =>
                 Return tt (upd (set_simulation
                   (Some (mkSimulation (sim_handle s) (simulation_reset (sim_arrays s))))) w)
             | None => Raise "TypeError: this.simulation is null" w
             end)
          (fun _ => run (upd (set_mujoco_time 0%float)))
    | None => Return tt w
    end.


(** *** Load *)

(** The browser's XML parser and serializer, and the conversion of a
    number to text by a template literal. *)
Variable parseFromString : string -> Dom.node.
Variable serializeToString : Dom.node -> string.
Variable numberToString : float -> string.

Definition worldbodySelector : Dom.selector := Dom.mkSelector "worldbody" None.
Definition planeSelector : Dom.selector :=
  Dom.mkSelector "geom" (Some ("type", "plane")).

(** The [<geom>] that [addGroundPlane] creates, attribute by attribute. *)
Definition groundGeom (threeGroundY : float) : Dom.node :=
  Dom.setAttribute "friction" "1 0.005 0.0001"
  (Dom.setAttribute "condim" "3"
  (Dom.setAttribute "conaffinity" "1"
  (Dom.setAttribute "contype" "1"
  (Dom.setAttribute "pos" ("0 0 " +:+ numberToString threeGroundY)
  (Dom.setAttribute "rgba" "0.9 0.9 0.9 1"
  (Dom.setAttribute "size" "10 10 0.1"
  (Dom.setAttribute "type" "plane"
  (Dom.setAttribute "name" "ground"
  (Dom.createElement "geom"))))))))).

(** [this.sceneManager.groundPlane ? this.sceneManager.groundPlane.position.y : 0] *)
Definition threeGroundY (sm : SceneManager) : float :=
  match groundPlane sm with
  | Some position => Vector3.y position
  | None => 0%float
  end.

(** "Insert at beginning of worldbody" *)
Definition insertGround (g : Dom.node) (worldbody : Dom.node) : Dom.node :=
  match Dom.childNodesOf worldbody with
  | _ :: _ => Dom.insertBeforeFirst g worldbody
  | [] => Dom.appendChild g worldbody
  end.

(** [addGroundPlane(xmlContent)].  [worldbody] is a node of [doc], so the
    insertion changes [doc] in place, at the first [worldbody] in
    document order. *)
Definition addGroundPlane (sm : SceneManager) (xmlContent : string) : string :=
  let doc := parseFromString xmlContent in
  match Dom.querySelectorDoc worldbodySelector doc with
  | None => xmlContent
  | Some worldbody =>
      match Dom.querySelector planeSelector worldbody with
      | Some _ => xmlContent
      | None =>
          match Dom.updateFirst (Dom.matches worldbodySelector)
                  (insertGround (groundGeom (threeGroundY sm))) doc with
          | Some doc' => serializeToString doc'
          | None => xmlContent
          end
      end
  end.

(** Where, if anywhere, a call into the engine or the browser throws
    during a load. *)
Inductive Fault : Type :=
| NoFault | AtInit | AtMount | AtStage | AtModel | AtState
| AtSimulation | AtScene | AtReset | AtDrag.

(** What the engine compiles a document to. *)
Record Compiled : Type := mkCompiled {
  c_timestep : float;
  c_nbody : nat;
  c_body_mass : list float;
  c_arrays : EngineState
}.

(** The part of a load that is decided outside the bridge: which call
    throws, the engine module as [init] leaves it, the file system once
    the document and its assets are staged, what the engine makes of the
    staged document, and the drag controller that gets constructed. *)
Record LoadOracle : Type := mkLoadOracle {
  fault : Fault;
  engine : Mujoco;
  staged : FS.entry;
  compile : string -> Compiled;
  newDrag : DragStateManager
}.

Definition Fault_eqb (a b : Fault) : bool :=
  match a, b with
  | NoFault, NoFault | AtInit, AtInit | AtMount, AtMount | AtStage, AtStage
  | AtModel, AtModel | AtState, AtState | AtSimulation, AtSimulation
  | AtScene, AtScene | AtReset, AtReset | AtDrag, AtDrag => true
  | _, _ => false
  end.

(** The external call at stage [f] throws when the oracle says so. *)
Definition throwsAt (f : Fault) (o : LoadOracle) : World -> outcome unit :=
  fun w => if Fault_eqb (fault o) f then Raise "engine or browser error" w
           else Return tt w.

(** [init()] *)
Definition init (o : LoadOracle) : World -> outcome unit :=
  fun w =>
    match mujoco (manager w) with
    | Some _ => Return tt w
    | None =>
        bind (throwsAt AtInit o w) (fun _ w1 =>
        throwsAt AtMount o (upd (set_mujoco (Some (engine o))) w1))
    end.

(** A new native object. *)
Definition newNative (w : World) : loc * World :=
  let h := fresh (live w) in (h, world_set_live ({[h]} ∪ live w) w).

(** A new scene object. *)
Definition newObject (o : Object3D.t) (w : World) : loc * World :=
  let l := fresh (dom (objects w)) in (l, world_set_objects (<[l := o]> (objects w)) w).

(** Writing the document and the assets it refers to. *)
Definition stage (o : LoadOracle) : World -> outcome unit :=
  fun w =>
    match mujoco (manager w) with
    | Some mj =>
        bind (throwsAt AtStage o w)
          (fun _ => run (upd (set_mujoco (Some (mkMujoco (api mj) (staged o))))))
    | None => Raise "TypeError: this.mujoco is null" w
    end.

(** "Load model (compatible with old and new API)" *)
Definition compileModel (o : LoadOracle) (modifiedXml : string) : World -> outcome unit :=
  fun w =>
    let c := compile o modifiedXml in
    let mkModel h := mkMjModel h (c_timestep c) (c_nbody c) (c_body_mass c) in
    match option_map api (mujoco (manager w)) with
    | Some SimulationApi =>
        bind (throwsAt AtModel o w) (fun _ w1 =>
          let '(h, w2) := newNative w1 in
          let w3 := upd (set_model (Some (mkModel h))) w2 in
          bind (throwsAt AtState o w3) (fun _ w4 =>
            let '(h', w5) := newNative w4 in
            let w6 := upd (set_state (Some h')) w5 in
            bind (throwsAt AtSimulation o w6) (fun _ w7 =>
              let '(h'', w8) := newNative w7 in
              Return tt (upd (set_simulation
                (Some (mkSimulation h'' (c_arrays c)))) w8))))
    | Some MjDataApi =>
        bind (throwsAt AtModel o w) (fun _ w1 =>
          let '(h, w2) := newNative w1 in
          let w3 := upd (set_model (Some (mkModel h))) w2 in
          bind (throwsAt AtState o w3) (fun _ w4 =>
            let '(h', w5) := newNative w4 in
            Return tt (upd (fun m => set_isOldAPI true
              (set_data (Some (mkMjData h' (c_arrays c))) m)) w5)))
    | Some NoApi => Raise "Cannot find MuJoCo model loading method" w
    | None => Raise "TypeError: this.mujoco is null" w
    end.

(** One body group, added to the root. *)
Definition addBody (root : loc) (w : World) (b : nat) : World :=
  let '(g, w1) := newObject (Object3D.setParent (Some root) Object3D.new) w in
  upd (fun m => set_bodies (<[b := g]> (bodies m)) m) w1.

(** [createThreeScene()]: the root starts hidden and detached; every
    body of the model gets a group under it.  Meshes, materials and the
    auxiliary markers are not part of this model. *)
Definition createThreeScene (o : LoadOracle) : World -> outcome unit :=
  fun w =>
    match model (manager w) with
    | Some m =>
        let '(root, w1) := newObject (Object3D.setVisible false Object3D.new) w in
        let w2 := upd (fun mg => set_bodies ∅ (set_mujocoRoot (Some root) mg)) w1 in
        bind (throwsAt AtScene o w2)
          (fun _ => run (fun w3 => fold_left (addBody root) (seq 0 (nbody m)) w3))
    | None => Raise "TypeError: this.model is null" w
    end.

(** "Reset simulation (compatible with old and new API)" *)
Definition resetEngine (o : LoadOracle) : World -> outcome unit :=
  fun w =>
    bind (throwsAt AtReset o w) (fun _ w1 =>
      match model (manager w1) with
      | Some m =>
          if isOldAPI (manager w1) then
            match data (manager w1) with
            | Some d =>
                Return tt (upd (set_data
                  (Some (mkMjData (data_handle d) (mj_reset m (data_arrays d))))) w1)
            | None => Raise "TypeError: this.data is null" w1
            end
          else
            match simulation (manager w1) with
            | Some s =>
                Return tt (upd (set_simulation
                  (Some (mkSimulation (sim_handle s) (simulation_reset (sim_arrays s))))) w1)
            | None => Raise "TypeError: this.simulation is null" w1
            end
      | None => Raise "TypeError: this.model is null" w1
      end).

(** "Create drag state manager" *)
Definition createDrag (o : LoadOracle) : World -> outcome unit :=
  fun w =>
    match dragStateManager (manager w) with
    | Some _ => Return tt w
    | None =>
        bind (throwsAt AtDrag o w)
          (fun _ => run (upd (set_dragStateManager (Some (newDrag o)))))
    end.

(** [loadScene(xmlContent, filename, fileMap, originalModel)].  The
    [catch] logs and rethrows, so it does not show.  [filename] and
    [fileMap] only matter to the staging, which the oracle decides. *)
Definition loadScene (o : LoadOracle) (xmlContent filename : string)
    (fileMap : JsMap.t File.t) (originalModel : UnifiedRobotModel.t)
    : World -> outcome unit :=
  fun w =>
    bind (init o w) (fun _ w1 =>
    bind (clearScene w1) (fun _ w2 =>
    let w3 := upd (set_originalModel (Some originalModel)) w2 in
    let modifiedXml := addGroundPlane (sceneManager w3) xmlContent in
    bind (stage o w3) (fun _ w4 =>
    bind (compileModel o modifiedXml w4) (fun _ w5 =>
    bind (createThreeScene o w5) (fun _ w6 =>
    bind (resetEngine o w6) (fun _ w7 =>
    createDrag o (upd (fun m => set_paused true (set_isLoaded true m)) w7))))))).

End Engine.

End MujocoSimulationManager.

(** ** Application state and the simulation toggle handler
       (AppState.ts, SimulationHandler.ts) *)

Module AppState.
Record t : Type := mk {
  currentModel : option UnifiedRobotModel.t;
  currentMJCFFile : option File.t;
  currentMJCFModel : option UnifiedRobotModel.t;
  angleUnit : string
}.

(** [new AppState()] *)
Definition new : t := mk None None None "rad".
End AppState.

Module SimulationHandler.
Import MujocoSimulationManager.

(** The application object, as far as the handler reaches into it. *)
Record App : Type := mkApp {
  world : World;
  state : AppState.t;
  fileMap : JsMap.t File.t
}.

(** [this.app.state.currentModel.threeObject.visible = b], guarded by
    [?.threeObject]. *)
Definition setStaticVisible (b : bool) (st : AppState.t) (w : World) : World :=
  match AppState.currentModel st with
  | Some m =>
      match UnifiedRobotModel.threeObject m with
      | Some o => updObject o (Object3D.setVisible b) w
      | None => w
      end
  | None => w
  end.

Section Handler.
Variable mj_reset : MjModel -> EngineState -> EngineState.
Variable simulation_reset : EngineState -> EngineState.
Variable parseFromString : string -> Dom.node.
Variable serializeToString : Dom.node -> string.
Variable numberToString : float -> string.

(** [handleMujocoToggleSimulate()]: the returned flag and the application
    afterwards; [None] when the load never returns. *)
Definition handleMujocoToggleSimulate (o : LoadOracle) (app : App) : option (bool * App) :=
  let w := world app in
  let st := state app in
  match negb (hasScene w), AppState.currentMJCFFile st, AppState.currentMJCFModel st with
  | true, Some file, Some mjcfModel =>
      match loadScene mj_reset simulation_reset parseFromString serializeToString
              numberToString o (File.text file) (File.name file) (fileMap app)
              mjcfModel w with
      | Return _ w1 =>
          let w2 := setStaticVisible false st w1 in
          Some (true, mkApp (startSimulation w2) st (fileMap app))
      | Raise _ w1 => Some (false, mkApp w1 st (fileMap app))
      | Diverge => None
      end
  | _, _, _ =>
      let '(isSimulating, w1) := toggleSimulation w in
      let w2 := setStaticVisible (negb isSimulating) st w1 in
      Some (isSimulating, mkApp w2 st (fileMap app))
  end.

End Handler.

End SimulationHandler.

(** * Properties *)

(** ** Unified robot model *)

Lemma unique_keys_add (m : UnifiedRobotModel.t)
    (l : Link.t) (j : Joint.t) (c : Constraint.t) :
  UnifiedRobotModel.unique_keys m ->
  UnifiedRobotModel.unique_keys (UnifiedRobotModel.addLink l m) /\
  UnifiedRobotModel.unique_keys (UnifiedRobotModel.addJoint j m) /\
  UnifiedRobotModel.unique_keys (UnifiedRobotModel.addConstraint c m).
Proof.
  intros (Hl & Hj & Hc).
  repeat split; simpl; auto using JsMap.NoDup_keys_set.
Qed.

(** C10: for every model, whatever its name, root link, scene object and
    materials are: looking an entity up by its name right after adding it
    returns that very entity, every other name keeps what it had, and adding
    under a name that is already a key leaves the sequence of keys as it was
    (the entry is replaced, not duplicated).  The three mappings of a new
    model hold no key twice, and [addLink], [addJoint] and [addConstraint],
    the only writers of the three mappings, keep it so. *)
Theorem add_then_get_and_unique_keys
    (m : UnifiedRobotModel.t) (l : Link.t) (j : Joint.t) (c : Constraint.t) :
  (UnifiedRobotModel.getLink (Link.name l) (UnifiedRobotModel.addLink l m) = Some l /\
   UnifiedRobotModel.getJoint (Joint.name j) (UnifiedRobotModel.addJoint j m) = Some j /\
   UnifiedRobotModel.getConstraint (Constraint.name c)
     (UnifiedRobotModel.addConstraint c m) = Some c) /\
  (forall n, n <> Link.name l ->
     UnifiedRobotModel.getLink n (UnifiedRobotModel.addLink l m) =
     UnifiedRobotModel.getLink n m) /\
  (forall n, n <> Joint.name j ->
     UnifiedRobotModel.getJoint n (UnifiedRobotModel.addJoint j m) =
     UnifiedRobotModel.getJoint n m) /\
  (forall n, n <> Constraint.name c ->
     UnifiedRobotModel.getConstraint n (UnifiedRobotModel.addConstraint c m) =
     UnifiedRobotModel.getConstraint n m) /\
  (UnifiedRobotModel.getLink (Link.name l) m <> None ->
     JsMap.keys (UnifiedRobotModel.links (UnifiedRobotModel.addLink l m)) =
     JsMap.keys (UnifiedRobotModel.links m)) /\
  (UnifiedRobotModel.getJoint (Joint.name j) m <> None ->
     JsMap.keys (UnifiedRobotModel.joints (UnifiedRobotModel.addJoint j m)) =
     JsMap.keys (UnifiedRobotModel.joints m)) /\
  (UnifiedRobotModel.getConstraint (Constraint.name c) m <> None ->
     JsMap.keys (UnifiedRobotModel.constraints (UnifiedRobotModel.addConstraint c m)) =
     JsMap.keys (UnifiedRobotModel.constraints m)) /\
  UnifiedRobotModel.unique_keys UnifiedRobotModel.new /\
  (UnifiedRobotModel.unique_keys m ->
     UnifiedRobotModel.unique_keys (UnifiedRobotModel.addLink l m) /\
     UnifiedRobotModel.unique_keys (UnifiedRobotModel.addJoint j m) /\
     UnifiedRobotModel.unique_keys (UnifiedRobotModel.addConstraint c m)).
Proof.
  unfold UnifiedRobotModel.getLink, UnifiedRobotModel.getJoint,
    UnifiedRobotModel.getConstraint; simpl.
  split; [repeat split; apply JsMap.get_set_eq|].
  split; [intros n Hn; apply JsMap.get_set_ne; congruence|].
  split; [intros n Hn; apply JsMap.get_set_ne; congruence|].
  split; [intros n Hn; apply JsMap.get_set_ne; congruence|].
  split; [apply JsMap.keys_set_present|].
  split; [apply JsMap.keys_set_present|].
  split; [apply JsMap.keys_set_present|].
  split; [repeat split; constructor|].
  apply unique_keys_add.
Qed.

Definition sampleLink (n : string) : Link.t := Link.mk n [] [] None None.
Definition sampleJoint (n : string) : Joint.t :=
  Joint.mk n "fixed" None None [] [] None [] None 0%float None.
Definition sampleConstraint (n : string) : Constraint.t :=
  Constraint.mk n "connect" None None None None None None None None None.

(** A model as an adapter leaves it: named, with a root link, a scene
    object and a material. *)
Definition armModel : UnifiedRobotModel.t :=
  UnifiedRobotModel.mk "arm"
    [("base", sampleLink "base"); ("forearm", sampleLink "forearm")]
    [("elbow", sampleJoint "elbow")]
    [("steel", Material.mk "steel" (0.5, 0.5, 0.5)%float None None None None)]
    []
    (Some "base") (Some 1).

Lemma add_then_get_and_unique_keys_witness :
  UnifiedRobotModel.getLink "base"
    (UnifiedRobotModel.addLink (Link.mk "base" [] [] None (Some 7)) armModel)
  = Some (Link.mk "base" [] [] None (Some 7)) /\
  UnifiedRobotModel.getLink "forearm"
    (UnifiedRobotModel.addLink (Link.mk "base" [] [] None (Some 7)) armModel)
  = Some (sampleLink "forearm") /\
  JsMap.keys (UnifiedRobotModel.links
    (UnifiedRobotModel.addLink (Link.mk "base" [] [] None (Some 7)) armModel))
  = ["base"; "forearm"] /\
  UnifiedRobotModel.unique_keys
    (UnifiedRobotModel.addLink (Link.mk "base" [] [] None (Some 7)) armModel).
Proof.
  pose proof (add_then_get_and_unique_keys armModel
    (Link.mk "base" [] [] None (Some 7))
    (sampleJoint "j") (sampleConstraint "c")) as H.
  destruct H as ((Hget & _) & Hother & _ & _ & Hkeys & _ & _ & _ & Hunique).
  split; [exact Hget|].
  split; [rewrite (Hother "forearm"); [reflexivity | discriminate]|].
  split; [rewrite Hkeys; [reflexivity | discriminate]|].
  apply Hunique.
  repeat split; simpl; repeat constructor; simpl; intuition discriminate.
Defined.

(** ** Coordinate conversion *)

(** C2: a position taken from render coordinates to engine coordinates by
    [toMujocoPos], stored in an engine buffer, and read back by the swizzling
    [getPosition] is the position one started from, component for
    component. *)
Theorem position_round_trip (v : Vector3.t) (buffer : list float) (index : nat) :
  buffer !! (index * 3 + 0) = Some (Vector3.x (Swizzle.toMujocoPos v)) ->
  buffer !! (index * 3 + 1) = Some (Vector3.y (Swizzle.toMujocoPos v)) ->
  buffer !! (index * 3 + 2) = Some (Vector3.z (Swizzle.toMujocoPos v)) ->
  Swizzle.getPosition buffer index true = v.
Proof.
  intros H0 H1 H2. unfold Swizzle.getPosition, Swizzle.read.
  rewrite H0, H1, H2. destruct v as [a b c]; simpl.
  now rewrite Swizzle.opp_involutive.
Qed.

Lemma position_round_trip_witness :
  Swizzle.getPosition [1; -3; 2]%float 0 true = Vector3.mk 1 2 3.
Proof.
  apply (position_round_trip (Vector3.mk 1 2 3) [1; -3; 2]%float 0); reflexivity.
Defined.

(** ** Xacro inclusions and mesh references *)

Lemma tryPaths_first (paths : list string) (fileMap : JsMap.t File.t) i p f :
  paths !! i = Some p ->
  JsMap.get p fileMap = Some f ->
  (forall j q, j < i -> paths !! j = Some q -> JsMap.get q fileMap = None) ->
  XacroAdapter.tryPaths paths fileMap = Some f.
Proof.
  revert i. induction paths as [|p0 rest IH]; intros i Hi Hf Hbefore.
  - discriminate.
  - destruct i as [|i]; simpl in *.
    + injection Hi as ->. now rewrite Hf.
    + rewrite (Hbefore 0 p0) by (simpl; auto with lia).
      apply (IH i); auto.
      intros j q Hj Hq. apply (Hbefore (S j) q); simpl; auto with lia.
Qed.

Lemma tryPaths_none (paths : list string) (fileMap : JsMap.t File.t) :
  (forall p, In p paths -> JsMap.get p fileMap = None) ->
  XacroAdapter.tryPaths paths fileMap = None.
Proof.
  induction paths as [|p0 rest IH]; intros H; simpl; [reflexivity|].
  rewrite (H p0) by (simpl; auto). apply IH. intros p Hp. apply H. simpl; auto.
Qed.

(** The filename-only scan returns the first entry, in the bundle's order,
    whose key ends in the wanted file name. *)
Lemma findByFileName_first (n : string) (before after : JsMap.t File.t) k f :
  JsString.basename k = n ->
  (forall k' f', In (k', f') before -> JsString.basename k' <> n) ->
  XacroAdapter.findByFileName n (before ++ (k, f) :: after) = Some f.
Proof.
  intros Hk. unfold XacroAdapter.findByFileName.
  induction before as [|[k0 f0] before IH]; intros Hb; simpl.
  - subst n. now rewrite String.eqb_refl.
  - destruct (String.eqb_spec (JsString.basename k0) n) as [E|_].
    + exfalso. apply (Hb k0 f0); simpl; auto.
    + apply IH. intros k' f' Hin. apply (Hb k' f'). simpl; auto.
Qed.

Lemma findByFileName_none (n : string) (fileMap : JsMap.t File.t) :
  (forall k f, In (k, f) fileMap -> JsString.basename k <> n) ->
  XacroAdapter.findByFileName n fileMap = None.
Proof.
  unfold XacroAdapter.findByFileName.
  induction fileMap as [|[k0 f0] rest IH]; intros H; simpl; [reflexivity|].
  destruct (String.eqb_spec (JsString.basename k0) n) as [E|_].
  - exfalso. apply (H k0 f0); simpl; auto.
  - apply IH. intros k f Hin. apply (H k f). simpl; auto.
Qed.

Definition armBundle : JsMap.t File.t :=
  [ ("meshes/arm.xacro", File.mk "arm.xacro" "<robot name='mesh-side'/>");
    ("urdf/arm.xacro", File.mk "arm.xacro" "<robot name='urdf-side'/>") ].

(** C6, as stated, fails: with only the literal path, the path under the
    working directory and the filename-only scan, the inclusion
    [robot/urdf/arm.xacro] would resolve to the first bundle key that ends in
    [arm.xacro]; the adapter resolves it to [urdf/arm.xacro], through a
    candidate the statement does not list. *)
Lemma loadFileFromMap_tries_more_candidates :
  XacroAdapter.loadFileFromMap "robot/urdf/arm.xacro" armBundle ""
    = Ok "<robot name='urdf-side'/>" /\
  XacroAdapter.loadFileFromMap_as_specified "robot/urdf/arm.xacro" armBundle ""
    = Ok "<robot name='mesh-side'/>".
Proof. split; reflexivity. Qed.

(** C6, amended: [loadFileFromMap] tries five paths in this order: the
    cleaned path, the cleaned path under the working directory, the path as
    given, the path without leading slashes under the working directory, and
    the cleaned path without its first component; the first one the bundle
    has gives the content.  When none is there, the first bundle entry (in
    the bundle's order) whose key ends in the wanted file name gives the
    content.  When there is none either, the error
    [Cannot find included file: <path>] is raised, and whatever the expansion
    throws makes [parse] throw: no model is returned. *)
Theorem loadFileFromMap_resolution_order
    (path workingPath : string) (fileMap : JsMap.t File.t) :
  let cp := XacroAdapter.cleanPath path in
  let candidates :=
    [ cp; workingPath +:+ cp; path;
      workingPath +:+ JsString.strip_leading_slashes path;
      XacroAdapter.withoutFirstComponent cp ] in
  (forall i p f,
      candidates !! i = Some p ->
      JsMap.get p fileMap = Some f ->
      (forall j q, j < i -> candidates !! j = Some q -> JsMap.get q fileMap = None) ->
      XacroAdapter.loadFileFromMap path fileMap workingPath = Ok (File.text f)) /\
  ((forall p, In p candidates -> JsMap.get p fileMap = None) ->
   forall before k f after,
      fileMap = before ++ (k, f) :: after ->
      JsString.basename k = JsString.basename cp ->
      (forall k' f', In (k', f') before ->
                     JsString.basename k' <> JsString.basename cp) ->
      XacroAdapter.loadFileFromMap path fileMap workingPath = Ok (File.text f)) /\
  ((forall p, In p candidates -> JsMap.get p fileMap = None) ->
   (forall k f, In (k, f) fileMap -> JsString.basename k <> JsString.basename cp) ->
   XacroAdapter.loadFileFromMap path fileMap workingPath
     = Throw ("Cannot find included file: " +:+ path)) /\
  (forall (Xml Model Args : Type) injectBooleanConstants extractXacroArguments
          XacroParser_parse defaultGetFileContents loadUrdf
          xacroContent fileName msg,
      XacroParser_parse
        (fun p => XacroAdapter.loadFileFromMap p fileMap
                    (XacroAdapter.workingPathOf fileName))
        (extractXacroArguments (injectBooleanConstants xacroContent))
        (XacroAdapter.workingPathOf fileName)
        (injectBooleanConstants xacroContent) = Throw msg ->
      XacroAdapter.parse Xml Model Args injectBooleanConstants extractXacroArguments
        XacroParser_parse defaultGetFileContents loadUrdf
        xacroContent fileName (Some fileMap)
      = Throw ("Xacro parsing failed: " +:+ msg)).
Proof.
  cbv zeta.
  split; [|split; [|split]].
  - intros i p f Hi Hf Hbefore.
    unfold XacroAdapter.loadFileFromMap, XacroAdapter.possiblePaths.
    now rewrite (tryPaths_first _ fileMap i p f Hi Hf Hbefore).
  - intros Hnone before k f after -> Hk Hb.
    unfold XacroAdapter.loadFileFromMap, XacroAdapter.possiblePaths.
    rewrite (tryPaths_none _ _ Hnone).
    now rewrite (findByFileName_first _ before after k f Hk Hb).
  - intros Hnone Hnames.
    unfold XacroAdapter.loadFileFromMap, XacroAdapter.possiblePaths.
    rewrite (tryPaths_none _ _ Hnone).
    now rewrite (findByFileName_none _ _ Hnames).
  - intros Xml Model Args inj ext xp dflt lu content fileName msg Hthrow.
    unfold XacroAdapter.parse. now rewrite Hthrow.
Qed.

Definition barFile : File.t := File.mk "bar.stl" "solid bar".

(** A bundle that has [bar.stl] twice: at [meshes/] and under the
    directory of the robot description. *)
Definition robotBarFile : File.t := File.mk "bar.stl" "solid bar of the robot".

Definition twoBarsBundle : JsMap.t File.t :=
  [ ("meshes/bar.stl", barFile); ("robot/meshes/bar.stl", robotBarFile) ].

(** C9, as stated, fails: the bundle has the key [meshes/bar.stl], and for
    a document in [robot/] the reference [package://foo/meshes/bar.stl]
    resolves to the entry [robot/meshes/bar.stl], because the path under the
    document's directory is tried before the stripped path.  The same bundle
    and reference give the entry [meshes/bar.stl] for a document at the
    bundle's root: the match depends on the directory as well. *)
Lemma package_reference_prefers_the_document_directory :
  JsMap.get "meshes/bar.stl" twoBarsBundle = Some barFile /\
  XacroAdapter.findFileInMapByPath "package://foo/meshes/bar.stl" twoBarsBundle "robot/"
    = Some robotBarFile /\
  XacroAdapter.urlModifier File.text (fun _ => None) twoBarsBundle "robot/"
    "package://foo/meshes/bar.stl" = "solid bar of the robot" /\
  robotBarFile <> barFile /\
  XacroAdapter.findFileInMapByPath "package://foo/meshes/bar.stl" twoBarsBundle ""
    = Some barFile /\
  XacroAdapter.urlModifier File.text (fun _ => None) twoBarsBundle ""
    "package://foo/meshes/bar.stl" = "solid bar".
Proof. repeat split; try reflexivity. discriminate. Qed.

(** C9, amended: the reference [package://foo/meshes/bar.stl] loses its
    scheme and its package name before the bundle is consulted.  Against a
    bundle that has the key [meshes/bar.stl], both the mesh callback's lookup
    and the URL modifier find a file, and it is the first hit in the order in
    which paths are tried: the entry under the document's directory when the
    bundle has one, the entry [meshes/bar.stl] otherwise, and in particular
    that entry when the document sits at the bundle's root. *)
Theorem package_reference_resolves
    (fileMap : JsMap.t File.t) (urdfDir : string) (f : File.t)
    (createObjectURL : File.t -> string) (urlPathname : string -> option string) :
  JsMap.get "meshes/bar.stl" fileMap = Some f ->
  let reference := "package://foo/meshes/bar.stl" in
  let firstHit := default f (JsMap.get (urdfDir +:+ "meshes/bar.stl") fileMap) in
  XacroAdapter.findFileInMapByPath reference fileMap urdfDir = Some firstHit /\
  XacroAdapter.urlModifier createObjectURL urlPathname fileMap urdfDir reference
    = createObjectURL firstHit /\
  (JsMap.get (urdfDir +:+ "meshes/bar.stl") fileMap = None -> firstHit = f) /\
  (urdfDir = "" -> firstHit = f).
Proof.
  intros Hf. cbv zeta.
  assert (Hmesh : JsString.strip_prefix "./"
            (XacroAdapter.stripPackage
               (JsString.strip_blob_origin "package://foo/meshes/bar.stl"))
          = "meshes/bar.stl") by reflexivity.
  split; [|split; [|split]].
  - unfold XacroAdapter.findFileInMapByPath. rewrite Hmesh.
    destruct (JsMap.get (urdfDir +:+ "meshes/bar.stl") fileMap); simpl; [reflexivity|].
    now rewrite Hf.
  - unfold XacroAdapter.urlModifier.
    change (JsString.startsWith "package://foo/meshes/bar.stl" "blob:") with false.
    cbv iota.
    change (JsString.strip_prefix "./"
              (XacroAdapter.stripPackage
                 (XacroAdapter.stripHttp urlPathname "package://foo/meshes/bar.stl")))
      with "meshes/bar.stl".
    unfold XacroAdapter.matchInBundle.
    change (XacroAdapter.normalizePath "meshes/bar.stl") with "meshes/bar.stl".
    rewrite String.eqb_refl. simpl negb. cbv iota.
    destruct (JsMap.get (urdfDir +:+ "meshes/bar.stl") fileMap); simpl; [reflexivity|].
    now rewrite Hf.
  - now intros ->.
  - intros ->. change ("" +:+ "meshes/bar.stl") with "meshes/bar.stl".
    now rewrite Hf.
Qed.

Lemma package_reference_resolves_witness :
  XacroAdapter.findFileInMapByPath "package://foo/meshes/bar.stl"
    [("meshes/bar.stl", barFile)] "robot/" = Some barFile.
Proof.
  exact (proj1 (package_reference_resolves [("meshes/bar.stl", barFile)] "robot/"
                  barFile (fun _ => "blob:") (fun _ => None) eq_refl)).
Defined.

(** ** Cloning a geometry description *)

(** [v'] is a copy of [v] made while the store grew from [h] to [h']: both
    null, or [v'] a location that [h] did not use and that now holds what
    [v] points to. *)
Definition freshCopy (h h' : gmap loc Js.object) (v v' : Js.value) : Prop :=
  match v, v' with
  | Js.Null, Js.Null => True
  | Js.Ref l, Js.Ref l' =>
      exists props, h !! l = Some (Js.Obj props) /\ h !! l' = None /\
                    h' !! l' = Some (Js.Obj props)
  | _, _ => False
  end.

Definition freshCopyArray (h h' : gmap loc Js.object) (a a' : option loc) : Prop :=
  match a, a' with
  | None, None => True
  | Some l, Some l' =>
      exists elems, h !! l = Some (Js.Arr elems) /\ h !! l' = None /\
                    h' !! l' = Some (Js.Arr elems)
  | _, _ => False
  end.

Lemma alloc_subseteq (o : Js.object) (h : gmap loc Js.object) : h ⊆ (Js.alloc o h).1.
Proof. unfold Js.alloc; simpl. apply insert_subseteq, not_elem_of_dom, is_fresh. Qed.

Lemma lookup_None_weaken (h h' : gmap loc Js.object) l :
  h ⊆ h' -> h' !! l = None -> h !! l = None.
Proof.
  intros Hsub Hn. destruct (h !! l) as [o|] eqn:E; [|reflexivity].
  pose proof (lookup_weaken _ _ _ _ E Hsub). congruence.
Qed.

Lemma cloneArray_spec (h : gmap loc Js.object) (a : option loc) :
  GeometryType.isArray h a ->
  exists h' a', GeometryType.cloneArray h a = Ok (h', a') /\ h ⊆ h' /\
                freshCopyArray h h' a a'.
Proof.
  destruct a as [l|]; simpl.
  - intros [elems Hl]. rewrite Hl.
    exists (Js.alloc (Js.Arr elems) h).1, (Some (Js.alloc (Js.Arr elems) h).2).
    split; [reflexivity|]. split; [apply alloc_subseteq|].
    exists elems. split; [first [assumption | reflexivity]|].
    split; [apply not_elem_of_dom, is_fresh | apply lookup_insert_eq].
  - intros _. exists h, None. repeat split; reflexivity.
Qed.

Lemma cloneSize_spec (h : gmap loc Js.object) (s : Js.value) :
  GeometryType.isRecordOrNull h s ->
  h ⊆ (GeometryType.cloneSize h s).1 /\
  freshCopy h (GeometryType.cloneSize h s).1 s (GeometryType.cloneSize h s).2.
Proof.
  destruct s as [| |x|str|b|l]; simpl; try contradiction.
  - intros _. split; reflexivity.
  - intros [props Hl]. unfold GeometryType.cloneSize; simpl. rewrite Hl.
    split; [apply alloc_subseteq|].
    exists props. split; [reflexivity|].
    split; [apply not_elem_of_dom, is_fresh | apply lookup_insert_eq].
Qed.

Lemma isArray_weaken (h h' : gmap loc Js.object) a :
  h ⊆ h' -> GeometryType.isArray h a -> GeometryType.isArray h' a.
Proof.
  intros Hsub. destruct a as [l|]; simpl; [|auto].
  intros [elems Hl]. exists elems. eapply lookup_weaken; eauto.
Qed.

Lemma freshCopy_weaken (h h1 h2 : gmap loc Js.object) v v' :
  h1 ⊆ h2 -> freshCopy h h1 v v' -> freshCopy h h2 v v'.
Proof.
  intros H12. destruct v, v'; simpl; auto.
  intros (props & Hl & Hfresh & Hcopy). exists props.
  repeat split; auto. eapply lookup_weaken; eauto.
Qed.

Lemma freshCopyArray_rebase (h h1 h2 : gmap loc Js.object) a a' :
  h ⊆ h1 -> GeometryType.isArray h a ->
  freshCopyArray h1 h2 a a' -> freshCopyArray h h2 a a'.
Proof.
  intros H01. destruct a as [l|], a' as [l'|]; simpl; auto.
  intros [elems0 Hl0] (elems & Hl & Hfresh & Hcopy).
  pose proof (lookup_weaken _ _ _ _ Hl0 H01) as Hl1.
  assert (elems = elems0) as -> by congruence.
  exists elems0. repeat split; auto. eapply lookup_None_weaken; eauto.
Qed.

Lemma freshCopyArray_weaken (h h1 h2 : gmap loc Js.object) a a' :
  h1 ⊆ h2 -> freshCopyArray h h1 a a' -> freshCopyArray h h2 a a'.
Proof.
  intros H12. destruct a as [l|], a' as [l'|]; simpl; auto.
  intros (elems & Hl & Hfresh & Hcopy). exists elems.
  repeat split; auto. eapply lookup_weaken; eauto.
Qed.

(** The part of C5 that holds.  On a geometry whose [size] is a record or
    null and whose scales are arrays or null, [clone] returns; the copy has
    the same [type], [filename], [inlineVertices] and [fromto]; its [size],
    [meshScale] and [inlineScale] are new objects with the contents of the
    original's; and every object the store held is still as it was. *)
Lemma clone_copies_size_and_scales (h : gmap loc Js.object) (g : GeometryType.t) :
  GeometryType.wellTyped h g ->
  exists h' g',
    GeometryType.clone h g = Ok (h', g') /\
    h ⊆ h' /\
    GeometryType.type g' = GeometryType.type g /\
    GeometryType.filename g' = GeometryType.filename g /\
    GeometryType.inlineVertices g' = GeometryType.inlineVertices g /\
    GeometryType.fromto g' = GeometryType.fromto g /\
    freshCopy h h' (GeometryType.size g) (GeometryType.size g') /\
    freshCopyArray h h' (GeometryType.meshScale g) (GeometryType.meshScale g') /\
    freshCopyArray h h' (GeometryType.inlineScale g) (GeometryType.inlineScale g').
Proof.
  intros (Hsize & Hmesh & Hinline). unfold GeometryType.clone.
  destruct (cloneSize_spec h (GeometryType.size g) Hsize) as [Hsub1 Hcopy1].
  destruct (GeometryType.cloneSize h (GeometryType.size g)) as [h1 size'].
  simpl in Hsub1, Hcopy1.
  destruct (cloneArray_spec h1 (GeometryType.meshScale g)
              (isArray_weaken _ _ _ Hsub1 Hmesh)) as (h2 & ms' & E2 & Hsub2 & Hcopy2).
  rewrite E2.
  assert (Hsub02 : h ⊆ h2) by (etransitivity; eauto).
  destruct (cloneArray_spec h2 (GeometryType.inlineScale g)
              (isArray_weaken _ _ _ Hsub02 Hinline)) as (h3 & is' & E3 & Hsub3 & Hcopy3).
  rewrite E3.
  exists h3, (GeometryType.mk (GeometryType.type g) size' (GeometryType.filename g) ms'
                (GeometryType.fromto g) (GeometryType.inlineVertices g) is').
  split; [reflexivity|]. split; [etransitivity; eauto|].
  repeat (split; [reflexivity|]).
  split; [|split].
  - eapply freshCopy_weaken; [|exact Hcopy1]. etransitivity; eauto.
  - apply (freshCopyArray_weaken h h2 h3); [exact Hsub3|].
    apply (freshCopyArray_rebase h h1 h2); auto.
  - apply (freshCopyArray_rebase h h2 h3); auto.
Qed.

(** Writing a property of one object leaves every other object alone. *)
Lemma setProp_other (h : gmap loc Js.object) l l' k v :
  l <> l' -> Js.setProp l' k v h !! l = h !! l.
Proof.
  intros Hne. unfold Js.setProp.
  destruct (h !! l') as [[props|elems]|]; auto.
  now apply lookup_insert_ne.
Qed.

Lemma setIndex_other (h : gmap loc Js.object) l l' i v :
  l <> l' -> Js.setIndex l' i v h !! l = h !! l.
Proof.
  intros Hne. unfold Js.setIndex.
  destruct (h !! l') as [[props|elems]|]; auto.
  destruct (decide (i < length elems)); now apply lookup_insert_ne.
Qed.

(** Deep-copy law for [size]: a write to the clone's [size] record does
    not show in the original's. *)
Lemma clone_size_is_independent (h h' : gmap loc Js.object) (g g' : GeometryType.t) l l' :
  GeometryType.wellTyped h g ->
  GeometryType.clone h g = Ok (h', g') ->
  GeometryType.size g = Js.Ref l ->
  GeometryType.size g' = Js.Ref l' ->
  forall k v k0, Js.getProp (Js.setProp l' k v h') l k0 = Js.getProp h l k0.
Proof.
  intros Hwt Hclone Hs Hs' k v k0.
  destruct (clone_copies_size_and_scales h g Hwt)
    as (h2 & g2 & E & Hsub & _ & _ & _ & _ & Hcopy & _).
  rewrite Hclone in E. injection E as <- <-.
  rewrite Hs, Hs' in Hcopy. destruct Hcopy as (props & Hl & Hfresh & Hsame).
  assert (l <> l') by congruence.
  unfold Js.getProp. rewrite setProp_other by assumption.
  now rewrite (lookup_weaken _ _ _ _ Hl Hsub), Hl.
Qed.

(** The same for the two scale arrays. *)
Lemma clone_scales_are_independent (h h' : gmap loc Js.object) (g g' : GeometryType.t) :
  GeometryType.wellTyped h g ->
  GeometryType.clone h g = Ok (h', g') ->
  (forall l l', GeometryType.meshScale g = Some l ->
                GeometryType.meshScale g' = Some l' ->
                forall i v i0, Js.getIndex (Js.setIndex l' i v h') l i0 = Js.getIndex h l i0) /\
  (forall l l', GeometryType.inlineScale g = Some l ->
                GeometryType.inlineScale g' = Some l' ->
                forall i v i0, Js.getIndex (Js.setIndex l' i v h') l i0 = Js.getIndex h l i0).
Proof.
  intros Hwt Hclone.
  destruct (clone_copies_size_and_scales h g Hwt)
    as (h2 & g2 & E & Hsub & _ & _ & _ & _ & _ & Hms & His).
  rewrite Hclone in E. injection E as <- <-.
  split; intros l l' Hl Hl' i v i0.
  - rewrite Hl, Hl' in Hms. destruct Hms as (elems & Hold & Hfresh & Hnew).
    assert (l <> l') by congruence.
    unfold Js.getIndex. rewrite setIndex_other by assumption.
    now rewrite (lookup_weaken _ _ _ _ Hold Hsub), Hold.
  - rewrite Hl, Hl' in His. destruct His as (elems & Hold & Hfresh & Hnew).
    assert (l <> l') by congruence.
    unfold Js.getIndex. rewrite setIndex_other by assumption.
    now rewrite (lookup_weaken _ _ _ _ Hold Hsub), Hold.
Qed.

(** What goes wrong with [fromto]: the clone holds the very reference the
    original holds, so a write through the clone's [fromto] is a write to
    the original's. *)
Lemma clone_fromto_is_shared (h h' : gmap loc Js.object) (g g' : GeometryType.t) :
  GeometryType.clone h g = Ok (h', g') ->
  GeometryType.fromto g' = GeometryType.fromto g.
Proof.
  unfold GeometryType.clone.
  destruct (GeometryType.cloneSize h (GeometryType.size g)) as [h1 size'].
  destruct (GeometryType.cloneArray h1 (GeometryType.meshScale g)) as [[h2 ms']|]; [|discriminate].
  destruct (GeometryType.cloneArray h2 (GeometryType.inlineScale g)) as [[h3 is']|]; [|discriminate].
  now intros [= <- <-].
Qed.

Definition capsuleStore : gmap loc Js.object :=
  <[2 := Js.Obj [("radius", Js.Num 0.25%float); ("length", Js.Num 0.5%float)]]>
  (<[1 := Js.Arr [Js.Num 0; Js.Num 0; Js.Num 0; Js.Num 0; Js.Num 0; Js.Num 1]%float]> ∅).

Definition capsule : GeometryType.t :=
  GeometryType.mk "capsule" (Js.Ref 2) None None (Js.Ref 1) None None.

(** C5 at a capsule given by [fromto]: the clone's [size] is a new record
    (location 3), so writing [cloned.size.radius] leaves the original's
    radius at 0.25; but the clone's [fromto] is the original's array
    (location 1), so after [cloned.fromto[0] = 5] the original's [fromto[0]]
    reads 5. *)
Theorem clone_shares_fromto :
  exists h' cloned,
    GeometryType.clone capsuleStore capsule = Ok (h', cloned) /\
    GeometryType.size cloned = Js.Ref 3 /\
    Js.getProp (Js.setProp 3 "radius" (Js.Num 9) h') 2 "radius" = Js.Num 0.25 /\
    GeometryType.fromto capsule = Js.Ref 1 /\
    GeometryType.fromto cloned = Js.Ref 1 /\
    Js.getIndex h' 1 0 = Js.Num 0 /\
    Js.getIndex (Js.setIndex 1 0 (Js.Num 5) h') 1 0 = Js.Num 5.
Proof.
  eexists _, _. split; [vm_compute; reflexivity|].
  repeat split; vm_compute; reflexivity.
Qed.

(** ** Ground-plane injection *)

Section FirstMatch.
Variable p : Dom.node -> bool.
Variable f : Dom.node -> Dom.node.
Variable tag : string.
(** [p] looks at the tag and the attributes only, and [f] keeps both. *)
Hypothesis p_shallow : forall t a cs cs', p (Dom.Element t a cs) = p (Dom.Element t a cs').
Hypothesis p_after_f : forall x, p x = true -> p (f x) = true.

Lemma findFirst_hit (n : Dom.node) : p n = true -> Dom.findFirst p n = Some n.
Proof. intros H. destruct n; simpl; now rewrite H. Qed.

Lemma findFirst_satisfies (n x : Dom.node) : Dom.findFirst p n = Some x -> p x = true.
Proof.
  revert x. induction n as [t a cs IH|d|d] using Dom.node_rect'; intros x.
  - rewrite Dom.findFirst_Element. destruct (p (Dom.Element t a cs)) eqn:E.
    + now intros [= <-].
    + clear E. induction IH as [|c r Hc _ IHr]; simpl; [discriminate|].
      destruct (Dom.findFirst p c) eqn:Ec; [intros [= <-]; auto | exact IHr].
  - simpl. destruct (p (Dom.Text d)) eqn:E; [now intros [= <-] | discriminate].
  - simpl. destruct (p (Dom.Comment d)) eqn:E; [now intros [= <-] | discriminate].
Qed.

(** The in-place change of the first match, seen from outside: it happens
    exactly when there is a match, the changed node is the new first match,
    and the count of every tag moves by what the change adds. *)
Definition updateFirst_agrees (n : Dom.node) : Prop :=
  (Dom.findFirst p n = None -> Dom.updateFirst p f n = None) /\
  (forall x, Dom.findFirst p n = Some x ->
     exists n', Dom.updateFirst p f n = Some n' /\
                Dom.findFirst p n' = Some (f x) /\
                Dom.countTag tag n' + Dom.countTag tag x =
                Dom.countTag tag n + Dom.countTag tag (f x)).

Lemma updateFirstIn_agrees (cs : list Dom.node) :
  Forall updateFirst_agrees cs ->
  (Dom.findFirstIn p cs = None -> Dom.updateFirstIn p f cs = None) /\
  (forall x, Dom.findFirstIn p cs = Some x ->
     exists cs', Dom.updateFirstIn p f cs = Some cs' /\
                 Dom.findFirstIn p cs' = Some (f x) /\
                 Dom.countTagIn tag cs' + Dom.countTag tag x =
                 Dom.countTagIn tag cs + Dom.countTag tag (f x)).
Proof.
  induction 1 as [|c r [Hnone Hsome] _ [IHnone IHsome]]; simpl.
  - split; [reflexivity | discriminate].
  - destruct (Dom.findFirst p c) as [y|] eqn:Ec.
    + split; [discriminate|]. intros x [= <-].
      destruct (Hsome y eq_refl) as (c' & Hu & Hf & Hcount).
      exists (c' :: r). rewrite Hu. simpl. rewrite Hf.
      repeat split; auto. lia.
    + rewrite (Hnone eq_refl). split.
      * intros Hr. now rewrite (IHnone Hr).
      * intros x Hx. destruct (IHsome x Hx) as (r' & Hu & Hf & Hcount).
        exists (c :: r'). rewrite Hu. simpl. rewrite Ec, Hf.
        repeat split; auto. lia.
Qed.

Lemma updateFirst_agrees_all (n : Dom.node) : updateFirst_agrees n.
Proof.
  induction n as [t a cs IH|d|d] using Dom.node_rect'; unfold updateFirst_agrees.
  - rewrite Dom.findFirst_Element, Dom.updateFirst_Element.
    destruct (p (Dom.Element t a cs)) eqn:E.
    + split; [discriminate|]. intros x [= <-].
      exists (f (Dom.Element t a cs)).
      split; [reflexivity|]. split; [apply findFirst_hit, p_after_f, E | lia].
    + destruct (updateFirstIn_agrees cs IH) as [Hnone Hsome]. split.
      * intros Hn. now rewrite (Hnone Hn).
      * intros x Hx. destruct (Hsome x Hx) as (cs' & Hu & Hf & Hcount).
        exists (Dom.Element t a cs'). rewrite Hu. split; [reflexivity|].
        rewrite Dom.findFirst_Element, (p_shallow t a cs' cs), E.
        split; [assumption|]. rewrite !Dom.countTag_Element. lia.
  - simpl. destruct (p (Dom.Text d)) eqn:E.
    + split; [discriminate|]. intros x [= <-]. exists (f (Dom.Text d)).
      split; [reflexivity|]. split; [apply findFirst_hit, p_after_f, E | simpl; lia].
    + split; [reflexivity | discriminate].
  - simpl. destruct (p (Dom.Comment d)) eqn:E.
    + split; [discriminate|]. intros x [= <-]. exists (f (Dom.Comment d)).
      split; [reflexivity|]. split; [apply findFirst_hit, p_after_f, E | simpl; lia].
    + split; [reflexivity | discriminate].
Qed.

End FirstMatch.

Lemma insertGround_children (g : Dom.node) t a cs :
  MujocoSimulationManager.insertGround g (Dom.Element t a cs) = Dom.Element t a (g :: cs).
Proof. destruct cs; reflexivity. Qed.

Lemma matches_worldbody_is_element (n : Dom.node) :
  Dom.matches MujocoSimulationManager.worldbodySelector n = true ->
  exists a cs, n = Dom.Element "worldbody" a cs.
Proof.
  destruct n as [t a cs|d|d]; simpl; try discriminate.
  rewrite andb_true_r. intros H%String.eqb_eq. subst. eauto.
Qed.

Lemma groundGeom_is_geom (numberToString : float -> string) (y : float) :
  exists attrs, MujocoSimulationManager.groundGeom numberToString y
                = Dom.Element "geom" attrs [].
Proof. eexists. reflexivity. Qed.

(** C1: [addGroundPlane] on a document [doc = parseFromString xmlContent].
    Without a [worldbody], or with a [geom] of type [plane] below the first
    [worldbody], the text is returned as it came.  Otherwise the text
    returned is the serialization of [doc] with one more node: a childless
    [geom] named [ground], of type [plane], at [0 0 y] with [y] the height of
    the rendered ground (0 when there is none), placed in front of the
    children of that [worldbody]; so the number of [geom] elements grows by
    exactly one and the number of elements of any other name stays. *)
Theorem addGroundPlane_injects_one_plane
    (parseFromString : string -> Dom.node) (serializeToString : Dom.node -> string)
    (numberToString : float -> string)
    (sm : MujocoSimulationManager.SceneManager) (xmlContent : string) :
  let doc := parseFromString xmlContent in
  let ground :=
    MujocoSimulationManager.groundGeom numberToString
      (MujocoSimulationManager.threeGroundY sm) in
  let result :=
    MujocoSimulationManager.addGroundPlane parseFromString serializeToString
      numberToString sm xmlContent in
  (Dom.querySelectorDoc MujocoSimulationManager.worldbodySelector doc = None ->
   result = xmlContent) /\
  (forall worldbody plane,
     Dom.querySelectorDoc MujocoSimulationManager.worldbodySelector doc = Some worldbody ->
     Dom.querySelector MujocoSimulationManager.planeSelector worldbody = Some plane ->
     result = xmlContent) /\
  (forall worldbody,
     Dom.querySelectorDoc MujocoSimulationManager.worldbodySelector doc = Some worldbody ->
     Dom.querySelector MujocoSimulationManager.planeSelector worldbody = None ->
     exists attrs children doc',
       worldbody = Dom.Element "worldbody" attrs children /\
       result = serializeToString doc' /\
       Dom.querySelectorDoc MujocoSimulationManager.worldbodySelector doc'
         = Some (Dom.Element "worldbody" attrs (ground :: children)) /\
       (forall t, Dom.countTag t doc' =
                  Dom.countTag t doc + (if String.eqb "geom" t then 1 else 0))) /\
  (Dom.getAttribute "name" ground = Some "ground" /\
   Dom.getAttribute "type" ground = Some "plane" /\
   Dom.getAttribute "pos" ground
     = Some ("0 0 " +:+ numberToString (MujocoSimulationManager.threeGroundY sm)) /\
   Dom.childNodesOf ground = []) /\
  (forall position,
     MujocoSimulationManager.groundPlane sm = Some position ->
     MujocoSimulationManager.threeGroundY sm = Vector3.y position) /\
  (MujocoSimulationManager.groundPlane sm = None ->
   MujocoSimulationManager.threeGroundY sm = 0%float).
Proof.
  cbv zeta. unfold MujocoSimulationManager.addGroundPlane.
  set (doc := parseFromString xmlContent).
  set (ground := MujocoSimulationManager.groundGeom numberToString
                   (MujocoSimulationManager.threeGroundY sm)).
  split; [|split; [|split; [|split; [|split]]]].
  - intros ->. reflexivity.
  - intros wb plane -> ->. reflexivity.
  - intros wb Hwb Hplane. rewrite Hwb, Hplane.
    pose proof (findFirst_satisfies _ _ _ Hwb) as Hp.
    destruct (matches_worldbody_is_element wb Hp) as (attrs & children & ->).
    assert (Hshallow : forall t a cs cs',
      Dom.matches MujocoSimulationManager.worldbodySelector (Dom.Element t a cs) =
      Dom.matches MujocoSimulationManager.worldbodySelector (Dom.Element t a cs'))
      by reflexivity.
    assert (Hafter : forall x,
      Dom.matches MujocoSimulationManager.worldbodySelector x = true ->
      Dom.matches MujocoSimulationManager.worldbodySelector
        (MujocoSimulationManager.insertGround ground x) = true).
    { intros x Hx. destruct (matches_worldbody_is_element x Hx) as (a & cs & ->).
      now rewrite insertGround_children. }
    exists attrs, children.
    destruct (updateFirst_agrees_all _ (MujocoSimulationManager.insertGround ground)
                "geom" Hshallow Hafter doc) as [_ Hsome].
    destruct (Hsome _ Hwb) as (doc' & Hu & Hfirst & _).
    exists doc'. unfold Dom.querySelectorDoc in *. rewrite Hu.
    split; [reflexivity|]. split; [reflexivity|].
    split; [now rewrite Hfirst, insertGround_children|].
    intros t.
    destruct (updateFirst_agrees_all _ (MujocoSimulationManager.insertGround ground)
                t Hshallow Hafter doc) as [_ Hsome'].
    destruct (Hsome' _ Hwb) as (doc'' & Hu' & _ & Hcount).
    rewrite Hu in Hu'. injection Hu' as <-.
    rewrite insertGround_children, !Dom.countTag_Element in Hcount.
    change (Dom.countTagIn t (ground :: children))
      with (Dom.countTag t ground + Dom.countTagIn t children) in Hcount.
    destruct (groundGeom_is_geom numberToString (MujocoSimulationManager.threeGroundY sm))
      as [gattrs Hg].
    fold ground in Hg. rewrite Hg, Dom.countTag_Element in Hcount.
    change (Dom.countTagIn t []) with 0 in Hcount.
    lia.
  - repeat split; reflexivity.
  - intros position Hg. unfold MujocoSimulationManager.threeGroundY. now rewrite Hg.
  - intros Hg. unfold MujocoSimulationManager.threeGroundY. now rewrite Hg.
Qed.

(** The scenario of the specification: one sphere in a body, no plane. *)
Definition sphereDocument : Dom.node :=
  Dom.Element "mujoco" []
    [ Dom.Element "worldbody" []
        [ Dom.Element "body" [("name", "ball")]
            [ Dom.Element "geom" [("type", "sphere"); ("size", "0.1")] [] ] ] ].

Definition emptyScene : MujocoSimulationManager.SceneManager :=
  MujocoSimulationManager.mkSceneManager 0 None None None None.

Lemma addGroundPlane_injects_one_plane_witness :
  Dom.countTag "geom" sphereDocument = 1 /\
  exists doc',
    Dom.querySelectorDoc MujocoSimulationManager.worldbodySelector doc'
      = Some (Dom.Element "worldbody" []
                [ MujocoSimulationManager.groundGeom (fun _ => "0") 0%float;
                  Dom.Element "body" [("name", "ball")]
                    [ Dom.Element "geom" [("type", "sphere"); ("size", "0.1")] [] ] ]) /\
    Dom.countTag "geom" doc' = 2.
Proof.
  split; [reflexivity|].
  destruct (addGroundPlane_injects_one_plane (fun _ => sphereDocument) (fun _ => "")
              (fun _ => "0") emptyScene "") as (_ & _ & H & _).
  destruct (H (Dom.Element "worldbody" []
                 [ Dom.Element "body" [("name", "ball")]
                     [ Dom.Element "geom" [("type", "sphere"); ("size", "0.1")] [] ] ])
              eq_refl eq_refl) as (attrs & children & doc' & Hwb & _ & Hfirst & Hcount).
  injection Hwb as <- <-.
  exists doc'. split; [exact Hfirst|]. now rewrite Hcount.
Defined.

(** ** Clearing the staged files *)

Lemma unlink_snoc q n fs c :
  FS.lookup (q ++ [n]) fs = Some (FS.File c) ->
  FS.unlink (q ++ [n]) fs = Ok (FS.alterAt (FS.dropEntry n) q fs).
Proof.
  intros H. rewrite <- FS.removeAt_snoc. unfold FS.unlink.
  remember (q ++ [n]) as p eqn:E. destruct p; [destruct q; discriminate|].
  now rewrite H.
Qed.

Lemma rmdir_snoc q n fs :
  FS.lookup (q ++ [n]) fs = Some (FS.Dir []) ->
  FS.rmdir (q ++ [n]) fs = Ok (FS.alterAt (FS.dropEntry n) q fs).
Proof.
  intros H. rewrite <- FS.removeAt_snoc. unfold FS.rmdir.
  remember (q ++ [n]) as p eqn:E. destruct p; [destruct q; discriminate|].
  now rewrite H.
Qed.

Lemma validName_not_dot n :
  FS.validName n = true -> MujocoSimulationManager.isDotEntry n = false.
Proof.
  unfold FS.validName, MujocoSimulationManager.isDotEntry.
  destruct (String.eqb n "."), (String.eqb n ".."); simpl; congruence.
Qed.

(** What [removeDirectory] is to do with a bound of [bound] nested
    directories: a directory whose names are valid and that is not deeper
    than the bound disappears from its parent, and nothing else changes. *)
Definition removesDirectories (bound : nat) : Prop :=
  forall q n es fs,
    FS.lookup (q ++ [n]) fs = Some (FS.Dir es) ->
    FS.validNamesIn es = true ->
    FS.depth (FS.Dir es) <= bound ->
    MujocoSimulationManager.removeDirectory bound (q ++ [n]) fs
      = Some (FS.alterAt (FS.dropEntry n) q fs).

Lemma removeEntryAt_first (bound : nat) p n c es' fs :
  removesDirectories bound ->
  FS.lookup p fs = Some (FS.Dir ((n, c) :: es')) ->
  FS.validNames c = true ->
  FS.depth c <= bound ->
  MujocoSimulationManager.removeEntryAt
    (MujocoSimulationManager.removeDirectory bound) (p ++ [n]) fs
  = Some (true, FS.alterAt (fun _ => FS.Dir es') p fs).
Proof.
  intros IH Hp Hvalid Hdepth.
  assert (Hc : FS.lookup (p ++ [n]) fs = Some c).
  { rewrite FS.lookup_app, Hp. simpl. now rewrite String.eqb_refl. }
  assert (Hdrop : FS.alterAt (FS.dropEntry n) p fs = FS.alterAt (fun _ => FS.Dir es') p fs).
  { apply (FS.alterAt_ext_at _ _ p fs _ Hp). simpl. now rewrite String.eqb_refl. }
  unfold MujocoSimulationManager.removeEntryAt, FS.stat. rewrite Hc.
  destruct c as [content|ces]; simpl FS.isDir; cbv iota.
  - rewrite (unlink_snoc p n fs content Hc). now rewrite Hdrop.
  - rewrite (IH p n ces fs Hc); [now rewrite Hdrop | | assumption].
    now rewrite <- FS.validNames_Dir.
Qed.

Lemma validNamesIn_cons n c es :
  FS.validNamesIn ((n, c) :: es) = true ->
  FS.validName n = true /\ FS.validNames c = true /\ FS.validNamesIn es = true.
Proof. simpl. intros H. apply andb_prop in H as [H H3]. apply andb_prop in H as [H1 H2]. auto. Qed.

Lemma removeEach_all (bound : nat) p :
  removesDirectories bound ->
  forall es fs,
    FS.lookup p fs = Some (FS.Dir es) ->
    FS.validNamesIn es = true ->
    FS.depthIn es <= bound ->
    MujocoSimulationManager.removeEach
      (MujocoSimulationManager.removeDirectory bound) p (map fst es) fs
    = Some (true, FS.alterAt (fun _ => FS.Dir []) p fs).
Proof.
  intros IH. induction es as [|[n c] es' IHes]; intros fs Hp Hvalid Hdepth.
  - simpl. now rewrite (FS.alterAt_id_at (fun _ => FS.Dir []) p fs _ Hp).
  - apply validNamesIn_cons in Hvalid as (Hn & Hc & Hes').
    simpl in Hdepth. simpl map. simpl MujocoSimulationManager.removeEach.
    rewrite (validName_not_dot n Hn).
    rewrite (removeEntryAt_first bound p n c es' fs IH Hp Hc) by lia.
    rewrite IHes; [| | assumption | lia].
    + now rewrite FS.alterAt_alterAt.
    + now rewrite FS.lookup_alterAt, Hp.
Qed.

Lemma clearEach_all (bound : nat) :
  removesDirectories bound ->
  forall es fs,
    FS.lookup ["working"] fs = Some (FS.Dir es) ->
    FS.validNamesIn es = true ->
    FS.depthIn es <= bound ->
    MujocoSimulationManager.clearEach
      (MujocoSimulationManager.removeDirectory bound) (map fst es) fs
    = Some (FS.alterAt (fun _ => FS.Dir []) ["working"] fs).
Proof.
  intros IH. induction es as [|[n c] es' IHes]; intros fs Hp Hvalid Hdepth.
  - rewrite (FS.alterAt_id_at (fun _ => FS.Dir []) ["working"] fs _ Hp); reflexivity.
  - apply validNamesIn_cons in Hvalid as (Hn & Hc & Hes').
    simpl in Hdepth. simpl map. simpl MujocoSimulationManager.clearEach.
    rewrite (validName_not_dot n Hn).
    assert (Hdc : FS.depth c <= bound) by lia.
    pose proof (removeEntryAt_first bound ["working"] n c es' fs IH Hp Hc Hdc) as Hfirst.
    change (["working"] ++ [n]) with ["working"; n] in Hfirst. rewrite Hfirst.
    rewrite IHes; [| | assumption | lia].
    + now rewrite FS.alterAt_alterAt.
    + now rewrite FS.lookup_alterAt, Hp.
Qed.

(** [removeDirectory] removes any directory that fits the bound. *)
Lemma removeDirectory_removes (bound : nat) : removesDirectories bound.
Proof.
  induction bound as [|b IH]; intros q n es fs Hl Hvalid Hdepth.
  - rewrite FS.depth_Dir in Hdepth. lia.
  - rewrite FS.depth_Dir in Hdepth.
    simpl MujocoSimulationManager.removeDirectory.
    unfold FS.readdir. rewrite Hl.
    change (MujocoSimulationManager.removeEach
              (MujocoSimulationManager.removeDirectory b) (q ++ [n])
              ("." :: ".." :: map fst es) fs)
      with (MujocoSimulationManager.removeEach
              (MujocoSimulationManager.removeDirectory b) (q ++ [n]) (map fst es) fs).
    rewrite (removeEach_all b (q ++ [n]) IH es fs Hl Hvalid) by lia.
    rewrite rmdir_snoc by now rewrite FS.lookup_alterAt, Hl.
    now rewrite FS.dropEntry_after_alter.
Qed.

Lemma get_depth_valid n (es : list (string * FS.entry)) c :
  JsMap.get n es = Some c ->
  FS.depth c <= FS.depthIn es /\ (FS.validNamesIn es = true -> FS.validNames c = true).
Proof.
  induction es as [|[k e] r IH]; simpl; [discriminate|].
  destruct (String.eqb k n).
  - intros [= ->]. split; [lia|]. intros H. apply andb_prop in H as [H _].
    now apply andb_prop in H as [_ H].
  - intros H. destruct (IH H) as [Hd Hv]. split; [lia|].
    intros Hall. apply andb_prop in Hall as [_ Hall]. auto.
Qed.

Lemma lookup_depth_valid p fs e :
  FS.lookup p fs = Some e ->
  FS.depth e <= FS.depth fs /\ (FS.validNames fs = true -> FS.validNames e = true).
Proof.
  revert fs. induction p as [|n p IH]; intros fs; simpl.
  - intros [= ->]. auto.
  - destruct fs as [c|es]; [discriminate|].
    destruct (JsMap.get n es) as [c|] eqn:E; [|discriminate].
    intros H. destruct (IH c H) as [Hd Hv].
    destruct (get_depth_valid n es c E) as [Hd' Hv'].
    rewrite FS.depth_Dir, FS.validNames_Dir. split; [lia | auto].
Qed.

Lemma validNamesIn_alterKey n f es :
  (forall c, JsMap.get n es = Some c -> FS.validNames (f c) = true) ->
  FS.validNamesIn es = true -> FS.validNamesIn (FS.alterKey n f es) = true.
Proof.
  induction es as [|[k e] r IH]; simpl; [auto|].
  destruct (String.eqb k n); simpl.
  - intros Hf H. apply andb_prop in H as [H H3]. apply andb_prop in H as [H1 H2].
    rewrite H1, H3, (Hf e eq_refl). reflexivity.
  - intros Hf H. apply andb_prop in H as [H H3]. rewrite H. simpl. auto.
Qed.

Lemma validNames_alterAt f p fs :
  (forall e, FS.lookup p fs = Some e -> FS.validNames (f e) = true) ->
  FS.validNames fs = true -> FS.validNames (FS.alterAt f p fs) = true.
Proof.
  revert fs. induction p as [|n p IH]; intros fs; simpl.
  - intros Hf _. now apply Hf.
  - destruct fs as [c|es]; [auto|]. intros Hf Hvalid.
    rewrite FS.validNames_Dir in *. apply validNamesIn_alterKey; [|assumption].
    intros c Hc. apply IH.
    + intros e He. apply Hf. now rewrite Hc.
    + pose proof (get_depth_valid n es c Hc) as [_ Hv]. auto.
Qed.

(** ** The physics bridge: what every reachable world satisfies *)

Module MSM := MujocoSimulationManager.

Definition apiOf (w : MSM.World) : option MSM.Api :=
  option_map MSM.api (MSM.mujoco (MSM.manager w)).

(** The engine module decides once and for all which of the two loading
    paths is taken, so the fields of the other path stay null; the native
    objects the manager holds are alive and distinct; the names in the file
    system are valid. *)
Record consistent (w : MSM.World) : Prop := mkConsistent {
  old_api : MSM.isOldAPI (MSM.manager w) = true -> apiOf w = Some MSM.MjDataApi;
  sim_api : MSM.simulation (MSM.manager w) <> None -> apiOf w = Some MSM.SimulationApi;
  data_api : MSM.data (MSM.manager w) <> None -> MSM.isOldAPI (MSM.manager w) = true;
  model_live : forall m, MSM.model (MSM.manager w) = Some m -> MSM.model_handle m ∈ MSM.live w;
  data_live : forall d, MSM.data (MSM.manager w) = Some d -> MSM.data_handle d ∈ MSM.live w;
  sim_live : forall s, MSM.simulation (MSM.manager w) = Some s -> MSM.sim_handle s ∈ MSM.live w;
  model_data_distinct : forall m d,
    MSM.model (MSM.manager w) = Some m -> MSM.data (MSM.manager w) = Some d ->
    MSM.model_handle m <> MSM.data_handle d;
  fs_valid : forall mj, MSM.mujoco (MSM.manager w) = Some mj -> FS.validNames (MSM.FS mj) = true
}.

(** The fields [consistent] reads, with the data and the simulation reduced
    to their handles. *)
Definition core (w : MSM.World) :=
  (MSM.mujoco (MSM.manager w), MSM.model (MSM.manager w),
   option_map MSM.sim_handle (MSM.simulation (MSM.manager w)),
   option_map MSM.data_handle (MSM.data (MSM.manager w)),
   MSM.isOldAPI (MSM.manager w), MSM.live w).

Lemma option_map_None {A B} (f : A -> B) (o : option A) : option_map f o = None <-> o = None.
Proof. destruct o; simpl; split; congruence. Qed.

Lemma consistent_core (w w' : MSM.World) : core w' = core w -> consistent w -> consistent w'.
Proof.
  unfold core. intros [= Hmj Hmodel Hsim Hdata Hold Hlive] [H1 H2 H3 H4 H5 H6 H7 H8].
  constructor; unfold apiOf in *; rewrite ?Hmj, ?Hmodel, ?Hold, ?Hlive; auto.
  - intros Hs. apply H2. intros E. apply Hs. apply (option_map_None MSM.sim_handle).
    rewrite Hsim, E. reflexivity.
  - intros Hd. apply H3. intros E. apply Hd. apply (option_map_None MSM.data_handle).
    rewrite Hdata, E. reflexivity.
  - intros d Hd. rewrite Hd in Hdata. simpl in Hdata.
    destruct (MSM.data (MSM.manager w)) as [d0|] eqn:E; [|discriminate].
    injection Hdata as ->. now apply H5.
  - intros s Hs. rewrite Hs in Hsim. simpl in Hsim.
    destruct (MSM.simulation (MSM.manager w)) as [s0|] eqn:E; [|discriminate].
    injection Hsim as ->. now apply H6.
  - intros m d Hm Hd. rewrite Hd in Hdata. simpl in Hdata.
    destruct (MSM.data (MSM.manager w)) as [d0|] eqn:E; [|discriminate].
    injection Hdata as ->. now apply H7.
Qed.

(** A statement keeps the invariant whatever way it ends. *)
Definition preserves {A} (c : MSM.World -> MSM.outcome A) : Prop :=
  forall w, consistent w -> forall w', MSM.worldOf (c w) = Some w' -> consistent w'.

Lemma preserves_bind {A B} (c : MSM.World -> MSM.outcome A)
    (k : A -> MSM.World -> MSM.outcome B) :
  preserves c -> (forall a, preserves (k a)) ->
  preserves (fun w => MSM.bind (c w) k).
Proof.
  intros Hc Hk w Hw w'. specialize (Hc w Hw).
  destruct (c w) as [a w1|msg w1|]; simpl.
  - apply (Hk a w1). now apply Hc.
  - intros [= <-]. now apply Hc.
  - discriminate.
Qed.

Lemma preserves_run (f : MSM.World -> MSM.World) :
  (forall w, core (f w) = core w) -> preserves (MSM.run f).
Proof. intros Hf w Hw w' [= <-]. eapply consistent_core; eauto. Qed.

Lemma core_updObject l f w : core (MSM.updObject l f w) = core w.
Proof. reflexivity. Qed.

Lemma core_detach l w : core (MSM.detach l w) = core w.
Proof.
  unfold MSM.detach. destruct (MSM.objects w !! l) as [o|]; [|reflexivity].
  destruct (Object3D.parent o); reflexivity.
Qed.

Lemma core_startSimulation w : core (MSM.startSimulation w) = core w.
Proof.
  unfold MSM.startSimulation, MSM.clearHighlight, MSM.setDragControls,
    MSM.setDragEnabled, MSM.hideOriginal, MSM.showRoot.
  repeat (match goal with |- context [match ?x with _ => _ end] => destruct x end;
          try reflexivity).
Qed.

Lemma core_pauseSimulation w : core (MSM.pauseSimulation w) = core w.
Proof.
  unfold MSM.pauseSimulation, MSM.setDragControls, MSM.hideRoot, MSM.setDragEnabled.
  repeat (match goal with |- context [match ?x with _ => _ end] => destruct x end;
          try reflexivity).
Qed.

(** *** Unload *)

Definition workingCleared (w : MSM.World) : Prop :=
  forall mj name,
    MSM.mujoco (MSM.manager w) = Some mj ->
    FS.lookup ["working"; name] (MSM.FS mj) = None.

(** The state the specification calls [unloaded]. *)
Definition unloaded (w : MSM.World) : Prop :=
  MSM.model (MSM.manager w) = None /\
  MSM.data (MSM.manager w) = None /\
  MSM.simulation (MSM.manager w) = None /\
  MSM.mujocoRoot (MSM.manager w) = None /\
  MSM.dragStateManager (MSM.manager w) = None /\
  workingCleared w /\
  MSM.isLoaded (MSM.manager w) = false /\
  MSM.isSimulating (MSM.manager w) = false /\
  MSM.paused (MSM.manager w) = true.

Lemma release_live h w :
  h ∈ MSM.live w ->
  MSM.release h w = MSM.Return tt (MSM.world_set_live (MSM.live w ∖ {[h]}) w).
Proof. intros H. unfold MSM.release. now rewrite decide_True. Qed.

Lemma releaseEngine_returns (w : MSM.World) :
  consistent w ->
  exists w',
    MSM.releaseEngine w = MSM.Return tt w' /\
    consistent w' /\
    MSM.model (MSM.manager w') = None /\
    MSM.data (MSM.manager w') = None /\
    MSM.simulation (MSM.manager w') = None /\
    MSM.mujoco (MSM.manager w') = MSM.mujoco (MSM.manager w).
Proof.
  intros [H1 H2 H3 H4 H5 H6 H7 H8]. unfold MSM.releaseEngine.
  destruct w as [[mj model sim st data bodies lights root dsm om paused t loaded simulating old] sm objs live].
  simpl in *. unfold apiOf in *; simpl in *.
  destruct old.
  - assert (Hsim : sim = None).
    { destruct sim; [|reflexivity]. rewrite H1 in H2 by reflexivity.
      discriminate H2. congruence. }
    subst sim.
    destruct data as [d|], model as [m|]; simpl.
    + rewrite release_live by (simpl; auto). simpl.
      rewrite release_live by
        (simpl; apply elem_of_difference; split;
         [auto | rewrite elem_of_singleton; apply (H7 m d); reflexivity]).
      eexists. split; [reflexivity|]. simpl.
      split; [|auto]. constructor; unfold apiOf; simpl; auto; try congruence; try discriminate.
    + rewrite release_live by (simpl; auto). simpl.
      eexists. split; [reflexivity|]. simpl.
      split; [|auto]. constructor; unfold apiOf; simpl; auto; try congruence; try discriminate.
    + rewrite release_live by (simpl; auto). simpl.
      eexists. split; [reflexivity|]. simpl.
      split; [|auto]. constructor; unfold apiOf; simpl; auto; try congruence; try discriminate.
    + eexists. split; [reflexivity|]. simpl.
      split; [|auto]. constructor; unfold apiOf; simpl; auto; try congruence; try discriminate.
  - assert (Hdata : data = None).
    { destruct data; [|reflexivity]. discriminate H3. congruence. }
    subst data.
    destruct sim as [s|]; simpl.
    + rewrite release_live by (simpl; auto). simpl.
      eexists. split; [reflexivity|]. simpl.
      split; [|auto]. constructor; unfold apiOf; simpl; auto; try congruence; try discriminate.
    + eexists. split; [reflexivity|]. simpl.
      split; [|auto]. constructor; unfold apiOf; simpl; auto; try congruence; try discriminate.
Qed.

Arguments FS.lookup : simpl never.
Arguments FS.alterAt : simpl never.

Lemma clearVFS_returns (w : MSM.World) :
  consistent w ->
  exists mj',
    MSM.clearVFS w = MSM.Return tt (MSM.upd (MSM.set_mujoco mj') w) /\
    (forall m name, mj' = Some m -> FS.lookup ["working"; name] (MSM.FS m) = None) /\
    (forall m, mj' = Some m -> FS.validNames (MSM.FS m) = true) /\
    option_map MSM.api mj' = apiOf w.
Proof.
  intros Hc. pose proof (fs_valid w Hc) as Hvalid.
  unfold MSM.clearVFS, apiOf.
  destruct w as [[mj model sim st data bodies lights root dsm om paused t loaded simulating old] sm objs live].
  simpl in *.
  destruct mj as [[api fs]|]; simpl.
  - specialize (Hvalid _ eq_refl). simpl in Hvalid.
    unfold FS.readdir.
    destruct (FS.lookup ["working"] fs) as [[content|es]|] eqn:Hw.
    + exists (Some (MSM.mkMujoco api fs)). split; [reflexivity|].
      split; [|split; [|reflexivity]].
      * intros m name [= <-]. simpl MSM.FS.
        change ["working"; name] with (["working"] ++ [name]).
        now rewrite FS.lookup_app, Hw.
      * now intros m [= <-].
    + destruct (lookup_depth_valid _ _ _ Hw) as [Hdepth Hv].
      rewrite FS.depth_Dir in Hdepth. rewrite FS.validNames_Dir in Hv.
      change (MSM.clearEach (MSM.removeDirectory (FS.depth fs))
                ("." :: ".." :: map fst es) fs)
        with (MSM.clearEach (MSM.removeDirectory (FS.depth fs)) (map fst es) fs).
      rewrite (clearEach_all (FS.depth fs) (removeDirectory_removes _) es fs Hw (Hv Hvalid))
        by lia.
      exists (Some (MSM.mkMujoco api (FS.alterAt (fun _ => FS.Dir []) ["working"] fs))).
      split; [reflexivity|]. split; [|split; [|reflexivity]].
      * intros m name [= <-]. simpl MSM.FS.
        change ["working"; name] with (["working"] ++ [name]).
        now rewrite FS.lookup_app, FS.lookup_alterAt, Hw.
      * intros m [= <-]. simpl MSM.FS. now apply validNames_alterAt.
    + exists (Some (MSM.mkMujoco api fs)). split; [reflexivity|].
      split; [|split; [|reflexivity]].
      * intros m name [= <-]. simpl MSM.FS.
        change ["working"; name] with (["working"] ++ [name]).
        now rewrite FS.lookup_app, Hw.
      * now intros m [= <-].
  - exists None. split; [reflexivity|]. repeat split; discriminate.
Qed.

Lemma clearDrag_fields (w : MSM.World) :
  MSM.dragStateManager (MSM.manager (MSM.clearDrag w)) = None /\
  core (MSM.clearDrag w) = core w /\
  MSM.mujocoRoot (MSM.manager (MSM.clearDrag w)) = MSM.mujocoRoot (MSM.manager w) /\
  MSM.data (MSM.manager (MSM.clearDrag w)) = MSM.data (MSM.manager w) /\
  MSM.simulation (MSM.manager (MSM.clearDrag w)) = MSM.simulation (MSM.manager w).
Proof.
  unfold MSM.clearDrag. destruct (MSM.dragStateManager (MSM.manager w)) as [dsm|] eqn:E.
  - destruct (MSM.arrow dsm) as [a|]; [|repeat split; reflexivity].
    unfold MSM.detach; simpl.
    destruct (MSM.objects w !! a) as [o|]; [|repeat split; reflexivity].
    destruct (Object3D.parent o); repeat split; reflexivity.
  - repeat split; auto.
Qed.

Lemma clearThree_fields (w : MSM.World) :
  MSM.mujocoRoot (MSM.manager (MSM.clearThree w)) = None /\
  core (MSM.clearThree w) = core w /\
  MSM.dragStateManager (MSM.manager (MSM.clearThree w))
    = MSM.dragStateManager (MSM.manager w) /\
  MSM.data (MSM.manager (MSM.clearThree w)) = MSM.data (MSM.manager w) /\
  MSM.simulation (MSM.manager (MSM.clearThree w)) = MSM.simulation (MSM.manager w).
Proof.
  unfold MSM.clearThree. destruct (MSM.mujocoRoot (MSM.manager w)) as [root|] eqn:E.
  - unfold MSM.detach; simpl.
    destruct (MSM.objects w !! root) as [o|]; [|repeat split; reflexivity].
    destruct (Object3D.parent o); repeat split; reflexivity.
  - repeat split; auto.
Qed.

(** [clearScene] on a consistent world returns, and leaves the world
    unloaded and consistent. *)
Lemma clearScene_returns (w : MSM.World) :
  consistent w ->
  exists w', MSM.clearScene w = MSM.Return tt w' /\ unloaded w' /\ consistent w'.
Proof.
  intros Hc. unfold MSM.clearScene.
  destruct (releaseEngine_returns w Hc) as (w1 & E1 & Hc1 & Hm1 & Hd1 & Hs1 & Hmj1).
  rewrite E1. simpl MSM.bind.
  destruct (clearVFS_returns w1 Hc1) as (mj' & E2 & Hcleared & Hvalid & Hapi).
  rewrite E2. simpl MSM.bind.
  eexists. split; [reflexivity|].
  set (w2 := MSM.upd (MSM.set_mujoco mj') w1).
  assert (Hc2 : consistent w2).
  { destruct Hc1 as [H1 H2 H3 H4 H5 H6 H7 H8].
    constructor; unfold apiOf in *; simpl; try rewrite Hapi; auto. }
  destruct (clearThree_fields w2) as (Hr3 & Hcore3 & Hdsm3 & Hd3 & Hs3).
  destruct (clearDrag_fields (MSM.clearThree w2)) as (Hdsm4 & Hcore4 & Hr4 & Hd4 & Hs4).
  set (w4 := MSM.clearDrag (MSM.clearThree w2)) in *.
  assert (Hcore : core w4 = core w2) by congruence.
  assert (Hcore5 : core (MSM.clearFlags w4) = core w2) by (rewrite <- Hcore; reflexivity).
  unfold core in Hcore. injection Hcore as Emj Emodel _ _ Eold Elive.
  split.
  - unfold unloaded, workingCleared. simpl.
    rewrite Emj, Emodel, Hd4, Hd3, Hs4, Hs3, Hr4, Hr3, Hdsm4. simpl.
    rewrite Hm1, Hd1, Hs1. repeat split; auto.
  - eapply consistent_core; [exact Hcore5 | exact Hc2].
Qed.

(** *** The invariant along a load *)

(** An oracle hands the bridge file systems with valid names only. *)
Definition validOracle (o : MSM.LoadOracle) : Prop :=
  FS.validNames (MSM.FS (MSM.engine o)) = true /\ FS.validNames (MSM.staged o) = true.

Lemma preserves_clearScene : preserves MSM.clearScene.
Proof.
  intros w Hc w'. destruct (clearScene_returns w Hc) as (w1 & E & _ & Hc1).
  rewrite E. now intros [= <-].
Qed.

Lemma preserves_throwsAt f o : preserves (MSM.throwsAt f o).
Proof.
  intros w Hc w'. unfold MSM.throwsAt.
  destruct (MSM.Fault_eqb (MSM.fault o) f); now intros [= <-].
Qed.

Lemma throwsAt_world f o w w' : MSM.worldOf (MSM.throwsAt f o w) = Some w' -> w' = w.
Proof.
  unfold MSM.throwsAt. destruct (MSM.Fault_eqb (MSM.fault o) f); now intros [= <-].
Qed.

Lemma throwsAt_cases f o w :
  MSM.throwsAt f o w = MSM.Return tt w \/
  exists msg, MSM.throwsAt f o w = MSM.Raise msg w.
Proof. unfold MSM.throwsAt. destruct (MSM.Fault_eqb (MSM.fault o) f); eauto. Qed.

Lemma preserves_init o : validOracle o -> preserves (MSM.init o).
Proof.
  intros [Hengine _] w Hc w'. unfold MSM.init.
  destruct (MSM.mujoco (MSM.manager w)) as [mj|] eqn:Emj; [now intros [= <-]|].
  assert (Hc2 : consistent (MSM.upd (MSM.set_mujoco (Some (MSM.engine o))) w)).
  { destruct Hc as [H1 H2 H3 H4 H5 H6 H7 H8]. unfold apiOf in *. rewrite Emj in *.
    constructor; unfold apiOf; simpl; auto.
    - intros Hold. specialize (H1 Hold). discriminate.
    - intros Hsim. specialize (H2 Hsim). discriminate.
    - now intros mj [= <-]. }
  unfold MSM.throwsAt.
  destruct (MSM.Fault_eqb (MSM.fault o) MSM.AtInit); simpl; [now intros [= <-]|].
  destruct (MSM.Fault_eqb (MSM.fault o) MSM.AtMount); now intros [= <-].
Qed.

Lemma preserves_stage o : validOracle o -> preserves (MSM.stage o).
Proof.
  intros [_ Hstaged] w Hc w'. unfold MSM.stage.
  destruct (MSM.mujoco (MSM.manager w)) as [mj|] eqn:Emj; [|now intros [= <-]].
  unfold MSM.throwsAt.
  destruct (MSM.Fault_eqb (MSM.fault o) MSM.AtStage); simpl; intros [= <-]; [assumption|].
  destruct Hc as [H1 H2 H3 H4 H5 H6 H7 H8]. unfold apiOf in *. rewrite Emj in *.
  constructor; unfold apiOf; simpl; auto.
  now intros mj' [= <-].
Qed.

Lemma consistent_new_model (w : MSM.World) ts nb bm :
  consistent w ->
  consistent (MSM.upd (MSM.set_model
    (Some (MSM.mkMjModel (MSM.newNative w).1 ts nb bm))) (MSM.newNative w).2).
Proof.
  intros [H1 H2 H3 H4 H5 H6 H7 H8]. unfold MSM.newNative.
  pose proof (is_fresh (MSM.live w)) as Hfresh.
  constructor; unfold apiOf in *; simpl; auto.
  - intros m [= <-]. simpl. set_solver.
  - intros d Hd. specialize (H5 d Hd). set_solver.
  - intros s Hs. specialize (H6 s Hs). set_solver.
  - intros m d [= <-] Hd. simpl. specialize (H5 d Hd). intros E. rewrite E in Hfresh. auto.
Qed.

Lemma consistent_new_state (w : MSM.World) :
  consistent w ->
  consistent (MSM.upd (MSM.set_state (Some (MSM.newNative w).1)) (MSM.newNative w).2).
Proof.
  intros [H1 H2 H3 H4 H5 H6 H7 H8]. unfold MSM.newNative.
  constructor; unfold apiOf in *; simpl; auto.
  - intros m Hm. specialize (H4 m Hm). set_solver.
  - intros d Hd. specialize (H5 d Hd). set_solver.
  - intros s Hs. specialize (H6 s Hs). set_solver.
Qed.

Lemma consistent_new_simulation (w : MSM.World) arr :
  consistent w -> apiOf w = Some MSM.SimulationApi ->
  consistent (MSM.upd (MSM.set_simulation
    (Some (MSM.mkSimulation (MSM.newNative w).1 arr))) (MSM.newNative w).2).
Proof.
  intros [H1 H2 H3 H4 H5 H6 H7 H8] Hapi. unfold MSM.newNative.
  constructor; unfold apiOf in *; simpl; auto.
  - intros m Hm. specialize (H4 m Hm). set_solver.
  - intros d Hd. specialize (H5 d Hd). set_solver.
  - intros s [= <-]. simpl. set_solver.
Qed.

Lemma consistent_new_data (w : MSM.World) arr :
  consistent w -> apiOf w = Some MSM.MjDataApi ->
  consistent (MSM.upd (fun m => MSM.set_isOldAPI true
    (MSM.set_data (Some (MSM.mkMjData (MSM.newNative w).1 arr)) m)) (MSM.newNative w).2).
Proof.
  intros [H1 H2 H3 H4 H5 H6 H7 H8] Hapi. unfold MSM.newNative.
  pose proof (is_fresh (MSM.live w)) as Hfresh.
  constructor; unfold apiOf in *; simpl; auto.
  - intros m Hm. specialize (H4 m Hm). set_solver.
  - intros d [= <-]. simpl. set_solver.
  - intros s Hs. specialize (H6 s Hs). set_solver.
  - intros m d Hm [= <-]. simpl. specialize (H4 m Hm). intros E. rewrite <- E in Hfresh. auto.
Qed.

Lemma preserves_compileModel o xml : preserves (MSM.compileModel o xml).
Proof.
  intros w Hc w'. unfold MSM.compileModel. cbv zeta.
  destruct (option_map MSM.api (MSM.mujoco (MSM.manager w))) as [[| |]|] eqn:Eapi;
    try (now intros [= <-]).
  - destruct (throwsAt_cases MSM.AtModel o w) as [E|[msg E]]; rewrite E; clear E;
      simpl; [|now intros [= <-]].
    pose proof (consistent_new_model w (MSM.c_timestep (MSM.compile o xml))
                  (MSM.c_nbody (MSM.compile o xml))
                  (MSM.c_body_mass (MSM.compile o xml)) Hc) as Hc3.
    simpl in Hc3.
    match type of Hc3 with consistent ?x => set (w3 := x) in * end.
    assert (Hapi3 : apiOf w3 = Some MSM.SimulationApi) by exact Eapi.
    destruct (throwsAt_cases MSM.AtState o w3) as [E|[msg E]]; rewrite E; clear E;
      simpl; [|now intros [= <-]].
    pose proof (consistent_new_state w3 Hc3) as Hc6. simpl in Hc6.
    match type of Hc6 with consistent ?x => set (w6 := x) in * end.
    assert (Hapi6 : apiOf w6 = Some MSM.SimulationApi) by exact Hapi3.
    destruct (throwsAt_cases MSM.AtSimulation o w6) as [E|[msg E]]; rewrite E; clear E;
      simpl; [|now intros [= <-]].
    pose proof (consistent_new_simulation w6 (MSM.c_arrays (MSM.compile o xml)) Hc6 Hapi6)
      as Hc9.
    simpl in Hc9. now intros [= <-].
  - destruct (throwsAt_cases MSM.AtModel o w) as [E|[msg E]]; rewrite E; clear E;
      simpl; [|now intros [= <-]].
    pose proof (consistent_new_model w (MSM.c_timestep (MSM.compile o xml))
                  (MSM.c_nbody (MSM.compile o xml))
                  (MSM.c_body_mass (MSM.compile o xml)) Hc) as Hc3.
    simpl in Hc3.
    match type of Hc3 with consistent ?x => set (w3 := x) in * end.
    assert (Hapi3 : apiOf w3 = Some MSM.MjDataApi) by exact Eapi.
    destruct (throwsAt_cases MSM.AtState o w3) as [E|[msg E]]; rewrite E; clear E;
      simpl; [|now intros [= <-]].
    pose proof (consistent_new_data w3 (MSM.c_arrays (MSM.compile o xml)) Hc3 Hapi3) as Hc6.
    simpl in Hc6. now intros [= <-].
Qed.

(** Statements that leave the fields read by [consistent] alone. *)
Definition keepsCore {A} (c : MSM.World -> MSM.outcome A) : Prop :=
  forall w w', MSM.worldOf (c w) = Some w' -> core w' = core w.

Lemma keepsCore_preserves {A} (c : MSM.World -> MSM.outcome A) : keepsCore c -> preserves c.
Proof. intros Hk w Hc w' Hw. apply (consistent_core w w'); [now apply Hk | assumption]. Qed.

Lemma keepsCore_bind {A B} (c : MSM.World -> MSM.outcome A)
    (k : A -> MSM.World -> MSM.outcome B) :
  keepsCore c -> (forall a, keepsCore (k a)) -> keepsCore (fun w => MSM.bind (c w) k).
Proof.
  intros Hc Hk w w'. specialize (Hc w).
  destruct (c w) as [a w1|msg w1|]; simpl.
  - intros H. rewrite (Hk a w1 w' H). now apply Hc.
  - intros [= <-]. now apply Hc.
  - discriminate.
Qed.

Lemma keepsCore_run (f : MSM.World -> MSM.World) :
  (forall w, core (f w) = core w) -> keepsCore (MSM.run f).
Proof. intros Hf w w' [= <-]. apply Hf. Qed.

Lemma keepsCore_throwsAt f o : keepsCore (MSM.throwsAt f o).
Proof. intros w w' H. now rewrite (throwsAt_world f o w w' H). Qed.

Lemma core_fold_left {X} (f : MSM.World -> X -> MSM.World) (l : list X) :
  (forall w x, core (f w x) = core w) ->
  forall w, core (fold_left f l w) = core w.
Proof.
  intros Hf. induction l as [|x l IH]; intros w; simpl; [reflexivity|].
  now rewrite IH, Hf.
Qed.

Lemma core_syncBodies m arr w : core (MSM.syncBodies m arr w) = core w.
Proof.
  unfold MSM.syncBodies. apply core_fold_left. intros w0 b. unfold MSM.syncBody.
  destruct (MSM.bodies (MSM.manager w0) !! b); reflexivity.
Qed.

Lemma keepsCore_createThreeScene o : keepsCore (MSM.createThreeScene o).
Proof.
  intros w w'. unfold MSM.createThreeScene.
  destruct (MSM.model (MSM.manager w)) as [m|]; [|now intros [= <-]].
  simpl.
  match goal with |- context [MSM.throwsAt _ _ ?x] => set (w2 := x) end.
  assert (H2 : core w2 = core w) by reflexivity.
  destruct (throwsAt_cases MSM.AtScene o w2) as [E|[msg E]]; rewrite E; clear E; simpl.
  - intros [= <-]. rewrite core_fold_left; [assumption|]. reflexivity.
  - now intros [= <-].
Qed.

Lemma keepsCore_resetEngine mj_reset simulation_reset o :
  keepsCore (MSM.resetEngine mj_reset simulation_reset o).
Proof.
  intros w w'. unfold MSM.resetEngine.
  destruct (throwsAt_cases MSM.AtReset o w) as [E|[msg E]]; rewrite E; clear E; simpl;
    [|now intros [= <-]].
  destruct (MSM.model (MSM.manager w)) as [m|]; [|now intros [= <-]].
  destruct (MSM.isOldAPI (MSM.manager w)) eqn:Eold.
  - destruct (MSM.data (MSM.manager w)) as [d|] eqn:Ed; intros [= <-]; [|reflexivity].
    unfold core; simpl. now rewrite Ed, Eold.
  - destruct (MSM.simulation (MSM.manager w)) as [s|] eqn:Es; intros [= <-]; [|reflexivity].
    unfold core; simpl. now rewrite Es, Eold.
Qed.

Lemma keepsCore_createDrag o : keepsCore (MSM.createDrag o).
Proof.
  intros w w'. unfold MSM.createDrag.
  destruct (MSM.dragStateManager (MSM.manager w)); [now intros [= <-]|].
  destruct (throwsAt_cases MSM.AtDrag o w) as [E|[msg E]]; rewrite E; clear E; simpl;
    now intros [= <-].
Qed.

Lemma preserves_loadScene mj_reset simulation_reset parseFromString serializeToString
    numberToString o xmlContent filename fileMap originalModel :
  validOracle o ->
  preserves (MSM.loadScene mj_reset simulation_reset parseFromString serializeToString
               numberToString o xmlContent filename fileMap originalModel).
Proof.
  intros Ho w Hc w'. unfold MSM.loadScene.
  pose proof (preserves_init o Ho w Hc) as Hinit.
  destruct (MSM.init o w) as [[] w1|msg w1|]; simpl;
    [|intros [= <-]; now apply Hinit|discriminate].
  specialize (Hinit w1 eq_refl).
  destruct (clearScene_returns w1 Hinit) as (w2 & E2 & _ & Hc2). rewrite E2. simpl.
  set (w3 := MSM.upd (MSM.set_originalModel (Some originalModel)) w2).
  assert (Hc3 : consistent w3) by (eapply consistent_core; [|exact Hc2]; reflexivity).
  set (modifiedXml := MSM.addGroundPlane _ _ _ _ _).
  pose proof (preserves_stage o Ho w3 Hc3) as Hstage.
  destruct (MSM.stage o w3) as [[] w4|msg w4|]; simpl;
    [|intros [= <-]; now apply Hstage|discriminate].
  specialize (Hstage w4 eq_refl).
  pose proof (preserves_compileModel o modifiedXml w4 Hstage) as Hcompile.
  destruct (MSM.compileModel o modifiedXml w4) as [[] w5|msg w5|]; simpl;
    [|intros [= <-]; now apply Hcompile|discriminate].
  specialize (Hcompile w5 eq_refl).
  pose proof (keepsCore_preserves _ (keepsCore_createThreeScene o) w5 Hcompile) as Hscene.
  destruct (MSM.createThreeScene o w5) as [[] w6|msg w6|]; simpl;
    [|intros [= <-]; now apply Hscene|discriminate].
  specialize (Hscene w6 eq_refl).
  pose proof (keepsCore_preserves _ (keepsCore_resetEngine mj_reset simulation_reset o)
                w6 Hscene) as Hreset.
  destruct (MSM.resetEngine mj_reset simulation_reset o w6) as [[] w7|msg w7|]; simpl;
    [|intros [= <-]; now apply Hreset|discriminate].
  specialize (Hreset w7 eq_refl).
  apply (keepsCore_preserves _ (keepsCore_createDrag o)).
  eapply consistent_core; [|exact Hreset]. reflexivity.
Qed.

(** *** The invariant along a frame *)

Section Frame.
Variable mj_step : MSM.MjModel -> MSM.EngineState -> MSM.EngineState.
Variable simulation_step : MSM.EngineState -> MSM.EngineState.
Variable mj_applyFT :
  MSM.MjModel -> MSM.EngineState -> Vector3.t -> Vector3.t -> nat -> MSM.EngineState.
Variable mj_reset : MSM.MjModel -> MSM.EngineState -> MSM.EngineState.
Variable simulation_reset : MSM.EngineState -> MSM.EngineState.
Variable dragUpdate : gmap loc Object3D.t -> MSM.DragStateManager -> MSM.DragStateManager.

Lemma keepsCore_clearForces : keepsCore MSM.clearForces.
Proof.
  intros w w'. unfold MSM.clearForces.
  destruct (MSM.isOldAPI (MSM.manager w)) eqn:Eold; [|now intros [= <-]].
  destruct (MSM.data (MSM.manager w)) as [d|] eqn:Ed; intros [= <-]; [|reflexivity].
  unfold core; simpl. now rewrite Ed, Eold.
Qed.

Lemma keepsCore_applyDrag m : keepsCore (MSM.applyDrag mj_applyFT dragUpdate m).
Proof.
  intros w w'. unfold MSM.applyDrag.
  destruct (MSM.dragStateManager (MSM.manager w)) as [dsm|]; [|now intros [= <-]].
  destruct (MSM.active dsm); [|now intros [= <-]].
  destruct (MSM.physicsObject dsm) as [bodyID|]; [|now intros [= <-]].
  destruct (negb (bodyID =? 0)%nat); [|now intros [= <-]].
  destruct (MSM.engineArrays w) as [arr|]; [|now intros [= <-]].
  cbv zeta.
  match goal with
  | |- context [MSM.isOldAPI (MSM.manager ?x)] =>
      pose proof (core_syncBodies m arr w : core x = core w) as H2;
      remember x as w2 eqn:Ew2 in *; clear Ew2
  end.
  destruct (MSM.isOldAPI (MSM.manager w2)) eqn:Eold; [|now intros [= <-]].
  destruct (MSM.data (MSM.manager w2)) as [d|] eqn:Ed; intros [= <-]; [|assumption].
  rewrite <- H2. unfold core; simpl. now rewrite Ed, Eold.
Qed.

Lemma keepsCore_physicsStep m : keepsCore (MSM.physicsStep mj_step simulation_step m).
Proof.
  intros w w'. unfold MSM.physicsStep.
  destruct (MSM.isOldAPI (MSM.manager w)) eqn:Eold.
  - destruct (MSM.data (MSM.manager w)) as [d|] eqn:Ed; intros [= <-]; [|reflexivity].
    unfold core; simpl. now rewrite Ed, Eold.
  - destruct (MSM.simulation (MSM.manager w)) as [s|] eqn:Es; intros [= <-]; [|reflexivity].
    unfold core; simpl. now rewrite Es, Eold.
Qed.

Lemma keepsCore_stepOnce m :
  keepsCore (MSM.stepOnce mj_step simulation_step mj_applyFT dragUpdate m).
Proof.
  unfold MSM.stepOnce, MSM.beforeStep.
  apply (keepsCore_bind
           (fun w => MSM.bind (MSM.clearForces w)
                       (fun _ => MSM.applyDrag mj_applyFT dragUpdate m))).
  - apply (keepsCore_bind MSM.clearForces).
    + apply keepsCore_clearForces.
    + intros _. apply keepsCore_applyDrag.
  - intros _. apply (keepsCore_bind (MSM.physicsStep mj_step simulation_step m)).
    + apply keepsCore_physicsStep.
    + intros _. apply keepsCore_run. reflexivity.
Qed.

Lemma keepsCore_stepLoop fuel m timeMS :
  keepsCore (MSM.stepLoop mj_step simulation_step mj_applyFT dragUpdate fuel m timeMS).
Proof.
  induction fuel as [|fuel IH]; intros w w'; simpl.
  - destruct (_ <? _)%float; [discriminate | now intros [= <-]].
  - destruct (_ <? _)%float; [|now intros [= <-]].
    pose proof (keepsCore_stepOnce m w) as H1.
    destruct (MSM.stepOnce _ _ _ _ m w) as [[] w1|msg w1|]; simpl;
      [|intros [= <-]; now apply H1|discriminate].
    specialize (H1 w1 eq_refl). specialize (IH w1).
    destruct (MSM.stepLoop _ _ _ _ fuel m timeMS w1) as [n w2|msg w2|]; simpl;
      try discriminate; intros [= <-]; rewrite <- H1; now apply IH.
Qed.

Lemma keepsCore_update fuel timeMS :
  keepsCore (MSM.update mj_step simulation_step mj_applyFT dragUpdate fuel timeMS).
Proof.
  intros w w'. unfold MSM.update.
  destruct (MSM.isLoaded (MSM.manager w)); [|now intros [= <-]].
  destruct (MSM.model (MSM.manager w)) as [m|]; [|now intros [= <-]].
  assert (Hloop : forall w1, MSM.worldOf
            (if MSM.paused (MSM.manager w) then MSM.Return 0 w
             else MSM.stepLoop mj_step simulation_step mj_applyFT dragUpdate fuel m timeMS
                    (MSM.syncTime timeMS w)) = Some w1 -> core w1 = core w).
  { intros w1. destruct (MSM.paused (MSM.manager w)); [now intros [= <-]|].
    intros H. rewrite (keepsCore_stepLoop fuel m timeMS _ _ H).
    unfold MSM.syncTime. destruct (_ <? _)%float; reflexivity. }
  destruct (if MSM.paused (MSM.manager w) then _ else _) as [n w1|msg w1|]; simpl;
    [|intros [= <-]; now apply Hloop|discriminate].
  specialize (Hloop w1 eq_refl).
  destruct (MSM.engineArrays w1) as [arr|]; intros [= <-]; [|assumption].
  now rewrite core_syncBodies.
Qed.

Lemma keepsCore_reset : keepsCore (MSM.reset mj_reset simulation_reset).
Proof.
  intros w w'. unfold MSM.reset.
  destruct (MSM.model (MSM.manager w)) as [m|]; [|now intros [= <-]].
  destruct (MSM.isOldAPI (MSM.manager w)) eqn:Eold.
  - destruct (MSM.data (MSM.manager w)) as [d|] eqn:Ed; simpl; intros [= <-]; [|reflexivity].
    unfold core; simpl. now rewrite Ed, Eold.
  - destruct (MSM.simulation (MSM.manager w)) as [s|] eqn:Es; simpl; intros [= <-];
      [|reflexivity].
    unfold core; simpl. now rewrite Es, Eold.
Qed.

End Frame.

(** *** Reachable worlds *)

(** The worlds the page can be in: the manager starts as its constructor
    leaves it, in any scene; then loads (ending in any way the oracle
    allows), unloads, starts, pauses, frames and resets follow each other in
    any order, and the rest of the page may change the scene manager and
    the scene graph in between. *)
Inductive reachable : MSM.World -> Prop :=
| reach_new sm objs : reachable (MSM.mkWorld MSM.newManager sm objs ∅)
| reach_load mj_reset simulation_reset parseFromString serializeToString numberToString
    o xmlContent filename fileMap originalModel w w' :
    reachable w -> validOracle o ->
    MSM.worldOf (MSM.loadScene mj_reset simulation_reset parseFromString
                   serializeToString numberToString o xmlContent filename fileMap
                   originalModel w) = Some w' ->
    reachable w'
| reach_clear w w' :
    reachable w -> MSM.worldOf (MSM.clearScene w) = Some w' -> reachable w'
| reach_start w : reachable w -> reachable (MSM.startSimulation w)
| reach_pause w : reachable w -> reachable (MSM.pauseSimulation w)
| reach_update mj_step simulation_step mj_applyFT dragUpdate fuel timeMS w w' :
    reachable w ->
    MSM.worldOf (MSM.update mj_step simulation_step mj_applyFT dragUpdate fuel timeMS w)
      = Some w' ->
    reachable w'
| reach_reset mj_reset simulation_reset w w' :
    reachable w ->
    MSM.worldOf (MSM.reset mj_reset simulation_reset w) = Some w' ->
    reachable w'
| reach_page sm objs w :
    reachable w ->
    reachable (MSM.world_set_sceneManager sm (MSM.world_set_objects objs w)).

Lemma reachable_consistent (w : MSM.World) : reachable w -> consistent w.
Proof.
  induction 1.
  - constructor; unfold apiOf; simpl; try discriminate; try congruence.
  - eapply preserves_loadScene; eauto.
  - eapply preserves_clearScene; eauto.
  - eapply consistent_core; [apply core_startSimulation | assumption].
  - eapply consistent_core; [apply core_pauseSimulation | assumption].
  - eapply keepsCore_preserves; [apply keepsCore_update | |]; eauto.
  - eapply keepsCore_preserves; [apply keepsCore_reset | |]; eauto.
  - eapply consistent_core; [|eassumption]. reflexivity.
Qed.

(** C4: from every reachable world (the world a failed load leaves behind
    is one) [clearScene] returns, and the world is then unloaded: [model],
    [data], [simulation], [mujocoRoot] and [dragStateManager] are null,
    [/working] has no entry, [isLoaded] and [isSimulating] are false and
    [paused] is true.  Called again right away it returns again and the
    world is still unloaded. *)
Theorem clearScene_unloads_from_any_state (w : MSM.World) :
  reachable w ->
  exists w1 w2,
    MSM.clearScene w = MSM.Return tt w1 /\ unloaded w1 /\
    MSM.clearScene w1 = MSM.Return tt w2 /\ unloaded w2.
Proof.
  intros Hr. apply reachable_consistent in Hr.
  destruct (clearScene_returns w Hr) as (w1 & E1 & Hu1 & Hc1).
  destruct (clearScene_returns w1 Hc1) as (w2 & E2 & Hu2 & _).
  exists w1, w2. auto.
Qed.

(** A load that fails half-way: the document and an asset are staged, the
    model is compiled, and the allocation of its data throws. *)
Definition stagedTree : FS.entry :=
  FS.Dir [ ("working",
            FS.Dir [ ("scene.xml", FS.File "<mujoco/>");
                     ("assets", FS.Dir [ ("base.stl", FS.File "solid base") ]) ]) ].

Definition idleDrag : MSM.DragStateManager :=
  MSM.mkDragStateManager false false None (Vector3.mk 0 0 0) (Vector3.mk 0 0 0) None.

Definition failingOracle : MSM.LoadOracle :=
  MSM.mkLoadOracle MSM.AtState
    (MSM.mkMujoco MSM.MjDataApi (FS.Dir [ ("working", FS.Dir []) ]))
    stagedTree
    (fun _ => MSM.mkCompiled 0.002 2 [0; 1]%float (MSM.mkEngineState [] [] []))
    idleDrag.

Definition freshWorld : MSM.World := MSM.mkWorld MSM.newManager emptyScene ∅ ∅.

Definition afterFailedLoad : MSM.World :=
  match MSM.loadScene (fun _ a => a) (fun a => a) (fun _ => sphereDocument) (fun _ => "")
          (fun _ => "0") failingOracle "" "scene.xml" [] UnifiedRobotModel.new freshWorld with
  | MSM.Return _ w => w
  | MSM.Raise _ w => w
  | MSM.Diverge => freshWorld
  end.

Lemma clearScene_unloads_from_any_state_witness :
  MSM.model (MSM.manager afterFailedLoad) <> None /\
  exists w1 w2,
    MSM.clearScene afterFailedLoad = MSM.Return tt w1 /\ unloaded w1 /\
    MSM.clearScene w1 = MSM.Return tt w2 /\ unloaded w2.
Proof.
  split; [vm_compute; discriminate|].
  apply (clearScene_unloads_from_any_state afterFailedLoad).
  apply (reach_load (fun _ a => a) (fun a => a) (fun _ => sphereDocument) (fun _ => "")
           (fun _ => "0") failingOracle "" "scene.xml" [] UnifiedRobotModel.new
           freshWorld afterFailedLoad).
  - apply reach_new.
  - split; reflexivity.
  - vm_compute. reflexivity.
Defined.

(** ** Doubles and the rationals they stand for *)

Lemma digits2_pos_bounds (m : positive) :
  (2 ^ (Z.pos (digits2_pos m) - 1) <= Z.pos m < 2 ^ Z.pos (digits2_pos m))%Z.
Proof.
  induction m as [p IH|p IH|]; simpl digits2_pos; [| |simpl; lia].
  - rewrite Pos2Z.inj_succ. replace (Z.succ (Z.pos (digits2_pos p)) - 1)%Z
      with (Z.succ (Z.pos (digits2_pos p) - 1)) by lia.
    rewrite !Z.pow_succ_r by lia. lia.
  - rewrite Pos2Z.inj_succ. replace (Z.succ (Z.pos (digits2_pos p)) - 1)%Z
      with (Z.succ (Z.pos (digits2_pos p) - 1)) by lia.
    rewrite !Z.pow_succ_r by lia. lia.
Qed.

(** A finite double has its exponent at or above [-1074] and a mantissa of
    at most 53 bits, of exactly 53 bits unless the exponent is [-1074]. *)
Lemma valid_finite (s : bool) (m : positive) (e : Z) :
  valid_binary (S754_finite s m e) = true ->
  (-1074 <= e /\ Z.pos m < 2 ^ 53 /\ (-1074 < e -> 2 ^ 52 <= Z.pos m))%Z.
Proof.
  unfold SpecFloat.valid_binary, bounded, canonical_mantissa, fexp, emin, prec, emax.
  intros H. apply andb_prop in H as [H _]. apply Z.eqb_eq in H.
  pose proof (digits2_pos_bounds m) as [Hlo Hhi].
  set (d := Z.pos (digits2_pos m)) in *.
  assert (Hd : (d <= 53)%Z) by lia.
  split; [lia|]. split.
  - eapply Z.lt_le_trans; [exact Hhi|]. apply Z.pow_le_mono_r; lia.
  - intros He. assert (d = 53)%Z as -> by lia. exact Hlo.
Qed.

Lemma scaled_lt (m1 m2 : positive) (e1 e2 : Z) :
  (-1074 <= e1 -> Z.pos m1 < 2 ^ 53 -> 2 ^ 52 <= Z.pos m2 -> e1 < e2 ->
   Z.pos m1 * 2 ^ (e1 + 1074) < Z.pos m2 * 2 ^ (e2 + 1074))%Z.
Proof.
  intros He1 Hm1 Hm2 He.
  assert (H53 : (2 ^ 53 = 2 * 2 ^ 52)%Z) by reflexivity.
  assert (Ha : (0 < 2 ^ (e1 + 1074))%Z) by (apply Z.pow_pos_nonneg; lia).
  assert (Hb : (2 * 2 ^ (e1 + 1074) <= 2 ^ (e2 + 1074))%Z).
  { rewrite <- Z.pow_succ_r by lia. apply Z.pow_le_mono_r; lia. }
  remember (2 ^ 52)%Z as p52. remember (2 ^ 53)%Z as p53.
  remember (2 ^ (e1 + 1074))%Z as a. remember (2 ^ (e2 + 1074))%Z as b.
  nia.
Qed.

(** [<] on finite doubles is [<] on what they stand for. *)
Lemma ltb_ulps (x y : float) :
  Number.isFinite x = true -> Number.isFinite y = true ->
  (x <? y)%float = (Number.ulps x <? Number.ulps y)%Z.
Proof.
  rewrite ltb_spec. unfold Number.isFinite, Number.ulps.
  pose proof (Prim2SF_valid x) as Vx. pose proof (Prim2SF_valid y) as Vy.
  destruct (Prim2SF x) as [sx|sx| |sx mx ex], (Prim2SF y) as [sy|sy| |sy my ey];
    try discriminate; intros _ _; unfold SFltb, SFcompare.
  - reflexivity.
  - assert (0 < 2 ^ (ey + 1074))%Z by (apply valid_finite in Vy; apply Z.pow_pos_nonneg; lia).
    symmetry. destruct sy; [apply Z.ltb_ge | apply Z.ltb_lt]; nia.
  - assert (0 < 2 ^ (ex + 1074))%Z by (apply valid_finite in Vx; apply Z.pow_pos_nonneg; lia).
    symmetry. destruct sx; [apply Z.ltb_lt | apply Z.ltb_ge]; nia.
  - apply valid_finite in Vx as (Hex & Hmx & Hnx), Vy as (Hey & Hmy & Hny).
    assert (Hpx : (0 < 2 ^ (ex + 1074))%Z) by (apply Z.pow_pos_nonneg; lia).
    assert (Hpy : (0 < 2 ^ (ey + 1074))%Z) by (apply Z.pow_pos_nonneg; lia).
    assert (Hlt : (ex < ey -> Z.pos mx * 2 ^ (ex + 1074) < Z.pos my * 2 ^ (ey + 1074))%Z).
    { intros. apply scaled_lt; auto. apply Hny. lia. }
    assert (Hgt : (ey < ex -> Z.pos my * 2 ^ (ey + 1074) < Z.pos mx * 2 ^ (ex + 1074))%Z).
    { intros. apply scaled_lt; auto. apply Hnx. lia. }
    rewrite Pos.compare_cont_spec. simpl Pos.switch_Eq.
    change (Pos.compare mx my) with (Z.compare (Z.pos mx) (Z.pos my)).
    symmetry.
    destruct sx, sy; destruct (Z.compare_spec ex ey) as [->|He|He];
      try destruct (Z.compare_spec (Z.pos mx) (Z.pos my)) as [Hm|Hm|Hm];
      simpl CompOpp; cbv iota;
      first [apply Z.ltb_lt | apply Z.ltb_ge];
      try (specialize (Hlt He)); try (specialize (Hgt He)); try nia.
Qed.

(** No double is below itself, [NaN] included. *)
Lemma ltb_irrefl (x : float) : (x <? x)%float = false.
Proof.
  rewrite ltb_spec. unfold SFltb, SFcompare.
  destruct (Prim2SF x) as [s|s| |s m e]; try reflexivity; [destruct s; reflexivity|].
  rewrite Z.compare_refl, Pos.compare_cont_spec, Pos.compare_refl.
  destruct s; reflexivity.
Qed.

Lemma Qmake_le (a b : Z) (d : positive) : (a # d <= b # d)%Q <-> (a <= b)%Z.
Proof.
  unfold Qle. cbn [Qnum Qden]. split; intros H.
  - apply Z.mul_le_mono_pos_r in H; [assumption | lia].
  - apply Z.mul_le_mono_pos_r; [lia | assumption].
Qed.

Lemma Qmake_lt (a b : Z) (d : positive) : (a # d < b # d)%Q <-> (a < b)%Z.
Proof.
  unfold Qlt. cbn [Qnum Qden]. split; intros H.
  - apply Z.mul_lt_mono_pos_r in H; [assumption | lia].
  - apply Z.mul_lt_mono_pos_r; [lia | assumption].
Qed.

(** The number [n] as a rational. *)
Definition qn (n : nat) : Q := inject_Z (Z.of_nat n).

Lemma Qmake_linear (a b : Z) (n : nat) (d : positive) :
  ((a + Z.of_nat n * b) # d == (a # d) + qn n * (b # d))%Q.
Proof.
  unfold Qeq, qn, Qplus, Qmult, inject_Z. cbn [Qnum Qden].
  rewrite !Pos2Z.inj_mul. ring.
Qed.

Lemma qn_S n : (qn (S n) == qn n + 1)%Q.
Proof.
  unfold qn. rewrite Nat2Z.inj_succ. unfold Z.succ. rewrite inject_Z_plus. reflexivity.
Qed.

(** [⌈gap / dt⌉] steps of [dt] cover [gap]; no step is needed for a gap
    that is not positive. *)
Lemma ceiling_covers (gap dt : Q) :
  (0 < dt)%Q -> (gap <= qn (Z.to_nat (Qceiling (gap / dt))) * dt)%Q.
Proof.
  intros Hdt. pose proof (Qle_ceiling (gap / dt)) as Hc.
  assert (Hne : ~ (dt == 0)%Q) by (intros E; rewrite E in Hdt; discriminate).
  assert (Hgap : (gap == gap / dt * dt)%Q) by (field; assumption).
  remember (gap / dt)%Q as x eqn:Ex. clear Ex.
  destruct (Z_lt_le_dec (Qceiling x) 0) as [Hneg|Hpos].
  - replace (Z.to_nat (Qceiling x)) with 0 by lia. unfold qn. simpl inject_Z.
    assert (x < 0)%Q.
    { eapply Qle_lt_trans; [exact Hc|]. rewrite Zlt_Qlt in Hneg. exact Hneg. }
    assert (x * dt <= 0 * dt)%Q by (apply Qmult_le_compat_r; lra).
    rewrite Hgap. assumption.
  - unfold qn. rewrite Z2Nat.id by assumption.
    assert (x * dt <= inject_Z (Qceiling x) * dt)%Q
      by (apply Qmult_le_compat_r; [assumption | lra]).
    lra.
Qed.

(** ** The stepping loop *)

(** The engine state of the current API is there: reading its arrays does
    not fail. *)
Definition ready (w : MSM.World) : Prop := MSM.engineArrays w <> None.

Lemma ready_core (w w' : MSM.World) : core w' = core w -> ready w -> ready w'.
Proof.
  unfold core, ready, MSM.engineArrays. intros [= _ _ Hsim Hdata Hold _]. rewrite Hold.
  destruct (MSM.isOldAPI (MSM.manager w)).
  - destruct (MSM.data (MSM.manager w')), (MSM.data (MSM.manager w)); simpl in *; congruence.
  - destruct (MSM.simulation (MSM.manager w')), (MSM.simulation (MSM.manager w));
      simpl in *; congruence.
Qed.

Lemma manager_syncBodies m arr w : MSM.manager (MSM.syncBodies m arr w) = MSM.manager w.
Proof.
  unfold MSM.syncBodies. generalize (seq 0 (MSM.nbody m)). intros l. revert w.
  induction l as [|b l IH]; intros w; simpl; [reflexivity|].
  rewrite IH. unfold MSM.syncBody.
  destruct (MSM.bodies (MSM.manager w) !! b); reflexivity.
Qed.

(** The clock after [k] turns of the loop that started at [now]. *)
Definition clock (now dt : float) (k : nat) : float :=
  Nat.iter k (fun t => (t + dt)%float) now.

(** The [k]-th addition to the clock is exact: the sum is finite and stands
    for the sum of what the two terms stand for. *)
Definition exactStep (now dt : float) (k : nat) : bool :=
  Number.isFinite (clock now dt (S k)) &&
  (Number.ulps (clock now dt (S k)) =? Number.ulps (clock now dt k) + Number.ulps dt)%Z.

Definition exactUpTo (now dt : float) (n : nat) : bool :=
  forallb (exactStep now dt) (seq 0 n).

Lemma clock_exact (now dt : float) (n : nat) :
  Number.isFinite now = true ->
  exactUpTo now dt n = true ->
  forall k, k <= n ->
    Number.isFinite (clock now dt k) = true /\
    (Number.toQ (clock now dt k) == Number.toQ now + qn k * Number.toQ dt)%Q.
Proof.
  intros Hnow Hexact k Hk.
  assert (H : Number.isFinite (clock now dt k) = true /\
              Number.ulps (clock now dt k)
                = (Number.ulps now + Z.of_nat k * Number.ulps dt)%Z).
  { induction k as [|k IH]; [split; [assumption | simpl; lia]|].
    destruct IH as [_ IH]; [lia|].
    assert (Hin : In k (seq 0 n)) by (apply List.in_seq; lia).
    apply (proj1 (forallb_forall _ _) Hexact) in Hin.
    unfold exactStep in Hin. apply andb_prop in Hin as [Hfin Hsum].
    apply Z.eqb_eq in Hsum. split; [assumption|]. rewrite Hsum, IH. lia. }
  destruct H as [Hfin Hsum]. split; [assumption|].
  unfold Number.toQ. rewrite Hsum. apply Qmake_linear.
Qed.

Section Stepping.
Variable mj_step : MSM.MjModel -> MSM.EngineState -> MSM.EngineState.
Variable simulation_step : MSM.EngineState -> MSM.EngineState.
Variable mj_applyFT :
  MSM.MjModel -> MSM.EngineState -> Vector3.t -> Vector3.t -> nat -> MSM.EngineState.
Variable dragUpdate : gmap loc Object3D.t -> MSM.DragStateManager -> MSM.DragStateManager.

(** A statement of the loop body returns, and leaves the clock alone. *)
Definition returnsInTime (c : MSM.World -> MSM.outcome unit) : Prop :=
  forall w, ready w ->
    exists w', c w = MSM.Return tt w' /\ ready w' /\
               MSM.mujoco_time (MSM.manager w') = MSM.mujoco_time (MSM.manager w).

Lemma clearForces_returns : returnsInTime MSM.clearForces.
Proof.
  intros w Hr. pose proof (keepsCore_clearForces w) as Hcore.
  unfold MSM.clearForces in *. unfold ready, MSM.engineArrays in Hr.
  destruct (MSM.isOldAPI (MSM.manager w)) eqn:Eold.
  - destruct (MSM.data (MSM.manager w)) as [d|] eqn:Ed; [|now elim Hr].
    eexists. split; [reflexivity|]. split; [|reflexivity].
    apply (ready_core w); [now apply Hcore|].
    unfold ready, MSM.engineArrays. now rewrite Eold, Ed.
  - exists w. repeat split. unfold ready, MSM.engineArrays. now rewrite Eold.
Qed.

Lemma applyDrag_returns m : returnsInTime (MSM.applyDrag mj_applyFT dragUpdate m).
Proof.
  intros w Hr. pose proof (keepsCore_applyDrag mj_applyFT dragUpdate m w) as Hcore.
  assert (Hdone : forall w', MSM.applyDrag mj_applyFT dragUpdate m w = MSM.Return tt w' ->
            MSM.mujoco_time (MSM.manager w') = MSM.mujoco_time (MSM.manager w) ->
            exists w'', MSM.applyDrag mj_applyFT dragUpdate m w = MSM.Return tt w'' /\
              ready w'' /\
              MSM.mujoco_time (MSM.manager w'') = MSM.mujoco_time (MSM.manager w)).
  { intros w' E Ht. exists w'. split; [assumption|]. split; [|assumption].
    apply (ready_core w); [|assumption]. apply Hcore. now rewrite E. }
  clear Hcore. revert Hdone. unfold MSM.applyDrag.
  destruct (MSM.dragStateManager (MSM.manager w)) as [dsm|]; [|intros H; now apply (H w)].
  destruct (MSM.active dsm); [|intros H; now apply (H w)].
  destruct (MSM.physicsObject dsm) as [bodyID|]; [|intros H; now apply (H w)].
  destruct (negb (bodyID =? 0)%nat); [|intros H; now apply (H w)].
  unfold ready in Hr. destruct (MSM.engineArrays w) as [arr|] eqn:Earr; [|now elim Hr].
  cbv zeta.
  match goal with
  | |- context [MSM.isOldAPI (MSM.manager ?x)] =>
      assert (Hm : MSM.manager x = MSM.set_dragStateManager
                (Some (dragUpdate (MSM.objects (MSM.syncBodies m arr w)) dsm)) (MSM.manager w))
        by (simpl; now rewrite manager_syncBodies);
      remember x as w2 eqn:Ew2 in *; clear Ew2
  end.
  rewrite Hm. simpl MSM.isOldAPI. simpl MSM.data.
  unfold MSM.engineArrays in Earr.
  destruct (MSM.isOldAPI (MSM.manager w)) eqn:Eold.
  - destruct (MSM.data (MSM.manager w)) as [d|] eqn:Ed; [|discriminate].
    intros H. eapply H; [reflexivity|]. simpl. now rewrite Hm.
  - intros H. eapply H; [reflexivity|]. now rewrite Hm.
Qed.

Lemma physicsStep_returns m : returnsInTime (MSM.physicsStep mj_step simulation_step m).
Proof.
  intros w Hr. pose proof (keepsCore_physicsStep mj_step simulation_step m w) as Hcore.
  unfold MSM.physicsStep in *. unfold ready, MSM.engineArrays in Hr.
  destruct (MSM.isOldAPI (MSM.manager w)) eqn:Eold.
  - destruct (MSM.data (MSM.manager w)) as [d|] eqn:Ed; [|now elim Hr].
    eexists. split; [reflexivity|]. split; [|reflexivity].
    apply (ready_core w); [now apply Hcore|].
    unfold ready, MSM.engineArrays. now rewrite Eold, Ed.
  - destruct (MSM.simulation (MSM.manager w)) as [s|] eqn:Es; [|now elim Hr].
    eexists. split; [reflexivity|]. split; [|reflexivity].
    apply (ready_core w); [now apply Hcore|].
    unfold ready, MSM.engineArrays. now rewrite Eold, Es.
Qed.

(** One turn of the loop returns and adds [timestep * 1000] to the clock. *)
Lemma stepOnce_returns m w :
  ready w ->
  exists w', MSM.stepOnce mj_step simulation_step mj_applyFT dragUpdate m w
               = MSM.Return tt w' /\
             ready w' /\
             MSM.mujoco_time (MSM.manager w')
               = (MSM.mujoco_time (MSM.manager w) + MSM.timestep m * 1000)%float.
Proof.
  intros Hr. unfold MSM.stepOnce, MSM.beforeStep.
  destruct (clearForces_returns w Hr) as (w1 & E1 & Hr1 & Ht1). rewrite E1. simpl MSM.bind.
  destruct (applyDrag_returns m w1 Hr1) as (w2 & E2 & Hr2 & Ht2). rewrite E2. simpl MSM.bind.
  destruct (physicsStep_returns m w2 Hr2) as (w3 & E3 & Hr3 & Ht3). rewrite E3. simpl MSM.bind.
  eexists. split; [reflexivity|]. split.
  - apply (ready_core w3); [reflexivity | assumption].
  - simpl. congruence.
Qed.

(** The loop from its [k]-th turn on: if the clock is no longer below
    [timeMS] after [n] turns and the fuel lasts that long, the loop returns
    within [n] turns in all, at the first turn at which the clock is no
    longer below [timeMS]. *)
Lemma stepLoop_returns m (timeMS now : float) (n : nat) :
  (clock now (MSM.timestep m * 1000) n <? timeMS)%float = false ->
  forall fuel k w,
    ready w ->
    MSM.mujoco_time (MSM.manager w) = clock now (MSM.timestep m * 1000) k ->
    k <= n -> n <= k + fuel ->
    exists steps w',
      MSM.stepLoop mj_step simulation_step mj_applyFT dragUpdate fuel m timeMS w
        = MSM.Return steps w' /\
      k + steps <= n /\
      ready w' /\
      MSM.mujoco_time (MSM.manager w') = clock now (MSM.timestep m * 1000) (k + steps) /\
      (MSM.mujoco_time (MSM.manager w') <? timeMS)%float = false.
Proof.
  intros Hn. induction fuel as [|fuel IH]; intros k w Hr Ht Hk Hfuel.
  - assert (k = n) as -> by lia. simpl. rewrite Ht, Hn.
    exists 0, w. rewrite Nat.add_0_r, Ht. auto.
  - simpl. destruct (MSM.mujoco_time (MSM.manager w) <? timeMS)%float eqn:Hlt.
    + assert (Hkn : k < n).
      { destruct (Nat.eq_dec k n) as [->|]; [congruence | lia]. }
      destruct (stepOnce_returns m w Hr) as (w1 & E1 & Hr1 & Ht1).
      rewrite E1. simpl MSM.bind.
      destruct (IH (S k) w1 Hr1) as (steps & w' & E & Hs & Hr' & Ht' & Hge); [|lia|lia|].
      { rewrite Ht1, Ht. reflexivity. }
      rewrite E. simpl MSM.bind.
      exists (S steps), w'. split; [reflexivity|].
      replace (k + S steps) with (S k + steps) by lia. auto.
    + exists 0, w. rewrite Nat.add_0_r. auto.
Qed.

End Stepping.

(** The number of physics steps of a frame, when the call returned. *)
Definition stepsTaken (c : MSM.outcome nat) : option nat :=
  match c with
  | MSM.Return n _ => Some n
  | _ => None
  end.

Definition clockAfter (c : MSM.outcome nat) : option float :=
  option_map (fun w => MSM.mujoco_time (MSM.manager w)) (MSM.returned c).

Definition oracleWithTimestep (timestep : float) : MSM.LoadOracle :=
  MSM.mkLoadOracle MSM.NoFault
    (MSM.mkMujoco MSM.MjDataApi (FS.Dir [ ("working", FS.Dir []) ]))
    stagedTree
    (fun _ => MSM.mkCompiled timestep 2 [0; 1]%float
                (MSM.mkEngineState [0; 0; 0; 0; 0; 3]%float
                                   [0; 0; 0; 1; 2; 3]%float
                                   [1; 0; 0; 0; 1; 0; 0; 0]%float))
    idleDrag.

(** A scene loaded on a new page and then started; the engine's own
    stepping is left out (it does not touch the clock). *)
Definition simulatingWorld (timestep : float) : MSM.World :=
  match MSM.loadScene (fun _ a => a) (fun a => a) (fun _ => sphereDocument) (fun _ => "")
          (fun _ => "0") (oracleWithTimestep timestep) "" "scene.xml" []
          UnifiedRobotModel.new freshWorld with
  | MSM.Return _ w => MSM.startSimulation w
  | _ => freshWorld
  end.

Definition simulatingModel (timestep : float) : MSM.MjModel :=
  default (MSM.mkMjModel 0 0 0 []) (MSM.model (MSM.manager (simulatingWorld timestep))).

Definition updateIdle : nat -> float -> MSM.World -> MSM.outcome nat :=
  MSM.update (fun _ a => a) (fun a => a) (fun _ a _ _ _ => a) (fun _ d => d).

(** C7, as the specification has it, fails on doubles: with the clock at
    [0], a time step of [0.0001] (so that [timestep * 1000] is the double
    [0.1]) and [timeMS = 1], the gap is not above 35 and
    [⌈(1 - 0) / 0.1⌉ = 10], but ten additions of [0.1] give
    [0.99999999999999989], which is still below [1]: the loop takes an
    eleventh turn. *)
Lemma update_overruns_bound_by_rounding :
  MSM.isLoaded (MSM.manager (simulatingWorld 0.0001)) = true /\
  MSM.paused (MSM.manager (simulatingWorld 0.0001)) = false /\
  MSM.mujoco_time (MSM.manager (simulatingWorld 0.0001)) = 0%float /\
  option_map MSM.timestep (MSM.model (MSM.manager (simulatingWorld 0.0001)))
    = Some 0.0001%float /\
  (0 <? 0.0001)%float = true /\
  (0.0001 * 1000)%float = 0.1%float /\
  (35 <? 1 - 0)%float = false /\
  Z.to_nat (Qceiling ((Number.toQ 1 - Number.toQ 0) / Number.toQ 0.1)) = 10 /\
  clock 0 0.1 10 = 0.99999999999999989%float /\
  (clock 0 0.1 10 <? 1)%float = true /\
  stepsTaken (updateIdle 20 1%float (simulatingWorld 0.0001)) = Some 11 /\
  clockAfter (updateIdle 20 1%float (simulatingWorld 0.0001)) = Some (clock 0 0.1 11).
Proof. vm_compute. repeat split; reflexivity. Qed.

(** C7: [update(timeMS)] on a loaded scene that is not paused, with the
    engine state in place.  When the double [timeMS - mujoco_time] is above
    35, the clock is set to [timeMS] and no physics step is taken.
    Otherwise every turn of the loop adds the double [timestep * 1000] to
    the clock; and if the clock and [timeMS] are finite, [timestep * 1000]
    is positive and the first [⌈(timeMS - mujoco_time) / (timestep * 1000)⌉]
    additions to the clock are exact, the call returns after at most that
    many turns with the clock at or past [timeMS]. *)
Theorem update_steps_within_bound
    (mj_step : MSM.MjModel -> MSM.EngineState -> MSM.EngineState)
    (simulation_step : MSM.EngineState -> MSM.EngineState)
    (mj_applyFT :
       MSM.MjModel -> MSM.EngineState -> Vector3.t -> Vector3.t -> nat -> MSM.EngineState)
    (dragUpdate : gmap loc Object3D.t -> MSM.DragStateManager -> MSM.DragStateManager)
    (w : MSM.World) (m : MSM.MjModel) (timeMS : float) :
  MSM.isLoaded (MSM.manager w) = true ->
  MSM.model (MSM.manager w) = Some m ->
  MSM.paused (MSM.manager w) = false ->
  ready w ->
  let now := MSM.mujoco_time (MSM.manager w) in
  let dt := (MSM.timestep m * 1000)%float in
  let bound :=
    Z.to_nat (Qceiling ((Number.toQ timeMS - Number.toQ now) / Number.toQ dt)) in
  ((35 <? timeMS - now)%float = true ->
     forall fuel, exists w',
       MSM.update mj_step simulation_step mj_applyFT dragUpdate fuel timeMS w
         = MSM.Return 0 w' /\
       MSM.mujoco_time (MSM.manager w') = timeMS) /\
  ((35 <? timeMS - now)%float = false ->
     Number.isFinite now = true ->
     Number.isFinite timeMS = true ->
     (0 < Number.toQ dt)%Q ->
     exactUpTo now dt bound = true ->
     forall fuel, bound <= fuel ->
     exists steps w',
       MSM.update mj_step simulation_step mj_applyFT dragUpdate fuel timeMS w
         = MSM.Return steps w' /\
       steps <= bound /\
       MSM.mujoco_time (MSM.manager w') = clock now dt steps /\
       (MSM.mujoco_time (MSM.manager w') <? timeMS)%float = false /\
       (Number.toQ timeMS <= Number.toQ (MSM.mujoco_time (MSM.manager w')))%Q /\
       (Number.toQ (MSM.mujoco_time (MSM.manager w'))
          == Number.toQ now + qn steps * Number.toQ dt)%Q).
Proof.
  intros Hloaded Hmodel Hpaused Hr now dt bound.
  unfold MSM.update. rewrite Hloaded, Hmodel, Hpaused. unfold MSM.syncTime. fold now.
  split.
  - intros Hgap fuel. rewrite Hgap.
    set (w0 := MSM.upd (MSM.set_mujoco_time timeMS) w).
    assert (Hr0 : ready w0) by (apply (ready_core w); [reflexivity | assumption]).
    assert (Hloop : MSM.stepLoop mj_step simulation_step mj_applyFT dragUpdate
                      fuel m timeMS w0 = MSM.Return 0 w0).
    { destruct fuel; simpl; rewrite ltb_irrefl; reflexivity. }
    rewrite Hloop. simpl MSM.bind.
    unfold ready in Hr0. destruct (MSM.engineArrays w0) as [arr|]; [|now elim Hr0].
    eexists. split; [reflexivity|]. now rewrite manager_syncBodies.
  - intros Hgap Hnow Htime Hdt Hexact fuel Hfuel. rewrite Hgap.
    pose proof (clock_exact now dt bound Hnow Hexact) as Hclock.
    assert (Hreach : (clock now dt bound <? timeMS)%float = false).
    { destruct (Hclock bound (Nat.le_refl _)) as [Hfin Hval].
      rewrite ltb_ulps by assumption. apply Z.ltb_ge.
      apply (Qmake_le _ _ Number.scale). fold (Number.toQ timeMS).
      fold (Number.toQ (clock now dt bound)). rewrite Hval.
      pose proof (ceiling_covers (Number.toQ timeMS - Number.toQ now) _ Hdt) as Hc.
      fold bound in Hc. lra. }
    destruct (stepLoop_returns mj_step simulation_step mj_applyFT dragUpdate
                m timeMS now bound Hreach fuel 0 w Hr eq_refl)
      as (steps & w' & E & Hsteps & Hr' & Htime' & Hge); [lia|lia|].
    simpl in Hsteps, Htime'. fold dt in Htime'.
    rewrite E. simpl MSM.bind.
    unfold ready in Hr'. destruct (MSM.engineArrays w') as [arr|]; [|now elim Hr'].
    exists steps, (MSM.syncBodies m arr w').
    rewrite manager_syncBodies.
    destruct (Hclock steps Hsteps) as [Hfin Hval].
    split; [reflexivity|]. split; [assumption|]. split; [assumption|].
    split; [assumption|]. rewrite Htime'. split; [|assumption].
    rewrite Htime', ltb_ulps in Hge by assumption. apply Z.ltb_ge in Hge.
    now apply Qmake_le.
Qed.

Lemma update_steps_within_bound_witness :
  exists steps w',
    updateIdle 3 5%float (simulatingWorld 0.002) = MSM.Return steps w' /\
    steps <= 3 /\
    (Number.toQ 5 <= Number.toQ (MSM.mujoco_time (MSM.manager w')))%Q.
Proof.
  destruct (update_steps_within_bound
              (fun _ a => a) (fun a => a) (fun _ a _ _ _ => a) (fun _ d => d)
              (simulatingWorld 0.002) (simulatingModel 0.002) 5%float) as [_ H].
  - vm_compute. reflexivity.
  - vm_compute. reflexivity.
  - vm_compute. reflexivity.
  - vm_compute. discriminate.
  - destruct (H ltac:(vm_compute; reflexivity) ltac:(vm_compute; reflexivity)
                ltac:(vm_compute; reflexivity) ltac:(vm_compute; reflexivity)
                ltac:(vm_compute; reflexivity) 3 ltac:(vm_compute; lia))
      as (steps & w' & E & Hsteps & _ & _ & Hge & _).
    exists steps, w'. split; [exact E|]. split; [|exact Hge].
    vm_compute in Hsteps. exact Hsteps.
Defined.

(** Where doubles are two apart, adding [0.5] to the clock changes nothing:
    at [2^53] with a time step of [0.0005] and [timeMS] two later, the
    bound of the specification is 4 turns, and the loop has not ended after
    a thousand. *)
Definition lateWorld : MSM.World :=
  default freshWorld
    (MSM.returned (updateIdle 0 9007199254740992%float (simulatingWorld 0.0005))).

Example update_stalls_on_a_coarse_clock :
  MSM.mujoco_time (MSM.manager lateWorld) = 9007199254740992%float /\
  (0.0005 * 1000)%float = 0.5%float /\
  (9007199254740992 + 0.5)%float = 9007199254740992%float /\
  (35 <? 9007199254740994 - 9007199254740992)%float = false /\
  Z.to_nat (Qceiling ((Number.toQ 9007199254740994 - Number.toQ 9007199254740992)
                      / Number.toQ 0.5)) = 4 /\
  updateIdle 1000 9007199254740994%float lateWorld = MSM.Diverge.
Proof. vm_compute. repeat split; reflexivity. Qed.

(** ** Applied forces *)

(** The condition under which a turn of the loop applies a drag force:
    [dragStateManager.active] with a dragged body other than the world. *)
Definition dragging (w : MSM.World) : bool :=
  match MSM.dragStateManager (MSM.manager w) with
  | Some dsm =>
      MSM.active dsm &&
      match MSM.physicsObject dsm with
      | Some bodyID => negb (bodyID =? 0)%nat
      | None => false
      end
  | None => false
  end.

(** The applied forces as the engine's stepper finds them. *)
Definition forcesAtStep (c : MSM.outcome unit) : option (list float) :=
  match c with
  | MSM.Return _ w => option_map MSM.qfrc_applied (MSM.engineArrays w)
  | _ => None
  end.

Lemma zeroForces_all_zero (arr : MSM.EngineState) :
  Forall (fun f => f = 0%float) (MSM.qfrc_applied (MSM.zeroForces arr)) /\
  length (MSM.qfrc_applied (MSM.zeroForces arr)) = length (MSM.qfrc_applied arr).
Proof.
  unfold MSM.zeroForces. simpl. split; [|apply length_map].
  induction (MSM.qfrc_applied arr) as [|f l IH]; simpl; constructor; auto.
Qed.

Lemma zeroForces_forgets (a b : MSM.EngineState) :
  length (MSM.qfrc_applied a) = length (MSM.qfrc_applied b) ->
  MSM.xpos a = MSM.xpos b -> MSM.xquat a = MSM.xquat b ->
  MSM.zeroForces a = MSM.zeroForces b.
Proof.
  unfold MSM.zeroForces. intros Hlen -> ->. f_equal.
  revert Hlen. generalize (MSM.qfrc_applied b).
  induction (MSM.qfrc_applied a) as [|f l IH]; intros [|g l'] Hlen;
    simpl in *; try discriminate; [reflexivity|].
  f_equal. apply IH. congruence.
Qed.

Section Forces.
Variable mj_step : MSM.MjModel -> MSM.EngineState -> MSM.EngineState.
Variable simulation_step : MSM.EngineState -> MSM.EngineState.
Variable mj_applyFT :
  MSM.MjModel -> MSM.EngineState -> Vector3.t -> Vector3.t -> nat -> MSM.EngineState.
Variable dragUpdate : gmap loc Object3D.t -> MSM.DragStateManager -> MSM.DragStateManager.

Lemma applyDrag_idle m w :
  dragging w = false -> MSM.applyDrag mj_applyFT dragUpdate m w = MSM.Return tt w.
Proof.
  unfold dragging, MSM.applyDrag.
  destruct (MSM.dragStateManager (MSM.manager w)) as [dsm|]; [|reflexivity].
  destruct (MSM.active dsm); [|reflexivity].
  destruct (MSM.physicsObject dsm) as [bodyID|]; [|reflexivity].
  simpl. now intros ->.
Qed.

(** Under the [Simulation] API the drag branch leaves the simulation as
    it is. *)
Lemma applyDrag_keeps_simulation m w s :
  MSM.isOldAPI (MSM.manager w) = false ->
  MSM.simulation (MSM.manager w) = Some s ->
  exists w1, MSM.applyDrag mj_applyFT dragUpdate m w = MSM.Return tt w1 /\
             MSM.isOldAPI (MSM.manager w1) = false /\
             MSM.simulation (MSM.manager w1) = Some s.
Proof.
  intros Hold Hsim. unfold MSM.applyDrag.
  destruct (MSM.dragStateManager (MSM.manager w)) as [dsm|]; [|now exists w].
  destruct (MSM.active dsm); [|now exists w].
  destruct (MSM.physicsObject dsm) as [bodyID|]; [|now exists w].
  destruct (negb (bodyID =? 0)%nat); [|now exists w].
  unfold MSM.engineArrays. rewrite Hold, Hsim. simpl option_map. cbv beta iota zeta.
  match goal with
  | |- context [MSM.isOldAPI (MSM.manager ?x)] =>
      assert (Hm : MSM.manager x = MSM.set_dragStateManager
                (Some (dragUpdate (MSM.objects (MSM.syncBodies m (MSM.sim_arrays s) w)) dsm))
                (MSM.manager w))
        by (simpl; now rewrite manager_syncBodies);
      remember x as w2 eqn:Ew2 in *; clear Ew2
  end.
  rewrite Hm. simpl MSM.isOldAPI. rewrite Hold.
  exists w2. rewrite Hm. simpl. auto.
Qed.

End Forces.

Definition oracleFor (a : MSM.Api) : MSM.LoadOracle :=
  MSM.mkLoadOracle MSM.NoFault
    (MSM.mkMujoco a (FS.Dir [ ("working", FS.Dir []) ]))
    stagedTree
    (fun _ => MSM.mkCompiled 0.002 2 [0; 1]%float
                (MSM.mkEngineState [0; 0; 0]%float
                                   [0; 0; 0; 1; 2; 3]%float
                                   [1; 0; 0; 0; 1; 0; 0; 0]%float))
    idleDrag.

(** [this.model] of a world that has one. *)
Definition modelOf (w : MSM.World) : MSM.MjModel :=
  default (MSM.mkMjModel 0 0 0 []) (MSM.model (MSM.manager w)).

(** *** The engine and the applied forces *)

(** No applied force: every entry of [qfrc_applied] is zero. *)
Definition unforced (arr : MSM.EngineState) : Prop :=
  Forall (fun f => f = 0%float) (MSM.qfrc_applied arr).

(** The bridge writes [qfrc_applied] at two places, the clearing loop and
    [mj_applyFT], both under [if (this.isOldAPI)].  The array is an input
    of the engine: its own calls do not make up applied forces.  A call of
    the engine is quiet when an engine state that holds no applied force
    holds none afterwards, an oracle when the state of whatever it compiles
    holds none. *)
Definition quietCall (f : MSM.EngineState -> MSM.EngineState) : Prop :=
  forall arr, unforced arr -> unforced (f arr).

Definition quietOracle (o : MSM.LoadOracle) : Prop :=
  forall xml, unforced (MSM.c_arrays (MSM.compile o xml)).

(** The simulation object, if there is one, holds no applied force. *)
Definition simQuiet (w : MSM.World) : Prop :=
  forall s, MSM.simulation (MSM.manager w) = Some s -> unforced (MSM.sim_arrays s).

Lemma zeroForces_unforced (arr : MSM.EngineState) :
  unforced arr -> MSM.zeroForces arr = arr.
Proof.
  unfold unforced, MSM.zeroForces. destruct arr as [q p r]. simpl. intros H.
  f_equal. induction H as [|f l Hf _ IH]; simpl; [reflexivity|]. now rewrite IH, Hf.
Qed.

(** Statements that leave [this.simulation] alone. *)
Definition keepsSimulation {A} (c : MSM.World -> MSM.outcome A) : Prop :=
  forall w w', MSM.worldOf (c w) = Some w' ->
    MSM.simulation (MSM.manager w') = MSM.simulation (MSM.manager w).

(** Statements after which the simulation still holds no applied force. *)
Definition keepsQuiet {A} (c : MSM.World -> MSM.outcome A) : Prop :=
  forall w w', simQuiet w -> MSM.worldOf (c w) = Some w' -> simQuiet w'.

Lemma simQuiet_same (w w' : MSM.World) :
  MSM.simulation (MSM.manager w') = MSM.simulation (MSM.manager w) ->
  simQuiet w -> simQuiet w'.
Proof. unfold simQuiet. intros ->. auto. Qed.

Lemma keepsSimulation_quiet {A} (c : MSM.World -> MSM.outcome A) :
  keepsSimulation c -> keepsQuiet c.
Proof. intros Hc w w' Hq Hw. apply (simQuiet_same w w'); auto. Qed.

Lemma keepsQuiet_bind {A B} (c : MSM.World -> MSM.outcome A)
    (k : A -> MSM.World -> MSM.outcome B) :
  keepsQuiet c -> (forall a, keepsQuiet (k a)) -> keepsQuiet (fun w => MSM.bind (c w) k).
Proof.
  intros Hc Hk w w' Hq. specialize (Hc w).
  destruct (c w) as [a w1|msg w1|]; simpl.
  - apply (Hk a w1). now apply Hc.
  - intros [= <-]. now apply Hc.
  - discriminate.
Qed.

Lemma keepsSimulation_throwsAt f o : keepsSimulation (MSM.throwsAt f o).
Proof. intros w w' H. now rewrite (throwsAt_world f o w w' H). Qed.

Lemma keepsSimulation_init o : keepsSimulation (MSM.init o).
Proof.
  intros w w'. unfold MSM.init.
  destruct (MSM.mujoco (MSM.manager w)); [now intros [= <-]|].
  unfold MSM.throwsAt.
  destruct (MSM.Fault_eqb (MSM.fault o) MSM.AtInit); simpl; [now intros [= <-]|].
  destruct (MSM.Fault_eqb (MSM.fault o) MSM.AtMount); now intros [= <-].
Qed.

Lemma keepsSimulation_stage o : keepsSimulation (MSM.stage o).
Proof.
  intros w w'. unfold MSM.stage.
  destruct (MSM.mujoco (MSM.manager w)); [|now intros [= <-]].
  unfold MSM.throwsAt.
  destruct (MSM.Fault_eqb (MSM.fault o) MSM.AtStage); simpl; now intros [= <-].
Qed.

Lemma simulation_addBodies root (l : list nat) (w : MSM.World) :
  MSM.simulation (MSM.manager (fold_left (MSM.addBody root) l w))
  = MSM.simulation (MSM.manager w).
Proof.
  revert w. induction l as [|b l IH]; intros w; simpl; [reflexivity|].
  now rewrite IH.
Qed.

Lemma keepsSimulation_createThreeScene o : keepsSimulation (MSM.createThreeScene o).
Proof.
  intros w w'. unfold MSM.createThreeScene.
  destruct (MSM.model (MSM.manager w)) as [m|]; [|now intros [= <-]].
  simpl.
  match goal with |- context [MSM.throwsAt _ _ ?x] => set (w2 := x) end.
  destruct (throwsAt_cases MSM.AtScene o w2) as [E|[msg E]]; rewrite E; clear E; simpl.
  - intros [= <-]. now rewrite simulation_addBodies.
  - now intros [= <-].
Qed.

Lemma keepsSimulation_createDrag o : keepsSimulation (MSM.createDrag o).
Proof.
  intros w w'. unfold MSM.createDrag.
  destruct (MSM.dragStateManager (MSM.manager w)); [now intros [= <-]|].
  destruct (throwsAt_cases MSM.AtDrag o w) as [E|[msg E]]; rewrite E; clear E; simpl;
    now intros [= <-].
Qed.

Lemma keepsQuiet_compileModel o xml : quietOracle o -> keepsQuiet (MSM.compileModel o xml).
Proof.
  intros Ho w w' Hq. unfold MSM.compileModel. cbv zeta.
  destruct (option_map MSM.api (MSM.mujoco (MSM.manager w))) as [[| |]|];
    try (now intros [= <-]).
  - destruct (throwsAt_cases MSM.AtModel o w) as [E|[msg E]]; rewrite E; clear E;
      simpl; [|now intros [= <-]].
    match goal with |- context [MSM.throwsAt MSM.AtState o ?x] => set (w3 := x) end.
    assert (Hq3 : simQuiet w3) by exact Hq.
    destruct (throwsAt_cases MSM.AtState o w3) as [E|[msg E]]; rewrite E; clear E;
      simpl; [|now intros [= <-]].
    match goal with |- context [MSM.throwsAt MSM.AtSimulation o ?x] => set (w6 := x) end.
    assert (Hq6 : simQuiet w6) by exact Hq.
    destruct (throwsAt_cases MSM.AtSimulation o w6) as [E|[msg E]]; rewrite E; clear E;
      simpl; [|now intros [= <-]].
    intros [= <-] s [= <-]. apply Ho.
  - destruct (throwsAt_cases MSM.AtModel o w) as [E|[msg E]]; rewrite E; clear E;
      simpl; [|now intros [= <-]].
    match goal with |- context [MSM.throwsAt MSM.AtState o ?x] => set (w3 := x) end.
    assert (Hq3 : simQuiet w3) by exact Hq.
    destruct (throwsAt_cases MSM.AtState o w3) as [E|[msg E]]; rewrite E; clear E;
      simpl; [|now intros [= <-]].
    now intros [= <-].
Qed.

Lemma keepsQuiet_resetEngine mj_reset simulation_reset o :
  quietCall simulation_reset ->
  keepsQuiet (MSM.resetEngine mj_reset simulation_reset o).
Proof.
  intros Hreset w w' Hq. unfold MSM.resetEngine.
  destruct (throwsAt_cases MSM.AtReset o w) as [E|[msg E]]; rewrite E; clear E; simpl;
    [|now intros [= <-]].
  destruct (MSM.model (MSM.manager w)) as [m|]; [|now intros [= <-]].
  destruct (MSM.isOldAPI (MSM.manager w)).
  - destruct (MSM.data (MSM.manager w)) as [d|]; now intros [= <-].
  - destruct (MSM.simulation (MSM.manager w)) as [s|] eqn:Es; intros [= <-];
      [|assumption].
    intros s' [= <-]. simpl. apply Hreset. now apply Hq.
Qed.

Lemma keepsQuiet_loadScene mj_reset simulation_reset parseFromString serializeToString
    numberToString o xmlContent filename fileMap originalModel (w w' : MSM.World) :
  validOracle o -> quietOracle o -> quietCall simulation_reset ->
  consistent w -> simQuiet w ->
  MSM.worldOf (MSM.loadScene mj_reset simulation_reset parseFromString serializeToString
                 numberToString o xmlContent filename fileMap originalModel w) = Some w' ->
  simQuiet w'.
Proof.
  intros Ho Hquiet Hreset Hc Hq. unfold MSM.loadScene.
  pose proof (preserves_init o Ho w Hc) as Hinit.
  pose proof (keepsSimulation_quiet _ (keepsSimulation_init o) w) as Hqinit.
  destruct (MSM.init o w) as [[] w1|msg w1|]; simpl;
    [|intros [= <-]; now apply Hqinit|discriminate].
  specialize (Hinit w1 eq_refl). clear Hqinit.
  destruct (clearScene_returns w1 Hinit) as (w2 & E2 & Hu2 & Hc2). rewrite E2. simpl.
  set (w3 := MSM.upd (MSM.set_originalModel (Some originalModel)) w2).
  assert (Hq3 : simQuiet w3).
  { intros s Hs. destruct Hu2 as (_ & _ & Hsim & _). simpl in Hs. congruence. }
  set (modifiedXml := MSM.addGroundPlane _ _ _ _ _).
  pose proof (keepsSimulation_quiet _ (keepsSimulation_stage o) w3) as Hstage.
  destruct (MSM.stage o w3) as [[] w4|msg w4|]; simpl;
    [|intros [= <-]; now apply Hstage|discriminate].
  specialize (Hstage w4 Hq3 eq_refl).
  pose proof (keepsQuiet_compileModel o modifiedXml Hquiet w4) as Hcompile.
  destruct (MSM.compileModel o modifiedXml w4) as [[] w5|msg w5|]; simpl;
    [|intros [= <-]; now apply Hcompile|discriminate].
  specialize (Hcompile w5 Hstage eq_refl).
  pose proof (keepsSimulation_quiet _ (keepsSimulation_createThreeScene o) w5) as Hscene.
  destruct (MSM.createThreeScene o w5) as [[] w6|msg w6|]; simpl;
    [|intros [= <-]; now apply Hscene|discriminate].
  specialize (Hscene w6 Hcompile eq_refl).
  pose proof (keepsQuiet_resetEngine mj_reset simulation_reset o Hreset w6) as Hres.
  destruct (MSM.resetEngine mj_reset simulation_reset o w6) as [[] w7|msg w7|]; simpl;
    [|intros [= <-]; now apply Hres|discriminate].
  specialize (Hres w7 Hscene eq_refl).
  apply (keepsSimulation_quiet _ (keepsSimulation_createDrag o)).
  exact Hres.
Qed.

Section QuietFrame.
Variable mj_step : MSM.MjModel -> MSM.EngineState -> MSM.EngineState.
Variable simulation_step : MSM.EngineState -> MSM.EngineState.
Variable mj_applyFT :
  MSM.MjModel -> MSM.EngineState -> Vector3.t -> Vector3.t -> nat -> MSM.EngineState.
Variable mj_reset : MSM.MjModel -> MSM.EngineState -> MSM.EngineState.
Variable simulation_reset : MSM.EngineState -> MSM.EngineState.
Variable dragUpdate : gmap loc Object3D.t -> MSM.DragStateManager -> MSM.DragStateManager.

Lemma keepsSimulation_clearForces : keepsSimulation MSM.clearForces.
Proof.
  intros w w'. unfold MSM.clearForces.
  destruct (MSM.isOldAPI (MSM.manager w)); [|now intros [= <-]].
  destruct (MSM.data (MSM.manager w)) as [d|]; now intros [= <-].
Qed.

Lemma keepsSimulation_applyDrag m : keepsSimulation (MSM.applyDrag mj_applyFT dragUpdate m).
Proof.
  intros w w'. unfold MSM.applyDrag.
  destruct (MSM.dragStateManager (MSM.manager w)) as [dsm|]; [|now intros [= <-]].
  destruct (MSM.active dsm); [|now intros [= <-]].
  destruct (MSM.physicsObject dsm) as [bodyID|]; [|now intros [= <-]].
  destruct (negb (bodyID =? 0)%nat); [|now intros [= <-]].
  destruct (MSM.engineArrays w) as [arr|]; [|now intros [= <-]].
  cbv zeta.
  match goal with
  | |- context [MSM.isOldAPI (MSM.manager ?x)] =>
      assert (H2 : MSM.simulation (MSM.manager x) = MSM.simulation (MSM.manager w))
        by (simpl; now rewrite manager_syncBodies);
      remember x as w2 eqn:Ew2 in *; clear Ew2
  end.
  destruct (MSM.isOldAPI (MSM.manager w2)); [|now intros [= <-]].
  destruct (MSM.data (MSM.manager w2)) as [d|]; now intros [= <-].
Qed.

Lemma keepsSimulation_beforeStep m :
  keepsSimulation (MSM.beforeStep mj_applyFT dragUpdate m).
Proof.
  intros w w'. unfold MSM.beforeStep.
  pose proof (keepsSimulation_clearForces w) as H1.
  destruct (MSM.clearForces w) as [[] w1|msg w1|]; simpl;
    [|intros [= <-]; now apply H1|discriminate].
  intros H. rewrite (keepsSimulation_applyDrag m w1 w' H). now apply H1.
Qed.

Hypothesis step_quiet : quietCall simulation_step.
Hypothesis reset_quiet : quietCall simulation_reset.

Lemma keepsQuiet_physicsStep m : keepsQuiet (MSM.physicsStep mj_step simulation_step m).
Proof.
  intros w w' Hq. unfold MSM.physicsStep.
  destruct (MSM.isOldAPI (MSM.manager w)).
  - destruct (MSM.data (MSM.manager w)) as [d|]; now intros [= <-].
  - destruct (MSM.simulation (MSM.manager w)) as [s|] eqn:Es; intros [= <-];
      [|assumption].
    intros s' [= <-]. simpl. apply step_quiet. now apply Hq.
Qed.

Lemma keepsQuiet_stepOnce m :
  keepsQuiet (MSM.stepOnce mj_step simulation_step mj_applyFT dragUpdate m).
Proof.
  unfold MSM.stepOnce.
  apply (keepsQuiet_bind (MSM.beforeStep mj_applyFT dragUpdate m)).
  - apply keepsSimulation_quiet, keepsSimulation_beforeStep.
  - intros _. apply (keepsQuiet_bind (MSM.physicsStep mj_step simulation_step m)).
    + apply keepsQuiet_physicsStep.
    + intros _ w w' Hq [= <-]. exact Hq.
Qed.

Lemma keepsQuiet_stepLoop fuel m timeMS :
  keepsQuiet (MSM.stepLoop mj_step simulation_step mj_applyFT dragUpdate fuel m timeMS).
Proof.
  induction fuel as [|fuel IH]; intros w w' Hq; simpl.
  - destruct (_ <? _)%float; [discriminate | now intros [= <-]].
  - destruct (_ <? _)%float; [|now intros [= <-]].
    pose proof (keepsQuiet_stepOnce m w) as H1.
    destruct (MSM.stepOnce _ _ _ _ m w) as [[] w1|msg w1|]; simpl;
      [|intros [= <-]; now apply H1|discriminate].
    specialize (H1 w1 Hq eq_refl). specialize (IH w1).
    destruct (MSM.stepLoop _ _ _ _ fuel m timeMS w1) as [n w2|msg w2|]; simpl;
      try discriminate; intros [= <-]; now apply IH.
Qed.

Lemma simQuiet_syncTime timeMS w : simQuiet w -> simQuiet (MSM.syncTime timeMS w).
Proof. unfold MSM.syncTime. destruct (_ <? _)%float; auto. Qed.

Lemma keepsQuiet_update fuel timeMS :
  keepsQuiet (MSM.update mj_step simulation_step mj_applyFT dragUpdate fuel timeMS).
Proof.
  intros w w' Hq. unfold MSM.update.
  destruct (MSM.isLoaded (MSM.manager w)); [|now intros [= <-]].
  destruct (MSM.model (MSM.manager w)) as [m|]; [|now intros [= <-]].
  assert (Hloop : forall w1, MSM.worldOf
            (if MSM.paused (MSM.manager w) then MSM.Return 0 w
             else MSM.stepLoop mj_step simulation_step mj_applyFT dragUpdate fuel m timeMS
                    (MSM.syncTime timeMS w)) = Some w1 -> simQuiet w1).
  { intros w1. destruct (MSM.paused (MSM.manager w)); [now intros [= <-]|].
    apply keepsQuiet_stepLoop. now apply simQuiet_syncTime. }
  destruct (if MSM.paused (MSM.manager w) then _ else _) as [n w1|msg w1|]; simpl;
    [|intros [= <-]; now apply Hloop|discriminate].
  specialize (Hloop w1 eq_refl).
  destruct (MSM.engineArrays w1) as [arr|]; intros [= <-]; [|assumption].
  apply (simQuiet_same w1); [now rewrite manager_syncBodies | assumption].
Qed.

Lemma keepsQuiet_reset : keepsQuiet (MSM.reset mj_reset simulation_reset).
Proof.
  intros w w' Hq. unfold MSM.reset.
  destruct (MSM.model (MSM.manager w)) as [m|]; [|now intros [= <-]].
  destruct (MSM.isOldAPI (MSM.manager w)).
  - destruct (MSM.data (MSM.manager w)) as [d|]; simpl; now intros [= <-].
  - destruct (MSM.simulation (MSM.manager w)) as [s|] eqn:Es; simpl; intros [= <-];
      [|assumption].
    intros s' [= <-]. simpl. apply reset_quiet. now apply Hq.
Qed.

End QuietFrame.

(** *** The worlds of the stepping loop *)

(** The worlds the bridge is in when one of its methods is called or a
    turn of the stepping loop begins, with an engine whose own calls make
    up no applied forces: the worlds of [reachable], the worlds between two
    turns of the loop of [update], and what the mouse makes of the drag
    controller in between. *)
Inductive quietlyReachable : MSM.World -> Prop :=
| quiet_new sm objs : quietlyReachable (MSM.mkWorld MSM.newManager sm objs ∅)
| quiet_load mj_reset simulation_reset parseFromString serializeToString numberToString
    o xmlContent filename fileMap originalModel w w' :
    quietlyReachable w -> validOracle o -> quietOracle o -> quietCall simulation_reset ->
    MSM.worldOf (MSM.loadScene mj_reset simulation_reset parseFromString
                   serializeToString numberToString o xmlContent filename fileMap
                   originalModel w) = Some w' ->
    quietlyReachable w'
| quiet_clear w w' :
    quietlyReachable w -> MSM.worldOf (MSM.clearScene w) = Some w' -> quietlyReachable w'
| quiet_start w : quietlyReachable w -> quietlyReachable (MSM.startSimulation w)
| quiet_pause w : quietlyReachable w -> quietlyReachable (MSM.pauseSimulation w)
| quiet_update mj_step simulation_step mj_applyFT dragUpdate fuel timeMS w w' :
    quietlyReachable w -> quietCall simulation_step ->
    MSM.worldOf (MSM.update mj_step simulation_step mj_applyFT dragUpdate fuel timeMS w)
      = Some w' ->
    quietlyReachable w'
| quiet_reset mj_reset simulation_reset w w' :
    quietlyReachable w -> quietCall simulation_reset ->
    MSM.worldOf (MSM.reset mj_reset simulation_reset w) = Some w' ->
    quietlyReachable w'
| quiet_page sm objs w :
    quietlyReachable w ->
    quietlyReachable (MSM.world_set_sceneManager sm (MSM.world_set_objects objs w))
| quiet_mouse dsm dsm' w :
    quietlyReachable w ->
    MSM.dragStateManager (MSM.manager w) = Some dsm ->
    quietlyReachable (MSM.upd (MSM.set_dragStateManager (Some dsm')) w)
| quiet_sync timeMS w :
    quietlyReachable w -> quietlyReachable (MSM.syncTime timeMS w)
| quiet_turn mj_step simulation_step mj_applyFT dragUpdate m w w' :
    quietlyReachable w -> quietCall simulation_step ->
    MSM.worldOf (MSM.stepOnce mj_step simulation_step mj_applyFT dragUpdate m w) = Some w' ->
    quietlyReachable w'.

Lemma quietlyReachable_consistent (w : MSM.World) : quietlyReachable w -> consistent w.
Proof.
  induction 1.
  - constructor; unfold apiOf; simpl; try discriminate; try congruence.
  - eapply preserves_loadScene; eauto.
  - eapply preserves_clearScene; eauto.
  - eapply consistent_core; [apply core_startSimulation | assumption].
  - eapply consistent_core; [apply core_pauseSimulation | assumption].
  - eapply keepsCore_preserves; [apply keepsCore_update | |]; eauto.
  - eapply keepsCore_preserves; [apply keepsCore_reset | |]; eauto.
  - eapply consistent_core; [|eassumption]. reflexivity.
  - eapply consistent_core; [|eassumption]. reflexivity.
  - eapply consistent_core; [|eassumption].
    unfold MSM.syncTime. destruct (_ <? _)%float; reflexivity.
  - eapply keepsCore_preserves; [apply keepsCore_stepOnce | |]; eauto.
Qed.

Lemma simulation_startSimulation w :
  MSM.simulation (MSM.manager (MSM.startSimulation w)) = MSM.simulation (MSM.manager w).
Proof.
  unfold MSM.startSimulation, MSM.clearHighlight, MSM.setDragControls,
    MSM.setDragEnabled, MSM.hideOriginal, MSM.showRoot.
  repeat (match goal with |- context [match ?x with _ => _ end] => destruct x end;
          try reflexivity).
Qed.

Lemma simulation_pauseSimulation w :
  MSM.simulation (MSM.manager (MSM.pauseSimulation w)) = MSM.simulation (MSM.manager w).
Proof.
  unfold MSM.pauseSimulation, MSM.setDragControls, MSM.hideRoot, MSM.setDragEnabled.
  repeat (match goal with |- context [match ?x with _ => _ end] => destruct x end;
          try reflexivity).
Qed.

Lemma quietlyReachable_simQuiet (w : MSM.World) : quietlyReachable w -> simQuiet w.
Proof.
  induction 1 as [sm objs|? ? ? ? ? o ? ? ? ? w w' Hr IH Ho Hq Hreset Hw
                  |w w' Hr IH Hw|w Hr IH|w Hr IH|? ? ? ? ? ? w w' Hr IH Hstep Hw
                  |? ? w w' Hr IH Hreset Hw|sm objs w Hr IH|dsm dsm' w Hr IH Hd
                  |timeMS w Hr IH|? ? ? ? m w w' Hr IH Hstep Hw].
  - intros s. discriminate.
  - eapply keepsQuiet_loadScene; eauto using quietlyReachable_consistent.
  - destruct (clearScene_returns w (quietlyReachable_consistent w Hr))
      as (w1 & E & (_ & _ & Hsim & _) & _).
    rewrite E in Hw. injection Hw as <-. intros s Hs. congruence.
  - apply (simQuiet_same w); [|assumption]. apply simulation_startSimulation.
  - apply (simQuiet_same w); [|assumption]. apply simulation_pauseSimulation.
  - eapply keepsQuiet_update; eauto.
  - eapply keepsQuiet_reset; eauto.
  - exact IH.
  - exact IH.
  - now apply simQuiet_syncTime.
  - eapply keepsQuiet_stepOnce; eauto.
Qed.

(** What a mouse event makes of a world: nothing, or another state of the
    drag controller, if there is one. *)
Definition afterMouse (w w' : MSM.World) : Prop :=
  w' = w \/
  exists dsm dsm',
    MSM.dragStateManager (MSM.manager w) = Some dsm /\
    w' = MSM.upd (MSM.set_dragStateManager (Some dsm')) w.

Lemma afterMouse_quietlyReachable (w w' : MSM.World) :
  quietlyReachable w -> afterMouse w w' -> quietlyReachable w'.
Proof.
  intros Hr [->|(dsm & dsm' & Hd & ->)]; [assumption|].
  now apply (quiet_mouse dsm dsm').
Qed.

Section Turn.
Variable mj_step : MSM.MjModel -> MSM.EngineState -> MSM.EngineState.
Variable simulation_step : MSM.EngineState -> MSM.EngineState.
Variable mj_applyFT :
  MSM.MjModel -> MSM.EngineState -> Vector3.t -> Vector3.t -> nat -> MSM.EngineState.
Variable dragUpdate : gmap loc Object3D.t -> MSM.DragStateManager -> MSM.DragStateManager.

(** A turn under the [MjData] API, from any world. *)
Lemma turn_under_mjdata m w d :
  MSM.isOldAPI (MSM.manager w) = true ->
  MSM.data (MSM.manager w) = Some d ->
  let cleared := MSM.zeroForces (MSM.data_arrays d) in
  MSM.clearForces w
    = MSM.Return tt (MSM.upd (MSM.set_data (Some (MSM.mkMjData (MSM.data_handle d) cleared))) w) /\
  (dragging w = false ->
     forcesAtStep (MSM.beforeStep mj_applyFT dragUpdate m w)
       = Some (MSM.qfrc_applied cleared) /\
     exists w',
       MSM.stepOnce mj_step simulation_step mj_applyFT dragUpdate m w
         = MSM.Return tt w' /\
       MSM.engineArrays w' = Some (mj_step m cleared)) /\
  (dragging w = true ->
     exists w1 force point bodyID,
       MSM.beforeStep mj_applyFT dragUpdate m w = MSM.Return tt w1 /\
       MSM.engineArrays w1 = Some (mj_applyFT m cleared force point bodyID)) /\
  (forall forces,
     length forces = length (MSM.qfrc_applied (MSM.data_arrays d)) ->
     MSM.stepOnce mj_step simulation_step mj_applyFT dragUpdate m
       (MSM.upd (MSM.set_data (Some (MSM.mkMjData (MSM.data_handle d)
          (MSM.mkEngineState forces (MSM.xpos (MSM.data_arrays d))
             (MSM.xquat (MSM.data_arrays d)))))) w)
     = MSM.stepOnce mj_step simulation_step mj_applyFT dragUpdate m w).
Proof.
  intros Hold Hdata cleared.
  assert (Hclear : MSM.clearForces w = MSM.Return tt
            (MSM.upd (MSM.set_data (Some (MSM.mkMjData (MSM.data_handle d) cleared))) w)).
  { unfold MSM.clearForces. now rewrite Hold, Hdata. }
  split; [exact Hclear|]. split; [|split].
  - intros Hidle. unfold MSM.stepOnce, MSM.beforeStep. rewrite Hclear. simpl MSM.bind.
    rewrite applyDrag_idle by exact Hidle. simpl MSM.bind.
    split.
    + unfold forcesAtStep, MSM.engineArrays. simpl. now rewrite Hold.
    + unfold MSM.physicsStep. simpl MSM.isOldAPI. rewrite Hold. simpl MSM.data.
      simpl MSM.bind. eexists. split; [reflexivity|].
      unfold MSM.engineArrays. simpl. now rewrite Hold.
  - intros Hdrag. unfold MSM.beforeStep. rewrite Hclear. simpl MSM.bind.
    unfold dragging in Hdrag. unfold MSM.applyDrag. simpl MSM.dragStateManager.
    destruct (MSM.dragStateManager (MSM.manager w)) as [dsm|]; [|discriminate].
    destruct (MSM.active dsm); [|discriminate].
    destruct (MSM.physicsObject dsm) as [bodyID|]; [|discriminate].
    simpl in Hdrag. rewrite Hdrag.
    unfold MSM.engineArrays at 1. simpl MSM.isOldAPI. rewrite Hold. simpl option_map.
    cbv beta iota zeta.
    set (ws := MSM.syncBodies m cleared _).
    assert (Hm : MSM.manager ws
                 = MSM.set_data (Some (MSM.mkMjData (MSM.data_handle d) cleared))
                     (MSM.manager w))
      by (unfold ws; now rewrite manager_syncBodies).
    clearbody ws. simpl MSM.manager. rewrite Hm. simpl MSM.isOldAPI. rewrite Hold.
    simpl MSM.data.
    eexists. eexists. eexists. exists bodyID. split; [reflexivity|].
    unfold MSM.engineArrays. simpl. rewrite Hm. simpl. rewrite Hold. reflexivity.
  - intros forces Hforces. unfold MSM.stepOnce, MSM.beforeStep.
    rewrite Hclear. unfold MSM.clearForces at 1. simpl MSM.isOldAPI. rewrite Hold.
    simpl MSM.data. cbv beta iota. simpl MSM.data_handle. simpl MSM.data_arrays.
    rewrite (zeroForces_forgets _ (MSM.data_arrays d)) by (simpl; auto).
    reflexivity.
Qed.

(** A turn under the [Simulation] API, from any world: the bridge writes
    nothing into the simulation before [simulation.step()]. *)
Lemma turn_under_simulation m w s :
  MSM.isOldAPI (MSM.manager w) = false ->
  MSM.simulation (MSM.manager w) = Some s ->
  MSM.clearForces w = MSM.Return tt w /\
  (exists w1,
     MSM.beforeStep mj_applyFT dragUpdate m w = MSM.Return tt w1 /\
     MSM.engineArrays w1 = Some (MSM.sim_arrays s)) /\
  exists w',
    MSM.stepOnce mj_step simulation_step mj_applyFT dragUpdate m w
      = MSM.Return tt w' /\
    MSM.engineArrays w' = Some (simulation_step (MSM.sim_arrays s)).
Proof.
  intros Hold Hsim. unfold MSM.stepOnce, MSM.beforeStep.
  assert (Hclear : MSM.clearForces w = MSM.Return tt w).
  { unfold MSM.clearForces. now rewrite Hold. }
  rewrite Hclear. simpl MSM.bind. split; [reflexivity|].
  destruct (applyDrag_keeps_simulation mj_applyFT dragUpdate m w s Hold Hsim)
    as (w1 & E & Hold1 & Hsim1).
  rewrite E. simpl MSM.bind. split.
  - exists w1. split; [reflexivity|]. unfold MSM.engineArrays. now rewrite Hold1, Hsim1.
  - unfold MSM.physicsStep. rewrite Hold1, Hsim1. simpl MSM.bind.
    eexists. split; [reflexivity|]. unfold MSM.engineArrays. simpl. now rewrite Hold1.
Qed.

(** With no drag under way, the engine steps on an array of zeros. *)
Lemma turn_idle m w arr :
  MSM.isOldAPI (MSM.manager w) = true \/ quietlyReachable w ->
  MSM.engineArrays w = Some arr ->
  dragging w = false ->
  forcesAtStep (MSM.beforeStep mj_applyFT dragUpdate m w)
    = Some (MSM.qfrc_applied (MSM.zeroForces arr)) /\
  exists w1,
    MSM.stepOnce mj_step simulation_step mj_applyFT dragUpdate m w = MSM.Return tt w1 /\
    MSM.engineArrays w1
      = Some ((if MSM.isOldAPI (MSM.manager w) then mj_step m else simulation_step)
                (MSM.zeroForces arr)).
Proof.
  intros Hr Harr Hidle.
  assert (Hq : MSM.isOldAPI (MSM.manager w) = false -> simQuiet w).
  { intros Hnew. destruct Hr as [Hr|Hr]; [congruence|].
    now apply quietlyReachable_simQuiet. }
  unfold MSM.engineArrays in Harr.
  destruct (MSM.isOldAPI (MSM.manager w)) eqn:Hold.
  - destruct (MSM.data (MSM.manager w)) as [d|] eqn:Hdata; [|discriminate].
    injection Harr as <-.
    destruct (turn_under_mjdata m w d Hold Hdata) as (_ & H & _).
    exact (H Hidle).
  - destruct (MSM.simulation (MSM.manager w)) as [s|] eqn:Hsim; [|discriminate].
    injection Harr as <-.
    rewrite (zeroForces_unforced _ (Hq eq_refl s Hsim)).
    destruct (turn_under_simulation m w s Hold Hsim) as (_ & (w1 & E1 & H1) & H2).
    split; [|exact H2].
    rewrite E1. unfold forcesAtStep. now rewrite H1.
Qed.

End Turn.

(** C8: a turn of the stepping loop on a loaded scene.  Whatever the
    world: under the [Simulation] API the bridge writes nothing into the
    engine's arrays before [simulation.step()], drag or no drag, and under
    the [MjData] API what the array of applied forces held when the turn
    begins has no influence on the turn.  From every world whatsoever under
    the [MjData] API and, under the [Simulation] API, from every world the
    bridge can be in with an engine that makes up no applied forces of its
    own: when the turn begins, the applied forces are cleared, every entry of
    the array being zero before the drag force of this turn is computed;
    with no drag under way the engine steps on the array of zeros; with a
    drag under way it steps on what [mj_applyFT] makes of the array of zeros
    under the [MjData] API, and on the array of zeros under the [Simulation]
    API.  So the force of a drag does not last: in the turn after the one
    that applied it, once the mouse has ended the drag, the engine steps on
    zeros again. *)
Theorem forces_cleared_before_each_step
    (mj_step : MSM.MjModel -> MSM.EngineState -> MSM.EngineState)
    (simulation_step : MSM.EngineState -> MSM.EngineState)
    (mj_applyFT :
       MSM.MjModel -> MSM.EngineState -> Vector3.t -> Vector3.t -> nat -> MSM.EngineState)
    (dragUpdate : gmap loc Object3D.t -> MSM.DragStateManager -> MSM.DragStateManager)
    (m : MSM.MjModel) (w : MSM.World) (arr : MSM.EngineState) :
  MSM.engineArrays w = Some arr ->
  let cleared := MSM.zeroForces arr in
  let engineStep := if MSM.isOldAPI (MSM.manager w) then mj_step m else simulation_step in
  Forall (fun f => f = 0%float) (MSM.qfrc_applied cleared) /\
  length (MSM.qfrc_applied cleared) = length (MSM.qfrc_applied arr) /\
  (MSM.isOldAPI (MSM.manager w) = false ->
   exists w1,
     MSM.beforeStep mj_applyFT dragUpdate m w = MSM.Return tt w1 /\
     MSM.engineArrays w1 = Some arr) /\
  (MSM.isOldAPI (MSM.manager w) = true ->
   forall d forces,
     MSM.data (MSM.manager w) = Some d ->
     length forces = length (MSM.qfrc_applied arr) ->
     MSM.stepOnce mj_step simulation_step mj_applyFT dragUpdate m
       (MSM.upd (MSM.set_data (Some (MSM.mkMjData (MSM.data_handle d)
          (MSM.mkEngineState forces (MSM.xpos arr) (MSM.xquat arr))))) w)
     = MSM.stepOnce mj_step simulation_step mj_applyFT dragUpdate m w) /\
  (MSM.isOldAPI (MSM.manager w) = true \/ quietlyReachable w ->
   (exists w0,
      MSM.clearForces w = MSM.Return tt w0 /\ MSM.engineArrays w0 = Some cleared) /\
   (dragging w = false ->
      forcesAtStep (MSM.beforeStep mj_applyFT dragUpdate m w)
        = Some (MSM.qfrc_applied cleared) /\
      exists w1,
        MSM.stepOnce mj_step simulation_step mj_applyFT dragUpdate m w
          = MSM.Return tt w1 /\
        MSM.engineArrays w1 = Some (engineStep cleared)) /\
   (dragging w = true ->
      exists w1,
        MSM.beforeStep mj_applyFT dragUpdate m w = MSM.Return tt w1 /\
        if MSM.isOldAPI (MSM.manager w)
        then exists force point bodyID,
               MSM.engineArrays w1 = Some (mj_applyFT m cleared force point bodyID)
        else MSM.engineArrays w1 = Some cleared) /\
   (quietCall simulation_step ->
    forall w1 w2 arr2,
      MSM.worldOf (MSM.stepOnce mj_step simulation_step mj_applyFT dragUpdate m w)
        = Some w1 ->
      afterMouse w1 w2 ->
      dragging w2 = false ->
      MSM.engineArrays w2 = Some arr2 ->
      forcesAtStep (MSM.beforeStep mj_applyFT dragUpdate m w2)
        = Some (map (fun _ => 0%float) (MSM.qfrc_applied arr2)))).
Proof.
  intros Harr. cbv zeta.
  destruct (zeroForces_all_zero arr) as [Hzero Hlen].
  split; [exact Hzero|]. split; [exact Hlen|].
  pose proof Harr as Harr'. unfold MSM.engineArrays in Harr'.
  split; [|split].
  - intros Hold. rewrite Hold in Harr'.
    destruct (MSM.simulation (MSM.manager w)) as [s|] eqn:Hsim; [|discriminate].
    injection Harr' as <-.
    destruct (turn_under_simulation mj_step simulation_step mj_applyFT dragUpdate m w s
                Hold Hsim) as (_ & H & _).
    exact H.
  - intros Hold d forces Hdata Hforces. rewrite Hold, Hdata in Harr'.
    injection Harr' as <-.
    destruct (turn_under_mjdata mj_step simulation_step mj_applyFT dragUpdate m w d
                Hold Hdata) as (_ & _ & _ & H).
    now apply H.
  - intros Hr.
    assert (Hq : MSM.isOldAPI (MSM.manager w) = false -> simQuiet w).
    { intros Hnew. destruct Hr as [Hr|Hr]; [congruence|].
      now apply quietlyReachable_simQuiet. }
    split; [|split; [|split]].
    + destruct (MSM.isOldAPI (MSM.manager w)) eqn:Hold.
      * destruct (MSM.data (MSM.manager w)) as [d|] eqn:Hdata; [|discriminate].
        injection Harr' as <-.
        destruct (turn_under_mjdata mj_step simulation_step mj_applyFT dragUpdate m w d
                    Hold Hdata) as (Hclear & _).
        eexists. split; [exact Hclear|]. unfold MSM.engineArrays. simpl. now rewrite Hold.
      * destruct (MSM.simulation (MSM.manager w)) as [s|] eqn:Hsim; [|discriminate].
        injection Harr' as <-.
        exists w. split.
        -- unfold MSM.clearForces. now rewrite Hold.
        -- rewrite (zeroForces_unforced _ (Hq eq_refl s Hsim)). exact Harr.
    + intros Hidle.
      exact (turn_idle mj_step simulation_step mj_applyFT dragUpdate m w arr Hr Harr Hidle).
    + intros Hdrag. destruct (MSM.isOldAPI (MSM.manager w)) eqn:Hold.
      * destruct (MSM.data (MSM.manager w)) as [d|] eqn:Hdata; [|discriminate].
        injection Harr' as <-.
        destruct (turn_under_mjdata mj_step simulation_step mj_applyFT dragUpdate m w d
                    Hold Hdata) as (_ & _ & H & _).
        destruct (H Hdrag) as (w1 & force & point & bodyID & E & Hw1).
        exists w1. split; [exact E|]. now exists force, point, bodyID.
      * destruct (MSM.simulation (MSM.manager w)) as [s|] eqn:Hsim; [|discriminate].
        injection Harr' as <-.
        destruct (turn_under_simulation mj_step simulation_step mj_applyFT dragUpdate m w s
                    Hold Hsim) as (_ & (w1 & E1 & H1) & _).
        exists w1. split; [exact E1|].
        now rewrite (zeroForces_unforced _ (Hq eq_refl s Hsim)).
    + intros Hstep w1 w2 arr2 Hturn Hmouse Hidle Harr2.
      assert (Hr2 : MSM.isOldAPI (MSM.manager w2) = true \/ quietlyReachable w2).
      { destruct Hr as [Hold|Hr].
        - left.
          pose proof (keepsCore_stepOnce mj_step simulation_step mj_applyFT dragUpdate m
                        w w1 Hturn) as Hcore.
          assert (Hold1 : MSM.isOldAPI (MSM.manager w1) = true).
          { unfold core in Hcore. injection Hcore as _ _ _ _ Hold1 _. congruence. }
          destruct Hmouse as [->|(dsm & dsm' & _ & ->)]; exact Hold1.
        - right. apply (afterMouse_quietlyReachable w1); [|exact Hmouse].
          exact (quiet_turn mj_step simulation_step mj_applyFT dragUpdate m w w1 Hr Hstep
                   Hturn). }
      destruct (turn_idle mj_step simulation_step mj_applyFT dragUpdate m w2 arr2 Hr2 Harr2
                  Hidle) as [H _].
      exact H.
Qed.

(** A scene loaded through the given API and started, and the same once
    the mouse has taken hold of body 1 and pulled it one unit along [x]. *)
Definition loadedThrough (a : MSM.Api) : MSM.World :=
  match MSM.loadScene (fun _ a => a) (fun a => a) (fun _ => sphereDocument) (fun _ => "")
          (fun _ => "0") (oracleFor a) "" "scene.xml" []
          UnifiedRobotModel.new freshWorld with
  | MSM.Return _ w => w
  | _ => freshWorld
  end.

Definition pullingDrag : MSM.DragStateManager :=
  MSM.mkDragStateManager true true (Some 1) (Vector3.mk 1 0 0) (Vector3.mk 0 0 0) None.

Definition draggedWorld (a : MSM.Api) : MSM.World :=
  MSM.upd (MSM.set_dragStateManager (Some pullingDrag))
    (MSM.startSimulation (loadedThrough a)).

(** An engine whose [mj_applyFT] writes the [x] component of the force
    into every entry of the array it is given. *)
Definition pushAlongX (_ : MSM.MjModel) (arr : MSM.EngineState) (force _ : Vector3.t)
    (_ : nat) : MSM.EngineState :=
  MSM.mkEngineState (map (fun _ => Vector3.x force) (MSM.qfrc_applied arr))
    (MSM.xpos arr) (MSM.xquat arr).

(** The world after one turn with the drag under way, the mouse released. *)
Definition releasedWorld (a : MSM.Api) : MSM.World :=
  MSM.upd (MSM.set_dragStateManager (Some idleDrag))
    (default freshWorld
       (MSM.worldOf (MSM.stepOnce (fun _ a => a) (fun a => a) pushAlongX (fun _ d => d)
                       (modelOf (draggedWorld a)) (draggedWorld a)))).

Lemma draggedWorld_quietlyReachable (a : MSM.Api) :
  a <> MSM.NoApi -> quietlyReachable (draggedWorld a).
Proof.
  intros Ha. unfold draggedWorld.
  apply (quiet_mouse (MSM.set_drag_enabled true idleDrag) pullingDrag).
  - apply quiet_start.
    apply (quiet_load (fun _ a => a) (fun a => a) (fun _ => sphereDocument) (fun _ => "")
             (fun _ => "0") (oracleFor a) "" "scene.xml" []
             UnifiedRobotModel.new freshWorld (loadedThrough a)).
    + apply quiet_new.
    + split; reflexivity.
    + intros xml. unfold unforced. simpl. repeat constructor.
    + intros arr H. exact H.
    + destruct a; [vm_compute; reflexivity | vm_compute; reflexivity | congruence].
  - destruct a; [vm_compute; reflexivity | vm_compute; reflexivity | congruence].
Qed.

Lemma forces_cleared_before_each_step_witness :
  dragging (draggedWorld MSM.SimulationApi) = true /\
  forcesAtStep
    (MSM.beforeStep pushAlongX (fun _ d => d)
       (modelOf (draggedWorld MSM.SimulationApi)) (draggedWorld MSM.SimulationApi))
  = Some [0; 0; 0]%float /\
  dragging (draggedWorld MSM.MjDataApi) = true /\
  forcesAtStep
    (MSM.beforeStep pushAlongX (fun _ d => d)
       (modelOf (draggedWorld MSM.MjDataApi)) (draggedWorld MSM.MjDataApi))
  = Some [250; 250; 250]%float /\
  dragging (releasedWorld MSM.MjDataApi) = false /\
  forcesAtStep
    (MSM.beforeStep pushAlongX (fun _ d => d)
       (modelOf (draggedWorld MSM.MjDataApi)) (releasedWorld MSM.MjDataApi))
  = Some [0; 0; 0]%float.
Proof.
  assert (Hsim : quietlyReachable (draggedWorld MSM.SimulationApi))
    by (apply draggedWorld_quietlyReachable; discriminate).
  assert (Hold : quietlyReachable (draggedWorld MSM.MjDataApi))
    by (apply draggedWorld_quietlyReachable; discriminate).
  assert (Hd1 : dragging (draggedWorld MSM.SimulationApi) = true)
    by (vm_compute; reflexivity).
  assert (Hd2 : dragging (draggedWorld MSM.MjDataApi) = true)
    by (vm_compute; reflexivity).
  assert (Hd3 : dragging (releasedWorld MSM.MjDataApi) = false)
    by (vm_compute; reflexivity).
  split; [exact Hd1|]. split.
  { destruct (forces_cleared_before_each_step
                (fun _ a => a) (fun a => a) pushAlongX (fun _ d => d)
                (modelOf (draggedWorld MSM.SimulationApi)) (draggedWorld MSM.SimulationApi)
                (MSM.mkEngineState [0; 0; 0]%float [0; 0; 0; 1; 2; 3]%float
                   [1; 0; 0; 0; 1; 0; 0; 0]%float)
                ltac:(vm_compute; reflexivity))
      as (_ & _ & _ & _ & Hloop).
    destruct (Hloop (or_intror Hsim)) as (_ & _ & Hdrag & _).
    destruct (Hdrag Hd1) as (w1 & E & Hw1).
    rewrite E. unfold forcesAtStep.
    change (MSM.isOldAPI (MSM.manager (draggedWorld MSM.SimulationApi))) with false in Hw1.
    rewrite Hw1. reflexivity. }
  split; [exact Hd2|]. split; [vm_compute; reflexivity|].
  split; [exact Hd3|].
  destruct (forces_cleared_before_each_step
              (fun _ a => a) (fun a => a) pushAlongX (fun _ d => d)
              (modelOf (draggedWorld MSM.MjDataApi)) (draggedWorld MSM.MjDataApi)
              (MSM.mkEngineState [0; 0; 0]%float [0; 0; 0; 1; 2; 3]%float
                 [1; 0; 0; 0; 1; 0; 0; 0]%float)
              ltac:(vm_compute; reflexivity))
    as (_ & _ & _ & _ & Hloop).
  destruct (Hloop (or_intror Hold)) as (_ & _ & _ & Hnext).
  rewrite (Hnext ltac:(intros arr H; exact H)
             (default freshWorld
                (MSM.worldOf (MSM.stepOnce (fun _ a => a) (fun a => a) pushAlongX
                                (fun _ d => d)
                                (modelOf (draggedWorld MSM.MjDataApi))
                                (draggedWorld MSM.MjDataApi))))
             (releasedWorld MSM.MjDataApi)
             (MSM.mkEngineState [250; 250; 250]%float [0; 0; 0; 1; 2; 3]%float
                [1; 0; 0; 0; 1; 0; 0; 0]%float)).
  - reflexivity.
  - vm_compute. reflexivity.
  - right. exists pullingDrag, idleDrag. split; [vm_compute; reflexivity | reflexivity].
  - exact Hd3.
  - vm_compute. reflexivity.
Defined.

(** ** The static view and the physics view *)

(** [mujocoRoot.visible], when there is a root. *)
Definition rootVisible (w : MSM.World) : bool :=
  match MSM.mujocoRoot (MSM.manager w) with
  | Some root => MSM.isVisible w root
  | None => false
  end.

(** What the two views are made of: the scene objects, the physics root
    and the scene manager. *)
Definition sceneOf (w : MSM.World) :=
  (MSM.objects w, MSM.mujocoRoot (MSM.manager w), MSM.sceneManager w).

Definition keepsScene {A} (c : MSM.World -> MSM.outcome A) : Prop :=
  forall w w', MSM.worldOf (c w) = Some w' -> sceneOf w' = sceneOf w.

Lemma keepsScene_bind {A B} (c : MSM.World -> MSM.outcome A)
    (k : A -> MSM.World -> MSM.outcome B) :
  keepsScene c -> (forall a, keepsScene (k a)) -> keepsScene (fun w => MSM.bind (c w) k).
Proof.
  intros Hc Hk w w'. specialize (Hc w).
  destruct (c w) as [a w1|msg w1|]; simpl.
  - intros H. rewrite (Hk a w1 w' H). now apply Hc.
  - intros [= <-]. now apply Hc.
  - discriminate.
Qed.

Lemma keepsScene_run (f : MSM.World -> MSM.World) :
  (forall w, sceneOf (f w) = sceneOf w) -> keepsScene (MSM.run f).
Proof. intros Hf w w' [= <-]. apply Hf. Qed.

Lemma keepsScene_throwsAt f o : keepsScene (MSM.throwsAt f o).
Proof. intros w w' H. now rewrite (throwsAt_world f o w w' H). Qed.

Ltac scene_cases :=
  repeat match goal with
         | |- context [MSM.throwsAt ?f ?o ?w] =>
             let E := fresh "E" in
             destruct (throwsAt_cases f o w) as [E|[? E]]; rewrite E; clear E; simpl
         | |- context [match ?x with _ => _ end] => destruct x; simpl
         end;
  try discriminate;
  try (intros [= <-]; reflexivity).

Lemma keepsScene_init o : keepsScene (MSM.init o).
Proof. intros w w'. unfold MSM.init. scene_cases. Qed.

Lemma keepsScene_stage o : keepsScene (MSM.stage o).
Proof. intros w w'. unfold MSM.stage, MSM.run. scene_cases. Qed.

Lemma keepsScene_compileModel o xml : keepsScene (MSM.compileModel o xml).
Proof. intros w w'. unfold MSM.compileModel, MSM.newNative. simpl. scene_cases. Qed.

Lemma keepsScene_resetEngine mj_reset simulation_reset o :
  keepsScene (MSM.resetEngine mj_reset simulation_reset o).
Proof. intros w w'. unfold MSM.resetEngine. scene_cases. Qed.

Lemma keepsScene_createDrag o : keepsScene (MSM.createDrag o).
Proof. intros w w'. unfold MSM.createDrag, MSM.run. scene_cases. Qed.

Lemma keepsScene_releaseEngine : keepsScene MSM.releaseEngine.
Proof. intros w w'. unfold MSM.releaseEngine, MSM.release, MSM.run. scene_cases. Qed.

Lemma keepsScene_clearVFS : keepsScene MSM.clearVFS.
Proof.
  intros w w'. unfold MSM.clearVFS.
  destruct (MSM.mujoco (MSM.manager w)) as [mj|]; [|now intros [= <-]].
  destruct (FS.readdir ["working"] (MSM.FS mj)) as [files|msg]; [|now intros [= <-]].
  destruct (MSM.clearEach _ files (MSM.FS mj)); [now intros [= <-] | discriminate].
Qed.

Lemma isVisible_updObject_ne l f w x :
  l <> x -> MSM.isVisible (MSM.updObject l f w) x = MSM.isVisible w x.
Proof.
  intros Hne. unfold MSM.isVisible, MSM.updObject. simpl.
  now rewrite lookup_alter_ne.
Qed.

Lemma isVisible_updObject_keep l f w x :
  (forall o, Object3D.visible (f o) = Object3D.visible o) ->
  MSM.isVisible (MSM.updObject l f w) x = MSM.isVisible w x.
Proof.
  intros Hf. destruct (decide (l = x)) as [->|Hne]; [|now apply isVisible_updObject_ne].
  unfold MSM.isVisible, MSM.updObject. simpl. rewrite lookup_alter_eq.
  destruct (MSM.objects w !! x); simpl; auto.
Qed.

Lemma isVisible_setVisible l b w :
  is_Some (MSM.objects w !! l) ->
  MSM.isVisible (MSM.updObject l (Object3D.setVisible b) w) l = b.
Proof.
  intros [o Ho]. unfold MSM.isVisible, MSM.updObject. simpl.
  now rewrite lookup_alter_eq, Ho.
Qed.

Lemma isVisible_hidden l w :
  MSM.isVisible (MSM.updObject l (Object3D.setVisible false) w) l = false.
Proof.
  unfold MSM.isVisible, MSM.updObject. simpl. rewrite lookup_alter_eq.
  now destruct (MSM.objects w !! l).
Qed.

Lemma is_Some_updObject l f w x :
  is_Some (MSM.objects (MSM.updObject l f w) !! x) <-> is_Some (MSM.objects w !! x).
Proof.
  unfold MSM.updObject. simpl. rewrite <- !not_eq_None_Some.
  now rewrite lookup_alter_None.
Qed.

Lemma isVisible_detach l w x : MSM.isVisible (MSM.detach l w) x = MSM.isVisible w x.
Proof.
  unfold MSM.detach. destruct (MSM.objects w !! l) as [o|]; [|reflexivity].
  destruct (Object3D.parent o); [|reflexivity].
  now apply isVisible_updObject_keep.
Qed.

Lemma is_Some_detach l w x :
  is_Some (MSM.objects (MSM.detach l w) !! x) <-> is_Some (MSM.objects w !! x).
Proof.
  unfold MSM.detach. destruct (MSM.objects w !! l) as [o|]; [|reflexivity].
  destruct (Object3D.parent o); [|reflexivity].
  apply is_Some_updObject.
Qed.

Lemma detach_rest l w :
  MSM.manager (MSM.detach l w) = MSM.manager w /\
  MSM.sceneManager (MSM.detach l w) = MSM.sceneManager w.
Proof.
  unfold MSM.detach. destruct (MSM.objects w !! l) as [o|]; [|auto].
  destruct (Object3D.parent o); auto.
Qed.

Section StaticHandle.
(** The render handle of the static model. *)
Variable static : loc.

(** The static handle is an object of the page, and not the physics
    root. *)
Definition apart (w : MSM.World) : Prop :=
  is_Some (MSM.objects w !! static) /\ MSM.mujocoRoot (MSM.manager w) <> Some static.

(** From [w] to [w'] the static handle stays what it is and as visible as
    it was, the scene manager is left alone, and the physics root is not
    made visible. *)
Definition follows (w w' : MSM.World) : Prop :=
  apart w ->
  apart w' /\
  MSM.isVisible w' static = MSM.isVisible w static /\
  MSM.sceneManager w' = MSM.sceneManager w /\
  (rootVisible w' = true -> rootVisible w = true).

Definition tracked {A} (c : MSM.World -> MSM.outcome A) : Prop :=
  forall w w', MSM.worldOf (c w) = Some w' -> follows w w'.

Lemma follows_refl w : follows w w.
Proof. intros H. auto. Qed.

Lemma follows_trans w1 w2 w3 : follows w1 w2 -> follows w2 w3 -> follows w1 w3.
Proof.
  intros H12 H23 H1. destruct (H12 H1) as (H2 & Hv2 & Hs2 & Hr2).
  destruct (H23 H2) as (H3 & Hv3 & Hs3 & Hr3).
  split; [assumption|]. split; [congruence|]. split; [congruence|]. auto.
Qed.

Lemma follows_scene w w' : sceneOf w' = sceneOf w -> follows w w'.
Proof.
  unfold sceneOf. intros [= Hobj Hroot Hsm] [Hs Hr].
  unfold apart, rootVisible, MSM.isVisible. rewrite Hobj, Hroot. auto.
Qed.

Lemma tracked_scene {A} (c : MSM.World -> MSM.outcome A) : keepsScene c -> tracked c.
Proof. intros Hc w w' H. apply follows_scene. now apply Hc. Qed.

Lemma tracked_bind {A B} (c : MSM.World -> MSM.outcome A)
    (k : A -> MSM.World -> MSM.outcome B) :
  tracked c -> (forall a, tracked (k a)) -> tracked (fun w => MSM.bind (c w) k).
Proof.
  intros Hc Hk w w'. specialize (Hc w).
  destruct (c w) as [a w1|msg w1|]; simpl.
  - intros H. eapply follows_trans; [now apply Hc | now apply (Hk a)].
  - intros [= <-]. now apply Hc.
  - discriminate.
Qed.

Lemma follows_clearThree w : follows w (MSM.clearThree w).
Proof.
  unfold MSM.clearThree.
  destruct (MSM.mujocoRoot (MSM.manager w)) as [root|] eqn:Eroot; [|apply follows_refl].
  intros [Hs Hr]. destruct (detach_rest root w) as [Hm Hsm].
  split; [split|].
  - simpl. now apply is_Some_detach.
  - simpl. discriminate.
  - split; [|split].
    + unfold MSM.isVisible. simpl. apply (isVisible_detach root w static).
    + simpl. assumption.
    + unfold rootVisible. simpl. discriminate.
Qed.

Lemma follows_clearDrag w : follows w (MSM.clearDrag w).
Proof.
  unfold MSM.clearDrag.
  destruct (MSM.dragStateManager (MSM.manager w)) as [dsm|]; [|apply follows_refl].
  destruct (MSM.arrow dsm) as [a|]; [|apply follows_scene; reflexivity].
  cbv zeta.
  set (w1 := MSM.upd (MSM.set_dragStateManager (Some (MSM.set_drag_enabled false dsm))) w).
  apply (follows_trans w w1); [apply follows_scene; reflexivity|].
  apply (follows_trans w1 (MSM.detach a w1)); [|apply follows_scene; reflexivity].
  intros [Hs Hr]. destruct (detach_rest a w1) as [Hm Hsm].
  split; [split|].
  - now apply is_Some_detach.
  - now rewrite Hm.
  - split; [apply isVisible_detach|]. split; [assumption|].
    unfold rootVisible. rewrite Hm.
    destruct (MSM.mujocoRoot (MSM.manager w1)); [|auto].
    now rewrite isVisible_detach.
Qed.

Lemma tracked_clearScene : tracked MSM.clearScene.
Proof.
  unfold MSM.clearScene.
  apply tracked_bind; [apply tracked_scene, keepsScene_releaseEngine|]. intros _.
  apply tracked_bind; [apply tracked_scene, keepsScene_clearVFS|]. intros _.
  intros w w' [= <-].
  eapply follows_trans; [apply follows_clearThree|].
  eapply follows_trans; [apply follows_clearDrag|].
  apply follows_scene. reflexivity.
Qed.

End StaticHandle.

Lemma newObject_fresh o w l :
  is_Some (MSM.objects w !! l) -> fst (MSM.newObject o w) <> l.
Proof.
  intros Hl E. unfold MSM.newObject in E. simpl in E.
  pose proof (is_fresh (dom (MSM.objects w))) as Hfresh.
  apply Hfresh. rewrite E. now apply elem_of_dom.
Qed.

Lemma addBody_keeps root w b :
  (forall l, is_Some (MSM.objects w !! l) ->
     MSM.objects (MSM.addBody root w b) !! l = MSM.objects w !! l) /\
  MSM.mujocoRoot (MSM.manager (MSM.addBody root w b)) = MSM.mujocoRoot (MSM.manager w) /\
  MSM.sceneManager (MSM.addBody root w b) = MSM.sceneManager w.
Proof.
  split; [|split; reflexivity].
  intros l Hl. unfold MSM.addBody. simpl.
  apply lookup_insert_ne. now apply (newObject_fresh (Object3D.setParent (Some root) Object3D.new)).
Qed.

Lemma addBodies_keep root (bs : list nat) w :
  (forall l, is_Some (MSM.objects w !! l) ->
     MSM.objects (fold_left (MSM.addBody root) bs w) !! l = MSM.objects w !! l) /\
  MSM.mujocoRoot (MSM.manager (fold_left (MSM.addBody root) bs w))
    = MSM.mujocoRoot (MSM.manager w) /\
  MSM.sceneManager (fold_left (MSM.addBody root) bs w) = MSM.sceneManager w.
Proof.
  revert w. induction bs as [|b bs IH]; intros w; simpl; [auto|].
  destruct (IH (MSM.addBody root w b)) as (Hobj & Hroot & Hsm).
  destruct (addBody_keeps root w b) as (Hobj1 & Hroot1 & Hsm1).
  split; [|split; congruence].
  intros l Hl. rewrite Hobj; [now apply Hobj1|]. rewrite Hobj1; assumption.
Qed.

Lemma tracked_createThreeScene static o : tracked static (MSM.createThreeScene o).
Proof.
  intros w w'. unfold MSM.createThreeScene.
  destruct (MSM.model (MSM.manager w)) as [m|]; [|intros [= <-]; apply follows_refl].
  pose proof (newObject_fresh (Object3D.setVisible false Object3D.new) w) as Hfresh.
  unfold MSM.newObject in *. simpl in Hfresh. cbv zeta.
  set (root := fresh (dom (MSM.objects w))) in *.
  match goal with |- context [MSM.throwsAt _ _ ?x] => set (w2 := x) end.
  assert (H2 : follows static w w2 /\
               MSM.mujocoRoot (MSM.manager w2) = Some root /\
               exists r, MSM.objects w2 !! root = Some r /\ Object3D.visible r = false).
  { split; [|split; [reflexivity|]].
    - intros [Hs Hr]. specialize (Hfresh static Hs).
      split; [split|].
      + subst w2. simpl. now rewrite lookup_insert_ne.
      + subst w2. simpl. congruence.
      + split; [|split].
        * unfold MSM.isVisible. subst w2. simpl. now rewrite lookup_insert_ne.
        * reflexivity.
        * unfold rootVisible, MSM.isVisible. subst w2. simpl.
          rewrite lookup_insert_eq. discriminate.
    - eexists. subst w2. simpl. rewrite lookup_insert_eq. split; reflexivity. }
  destruct H2 as (Hfollows & Hroot & r & Er & Hhidden). clearbody w2.
  destruct (throwsAt_cases MSM.AtScene o w2) as [E|[msg E]]; rewrite E; clear E; simpl;
    [|now intros [= <-]].
  intros [= <-]. eapply follows_trans; [exact Hfollows|].
  destruct (addBodies_keep root (seq 0 (MSM.nbody m)) w2) as (Hobj & Hroot' & Hsm).
  intros [Hs Hr]. split; [split|].
  - rewrite Hobj; assumption.
  - now rewrite Hroot'.
  - split; [|split; [assumption|]].
    + unfold MSM.isVisible. now rewrite Hobj.
    + unfold rootVisible at 1. rewrite Hroot', Hroot. unfold MSM.isVisible.
      rewrite Hobj by (rewrite Er; eauto). rewrite Er, Hhidden. discriminate.
Qed.

Section LoadTracked.
Variable mj_reset : MSM.MjModel -> MSM.EngineState -> MSM.EngineState.
Variable simulation_reset : MSM.EngineState -> MSM.EngineState.
Variable parseFromString : string -> Dom.node.
Variable serializeToString : Dom.node -> string.
Variable numberToString : float -> string.

Lemma tracked_loadScene static o xmlContent filename fileMap originalModel :
  tracked static
    (MSM.loadScene mj_reset simulation_reset parseFromString serializeToString
       numberToString o xmlContent filename fileMap originalModel).
Proof.
  unfold MSM.loadScene.
  apply tracked_bind; [apply tracked_scene, keepsScene_init|]. intros _.
  apply tracked_bind; [apply tracked_clearScene|]. intros _ w2 w'. cbv zeta.
  set (w3 := MSM.upd (MSM.set_originalModel (Some originalModel)) w2).
  intros H. apply (follows_trans static w2 w3); [apply follows_scene; reflexivity|].
  revert H. generalize w3 as w. clear w2 w3. intros w. revert w w'.
  change (tracked static (fun w =>
    MSM.bind (MSM.stage o w) (fun _ w4 =>
    MSM.bind (MSM.compileModel o
                (MSM.addGroundPlane parseFromString serializeToString numberToString
                   (MSM.sceneManager w) xmlContent) w4) (fun _ w5 =>
    MSM.bind (MSM.createThreeScene o w5) (fun _ w6 =>
    MSM.bind (MSM.resetEngine mj_reset simulation_reset o w6) (fun _ w7 =>
    MSM.createDrag o
      (MSM.upd (fun m => MSM.set_paused true (MSM.set_isLoaded true m)) w7))))))).
  intros w w'. generalize (MSM.addGroundPlane parseFromString serializeToString
    numberToString (MSM.sceneManager w) xmlContent). intros xml. revert w w'.
  apply tracked_bind; [apply tracked_scene, keepsScene_stage|]. intros _.
  apply tracked_bind; [apply tracked_scene, keepsScene_compileModel|]. intros _.
  apply tracked_bind; [apply tracked_createThreeScene|]. intros _.
  apply tracked_bind; [apply tracked_scene, keepsScene_resetEngine|]. intros _.
  intros w7 w' H.
  eapply follows_trans; [|apply (tracked_scene static _ (keepsScene_createDrag o) _ _ H)].
  apply follows_scene. reflexivity.
Qed.

(** A load that returns leaves the scene marked as loaded. *)
Lemma loadScene_loaded o xmlContent filename fileMap originalModel w w' :
  MSM.loadScene mj_reset simulation_reset parseFromString serializeToString
    numberToString o xmlContent filename fileMap originalModel w = MSM.Return tt w' ->
  MSM.isLoaded (MSM.manager w') = true.
Proof.
  unfold MSM.loadScene.
  destruct (MSM.init o w) as [[] w1|msg w1|]; simpl; try discriminate.
  destruct (MSM.clearScene w1) as [[] w2|msg w2|]; simpl; try discriminate.
  destruct (MSM.stage o _) as [[] w4|msg w4|]; simpl; try discriminate.
  destruct (MSM.compileModel o _ w4) as [[] w5|msg w5|]; simpl; try discriminate.
  destruct (MSM.createThreeScene o w5) as [[] w6|msg w6|]; simpl; try discriminate.
  destruct (MSM.resetEngine _ _ o w6) as [[] w7|msg w7|]; simpl; try discriminate.
  unfold MSM.createDrag. simpl.
  destruct (MSM.dragStateManager (MSM.manager w7)); [now intros [= <-]|].
  destruct (throwsAt_cases MSM.AtDrag o
              (MSM.upd (fun m => MSM.set_paused true (MSM.set_isLoaded true m)) w7))
    as [E|[msg E]]; rewrite E; simpl; [now intros [= <-] | discriminate].
Qed.

End LoadTracked.

(** What [startSimulation] and [pauseSimulation] do to the fields the
    views depend on. *)
Lemma showRoot_upd g w :
  (forall m, MSM.mujocoRoot (g m) = MSM.mujocoRoot m) ->
  MSM.showRoot (MSM.upd g w) = MSM.upd g (MSM.showRoot w).
Proof.
  intros Hg. unfold MSM.showRoot. simpl. rewrite Hg.
  destruct (MSM.mujocoRoot (MSM.manager w)) as [root|]; [|reflexivity].
  destruct (MSM.objects w !! root) as [o|]; [|reflexivity].
  destruct (Object3D.parent o); reflexivity.
Qed.

Lemma hideOriginal_upd g w : MSM.hideOriginal (MSM.upd g w) = MSM.upd g (MSM.hideOriginal w).
Proof.
  unfold MSM.hideOriginal. simpl.
  destruct (MSM.currentModel (MSM.sceneManager w)) as [mdl|]; [|reflexivity].
  destruct (UnifiedRobotModel.threeObject mdl); reflexivity.
Qed.

Lemma showRoot_rest w :
  MSM.manager (MSM.showRoot w) = MSM.manager w /\
  MSM.sceneManager (MSM.showRoot w) = MSM.sceneManager w.
Proof.
  unfold MSM.showRoot.
  destruct (MSM.mujocoRoot (MSM.manager w)) as [root|]; [|auto].
  destruct (MSM.objects w !! root) as [o|]; [|auto].
  destruct (Object3D.parent o); auto.
Qed.

Lemma hideOriginal_rest w :
  MSM.manager (MSM.hideOriginal w) = MSM.manager w /\
  MSM.sceneManager (MSM.hideOriginal w) = MSM.sceneManager w.
Proof.
  unfold MSM.hideOriginal.
  destruct (MSM.currentModel (MSM.sceneManager w)) as [mdl|]; [|auto].
  destruct (UnifiedRobotModel.threeObject mdl); auto.
Qed.

Lemma hideRoot_rest w :
  MSM.manager (MSM.hideRoot w) = MSM.manager w /\
  MSM.sceneManager (MSM.hideRoot w) = MSM.sceneManager w.
Proof.
  unfold MSM.hideRoot. destruct (MSM.mujocoRoot (MSM.manager w)); auto.
Qed.

Lemma setDragEnabled_fields b w :
  MSM.objects (MSM.setDragEnabled b w) = MSM.objects w /\
  MSM.sceneManager (MSM.setDragEnabled b w) = MSM.sceneManager w /\
  MSM.mujocoRoot (MSM.manager (MSM.setDragEnabled b w)) = MSM.mujocoRoot (MSM.manager w) /\
  MSM.paused (MSM.manager (MSM.setDragEnabled b w)) = MSM.paused (MSM.manager w) /\
  MSM.isLoaded (MSM.manager (MSM.setDragEnabled b w)) = MSM.isLoaded (MSM.manager w).
Proof.
  unfold MSM.setDragEnabled. destruct (MSM.dragStateManager (MSM.manager w)); auto.
Qed.

Lemma setDragControls_fields b w :
  MSM.objects (MSM.setDragControls b w) = MSM.objects w /\
  MSM.manager (MSM.setDragControls b w) = MSM.manager w /\
  MSM.dragControls (MSM.sceneManager (MSM.setDragControls b w))
    = option_map (fun _ => MSM.mkDragControls b) (MSM.dragControls (MSM.sceneManager w)).
Proof.
  unfold MSM.setDragControls.
  destruct (MSM.dragControls (MSM.sceneManager w)) eqn:E; simpl; rewrite ?E; auto.
Qed.

Lemma clearHighlight_fields w :
  MSM.objects (MSM.clearHighlight w) = MSM.objects w /\
  MSM.manager (MSM.clearHighlight w) = MSM.manager w /\
  MSM.dragControls (MSM.sceneManager (MSM.clearHighlight w))
    = MSM.dragControls (MSM.sceneManager w).
Proof.
  unfold MSM.clearHighlight. destruct (MSM.highlightManager (MSM.sceneManager w)); auto.
Qed.

Lemma startSimulation_fields w :
  MSM.objects (MSM.startSimulation w) = MSM.objects (MSM.hideOriginal (MSM.showRoot w)) /\
  MSM.mujocoRoot (MSM.manager (MSM.startSimulation w)) = MSM.mujocoRoot (MSM.manager w) /\
  MSM.paused (MSM.manager (MSM.startSimulation w)) = false /\
  MSM.isLoaded (MSM.manager (MSM.startSimulation w)) = MSM.isLoaded (MSM.manager w) /\
  MSM.dragControls (MSM.sceneManager (MSM.startSimulation w))
    = option_map (fun _ => MSM.mkDragControls false) (MSM.dragControls (MSM.sceneManager w)).
Proof.
  unfold MSM.startSimulation. cbv zeta.
  rewrite showRoot_upd by reflexivity. rewrite hideOriginal_upd.
  set (w1 := MSM.hideOriginal (MSM.showRoot w)).
  assert (Hm : MSM.manager w1 = MSM.manager w /\ MSM.sceneManager w1 = MSM.sceneManager w).
  { subst w1. destruct (hideOriginal_rest (MSM.showRoot w)) as [-> ->]. apply showRoot_rest. }
  destruct Hm as [Hm Hsm]. clearbody w1.
  set (w2 := MSM.upd _ w1).
  destruct (clearHighlight_fields (MSM.setDragControls false (MSM.setDragEnabled true w2)))
    as (-> & -> & ->).
  destruct (setDragControls_fields false (MSM.setDragEnabled true w2)) as (-> & -> & ->).
  destruct (setDragEnabled_fields true w2) as (-> & -> & -> & -> & ->).
  subst w2. simpl. rewrite Hm, Hsm. auto.
Qed.

Lemma pauseSimulation_fields w :
  MSM.objects (MSM.pauseSimulation w) = MSM.objects (MSM.hideRoot w) /\
  MSM.mujocoRoot (MSM.manager (MSM.pauseSimulation w)) = MSM.mujocoRoot (MSM.manager w) /\
  MSM.paused (MSM.manager (MSM.pauseSimulation w)) = true /\
  MSM.isLoaded (MSM.manager (MSM.pauseSimulation w)) = MSM.isLoaded (MSM.manager w) /\
  MSM.dragControls (MSM.sceneManager (MSM.pauseSimulation w))
    = option_map (fun _ => MSM.mkDragControls true) (MSM.dragControls (MSM.sceneManager w)).
Proof.
  unfold MSM.pauseSimulation. cbv zeta.
  set (w0 := MSM.upd _ w).
  destruct (setDragControls_fields true (MSM.hideRoot (MSM.setDragEnabled false w0)))
    as (-> & -> & ->).
  destruct (hideRoot_rest (MSM.setDragEnabled false w0)) as [-> ->].
  destruct (setDragEnabled_fields false w0) as (Hobj & -> & Hroot & -> & ->).
  split; [|subst w0; rewrite Hroot; auto].
  unfold MSM.hideRoot. rewrite Hroot. simpl.
  destruct (MSM.mujocoRoot (MSM.manager w)); simpl; now rewrite Hobj.
Qed.

Section Views.
Variable static : loc.

(** [startSimulation] does not show the static handle. *)
Lemma startSimulation_static w :
  apart static w ->
  apart static (MSM.startSimulation w) /\
  (MSM.isVisible (MSM.startSimulation w) static = true -> MSM.isVisible w static = true).
Proof.
  intros [Hs Hr]. destruct (startSimulation_fields w) as (Hobj & Hroot & _).
  assert (Hvis : MSM.isVisible (MSM.startSimulation w) static
                 = MSM.isVisible (MSM.hideOriginal (MSM.showRoot w)) static)
    by (unfold MSM.isVisible; now rewrite Hobj).
  rewrite Hvis. unfold apart. rewrite Hobj, Hroot. clear Hobj Hvis Hroot.
  assert (Hshow : is_Some (MSM.objects (MSM.showRoot w) !! static) /\
                  MSM.isVisible (MSM.showRoot w) static = MSM.isVisible w static).
  { unfold MSM.showRoot.
    destruct (MSM.mujocoRoot (MSM.manager w)) as [root|]; [|auto].
    assert (root <> static) by congruence.
    split.
    - apply is_Some_updObject.
      destruct (MSM.objects w !! root) as [o|]; [|assumption].
      destruct (Object3D.parent o); [assumption|]. now apply is_Some_updObject.
    - rewrite isVisible_updObject_ne by assumption.
      destruct (MSM.objects w !! root) as [o|]; [|reflexivity].
      destruct (Object3D.parent o); [reflexivity|].
      now apply isVisible_updObject_ne. }
  destruct Hshow as [Hs1 Hv1]. rewrite <- Hv1. clear Hv1.
  generalize dependent (MSM.showRoot w). intros w1 Hs1.
  unfold MSM.hideOriginal.
  destruct (MSM.currentModel (MSM.sceneManager w1)) as [mdl|]; [|auto].
  destruct (UnifiedRobotModel.threeObject mdl) as [o|]; [|auto].
  split; [split; [now apply is_Some_updObject | assumption]|].
  destruct (decide (o = static)) as [->|Hne].
  - rewrite isVisible_hidden. discriminate.
  - now rewrite isVisible_updObject_ne.
Qed.

(** [pauseSimulation] hides the physics root and leaves the static handle
    alone. *)
Lemma pauseSimulation_static w :
  apart static w ->
  apart static (MSM.pauseSimulation w) /\
  MSM.isVisible (MSM.pauseSimulation w) static = MSM.isVisible w static /\
  rootVisible (MSM.pauseSimulation w) = false.
Proof.
  intros [Hs Hr]. destruct (pauseSimulation_fields w) as (Hobj & Hroot & _).
  unfold apart, rootVisible, MSM.isVisible. rewrite Hobj, Hroot.
  unfold MSM.hideRoot.
  destruct (MSM.mujocoRoot (MSM.manager w)) as [root|]; [|auto].
  assert (root <> static) by congruence.
  split; [split; [now apply is_Some_updObject | assumption]|].
  split.
  - now apply isVisible_updObject_ne.
  - apply isVisible_hidden.
Qed.

(** The handler's own write to the static handle. *)
Lemma setStaticVisible_static b st mdl w :
  AppState.currentModel st = Some mdl ->
  UnifiedRobotModel.threeObject mdl = Some static ->
  apart static w ->
  apart static (SimulationHandler.setStaticVisible b st w) /\
  MSM.isVisible (SimulationHandler.setStaticVisible b st w) static = b /\
  rootVisible (SimulationHandler.setStaticVisible b st w) = rootVisible w /\
  MSM.manager (SimulationHandler.setStaticVisible b st w) = MSM.manager w /\
  MSM.sceneManager (SimulationHandler.setStaticVisible b st w) = MSM.sceneManager w.
Proof.
  intros Hst Hmdl [Hs Hr]. unfold SimulationHandler.setStaticVisible. rewrite Hst, Hmdl.
  split; [split; [now apply is_Some_updObject | assumption]|].
  split; [now apply isVisible_setVisible|].
  split; [|split; reflexivity].
  unfold rootVisible. simpl.
  destruct (MSM.mujocoRoot (MSM.manager w)) as [root|]; [|reflexivity].
  apply isVisible_updObject_ne. congruence.
Qed.

End Views.

(** Both views visible at once. *)
Definition bothVisible (static : loc) (w : MSM.World) : bool :=
  rootVisible w && MSM.isVisible w static.

Section Toggle.
Variable mj_reset : MSM.MjModel -> MSM.EngineState -> MSM.EngineState.
Variable simulation_reset : MSM.EngineState -> MSM.EngineState.
Variable parseFromString : string -> Dom.node.
Variable serializeToString : Dom.node -> string.
Variable numberToString : float -> string.

Definition handleToggle : MSM.LoadOracle -> SimulationHandler.App ->
    option (bool * SimulationHandler.App) :=
  SimulationHandler.handleMujocoToggleSimulate mj_reset simulation_reset
    parseFromString serializeToString numberToString.

(** The branch of the handler that only toggles. *)
Definition toggled (app : SimulationHandler.App) : bool * SimulationHandler.App :=
  let '(isSimulating, w1) := MSM.toggleSimulation (SimulationHandler.world app) in
  (isSimulating,
   SimulationHandler.mkApp
     (SimulationHandler.setStaticVisible (negb isSimulating) (SimulationHandler.state app) w1)
     (SimulationHandler.state app) (SimulationHandler.fileMap app)).

(** The handler loads first exactly when no scene is loaded and the
    application holds an MJCF file and its model. *)
Lemma handleToggle_cases o app :
  (exists file mjcfModel,
     MSM.hasScene (SimulationHandler.world app) = false /\
     AppState.currentMJCFFile (SimulationHandler.state app) = Some file /\
     AppState.currentMJCFModel (SimulationHandler.state app) = Some mjcfModel /\
     handleToggle o app =
       match MSM.loadScene mj_reset simulation_reset parseFromString serializeToString
               numberToString o (File.text file) (File.name file)
               (SimulationHandler.fileMap app) mjcfModel (SimulationHandler.world app) with
       | MSM.Return _ w1 =>
           Some (true, SimulationHandler.mkApp
                   (MSM.startSimulation
                      (SimulationHandler.setStaticVisible false
                         (SimulationHandler.state app) w1))
                   (SimulationHandler.state app) (SimulationHandler.fileMap app))
       | MSM.Raise _ w1 =>
           Some (false, SimulationHandler.mkApp w1 (SimulationHandler.state app)
                          (SimulationHandler.fileMap app))
       | MSM.Diverge => None
       end) \/
  ((MSM.hasScene (SimulationHandler.world app) = true \/
    AppState.currentMJCFFile (SimulationHandler.state app) = None \/
    AppState.currentMJCFModel (SimulationHandler.state app) = None) /\
   handleToggle o app = Some (toggled app)).
Proof.
  unfold handleToggle, SimulationHandler.handleMujocoToggleSimulate, toggled. cbv zeta.
  destruct (MSM.hasScene (SimulationHandler.world app)); simpl negb; cbv iota.
  - right. split; [auto|]. now destruct (MSM.toggleSimulation _).
  - destruct (AppState.currentMJCFFile (SimulationHandler.state app)) as [file|].
    + destruct (AppState.currentMJCFModel (SimulationHandler.state app)) as [mjcfModel|].
      * left. exists file, mjcfModel. auto.
      * right. split; [auto|]. now destruct (MSM.toggleSimulation _).
    + right. split; [auto|]. now destruct (MSM.toggleSimulation _).
Qed.

End Toggle.

Section ToggleFacts.
Variable static : loc.
Variable mdl : UnifiedRobotModel.t.
Variable app : SimulationHandler.App.
Hypothesis static_model :
  AppState.currentModel (SimulationHandler.state app) = Some mdl.
Hypothesis static_handle : UnifiedRobotModel.threeObject mdl = Some static.
Hypothesis static_apart : apart static (SimulationHandler.world app).

(** Toggling a paused bridge: the physics view is shown, the static handle
    is hidden. *)
Lemma toggled_on :
  MSM.paused (MSM.manager (SimulationHandler.world app)) = true ->
  exists w1,
    toggled app = (true, SimulationHandler.mkApp w1 (SimulationHandler.state app)
                           (SimulationHandler.fileMap app)) /\
    apart static w1 /\
    MSM.isVisible w1 static = false /\
    MSM.paused (MSM.manager w1) = false /\
    MSM.hasScene w1 = MSM.hasScene (SimulationHandler.world app) /\
    MSM.dragControls (MSM.sceneManager w1)
      = option_map (fun _ => MSM.mkDragControls false)
          (MSM.dragControls (MSM.sceneManager (SimulationHandler.world app))).
Proof.
  intros Hp. unfold toggled, MSM.toggleSimulation. rewrite Hp. cbv zeta.
  destruct (startSimulation_fields (SimulationHandler.world app))
    as (_ & _ & Hpaused & Hloaded & Hdc).
  destruct (startSimulation_static static _ static_apart) as [Hapart _].
  rewrite Hpaused. simpl negb. cbv iota.
  destruct (setStaticVisible_static static false _ mdl _ static_model static_handle Hapart)
    as (Hapart' & Hvis & _ & Hm & Hsm).
  eexists. split; [reflexivity|].
  split; [assumption|]. split; [assumption|].
  unfold MSM.hasScene. rewrite Hm, Hsm. auto.
Qed.

(** Toggling a running bridge: the physics view is hidden, the static
    handle is shown, the static model's drag controls are enabled. *)
Lemma toggled_off :
  MSM.paused (MSM.manager (SimulationHandler.world app)) = false ->
  exists w1,
    toggled app = (false, SimulationHandler.mkApp w1 (SimulationHandler.state app)
                            (SimulationHandler.fileMap app)) /\
    apart static w1 /\
    MSM.isVisible w1 static = true /\
    rootVisible w1 = false /\
    MSM.dragControls (MSM.sceneManager w1)
      = option_map (fun _ => MSM.mkDragControls true)
          (MSM.dragControls (MSM.sceneManager (SimulationHandler.world app))).
Proof.
  intros Hp. unfold toggled, MSM.toggleSimulation. rewrite Hp. cbv zeta.
  destruct (pauseSimulation_fields (SimulationHandler.world app))
    as (_ & _ & Hpaused & _ & Hdc).
  destruct (pauseSimulation_static static _ static_apart) as (Hapart & _ & Hroot).
  rewrite Hpaused. simpl negb. cbv iota.
  destruct (setStaticVisible_static static true _ mdl _ static_model static_handle Hapart)
    as (Hapart' & Hvis & Hroot' & Hm & Hsm).
  eexists. split; [reflexivity|].
  split; [assumption|]. split; [assumption|].
  split; [congruence|]. now rewrite Hsm.
Qed.

End ToggleFacts.

Section OnThenOff.
Variable mj_reset : MSM.MjModel -> MSM.EngineState -> MSM.EngineState.
Variable simulation_reset : MSM.EngineState -> MSM.EngineState.
Variable parseFromString : string -> Dom.node.
Variable serializeToString : Dom.node -> string.
Variable numberToString : float -> string.

(** With the simulation running, the next call of the handler pauses. *)
Lemma handleToggle_off static mdl app o :
  AppState.currentModel (SimulationHandler.state app) = Some mdl ->
  UnifiedRobotModel.threeObject mdl = Some static ->
  apart static (SimulationHandler.world app) ->
  MSM.paused (MSM.manager (SimulationHandler.world app)) = false ->
  MSM.hasScene (SimulationHandler.world app) = true \/
  AppState.currentMJCFFile (SimulationHandler.state app) = None \/
  AppState.currentMJCFModel (SimulationHandler.state app) = None ->
  exists app2,
    handleToggle mj_reset simulation_reset parseFromString serializeToString
      numberToString o app = Some (false, app2) /\
    MSM.isVisible (SimulationHandler.world app2) static = true /\
    rootVisible (SimulationHandler.world app2) = false /\
    MSM.dragControls (MSM.sceneManager (SimulationHandler.world app2))
      = option_map (fun _ => MSM.mkDragControls true)
          (MSM.dragControls (MSM.sceneManager (SimulationHandler.world app))).
Proof.
  intros Hst Hmdl Hapart Hp Hcond.
  destruct (handleToggle_cases mj_reset simulation_reset parseFromString serializeToString
              numberToString o app)
    as [(file & mjcf & Hscene & Hfile & Hmodel & _)|[_ Htoggle]].
  - exfalso. destruct Hcond as [H|[H|H]]; congruence.
  - destruct (toggled_off static mdl app Hst Hmdl Hapart Hp)
      as (w2 & E & _ & Hvis & Hroot & Hdc).
    rewrite Htoggle, E. eexists. split; [reflexivity|]. simpl. auto.
Qed.

End OnThenOff.

Lemma option_map_enable (dc : option MSM.DragControls) :
  option_map (fun _ => MSM.mkDragControls true)
    (option_map (fun _ => MSM.mkDragControls false) dc)
  = option_map (fun _ => MSM.mkDragControls true) dc.
Proof. now destruct dc. Qed.

(** One call of [handleMujocoToggleSimulate] on an application whose
    static model has a render handle in the scene, other than the physics
    root.  The static model and its handle are as before.  If the physics
    root and the static handle were not both visible, they are not both
    visible afterwards.  And if the call turned the simulation on (it
    returned [true]), the static handle is hidden, and the next call turns
    it off: it returns [false], the static handle is visible again, the
    physics root is not, and the scene manager's drag controls, if there
    are any, are enabled. *)
Lemma handleToggle_step
    (mj_reset : MSM.MjModel -> MSM.EngineState -> MSM.EngineState)
    (simulation_reset : MSM.EngineState -> MSM.EngineState)
    (parseFromString : string -> Dom.node)
    (serializeToString : Dom.node -> string)
    (numberToString : float -> string)
    (o : MSM.LoadOracle) (app app1 : SimulationHandler.App)
    (mdl : UnifiedRobotModel.t) (static : loc) (on : bool) :
  AppState.currentModel (SimulationHandler.state app) = Some mdl ->
  UnifiedRobotModel.threeObject mdl = Some static ->
  apart static (SimulationHandler.world app) ->
  SimulationHandler.handleMujocoToggleSimulate mj_reset simulation_reset
    parseFromString serializeToString numberToString o app = Some (on, app1) ->
  (SimulationHandler.state app1 = SimulationHandler.state app /\
   apart static (SimulationHandler.world app1)) /\
  (bothVisible static (SimulationHandler.world app) = false ->
   bothVisible static (SimulationHandler.world app1) = false) /\
  (on = true ->
     MSM.isVisible (SimulationHandler.world app1) static = false /\
     forall o2, exists app2,
       SimulationHandler.handleMujocoToggleSimulate mj_reset simulation_reset
         parseFromString serializeToString numberToString o2 app1 = Some (false, app2) /\
       MSM.isVisible (SimulationHandler.world app2) static = true /\
       rootVisible (SimulationHandler.world app2) = false /\
       MSM.dragControls (MSM.sceneManager (SimulationHandler.world app2))
         = option_map (fun _ => MSM.mkDragControls true)
             (MSM.dragControls (MSM.sceneManager (SimulationHandler.world app)))).
Proof.
  intros Hst Hmdl Hapart Hcall.
  destruct (handleToggle_cases mj_reset simulation_reset parseFromString serializeToString
              numberToString o app)
    as [(file & mjcf & Hscene & Hfile & Hmodel & Hload)|[Hcond Htoggle]];
    unfold handleToggle in *.
  - rewrite Hload in Hcall. clear Hload.
    pose proof (tracked_loadScene mj_reset simulation_reset parseFromString
                  serializeToString numberToString static o (File.text file)
                  (File.name file) (SimulationHandler.fileMap app) mjcf
                  (SimulationHandler.world app)) as Htracked.
    pose proof (loadScene_loaded mj_reset simulation_reset parseFromString
                  serializeToString numberToString o (File.text file)
                  (File.name file) (SimulationHandler.fileMap app) mjcf
                  (SimulationHandler.world app)) as Hloaded.
    destruct (MSM.loadScene _ _ _ _ _ o _ _ _ mjcf (SimulationHandler.world app))
      as [[] w1|msg w1|]; [| |discriminate].
    + injection Hcall as <- <-. simpl SimulationHandler.state. simpl SimulationHandler.world.
      destruct (Htracked w1 eq_refl Hapart) as (Hap1 & _ & Hsm1 & _).
      specialize (Hloaded w1 eq_refl).
      destruct (setStaticVisible_static static false _ mdl w1 Hst Hmdl Hap1)
        as (Hap2 & Hvis2 & _ & Hm2 & Hsm2).
      set (w2 := SimulationHandler.setStaticVisible false (SimulationHandler.state app) w1)
        in *.
      destruct (startSimulation_static static w2 Hap2) as [Hap3 Hvis3].
      destruct (startSimulation_fields w2) as (_ & _ & Hpaused & Hloaded3 & Hdc).
      assert (Hhidden : MSM.isVisible (MSM.startSimulation w2) static = false).
      { destruct (MSM.isVisible (MSM.startSimulation w2) static); [|reflexivity].
        rewrite Hvis3 in Hvis2 by reflexivity. discriminate. }
      split; [auto|]. split.
      * intros _. unfold bothVisible. rewrite Hhidden. apply andb_false_r.
      * intros _. split; [assumption|]. intros o2.
        destruct (handleToggle_off mj_reset simulation_reset parseFromString
                    serializeToString numberToString static mdl
                    (SimulationHandler.mkApp (MSM.startSimulation w2)
                       (SimulationHandler.state app) (SimulationHandler.fileMap app)) o2)
          as (app2 & E & Hv & Hr & Hd); try assumption.
        { left. unfold MSM.hasScene. simpl. rewrite Hloaded3, Hm2. assumption. }
        exists app2. split; [exact E|]. split; [assumption|]. split; [assumption|].
        rewrite Hd. simpl. rewrite Hdc, Hsm2, Hsm1. apply option_map_enable.
    + injection Hcall as <- <-. simpl.
      destruct (Htracked w1 eq_refl Hapart) as (Hap1 & Hvis1 & _ & Hroot1).
      split; [auto|]. split; [|discriminate].
      unfold bothVisible. rewrite Hvis1.
      destruct (rootVisible w1); [|reflexivity].
      now rewrite Hroot1.
  - rewrite Htoggle in Hcall. clear Htoggle.
    destruct (MSM.paused (MSM.manager (SimulationHandler.world app))) eqn:Hp.
    + destruct (toggled_on static mdl app Hst Hmdl Hapart Hp)
        as (w1 & E & Hap1 & Hvis1 & Hp1 & Hscene1 & Hdc1).
      rewrite E in Hcall. injection Hcall as <- <-. simpl.
      split; [auto|]. split.
      * intros _. unfold bothVisible. rewrite Hvis1. apply andb_false_r.
      * intros _. split; [assumption|]. intros o2.
        destruct (handleToggle_off mj_reset simulation_reset parseFromString
                    serializeToString numberToString static mdl
                    (SimulationHandler.mkApp w1 (SimulationHandler.state app)
                       (SimulationHandler.fileMap app)) o2)
          as (app2 & E2 & Hv & Hr & Hd); try assumption.
        { simpl. rewrite Hscene1. assumption. }
        exists app2. split; [exact E2|]. split; [assumption|]. split; [assumption|].
        rewrite Hd. simpl. rewrite Hdc1. apply option_map_enable.
    + destruct (toggled_off static mdl app Hst Hmdl Hapart Hp)
        as (w1 & E & Hap1 & Hvis1 & Hroot1 & Hdc1).
      rewrite E in Hcall. injection Hcall as <- <-. simpl.
      split; [auto|]. split; [|discriminate].
      intros _. unfold bothVisible. now rewrite Hroot1.
Qed.

(** The applications reached by calling the handler any number of times,
    whatever the loads in between do. *)
Inductive toggledFrom
    (mj_reset : MSM.MjModel -> MSM.EngineState -> MSM.EngineState)
    (simulation_reset : MSM.EngineState -> MSM.EngineState)
    (parseFromString : string -> Dom.node)
    (serializeToString : Dom.node -> string)
    (numberToString : float -> string)
    (app : SimulationHandler.App) : SimulationHandler.App -> Prop :=
| toggled_none :
    toggledFrom mj_reset simulation_reset parseFromString serializeToString
      numberToString app app
| toggled_more o app1 app2 b :
    toggledFrom mj_reset simulation_reset parseFromString serializeToString
      numberToString app app1 ->
    SimulationHandler.handleMujocoToggleSimulate mj_reset simulation_reset
      parseFromString serializeToString numberToString o app1 = Some (b, app2) ->
    toggledFrom mj_reset simulation_reset parseFromString serializeToString
      numberToString app app2.

(** C3: take an application whose static model has a render handle in the
    scene, other than the physics root, with the two not both visible, and
    call [handleMujocoToggleSimulate] any number of times.  The physics
    root and the static handle are then not both visible.  And whenever a
    further call turns the simulation on (it returns [true]), the static
    handle is hidden, and the call after it turns the simulation off: it
    returns [false], the static handle is visible again, the physics root
    is not, and the scene manager's drag controls, if there are any, are
    enabled. *)
Theorem toggle_on_then_off_restores_static_view
    (mj_reset : MSM.MjModel -> MSM.EngineState -> MSM.EngineState)
    (simulation_reset : MSM.EngineState -> MSM.EngineState)
    (parseFromString : string -> Dom.node)
    (serializeToString : Dom.node -> string)
    (numberToString : float -> string)
    (app0 app : SimulationHandler.App) (mdl : UnifiedRobotModel.t) (static : loc) :
  AppState.currentModel (SimulationHandler.state app0) = Some mdl ->
  UnifiedRobotModel.threeObject mdl = Some static ->
  apart static (SimulationHandler.world app0) ->
  bothVisible static (SimulationHandler.world app0) = false ->
  toggledFrom mj_reset simulation_reset parseFromString serializeToString
    numberToString app0 app ->
  bothVisible static (SimulationHandler.world app) = false /\
  forall o app1,
    SimulationHandler.handleMujocoToggleSimulate mj_reset simulation_reset
      parseFromString serializeToString numberToString o app = Some (true, app1) ->
    MSM.isVisible (SimulationHandler.world app1) static = false /\
    bothVisible static (SimulationHandler.world app1) = false /\
    forall o2, exists app2,
      SimulationHandler.handleMujocoToggleSimulate mj_reset simulation_reset
        parseFromString serializeToString numberToString o2 app1 = Some (false, app2) /\
      MSM.isVisible (SimulationHandler.world app2) static = true /\
      rootVisible (SimulationHandler.world app2) = false /\
      MSM.dragControls (MSM.sceneManager (SimulationHandler.world app2))
        = option_map (fun _ => MSM.mkDragControls true)
            (MSM.dragControls (MSM.sceneManager (SimulationHandler.world app))).
Proof.
  intros Hst Hmdl Hapart Hnot Hreach.
  assert (Hinv : SimulationHandler.state app = SimulationHandler.state app0 /\
                 apart static (SimulationHandler.world app) /\
                 bothVisible static (SimulationHandler.world app) = false).
  { induction Hreach as [|o app1 app2 b _ IH Hcall]; [auto|].
    destruct IH as (Hst1 & Hap1 & Hnot1).
    destruct (handleToggle_step mj_reset simulation_reset parseFromString
                serializeToString numberToString o app1 app2 mdl static b)
      as ((Hst2 & Hap2) & Hnot2 & _); try assumption; [congruence|].
    split; [congruence|]. auto. }
  destruct Hinv as (Hst1 & Hap1 & Hnot1). split; [assumption|].
  intros o app1 Hcall.
  destruct (handleToggle_step mj_reset simulation_reset parseFromString
              serializeToString numberToString o app app1 mdl static true)
    as (_ & Hnot2 & Hoff); try assumption; [congruence|].
  destruct (Hoff eq_refl) as [Hhidden Hnext]. auto.
Qed.

(** A page showing a static model (scene object 1, under the scene 0), with
    its MJCF file at hand and no physics scene loaded yet. *)
Definition staticModel : UnifiedRobotModel.t :=
  UnifiedRobotModel.mk "arm" JsMap.empty JsMap.empty JsMap.empty JsMap.empty None (Some 1).

Definition viewerPage : SimulationHandler.App :=
  SimulationHandler.mkApp
    (MSM.mkWorld MSM.newManager
       (MSM.mkSceneManager 0 (Some staticModel) (Some (MSM.mkDragControls true))
          (Some (MSM.mkHighlightManager true)) None)
       (<[1 := Object3D.setParent (Some 0) Object3D.new]> (<[0 := Object3D.new]> ∅))
       ∅)
    (AppState.mk (Some staticModel) (Some (File.mk "scene.xml" "<mujoco/>"))
       (Some staticModel) "rad")
    [].

Definition toggleOnPage (app : SimulationHandler.App) : option (bool * SimulationHandler.App) :=
  SimulationHandler.handleMujocoToggleSimulate (fun _ a => a) (fun a => a)
    (fun _ => sphereDocument) (fun _ => "") (fun _ => "0") (oracleFor MSM.MjDataApi) app.

Definition pageAfterOn : SimulationHandler.App :=
  match toggleOnPage viewerPage with
  | Some (_, app1) => app1
  | None => viewerPage
  end.

Lemma toggle_on_then_off_restores_static_view_witness :
  toggleOnPage viewerPage = Some (true, pageAfterOn) /\
  MSM.isVisible (SimulationHandler.world pageAfterOn) 1 = false /\
  rootVisible (SimulationHandler.world pageAfterOn) = true /\
  exists app2,
    toggleOnPage pageAfterOn = Some (false, app2) /\
    MSM.isVisible (SimulationHandler.world app2) 1 = true /\
    rootVisible (SimulationHandler.world app2) = false /\
    MSM.dragControls (MSM.sceneManager (SimulationHandler.world app2))
      = Some (MSM.mkDragControls true).
Proof.
  unfold toggleOnPage.
  assert (Hon : SimulationHandler.handleMujocoToggleSimulate (fun _ a => a) (fun a => a)
                  (fun _ => sphereDocument) (fun _ => "") (fun _ => "0")
                  (oracleFor MSM.MjDataApi) viewerPage = Some (true, pageAfterOn))
    by (vm_compute; reflexivity).
  assert (Hapart : apart 1 (SimulationHandler.world viewerPage)).
  { split; [eexists; vm_compute; reflexivity | vm_compute; discriminate]. }
  destruct (toggle_on_then_off_restores_static_view
              (fun _ a => a) (fun a => a) (fun _ => sphereDocument) (fun _ => "")
              (fun _ => "0") viewerPage viewerPage staticModel 1
              eq_refl eq_refl Hapart eq_refl
              (toggled_none _ _ _ _ _ viewerPage)) as [_ Hoff].
  destruct (Hoff (oracleFor MSM.MjDataApi) pageAfterOn Hon) as (Hhidden & _ & Hnext).
  split; [exact Hon|]. split; [exact Hhidden|]. split; [vm_compute; reflexivity|].
  destruct (Hnext (oracleFor MSM.MjDataApi)) as (app2 & E & Hv & Hr & Hd).
  exists app2. split; [exact E|]. split; [exact Hv|]. split; [exact Hr|].
  rewrite Hd. vm_compute. reflexivity.
Defined.

(** * Beyond the listed claims: more of the adapters and the bridge *)

(** ** File names of bundle keys *)

Lemma append_nil_l (b : string) : "" +:+ b = b.
Proof. reflexivity. Qed.

Lemma append_cons (x : ascii) (a b : string) : String x a +:+ b = String x (a +:+ b).
Proof. reflexivity. Qed.

Lemma append_assoc (a b c : string) : (a +:+ b) +:+ c = a +:+ (b +:+ c).
Proof.
  induction a as [|x a IH]; [reflexivity|].
  rewrite !append_cons. now rewrite IH.
Qed.

Lemma append_empty_r (a : string) : a +:+ "" = a.
Proof.
  induction a as [|x a IH]; [reflexivity|]. rewrite append_cons. now rewrite IH.
Qed.

Lemma split_nonempty (c : ascii) (s : string) : JsString.split c s <> [].
Proof.
  destruct s as [|d s]; simpl; [discriminate|].
  destruct (Ascii.eqb d c); [discriminate|].
  destruct (JsString.split c s); discriminate.
Qed.

Lemma last_app_nonempty {A} (l1 l2 : list A) (d : A) :
  l2 <> [] -> List.last (l1 ++ l2) d = List.last l2 d.
Proof.
  intros H. induction l1 as [|x l1 IH]; [reflexivity|].
  simpl. destruct (l1 ++ l2) eqn:E; [|exact IH].
  destruct l1; [simpl in E; congruence | discriminate].
Qed.

(** Splitting at a separator that is known to be there. *)
Lemma split_app (c : ascii) (a b : string) :
  exists l, l <> [] /\
    JsString.split c (a +:+ String c b) = l ++ JsString.split c b.
Proof.
  induction a as [|d a (l & Hl & IH)].
  - exists [""]. rewrite append_nil_l. simpl. rewrite Ascii.eqb_refl.
    split; [discriminate | reflexivity].
  - rewrite append_cons. simpl. rewrite IH. destruct (Ascii.eqb d c).
    + exists ("" :: l). split; [discriminate | reflexivity].
    + destruct l as [|h t]; [congruence|].
      exists (String d h :: t). split; [discriminate | reflexivity].
Qed.

(** The file name of a path is what follows its last slash. *)
Lemma basename_after_slash (a b : string) :
  JsString.basename (a +:+ String "/" b) = JsString.basename b.
Proof.
  unfold JsString.basename, JsString.pop.
  destruct (split_app "/" a b) as (l & _ & ->).
  apply last_app_nonempty, split_nonempty.
Qed.

(** A directory prefix: empty, or ending in a slash. *)
Definition dirLike (w : string) : Prop := w = "" \/ exists a, w = a +:+ "/".

Lemma basename_under_dir (w t : string) :
  dirLike w -> JsString.basename (w +:+ t) = JsString.basename t.
Proof.
  intros [->|[a ->]]; [reflexivity|].
  rewrite append_assoc. apply basename_after_slash.
Qed.

Lemma prefix_split (p s : string) :
  String.prefix p s = true -> s = p +:+ JsString.substring_from (String.length p) s.
Proof.
  revert s. induction p as [|a p IH]; intros s; [reflexivity|].
  destruct s as [|b s]; simpl; [discriminate|].
  destruct (Ascii.ascii_dec a b) as [->|]; [|discriminate].
  intros H. rewrite append_cons. now rewrite <- (IH s H).
Qed.

Lemma strip_prefix_dot_slash (s : string) :
  JsString.basename (JsString.strip_prefix "./" s) = JsString.basename s.
Proof.
  unfold JsString.strip_prefix.
  destruct (String.prefix "./" s) eqn:E; [|reflexivity].
  apply prefix_split in E. rewrite E at 2.
  symmetry. apply (basename_after_slash "." _).
Qed.

Lemma basename_cleanPath (path : string) :
  JsString.basename (XacroAdapter.cleanPath path) = JsString.basename path.
Proof.
  unfold XacroAdapter.cleanPath. rewrite strip_prefix_dot_slash.
  unfold JsString.startsWith.
  destruct (String.prefix "/" path) eqn:E; [|reflexivity].
  apply prefix_split in E. rewrite E at 2.
  symmetry. apply (basename_after_slash "" _).
Qed.

Lemma basename_strip_leading_slashes (s : string) :
  JsString.basename (JsString.strip_leading_slashes s) = JsString.basename s.
Proof.
  induction s as [|c s IH]; [reflexivity|].
  simpl. destruct (Ascii.ascii_dec c "/") as [->|Hc].
  - rewrite IH. symmetry. apply (basename_after_slash "" s).
  - destruct c as [[] [] [] [] [] [] [] []]; try reflexivity. now elim Hc.
Qed.

Lemma indexOf_split (c : ascii) (s : string) (i : nat) :
  JsString.indexOf c s = Some i ->
  s = JsString.substring_to i s +:+ String c (JsString.substring_from (i + 1) s).
Proof.
  revert i. induction s as [|d s IH]; intros i; simpl; [discriminate|].
  destruct (Ascii.eqb_spec d c) as [->|_].
  - intros [= <-]. reflexivity.
  - destruct (JsString.indexOf c s) as [j|]; [|discriminate].
    intros [= <-]. simpl. rewrite append_cons. now rewrite <- (IH j eq_refl).
Qed.

Lemma basename_withoutFirstComponent (cp : string) :
  JsString.basename (XacroAdapter.withoutFirstComponent cp) = JsString.basename cp.
Proof.
  unfold XacroAdapter.withoutFirstComponent.
  destruct (JsString.indexOf "/" cp) as [i|] eqn:E; [|reflexivity].
  rewrite (indexOf_split _ _ _ E) at 2. symmetry. apply basename_after_slash.
Qed.

Lemma lastIndexOf_split (c : ascii) (s : string) (i : nat) :
  JsString.lastIndexOf c s = Some i ->
  JsString.substring_to (i + 1) s = JsString.substring_to i s +:+ String c "".
Proof.
  revert i. induction s as [|d s IH]; intros i; simpl; [discriminate|].
  destruct (JsString.lastIndexOf c s) as [j|].
  - intros [= <-]. simpl. rewrite append_cons. now rewrite (IH j eq_refl).
  - destruct (Ascii.eqb_spec d c) as [->|_]; [|discriminate].
    intros [= <-]. reflexivity.
Qed.

(** The working path [parse] computes is a directory prefix. *)
Lemma workingPathOf_dirLike (fileName : string) :
  dirLike (XacroAdapter.workingPathOf fileName).
Proof.
  unfold XacroAdapter.workingPathOf.
  destruct (JsString.lastIndexOf "/" fileName) as [i|] eqn:E; [|now left].
  right. eexists. apply (lastIndexOf_split _ _ _ E).
Qed.

Lemma get_In {V} (k : string) (v : V) (m : JsMap.t V) :
  JsMap.get k m = Some v -> In (k, v) m.
Proof.
  induction m as [|[k0 v0] m IH]; simpl; [discriminate|].
  destruct (String.eqb_spec k0 k) as [->|_]; [intros [= ->]; now left | auto].
Qed.

Lemma find_key_Some {V} (p : string -> bool) (m : JsMap.t V) (v : V) :
  JsMap.find_key p m = Some v -> exists k, In (k, v) m /\ p k = true.
Proof.
  induction m as [|[k0 v0] m IH]; simpl; [discriminate|].
  destruct (p k0) eqn:E.
  - intros [= ->]. exists k0. auto.
  - intros H. destruct (IH H) as (k & Hin & Hp). exists k. auto.
Qed.

Lemma find_key_None {V} (p : string -> bool) (m : JsMap.t V) :
  JsMap.find_key p m = None <-> forall k v, In (k, v) m -> p k = false.
Proof.
  induction m as [|[k0 v0] m IH]; simpl.
  - split; [intros _ k v [] | reflexivity].
  - destruct (p k0) eqn:E.
    + split; [discriminate|]. intros H. rewrite (H k0 v0) in E; [discriminate | now left].
    + rewrite IH. split.
      * intros H k v [[= <- <-]|Hin]; [assumption | now apply (H k v)].
      * intros H k v Hin. apply (H k v). now right.
Qed.

Lemma tryPaths_Some (paths : list string) (fileMap : JsMap.t File.t) (f : File.t) :
  XacroAdapter.tryPaths paths fileMap = Some f ->
  exists p, In p paths /\ In (p, f) fileMap.
Proof.
  induction paths as [|p0 rest IH]; simpl; [discriminate|].
  destruct (JsMap.get p0 fileMap) as [f0|] eqn:E.
  - intros [= ->]. exists p0. split; [now left | now apply get_In].
  - intros H. destruct (IH H) as (p & Hp & Hin). exists p. auto.
Qed.

(** Every path [loadFileFromMap] tries carries the file name of the
    included path. *)
Lemma possiblePaths_basename (path workingPath p : string) :
  dirLike workingPath ->
  In p (XacroAdapter.possiblePaths path workingPath) ->
  JsString.basename p = JsString.basename (XacroAdapter.cleanPath path).
Proof.
  intros Hw. unfold XacroAdapter.possiblePaths. cbv zeta. simpl.
  intros [<-|[<-|[<-|[<-|[<-|[]]]]]].
  - reflexivity.
  - now apply basename_under_dir.
  - symmetry. apply basename_cleanPath.
  - rewrite basename_under_dir by assumption.
    now rewrite basename_strip_leading_slashes, basename_cleanPath.
  - apply basename_withoutFirstComponent.
Qed.

(** X1: [loadFileFromMap], called with the working path [parse] computes
    from the document's name.  It raises "Cannot find included file"
    exactly when no key of the bundle has the file name of the included
    path; otherwise it returns the text of a bundle file whose key has that
    file name. *)
Theorem loadFileFromMap_fails_iff_name_missing
    (path fileName : string) (fileMap : JsMap.t File.t) :
  let wanted := JsString.basename (XacroAdapter.cleanPath path) in
  let r := XacroAdapter.loadFileFromMap path fileMap (XacroAdapter.workingPathOf fileName) in
  (r = Throw ("Cannot find included file: " +:+ path) <->
   forall k f, In (k, f) fileMap -> JsString.basename k <> wanted) /\
  (forall content, r = Ok content ->
     exists k f, In (k, f) fileMap /\ JsString.basename k = wanted /\
                 File.text f = content) /\
  ((exists content, r = Ok content) \/ r = Throw ("Cannot find included file: " +:+ path)).
Proof.
  cbv zeta. unfold XacroAdapter.loadFileFromMap.
  pose proof (workingPathOf_dirLike fileName) as Hw.
  destruct (XacroAdapter.tryPaths _ fileMap) as [f|] eqn:Etry.
  - destruct (tryPaths_Some _ _ _ Etry) as (p & Hp & Hin).
    pose proof (possiblePaths_basename _ _ _ Hw Hp) as Hname.
    split; [split; [discriminate|]|split].
    + intros H. now elim (H p f Hin).
    + intros content [= <-]. exists p, f. auto.
    + left. eauto.
  - unfold XacroAdapter.findByFileName.
    destruct (JsMap.find_key _ fileMap) as [f|] eqn:Escan.
    + destruct (find_key_Some _ _ _ Escan) as (k & Hin & Hk).
      apply String.eqb_eq in Hk.
      split; [split; [discriminate|]|split].
      * intros H. now elim (H k f Hin).
      * intros content [= <-]. exists k, f. auto.
      * left. eauto.
    + split; [split; [|reflexivity]|split].
      * intros _ k f Hin Hk.
        rewrite find_key_None in Escan. specialize (Escan k f Hin).
        apply String.eqb_neq in Escan. contradiction.
      * discriminate.
      * now right.
Qed.

(** X2: [findFileInMapByPath], called with the directory [parse] computes
    from the document's name.  It returns [null] exactly when no key of
    the bundle has the file name of the reference (scheme, package name and
    a leading [./] removed); what it returns otherwise is a bundle file
    whose key has that file name. *)
Theorem findFileInMapByPath_null_iff_name_missing
    (path fileName : string) (fileMap : JsMap.t File.t) :
  let meshPath :=
    JsString.strip_prefix "./"
      (XacroAdapter.stripPackage (JsString.strip_blob_origin path)) in
  let r := XacroAdapter.findFileInMapByPath path fileMap
             (XacroAdapter.workingPathOf fileName) in
  (r = None <->
   forall k f, In (k, f) fileMap -> JsString.basename k <> JsString.basename meshPath) /\
  (forall f, r = Some f ->
     exists k, In (k, f) fileMap /\ JsString.basename k = JsString.basename meshPath).
Proof.
  cbv zeta. unfold XacroAdapter.findFileInMapByPath. cbv zeta.
  pose proof (workingPathOf_dirLike fileName) as Hw.
  set (meshPath := JsString.strip_prefix "./" _).
  destruct (JsMap.get (_ +:+ meshPath) fileMap) as [f|] eqn:E1.
  - apply get_In in E1. pose proof (basename_under_dir _ meshPath Hw) as Hname.
    split; [split; [discriminate|]|].
    + intros H. now elim (H _ f E1).
    + intros f' [= <-]. eauto.
  - destruct (JsMap.get meshPath fileMap) as [f|] eqn:E2.
    + apply get_In in E2.
      split; [split; [discriminate|]|].
      * intros H. now elim (H _ f E2).
      * intros f' [= <-]. eauto.
    + unfold XacroAdapter.findByFileName.
      destruct (JsMap.find_key _ fileMap) as [f|] eqn:Escan.
      * destruct (find_key_Some _ _ _ Escan) as (k & Hin & Hk).
        apply String.eqb_eq in Hk.
        split; [split; [discriminate|]|].
        -- intros H. now elim (H k f Hin).
        -- intros f' [= <-]. eauto.
      * split; [split; [|reflexivity]|discriminate].
        intros _ k f Hin Hk.
        rewrite find_key_None in Escan. specialize (Escan k f Hin).
        apply String.eqb_neq in Escan. contradiction.
Qed.

(** ** Normalising a relative reference *)

Lemma split_parts_no_sep (c : ascii) (s : string) :
  Forall (fun p => JsString.indexOf c p = None) (JsString.split c s).
Proof.
  induction s as [|d s IH]; simpl.
  - repeat constructor.
  - destruct (Ascii.eqb d c) eqn:E.
    + constructor; [reflexivity | exact IH].
    + destruct (JsString.split c s) as [|h t].
      * repeat constructor. simpl. now rewrite E.
      * inversion IH as [|? ? Hh Ht]; subst. constructor; [|exact Ht].
        simpl. now rewrite E, Hh.
Qed.

Lemma split_without_sep (c : ascii) (p : string) :
  JsString.indexOf c p = None -> JsString.split c p = [p].
Proof.
  induction p as [|d p IH]; simpl; [reflexivity|].
  destruct (Ascii.eqb d c); [discriminate|].
  destruct (JsString.indexOf c p); [discriminate|].
  intros _. now rewrite IH.
Qed.

Lemma split_part_then_sep (c : ascii) (p x : string) :
  JsString.indexOf c p = None ->
  JsString.split c (p +:+ String c x) = p :: JsString.split c x.
Proof.
  induction p as [|d p IH]; intros Hp.
  - rewrite append_nil_l. simpl. now rewrite Ascii.eqb_refl.
  - rewrite append_cons. simpl in *.
    destruct (Ascii.eqb d c); [discriminate|].
    destruct (JsString.indexOf c p); [discriminate|].
    now rewrite IH.
Qed.

Lemma join_cons2 (sep p q : string) (r : list string) :
  JsString.join sep (p :: q :: r) = p +:+ sep +:+ JsString.join sep (q :: r).
Proof. reflexivity. Qed.

Lemma split_join (c : ascii) (l : list string) :
  l <> [] ->
  Forall (fun p => JsString.indexOf c p = None) l ->
  JsString.split c (JsString.join (String c "") l) = l.
Proof.
  induction l as [|p l IH]; [congruence|]. intros _ Hall.
  inversion Hall as [|? ? Hp Hl]; subst.
  destruct l as [|q r].
  - now apply split_without_sep.
  - rewrite join_cons2, append_cons, append_nil_l, split_part_then_sep by exact Hp.
    now rewrite IH.
Qed.

(** A path component that the loop of the modifier keeps. *)
Definition keptPart (part : string) : Prop :=
  part <> ".." /\ part <> "." /\ part <> "".

Lemma Forall_removelast {A} (P : A -> Prop) (l : list A) :
  Forall P l -> Forall P (removelast l).
Proof.
  induction 1 as [|a l Ha Hl IH]; simpl; [constructor|].
  destruct l; [constructor|]. constructor; assumption.
Qed.

Lemma resolveParts_Forall (P : string -> Prop) (parts resolved : list string) :
  Forall P parts -> Forall P resolved ->
  Forall P (XacroAdapter.resolveParts parts resolved).
Proof.
  revert resolved. induction parts as [|part rest IH]; intros resolved Hp Hr; simpl.
  - exact Hr.
  - inversion Hp; subst.
    destruct (String.eqb part "..").
    + apply IH; [assumption|]. now apply Forall_removelast.
    + destruct (negb (String.eqb part ".") && negb (String.eqb part "")).
      * apply IH; [assumption|]. apply Forall_app; split; [assumption|]. now constructor.
      * now apply IH.
Qed.

Lemma resolveParts_kept (parts resolved : list string) :
  Forall keptPart resolved ->
  Forall keptPart (XacroAdapter.resolveParts parts resolved).
Proof.
  revert resolved. induction parts as [|part rest IH]; intros resolved Hr; simpl.
  - exact Hr.
  - destruct (String.eqb_spec part "..").
    + apply IH. now apply Forall_removelast.
    + destruct (String.eqb_spec part "."); simpl; [now apply IH|].
      destruct (String.eqb_spec part ""); simpl; [now apply IH|].
      apply IH. apply Forall_app; split; [assumption|].
      constructor; [|constructor]. repeat split; assumption.
Qed.

Lemma resolveParts_of_kept (parts resolved : list string) :
  Forall keptPart parts ->
  XacroAdapter.resolveParts parts resolved = resolved ++ parts.
Proof.
  revert resolved. induction parts as [|part rest IH]; intros resolved Hp; simpl.
  - now rewrite app_nil_r.
  - inversion Hp as [|? ? (H1 & H2 & H3) Hrest]; subst.
    destruct (String.eqb_spec part ".."); [contradiction|].
    destruct (String.eqb_spec part "."); [contradiction|].
    destruct (String.eqb_spec part ""); [contradiction|]. simpl.
    rewrite IH by assumption. now rewrite <- app_assoc.
Qed.

(** X3: normalising a reference twice is the same as normalising it once:
    the path the modifier looks up is a fixed point of its own
    normalisation. *)
Theorem normalizePath_idempotent (meshPath : string) :
  XacroAdapter.normalizePath (XacroAdapter.normalizePath meshPath)
  = XacroAdapter.normalizePath meshPath.
Proof.
  destruct (JsString.includes "../" meshPath) eqn:E.
  - set (l := XacroAdapter.resolveParts (JsString.split "/" meshPath) []).
    assert (Hkept : Forall keptPart l) by (apply resolveParts_kept; constructor).
    assert (Hsep : Forall (fun p => JsString.indexOf "/" p = None) l).
    { apply resolveParts_Forall; [apply split_parts_no_sep | constructor]. }
    assert (Hn : XacroAdapter.normalizePath meshPath = JsString.join "/" l).
    { unfold XacroAdapter.normalizePath. now rewrite E. }
    rewrite Hn. unfold XacroAdapter.normalizePath.
    destruct (JsString.includes "../" (JsString.join "/" l)) eqn:E'; [|reflexivity].
    assert (Hne : l <> []) by (intros ->; discriminate E').
    rewrite (split_join "/" l Hne Hsep).
    now rewrite resolveParts_of_kept.
  - assert (Hn : XacroAdapter.normalizePath meshPath = meshPath).
    { unfold XacroAdapter.normalizePath. now rewrite E. }
    now rewrite !Hn.
Qed.

(** X4: when a reference contains [../], the normalised path is either
    empty or a sequence of components separated by single slashes, none of
    which is [..], [.] or empty: no step to a parent directory is left,
    and steps above the start have been dropped. *)
Theorem normalizePath_has_no_parent_steps (meshPath : string) :
  JsString.includes "../" meshPath = true ->
  XacroAdapter.normalizePath meshPath = "" \/
  Forall keptPart (JsString.split "/" (XacroAdapter.normalizePath meshPath)).
Proof.
  intros E. unfold XacroAdapter.normalizePath. rewrite E.
  set (l := XacroAdapter.resolveParts (JsString.split "/" meshPath) []).
  assert (Hkept : Forall keptPart l) by (apply resolveParts_kept; constructor).
  assert (Hsep : Forall (fun p => JsString.indexOf "/" p = None) l).
  { apply resolveParts_Forall; [apply split_parts_no_sep | constructor]. }
  destruct l as [|p r] eqn:El; [now left|right].
  rewrite split_join; [exact Hkept | discriminate | exact Hsep].
Qed.

Lemma normalizePath_has_no_parent_steps_witness :
  JsString.includes "../" "meshes/../../assets/./arm.stl" = true /\
  (XacroAdapter.normalizePath "meshes/../../assets/./arm.stl" = "" \/
   Forall keptPart
     (JsString.split "/" (XacroAdapter.normalizePath "meshes/../../assets/./arm.stl"))).
Proof.
  split; [reflexivity|].
  apply (normalizePath_has_no_parent_steps "meshes/../../assets/./arm.stl").
  reflexivity.
Defined.

(** X5: the bundle lookup of the URL modifier, under the directory [parse]
    computes from the document's name.  A file it returns is stored under
    a key that has the file name of the reference, normalised or as
    written; it returns nothing only if no key has the file name it scans
    for (that of the normalised path, or of the written one when the
    former is empty). *)
Theorem matchInBundle_matches_by_file_name
    (meshPath fileName : string) (fileMap : JsMap.t File.t) :
  let normalizedPath := XacroAdapter.normalizePath meshPath in
  let targetFileName :=
    if JsString.truthy (JsString.basename normalizedPath)
    then JsString.basename normalizedPath else JsString.basename meshPath in
  let r := XacroAdapter.matchInBundle meshPath fileMap
             (XacroAdapter.workingPathOf fileName) in
  (forall f, r = Some f ->
     exists k, In (k, f) fileMap /\
       (JsString.basename k = JsString.basename normalizedPath \/
        JsString.basename k = JsString.basename meshPath)) /\
  (r = None <->
     forall k f, In (k, f) fileMap ->
       k <> XacroAdapter.workingPathOf fileName +:+ normalizedPath /\
       k <> XacroAdapter.workingPathOf fileName +:+ meshPath /\
       k <> normalizedPath /\ k <> meshPath /\
       JsString.basename k <> targetFileName).
Proof.
  cbv zeta. unfold XacroAdapter.matchInBundle. cbv zeta.
  pose proof (workingPathOf_dirLike fileName) as Hw.
  set (urdfDir := XacroAdapter.workingPathOf fileName) in *.
  set (n := XacroAdapter.normalizePath meshPath).
  pose proof (basename_under_dir urdfDir n Hw) as Hn.
  pose proof (basename_under_dir urdfDir meshPath Hw) as Hm.
  assert (Hmiss : forall key, JsMap.get key fileMap = None ->
                    forall k f, In (k, f) fileMap -> k <> key).
  { intros key Hget k f Hin ->. apply JsMap.get_None_keys in Hget.
    apply Hget. unfold JsMap.keys. apply in_map_iff. now exists (key, f). }
  assert (Hhit : forall key f, JsMap.get key fileMap = Some f ->
                   ~ (forall k f, In (k, f) fileMap -> k <> key)).
  { intros key f Hget H. apply get_In in Hget. now apply (H key f). }
  destruct (JsMap.get (urdfDir +:+ n) fileMap) as [f1|] eqn:E1.
  { split.
    - intros f [= <-]. apply get_In in E1. eauto.
    - split; [discriminate|]. intros H. exfalso.
      apply (Hhit _ _ E1). intros k f Hin. now apply (H k f Hin). }
  destruct (if negb (String.eqb (urdfDir +:+ meshPath) (urdfDir +:+ n))
            then JsMap.get (urdfDir +:+ meshPath) fileMap else None) as [f2|] eqn:E2.
  { destruct (negb _); [|discriminate]. split.
    - intros f [= <-]. apply get_In in E2. eauto.
    - split; [discriminate|]. intros H. exfalso.
      apply (Hhit _ _ E2). intros k f Hin. now apply (H k f Hin). }
  assert (E2n : JsMap.get (urdfDir +:+ meshPath) fileMap = None).
  { destruct (String.eqb_spec (urdfDir +:+ meshPath) (urdfDir +:+ n)) as [->|]; simpl in E2;
      assumption. }
  destruct (JsMap.get n fileMap) as [f3|] eqn:E3.
  { split.
    - intros f [= <-]. apply get_In in E3. eauto.
    - split; [discriminate|]. intros H. exfalso.
      apply (Hhit _ _ E3). intros k f Hin. now apply (H k f Hin). }
  destruct (JsMap.get meshPath fileMap) as [f4|] eqn:E4.
  { split.
    - intros f [= <-]. apply get_In in E4. eauto.
    - split; [discriminate|]. intros H. exfalso.
      apply (Hhit _ _ E4). intros k f Hin. now apply (H k f Hin). }
  unfold XacroAdapter.findByFileName.
  destruct (JsMap.find_key _ fileMap) as [f|] eqn:Escan.
  - destruct (find_key_Some _ _ _ Escan) as (k & Hin & Hk).
    apply String.eqb_eq in Hk. split.
    + intros f' [= <-]. exists k. split; [assumption|].
      destruct (JsString.truthy _); auto.
    + split; [discriminate|]. intros H. exfalso.
      now apply (H k f Hin).
  - split; [discriminate|]. split; [|reflexivity].
    intros _ k f Hin.
    rewrite find_key_None in Escan. specialize (Escan k f Hin).
    apply String.eqb_neq in Escan.
    repeat split; eauto.
Qed.

(** ** Textual preprocessing of a xacro document *)

Module XacroText.
Import JsString.

Definition newline : string := String "010" "".
Definition quote : string := String "034" "".

(** The block [injectBooleanConstants] inserts (a template literal that
    starts and ends with a line break). *)
Definition booleanProperties : string :=
  newline +:+
  "    <!-- Injected by XacroAdapter: Python-style boolean constants -->" +:+ newline +:+
  "    <xacro:property name=" +:+ quote +:+ "True" +:+ quote +:+
    " value=" +:+ quote +:+ "True" +:+ quote +:+ "/>" +:+ newline +:+
  "    <xacro:property name=" +:+ quote +:+ "False" +:+ quote +:+
    " value=" +:+ quote +:+ "False" +:+ quote +:+ "/>" +:+ newline.

(** [/(<robot[^>]*>)/] tried at the start of [s]: the length of the match.
    The class [[^>]] also matches line breaks, so the match runs to the
    first [>] after [<robot]. *)
Definition matchRobotTagAt (s : string) : option nat :=
  if String.prefix "<robot" s then
    match indexOf ">" (substring_from 6 s) with
    | Some j => Some (6 + j + 1)
    | None => None
    end
  else None.

(** [s.match(/(<robot[^>]*>)/)]: index and length of the leftmost match. *)
Fixpoint matchRobotTag (s : string) : option (nat * nat) :=
  match matchRobotTagAt s with
  | Some len => Some (O, len)
  | None =>
      match s with
      | EmptyString => None
      | String _ s' =>
          match matchRobotTag s' with
          | Some (i, len) => Some (S i, len)
          | None => None
          end
      end
  end.

Definition injectBooleanConstants (xacroContent : string) : string :=
  match matchRobotTag xacroContent with
  | None => xacroContent
  | Some (index, len) =>
      let insertPosition := index + len in
      substring_to insertPosition xacroContent +:+ booleanProperties +:+
      substring_from insertPosition xacroContent
  end.

End XacroText.

Lemma substring_to_from (n : nat) (s : string) :
  JsString.substring_to n s +:+ JsString.substring_from n s = s.
Proof.
  revert s. induction n as [|n IH]; intros [|c s]; simpl; try reflexivity.
  rewrite append_cons. now rewrite IH.
Qed.

Lemma length_append (a b : string) :
  String.length (a +:+ b) = String.length a + String.length b.
Proof.
  induction a as [|x a IH]; [reflexivity|]. rewrite append_cons. simpl. now rewrite IH.
Qed.

Lemma substring_to_append (a b : string) :
  JsString.substring_to (String.length a) (a +:+ b) = a.
Proof.
  induction a as [|x a IH]; [now destruct b|]. rewrite append_cons. simpl. now rewrite IH.
Qed.

Lemma substring_from_append (a b : string) :
  JsString.substring_from (String.length a) (a +:+ b) = b.
Proof.
  induction a as [|x a IH]; [reflexivity|]. rewrite append_cons. simpl. exact IH.
Qed.

Lemma indexOf_append (c : ascii) (a b : string) :
  JsString.indexOf c a = None ->
  JsString.indexOf c (a +:+ String c b) = Some (String.length a).
Proof.
  induction a as [|x a IH]; intros H.
  - rewrite append_nil_l. simpl. now rewrite Ascii.eqb_refl.
  - rewrite append_cons. simpl in *.
    destruct (Ascii.eqb x c); [discriminate|].
    destruct (JsString.indexOf c a); [discriminate|]. now rewrite IH.
Qed.

Lemma indexOf_append_Some (c : ascii) (a b : string) :
  exists j, JsString.indexOf c (a +:+ String c b) = Some j.
Proof.
  induction a as [|x a (j & IH)].
  - exists 0. rewrite append_nil_l. simpl. now rewrite Ascii.eqb_refl.
  - rewrite append_cons. simpl. destruct (Ascii.eqb x c); [now exists 0|].
    rewrite IH. now exists (S j).
Qed.

Lemma prefix_append_long (p a b : string) :
  String.length p <= String.length a ->
  String.prefix p (a +:+ b) = String.prefix p a.
Proof.
  revert a. induction p as [|x p IH]; intros a Hlen.
  - now destruct a, b.
  - destruct a as [|y a]; simpl in Hlen; [lia|].
    rewrite append_cons. simpl. destruct (Ascii.ascii_dec x y); [|reflexivity].
    apply IH. lia.
Qed.

Lemma robot_append (x : string) :
  "<robot" +:+ x = String "<" (String "r" (String "o" (String "b" (String "o" (String "t" x))))).
Proof. reflexivity. Qed.

Lemma prefix_robot (x : string) : String.prefix "<robot" ("<robot" +:+ x) = true.
Proof. rewrite robot_append. simpl. now destruct x. Qed.

Lemma matchRobotTagAt_tag (attrs post : string) :
  JsString.indexOf ">" attrs = None ->
  XacroText.matchRobotTagAt ("<robot" +:+ attrs +:+ String ">" post)
  = Some (6 + String.length attrs + 1).
Proof.
  intros H. unfold XacroText.matchRobotTagAt. rewrite prefix_robot, robot_append.
  change (JsString.substring_from 6 _) with (attrs +:+ String ">" post).
  now rewrite (indexOf_append _ _ _ H).
Qed.

Lemma matchRobotTagAt_some (mid post : string) :
  exists len, XacroText.matchRobotTagAt ("<robot" +:+ mid +:+ String ">" post) = Some len.
Proof.
  unfold XacroText.matchRobotTagAt. rewrite prefix_robot, robot_append.
  change (JsString.substring_from 6 _) with (mid +:+ String ">" post).
  destruct (indexOf_append_Some ">" mid post) as (j & ->). eauto.
Qed.

Lemma includes_cons (t : string) (c : ascii) (s : string) :
  JsString.includes t (String c s) = String.prefix t (String c s) || JsString.includes t s.
Proof. reflexivity. Qed.

Lemma matchRobotTag_skip (pre rest : string) :
  JsString.includes "<robot" (pre +:+ "<robo") = false ->
  XacroText.matchRobotTag (pre +:+ "<robot" +:+ rest)
  = match XacroText.matchRobotTag ("<robot" +:+ rest) with
    | Some (i, len) => Some (String.length pre + i, len)
    | None => None
    end.
Proof.
  induction pre as [|c pre IH]; intros H.
  - rewrite append_nil_l. now destruct (XacroText.matchRobotTag _) as [[i len]|].
  - rewrite append_cons, includes_cons in H.
    apply orb_false_elim in H as [Hhere Hlater].
    rewrite append_cons.
    change (XacroText.matchRobotTag (String c (pre +:+ "<robot" +:+ rest)))
      with (match XacroText.matchRobotTagAt (String c (pre +:+ "<robot" +:+ rest)) with
            | Some len => Some (O, len)
            | None => match XacroText.matchRobotTag (pre +:+ "<robot" +:+ rest) with
                      | Some (i, len) => Some (S i, len)
                      | None => None
                      end
            end).
    assert (Hat : XacroText.matchRobotTagAt (String c (pre +:+ "<robot" +:+ rest)) = None).
    { unfold XacroText.matchRobotTagAt.
      replace (String c (pre +:+ "<robot" +:+ rest))
        with (String c (pre +:+ "<robo") +:+ ("t" +:+ rest)).
      - rewrite prefix_append_long, Hhere; [reflexivity|].
        simpl. rewrite length_append. simpl. lia.
      - rewrite append_cons, append_assoc. reflexivity. }
    rewrite Hat, (IH Hlater).
    destruct (XacroText.matchRobotTag ("<robot" +:+ rest)) as [[i len]|]; reflexivity.
Qed.

Lemma matchRobotTag_at (s : string) (len : nat) :
  XacroText.matchRobotTagAt s = Some len -> XacroText.matchRobotTag s = Some (0, len).
Proof.
  intros H. destruct s as [|c s]; [discriminate H|].
  change (XacroText.matchRobotTag (String c s))
    with (match XacroText.matchRobotTagAt (String c s) with
          | Some len => Some (O, len)
          | None => match XacroText.matchRobotTag s with
                    | Some (i, len) => Some (S i, len)
                    | None => None
                    end
          end).
  now rewrite H.
Qed.

Lemma matchRobotTag_finds (pre mid post : string) :
  XacroText.matchRobotTag (pre +:+ "<robot" +:+ mid +:+ String ">" post) <> None.
Proof.
  induction pre as [|c pre IH].
  - rewrite append_nil_l. destruct (matchRobotTagAt_some mid post) as (len & H).
    now rewrite (matchRobotTag_at _ _ H).
  - rewrite append_cons. simpl.
    destruct (XacroText.matchRobotTagAt _); [discriminate|].
    destruct (XacroText.matchRobotTag _) as [[i len]|]; [discriminate | assumption].
Qed.

Lemma matchRobotTag_found (s : string) (i len : nat) :
  XacroText.matchRobotTag s = Some (i, len) ->
  exists pre mid post, s = pre +:+ "<robot" +:+ mid +:+ String ">" post.
Proof.
  revert i len. induction s as [|c s IH]; intros i len.
  - discriminate.
  - simpl. destruct (XacroText.matchRobotTagAt (String c s)) as [l|] eqn:Eat.
    + intros _. unfold XacroText.matchRobotTagAt in Eat.
      destruct (String.prefix "<robot" (String c s)) eqn:Epre; [|discriminate].
      apply prefix_split in Epre.
      destruct (JsString.indexOf ">" _) as [j|] eqn:Ej; [|discriminate].
      apply indexOf_split in Ej.
      exists "", (JsString.substring_to j (JsString.substring_from 6 (String c s))),
        (JsString.substring_from (j + 1) (JsString.substring_from 6 (String c s))).
      rewrite append_nil_l, <- Ej. exact Epre.
    + destruct (XacroText.matchRobotTag s) as [[i' len']|] eqn:Erec; [|discriminate].
      intros _. destruct (IH i' len' eq_refl) as (pre & mid & post & ->).
      exists (String c pre), mid, post. now rewrite append_cons.
Qed.

(** X6: in a document whose first [<robot] starts a tag that is closed,
    the boolean constants are inserted right after the [>] that closes
    that tag, and nothing else changes. *)
Theorem injectBooleanConstants_after_first_robot_tag (pre attrs post : string) :
  JsString.includes "<robot" (pre +:+ "<robo") = false ->
  JsString.indexOf ">" attrs = None ->
  XacroText.injectBooleanConstants (pre +:+ "<robot" +:+ attrs +:+ ">" +:+ post)
  = pre +:+ "<robot" +:+ attrs +:+ ">" +:+ XacroText.booleanProperties +:+ post.
Proof.
  intros Hpre Hattrs. unfold XacroText.injectBooleanConstants.
  change (">" +:+ post) with (String ">" post).
  rewrite (matchRobotTag_skip pre _ Hpre).
  rewrite (matchRobotTag_at _ _ (matchRobotTagAt_tag attrs post Hattrs)).
  cbv zeta.
  set (head := pre +:+ "<robot" +:+ attrs +:+ ">").
  assert (Hs : pre +:+ "<robot" +:+ attrs +:+ String ">" post = head +:+ post).
  { unfold head. rewrite !append_assoc. reflexivity. }
  assert (Hlen : String.length pre + 0 + (6 + String.length attrs + 1) = String.length head).
  { unfold head. rewrite !length_append. simpl. lia. }
  rewrite Hs, Hlen, substring_to_append, substring_from_append.
  unfold head. rewrite !append_assoc.
  change (">" +:+ XacroText.booleanProperties +:+ post)
    with (String ">" (XacroText.booleanProperties +:+ post)).
  reflexivity.
Qed.

Lemma injectBooleanConstants_after_first_robot_tag_witness :
  let pre := "<?xml version='1.0'?><!-- robot -->" in
  let attrs := " name='arm' xmlns:xacro='http://ros.org/wiki/xacro'" in
  let post := "<link name='base'/></robot>" in
  JsString.includes "<robot" (pre +:+ "<robo") = false /\
  JsString.indexOf ">" attrs = None /\
  XacroText.injectBooleanConstants (pre +:+ "<robot" +:+ attrs +:+ ">" +:+ post)
  = pre +:+ "<robot" +:+ attrs +:+ ">" +:+ XacroText.booleanProperties +:+ post.
Proof.
  cbv zeta. split; [reflexivity|]. split; [reflexivity|].
  apply injectBooleanConstants_after_first_robot_tag; reflexivity.
Defined.

(** X7: [injectBooleanConstants] leaves a document as it is exactly when
    the document has no [<robot] followed, anywhere later, by a [>];
    otherwise the result is longer by the length of the inserted block. *)
Theorem injectBooleanConstants_unchanged_iff_no_robot_tag (xacroContent : string) :
  (XacroText.injectBooleanConstants xacroContent = xacroContent <->
   ~ exists pre mid post, xacroContent = pre +:+ "<robot" +:+ mid +:+ ">" +:+ post) /\
  (XacroText.injectBooleanConstants xacroContent = xacroContent \/
   String.length (XacroText.injectBooleanConstants xacroContent)
   = String.length xacroContent + String.length XacroText.booleanProperties).
Proof.
  unfold XacroText.injectBooleanConstants.
  destruct (XacroText.matchRobotTag xacroContent) as [[i len]|] eqn:E.
  - cbv zeta.
    assert (Hlen : String.length
              (JsString.substring_to (i + len) xacroContent +:+
               XacroText.booleanProperties +:+
               JsString.substring_from (i + len) xacroContent)
            = String.length xacroContent + String.length XacroText.booleanProperties).
    { rewrite !length_append.
      rewrite <- (substring_to_from (i + len) xacroContent) at 3.
      rewrite length_append. lia. }
    split; [|now right]. split.
    + intros H. rewrite H in Hlen.
      assert (0 < String.length XacroText.booleanProperties) by (vm_compute; lia).
      lia.
    + intros H. exfalso. apply H. exact (matchRobotTag_found _ _ _ E).
  - split; [|now left]. split; [|reflexivity].
    intros _ (pre & mid & post & ->).
    exact (matchRobotTag_finds pre mid post E).
Qed.

(** ** Cleaning the expanded document *)

Module XacroXml.
Import Dom.

Section Clean.
(** [String.prototype.trim] *)
Variable trim : string -> string.

(** A child that [cleanXMLNodes] collects for removal: a comment, or a
    text node with [!node.nodeValue || node.nodeValue.trim() === '']. *)
Definition removed (n : node) : bool :=
  match n with
  | Comment _ => true
  | Text d => negb (JsString.truthy d) || String.eqb (trim d) ""
  | Element _ _ _ => false
  end.

(** [cleanXMLNodes(element)]: the element after the call.  Child elements
    are cleaned where they stand, the collected children are then taken
    out; a node without children is left alone.  (Nodes of other kinds,
    which the loop passes over, are not part of [Dom.node].) *)
Fixpoint cleanXMLNodes (n : node) : node :=
  match n with
  | Element t a cs =>
      Element t a
        ((fix children (l : list node) : list node :=
            match l with
            | [] => []
            | c :: r => if removed c then children r else cleanXMLNodes c :: children r
            end) cs)
  | _ => n
  end.

Fixpoint cleanChildren (l : list node) : list node :=
  match l with
  | [] => []
  | c :: r => if removed c then cleanChildren r else cleanXMLNodes c :: cleanChildren r
  end.

(** No comment and no blank text node among the descendants of [n]. *)
Fixpoint isClean (n : node) : bool :=
  match n with
  | Element _ _ cs =>
      (fix children (l : list node) : bool :=
         match l with
         | [] => true
         | c :: r => negb (removed c) && isClean c && children r
         end) cs
  | _ => true
  end.

Fixpoint areClean (l : list node) : bool :=
  match l with
  | [] => true
  | c :: r => negb (removed c) && isClean c && areClean r
  end.

Lemma cleanXMLNodes_Element t a cs :
  cleanXMLNodes (Element t a cs) = Element t a (cleanChildren cs).
Proof. reflexivity. Qed.

Lemma isClean_Element t a cs : isClean (Element t a cs) = areClean cs.
Proof. reflexivity. Qed.

Lemma removed_cleanXMLNodes (n : node) : removed (cleanXMLNodes n) = removed n.
Proof. destruct n; reflexivity. Qed.

Lemma cleanXMLNodes_isClean (n : node) : isClean (cleanXMLNodes n) = true.
Proof.
  induction n as [t a cs IH| |] using node_rect'; try reflexivity.
  rewrite cleanXMLNodes_Element, isClean_Element.
  induction IH as [|c r Hc _ IHr]; simpl; [reflexivity|].
  destruct (removed c) eqn:E; [exact IHr|]. simpl.
  now rewrite removed_cleanXMLNodes, E, Hc, IHr.
Qed.

Lemma cleanXMLNodes_fixed (n : node) : isClean n = true -> cleanXMLNodes n = n.
Proof.
  induction n as [t a cs IH| |] using node_rect'; try reflexivity.
  rewrite cleanXMLNodes_Element, isClean_Element. intros H. f_equal.
  induction IH as [|c r Hc _ IHr]; simpl in *; [reflexivity|].
  apply andb_prop in H as [H Hr]. apply andb_prop in H as [Hk Hcc].
  apply negb_true_iff in Hk. rewrite Hk, (Hc Hcc), (IHr Hr). reflexivity.
Qed.

Lemma countTag_cleanXMLNodes (tag : string) (n : node) :
  countTag tag (cleanXMLNodes n) = countTag tag n.
Proof.
  induction n as [t a cs IH| |] using node_rect'; try reflexivity.
  rewrite cleanXMLNodes_Element, !countTag_Element. f_equal.
  induction IH as [|c r Hc _ IHr]; simpl; [reflexivity|].
  destruct (removed c) eqn:E.
  - rewrite IHr. destruct c; simpl in *; try discriminate; reflexivity.
  - simpl. now rewrite Hc, IHr.
Qed.

Lemma matches_cleanXMLNodes (sel : selector) (n : node) :
  matches sel (cleanXMLNodes n) = matches sel n.
Proof. destruct n; reflexivity. Qed.

Lemma findFirst_cleanXMLNodes (sel : selector) (n : node) :
  findFirst (matches sel) (cleanXMLNodes n)
  = option_map cleanXMLNodes (findFirst (matches sel) n).
Proof.
  induction n as [t a cs IH| |] using node_rect'; try reflexivity.
  rewrite cleanXMLNodes_Element, !findFirst_Element.
  change (matches sel (Element t a (cleanChildren cs)))
    with (matches sel (Element t a cs)).
  destruct (matches sel (Element t a cs)).
  - simpl. now rewrite <- cleanXMLNodes_Element.
  - induction IH as [|c r Hc _ IHr]; simpl; [reflexivity|].
    destruct (removed c) eqn:E.
    + rewrite IHr. destruct c; simpl in *; try discriminate; reflexivity.
    + simpl. rewrite Hc. destruct (findFirst (matches sel) c); [reflexivity | exact IHr].
Qed.

End Clean.
End XacroXml.

(** X8: after [cleanXMLNodes], no comment and no empty or blank text node
    is left at any depth below the element, and cleaning again changes
    nothing. *)
Theorem cleanXMLNodes_removes_all_and_is_idempotent
    (trim : string -> string) (element : Dom.node) :
  XacroXml.isClean trim (XacroXml.cleanXMLNodes trim element) = true /\
  XacroXml.cleanXMLNodes trim (XacroXml.cleanXMLNodes trim element)
  = XacroXml.cleanXMLNodes trim element.
Proof.
  split; [apply XacroXml.cleanXMLNodes_isClean|].
  apply XacroXml.cleanXMLNodes_fixed, XacroXml.cleanXMLNodes_isClean.
Qed.

(** X9: [cleanXMLNodes] keeps the elements: every tag occurs as often as
    before, and a query by tag (and attribute value) finds the same
    element as before, cleaned. *)
Theorem cleanXMLNodes_keeps_elements
    (trim : string -> string) (element : Dom.node) :
  (forall tag, Dom.countTag tag (XacroXml.cleanXMLNodes trim element)
               = Dom.countTag tag element) /\
  (forall sel, Dom.querySelectorDoc sel (XacroXml.cleanXMLNodes trim element)
               = option_map (XacroXml.cleanXMLNodes trim)
                   (Dom.querySelectorDoc sel element)).
Proof.
  split.
  - intros tag. apply XacroXml.countTag_cleanXMLNodes.
  - intros sel. apply XacroXml.findFirst_cleanXMLNodes.
Qed.

(** ** The render groups of the bodies *)

(** Every group the manager holds for a body is an object under [root]
    that is neither [root] nor one of the [old] objects, and no two bodies
    share a group. *)
Definition groupsUnder (root : loc) (old : loc -> Prop) (w : MSM.World) : Prop :=
  (forall b g, MSM.bodies (MSM.manager w) !! b = Some g ->
     g <> root /\ ~ old g /\
     exists obj, MSM.objects w !! g = Some obj /\ Object3D.parent obj = Some root) /\
  (forall b b' g, MSM.bodies (MSM.manager w) !! b = Some g ->
     MSM.bodies (MSM.manager w) !! b' = Some g -> b = b').

Lemma addBody_groupsUnder root (old : loc -> Prop) w b :
  is_Some (MSM.objects w !! root) ->
  (forall l, old l -> is_Some (MSM.objects w !! l)) ->
  groupsUnder root old w ->
  groupsUnder root old (MSM.addBody root w b) /\
  is_Some (MSM.bodies (MSM.manager (MSM.addBody root w b)) !! b) /\
  (forall b0, is_Some (MSM.bodies (MSM.manager w) !! b0) ->
     is_Some (MSM.bodies (MSM.manager (MSM.addBody root w b)) !! b0)).
Proof.
  intros Hroot Hold [Hgroups Hinj].
  pose proof (newObject_fresh (Object3D.setParent (Some root) Object3D.new) w) as Hfresh.
  unfold MSM.newObject in Hfresh. simpl in Hfresh.
  set (g := fresh (dom (MSM.objects w))) in *.
  unfold groupsUnder.
  change (MSM.bodies (MSM.manager (MSM.addBody root w b)))
    with (<[b := g]> (MSM.bodies (MSM.manager w))).
  change (MSM.objects (MSM.addBody root w b))
    with (<[g := Object3D.setParent (Some root) Object3D.new]> (MSM.objects w)).
  assert (Hrange : forall b0 g0, MSM.bodies (MSM.manager w) !! b0 = Some g0 -> g0 <> g).
  { intros b0 g0 H0 ->. destruct (Hgroups _ _ H0) as (_ & _ & obj & Hobj & _).
    apply (Hfresh g); [rewrite Hobj; eauto | reflexivity]. }
  split; [split|split].
  - intros b0 g0. destruct (decide (b0 = b)) as [->|Hne].
    + rewrite lookup_insert_eq. intros [= <-].
      split; [apply Hfresh, Hroot|]. split; [intros Ho; now apply (Hfresh g (Hold g Ho))|].
      exists (Object3D.setParent (Some root) Object3D.new).
      now rewrite lookup_insert_eq.
    + rewrite lookup_insert_ne by congruence. intros H0.
      destruct (Hgroups _ _ H0) as (H1 & H2 & obj & Hobj & Hpar).
      split; [assumption|]. split; [assumption|]. exists obj.
      rewrite lookup_insert_ne; [auto|]. intros E. now apply (Hrange _ _ H0).
  - intros b1 b2 g0.
    destruct (decide (b1 = b)) as [->|Hne1], (decide (b2 = b)) as [->|Hne2]; auto.
    + rewrite lookup_insert_eq, lookup_insert_ne by congruence.
      intros [= <-] H2. now elim (Hrange _ _ H2).
    + rewrite lookup_insert_eq, lookup_insert_ne by congruence.
      intros H1 [= <-]. now elim (Hrange _ _ H1).
    + rewrite !lookup_insert_ne by congruence. apply Hinj.
  - rewrite lookup_insert_eq. eauto.
  - intros b0 H0. destruct (decide (b0 = b)) as [->|Hne].
    + rewrite lookup_insert_eq. eauto.
    + now rewrite lookup_insert_ne by congruence.
Qed.

Lemma addBodies_groupsUnder root (old : loc -> Prop) (bs : list nat) w :
  is_Some (MSM.objects w !! root) ->
  (forall l, old l -> is_Some (MSM.objects w !! l)) ->
  groupsUnder root old w ->
  groupsUnder root old (fold_left (MSM.addBody root) bs w) /\
  (forall b, In b bs \/ is_Some (MSM.bodies (MSM.manager w) !! b) ->
     is_Some (MSM.bodies (MSM.manager (fold_left (MSM.addBody root) bs w)) !! b)).
Proof.
  revert w. induction bs as [|b bs IH]; intros w Hroot Hold Hg; simpl.
  - split; [assumption|]. intros b [[]|H]; exact H.
  - destruct (addBody_groupsUnder root old w b Hroot Hold Hg) as (Hg1 & Hb & Hkeep).
    destruct (addBody_keeps root w b) as (Hobj1 & _).
    destruct (IH (MSM.addBody root w b)) as (Hg2 & Hall); [| |assumption|].
    + rewrite Hobj1; assumption.
    + intros l Hl. rewrite Hobj1; auto.
    + split; [assumption|]. intros b0 [[<-|Hin]|H0]; apply Hall; auto.
Qed.

Lemma createThreeScene_groups o w w' m :
  MSM.model (MSM.manager w) = Some m ->
  MSM.createThreeScene o w = MSM.Return tt w' ->
  exists root,
    MSM.mujocoRoot (MSM.manager w') = Some root /\
    MSM.objects w !! root = None /\
    MSM.objects w' !! root = Some (Object3D.setVisible false Object3D.new) /\
    groupsUnder root (fun l => is_Some (MSM.objects w !! l)) w' /\
    (forall b, b < MSM.nbody m -> is_Some (MSM.bodies (MSM.manager w') !! b)) /\
    (forall l, is_Some (MSM.objects w !! l) -> MSM.objects w' !! l = MSM.objects w !! l).
Proof.
  intros Hm. unfold MSM.createThreeScene. rewrite Hm.
  pose proof (newObject_fresh (Object3D.setVisible false Object3D.new) w) as Hfresh.
  unfold MSM.newObject in *. simpl in Hfresh. cbv zeta.
  set (root := fresh (dom (MSM.objects w))) in *.
  match goal with |- context [MSM.throwsAt _ _ ?x] => set (w2 := x) end.
  assert (Hroot2 : MSM.objects w2 !! root = Some (Object3D.setVisible false Object3D.new))
    by (subst w2; simpl; apply lookup_insert_eq).
  assert (Hold2 : forall l, is_Some (MSM.objects w !! l) ->
                    MSM.objects w2 !! l = MSM.objects w !! l).
  { intros l Hl. subst w2. simpl. apply lookup_insert_ne. now apply Hfresh. }
  assert (Hnone : MSM.objects w !! root = None).
  { destruct (MSM.objects w !! root) eqn:E; [|reflexivity].
    now elim (Hfresh root (mk_is_Some _ _ E)). }
  assert (Hg2 : groupsUnder root (fun l => is_Some (MSM.objects w !! l)) w2).
  { split; subst w2; simpl; intros ?; intros; rewrite lookup_empty in *; discriminate. }
  assert (Hr2 : MSM.mujocoRoot (MSM.manager w2) = Some root) by reflexivity.
  clearbody w2.
  destruct (throwsAt_cases MSM.AtScene o w2) as [E|[msg E]]; rewrite E; clear E; simpl;
    [|discriminate].
  intros [= <-]. exists root.
  destruct (addBodies_keep root (seq 0 (MSM.nbody m)) w2) as (Hobj & Hroot' & _).
  destruct (addBodies_groupsUnder root (fun l => is_Some (MSM.objects w !! l))
              (seq 0 (MSM.nbody m)) w2) as (Hg & Hall); [| |assumption|].
  { rewrite Hroot2. eauto. }
  { intros l Hl. rewrite Hold2; assumption. }
  split; [congruence|]. split; [assumption|].
  split; [rewrite Hobj; [assumption | rewrite Hroot2; eauto]|].
  split; [assumption|]. split.
  - intros b Hb. apply Hall. left. apply List.in_seq. lia.
  - intros l Hl. rewrite Hobj; [now apply Hold2 | rewrite Hold2; assumption].
Qed.

(** What the last steps of a load leave alone. *)
Definition rendered (w : MSM.World) :=
  (MSM.objects w, MSM.bodies (MSM.manager w), MSM.mujocoRoot (MSM.manager w)).

Lemma resetEngine_rendered mj_reset simulation_reset o w w' :
  MSM.worldOf (MSM.resetEngine mj_reset simulation_reset o w) = Some w' ->
  rendered w' = rendered w.
Proof.
  unfold MSM.resetEngine.
  destruct (throwsAt_cases MSM.AtReset o w) as [E|[msg E]]; rewrite E; clear E; simpl;
    [|now intros [= <-]].
  destruct (MSM.model (MSM.manager w)) as [m|]; [|now intros [= <-]].
  destruct (MSM.isOldAPI (MSM.manager w)).
  - destruct (MSM.data (MSM.manager w)); now intros [= <-].
  - destruct (MSM.simulation (MSM.manager w)); now intros [= <-].
Qed.

Lemma createDrag_rendered o w w' :
  MSM.worldOf (MSM.createDrag o w) = Some w' ->
  rendered w' = rendered w /\
  MSM.paused (MSM.manager w') = MSM.paused (MSM.manager w) /\
  MSM.isLoaded (MSM.manager w') = MSM.isLoaded (MSM.manager w).
Proof.
  unfold MSM.createDrag.
  destruct (MSM.dragStateManager (MSM.manager w)); [now intros [= <-]|].
  destruct (throwsAt_cases MSM.AtDrag o w) as [E|[msg E]]; rewrite E; clear E; simpl;
    now intros [= <-].
Qed.

Section LoadedScene.
Variable mj_reset : MSM.MjModel -> MSM.EngineState -> MSM.EngineState.
Variable simulation_reset : MSM.EngineState -> MSM.EngineState.
Variable parseFromString : string -> Dom.node.
Variable serializeToString : Dom.node -> string.
Variable numberToString : float -> string.

Lemma loadScene_groups o xmlContent filename fileMap originalModel w w' :
  MSM.loadScene mj_reset simulation_reset parseFromString serializeToString
    numberToString o xmlContent filename fileMap originalModel w = MSM.Return tt w' ->
  exists m root,
    MSM.model (MSM.manager w') = Some m /\
    MSM.mujocoRoot (MSM.manager w') = Some root /\
    MSM.objects w' !! root = Some (Object3D.setVisible false Object3D.new) /\
    MSM.isLoaded (MSM.manager w') = true /\
    MSM.paused (MSM.manager w') = true /\
    (forall b, b < MSM.nbody m -> is_Some (MSM.bodies (MSM.manager w') !! b)) /\
    (forall b g, MSM.bodies (MSM.manager w') !! b = Some g ->
       g <> root /\
       exists obj, MSM.objects w' !! g = Some obj /\ Object3D.parent obj = Some root) /\
    (forall b b' g, MSM.bodies (MSM.manager w') !! b = Some g ->
       MSM.bodies (MSM.manager w') !! b' = Some g -> b = b').
Proof.
  unfold MSM.loadScene.
  destruct (MSM.init o w) as [[] w1|msg w1|]; simpl; try discriminate.
  destruct (MSM.clearScene w1) as [[] w2|msg w2|]; simpl; try discriminate.
  destruct (MSM.stage o _) as [[] w4|msg w4|]; simpl; try discriminate.
  destruct (MSM.compileModel o _ w4) as [[] w5|msg w5|]; simpl; try discriminate.
  destruct (MSM.createThreeScene o w5) as [[] w6|msg w6|] eqn:E6; simpl; try discriminate.
  destruct (MSM.resetEngine _ _ o w6) as [[] w7|msg w7|] eqn:E7; simpl; try discriminate.
  intros E8.
  destruct (MSM.model (MSM.manager w5)) as [m|] eqn:Em;
    [|unfold MSM.createThreeScene in E6; rewrite Em in E6; discriminate].
  destruct (createThreeScene_groups o w5 w6 m Em E6)
    as (root & Hroot & _ & Hobj & [Hgroups Hinj] & Hall & _).
  pose proof (keepsCore_createThreeScene o w5 w6) as Hc6. rewrite E6 in Hc6.
  pose proof (keepsCore_resetEngine mj_reset simulation_reset o w6 w7) as Hc7.
  rewrite E7 in Hc7.
  pose proof (resetEngine_rendered mj_reset simulation_reset o w6 w7) as Hr7.
  rewrite E7 in Hr7. specialize (Hc6 eq_refl). specialize (Hc7 eq_refl).
  specialize (Hr7 eq_refl).
  set (w8 := MSM.upd (fun m => MSM.set_paused true (MSM.set_isLoaded true m)) w7) in *.
  pose proof (keepsCore_createDrag o w8 w') as Hc8. rewrite E8 in Hc8.
  specialize (Hc8 eq_refl).
  destruct (createDrag_rendered o w8 w') as (Hr8 & Hpaused & Hloaded); [now rewrite E8|].
  assert (Hr : rendered w' = rendered w6) by (rewrite Hr8, <- Hr7; reflexivity).
  assert (Hmodel : MSM.model (MSM.manager w') = Some m).
  { assert (Hc : core w' = core w5) by (rewrite Hc8, <- Hc6, <- Hc7; reflexivity).
    unfold core in Hc. injection Hc as _ Hc _ _ _ _. now rewrite Hc. }
  unfold rendered in Hr. injection Hr as Ho Hb Hmr.
  exists m, root. rewrite Ho, Hb, Hmr, Hpaused, Hloaded.
  repeat split; try assumption; try reflexivity.
  - now destruct (Hgroups b g H).
  - destruct (Hgroups b g H) as (_ & _ & obj & H1 & H2). eauto.
Qed.

End LoadedScene.

(** ** What a frame changes and what it leaves alone *)

(** Everything of the page a frame has no business with: the run flags,
    the table of body groups, the root, the scene manager, the native
    objects, and of every scene object whether it is shown and where it
    hangs. *)
Definition frameView (w : MSM.World) :=
  (MSM.paused (MSM.manager w), MSM.isLoaded (MSM.manager w),
   MSM.isSimulating (MSM.manager w), MSM.bodies (MSM.manager w),
   MSM.mujocoRoot (MSM.manager w), MSM.sceneManager w, MSM.live w,
   (fun o => (Object3D.visible o, Object3D.parent o)) <$> MSM.objects w).

Definition keepsView {A} (c : MSM.World -> MSM.outcome A) : Prop :=
  forall w w', MSM.worldOf (c w) = Some w' -> frameView w' = frameView w.

Lemma keepsView_bind {A B} (c : MSM.World -> MSM.outcome A)
    (k : A -> MSM.World -> MSM.outcome B) :
  keepsView c -> (forall a, keepsView (k a)) -> keepsView (fun w => MSM.bind (c w) k).
Proof.
  intros Hc Hk w w'. specialize (Hc w).
  destruct (c w) as [a w1|msg w1|]; simpl.
  - intros H. rewrite (Hk a w1 w' H). now apply Hc.
  - intros [= <-]. now apply Hc.
  - discriminate.
Qed.

Lemma fmap_alter_same {A B} (f : A -> B) (g : A -> A) (l : loc) (m : gmap loc A) :
  (forall x, f (g x) = f x) -> f <$> alter g l m = f <$> m.
Proof.
  intros Hfg. apply map_eq. intros i. rewrite !lookup_fmap.
  destruct (decide (i = l)) as [->|Hne].
  - rewrite lookup_alter_eq. destruct (m !! l); simpl; [now rewrite Hfg | reflexivity].
  - now rewrite lookup_alter_ne by congruence.
Qed.

Lemma frameView_syncBody arr w b : frameView (MSM.syncBody arr w b) = frameView w.
Proof.
  unfold MSM.syncBody. destruct (MSM.bodies (MSM.manager w) !! b) as [g|]; [|reflexivity].
  unfold frameView, MSM.updObject. simpl. now rewrite fmap_alter_same.
Qed.

Lemma frameView_syncBodies m arr w : frameView (MSM.syncBodies m arr w) = frameView w.
Proof.
  unfold MSM.syncBodies. generalize (seq 0 (MSM.nbody m)). intros l. revert w.
  induction l as [|b l IH]; intros w; simpl; [reflexivity|].
  now rewrite IH, frameView_syncBody.
Qed.

Section FrameView.
Variable mj_step : MSM.MjModel -> MSM.EngineState -> MSM.EngineState.
Variable simulation_step : MSM.EngineState -> MSM.EngineState.
Variable mj_applyFT :
  MSM.MjModel -> MSM.EngineState -> Vector3.t -> Vector3.t -> nat -> MSM.EngineState.
Variable mj_reset : MSM.MjModel -> MSM.EngineState -> MSM.EngineState.
Variable simulation_reset : MSM.EngineState -> MSM.EngineState.
Variable dragUpdate : gmap loc Object3D.t -> MSM.DragStateManager -> MSM.DragStateManager.

Lemma keepsView_clearForces : keepsView MSM.clearForces.
Proof.
  intros w w'. unfold MSM.clearForces.
  destruct (MSM.isOldAPI (MSM.manager w)); [|now intros [= <-]].
  destruct (MSM.data (MSM.manager w)); now intros [= <-].
Qed.

Lemma keepsView_applyDrag m : keepsView (MSM.applyDrag mj_applyFT dragUpdate m).
Proof.
  intros w w'. unfold MSM.applyDrag.
  destruct (MSM.dragStateManager (MSM.manager w)) as [dsm|]; [|now intros [= <-]].
  destruct (MSM.active dsm); [|now intros [= <-]].
  destruct (MSM.physicsObject dsm) as [bodyID|]; [|now intros [= <-]].
  destruct (negb (bodyID =? 0)%nat); [|now intros [= <-]].
  destruct (MSM.engineArrays w) as [arr|]; [|now intros [= <-]].
  cbv zeta.
  match goal with
  | |- context [MSM.isOldAPI (MSM.manager ?x)] =>
      assert (H2 : frameView x = frameView w)
        by (rewrite <- (frameView_syncBodies m arr w); reflexivity);
      remember x as w2 eqn:Ew2 in *; clear Ew2
  end.
  destruct (MSM.isOldAPI (MSM.manager w2)); [|now intros [= <-]].
  destruct (MSM.data (MSM.manager w2)); intros [= <-]; rewrite <- H2; reflexivity.
Qed.

Lemma keepsView_physicsStep m : keepsView (MSM.physicsStep mj_step simulation_step m).
Proof.
  intros w w'. unfold MSM.physicsStep.
  destruct (MSM.isOldAPI (MSM.manager w)).
  - destruct (MSM.data (MSM.manager w)); now intros [= <-].
  - destruct (MSM.simulation (MSM.manager w)); now intros [= <-].
Qed.

Lemma keepsView_stepOnce m :
  keepsView (MSM.stepOnce mj_step simulation_step mj_applyFT dragUpdate m).
Proof.
  unfold MSM.stepOnce, MSM.beforeStep.
  apply (keepsView_bind
           (fun w => MSM.bind (MSM.clearForces w)
                       (fun _ => MSM.applyDrag mj_applyFT dragUpdate m))).
  - apply (keepsView_bind MSM.clearForces).
    + apply keepsView_clearForces.
    + intros _. apply keepsView_applyDrag.
  - intros _. apply (keepsView_bind (MSM.physicsStep mj_step simulation_step m)).
    + apply keepsView_physicsStep.
    + intros _ w w' [= <-]. reflexivity.
Qed.

Lemma keepsView_stepLoop fuel m timeMS :
  keepsView (MSM.stepLoop mj_step simulation_step mj_applyFT dragUpdate fuel m timeMS).
Proof.
  induction fuel as [|fuel IH]; intros w w'; simpl.
  - destruct (_ <? _)%float; [discriminate | now intros [= <-]].
  - destruct (_ <? _)%float; [|now intros [= <-]].
    pose proof (keepsView_stepOnce m w) as H1.
    destruct (MSM.stepOnce _ _ _ _ m w) as [[] w1|msg w1|]; simpl;
      [|intros [= <-]; now apply H1|discriminate].
    specialize (H1 w1 eq_refl). specialize (IH w1).
    destruct (MSM.stepLoop _ _ _ _ fuel m timeMS w1) as [n w2|msg w2|]; simpl;
      try discriminate; intros [= <-]; rewrite <- H1; now apply IH.
Qed.

Lemma keepsView_update fuel timeMS :
  keepsView (MSM.update mj_step simulation_step mj_applyFT dragUpdate fuel timeMS).
Proof.
  intros w w'. unfold MSM.update.
  destruct (MSM.isLoaded (MSM.manager w)); [|now intros [= <-]].
  destruct (MSM.model (MSM.manager w)) as [m|]; [|now intros [= <-]].
  assert (Hloop : forall w1, MSM.worldOf
            (if MSM.paused (MSM.manager w) then MSM.Return 0 w
             else MSM.stepLoop mj_step simulation_step mj_applyFT dragUpdate fuel m timeMS
                    (MSM.syncTime timeMS w)) = Some w1 -> frameView w1 = frameView w).
  { intros w1. destruct (MSM.paused (MSM.manager w)); [now intros [= <-]|].
    intros H. rewrite (keepsView_stepLoop fuel m timeMS _ _ H).
    unfold MSM.syncTime. destruct (_ <? _)%float; reflexivity. }
  destruct (if MSM.paused (MSM.manager w) then _ else _) as [n w1|msg w1|]; simpl;
    [|intros [= <-]; now apply Hloop|discriminate].
  specialize (Hloop w1 eq_refl).
  destruct (MSM.engineArrays w1) as [arr|]; intros [= <-]; [|assumption].
  now rewrite frameView_syncBodies.
Qed.

Lemma keepsView_reset : keepsView (MSM.reset mj_reset simulation_reset).
Proof.
  intros w w'. unfold MSM.reset.
  destruct (MSM.model (MSM.manager w)) as [m|]; [|now intros [= <-]].
  destruct (MSM.isOldAPI (MSM.manager w)).
  - destruct (MSM.data (MSM.manager w)); simpl; now intros [= <-].
  - destruct (MSM.simulation (MSM.manager w)); simpl; now intros [= <-].
Qed.

End FrameView.

(** ** Body groups follow the engine *)

(** No two bodies share a render group. *)
Definition distinctGroups (bs : gmap nat loc) : Prop :=
  forall b b' g, bs !! b = Some g -> bs !! b' = Some g -> b = b'.

(** The pose [update] gives the group of body [b]. *)
Definition hasEnginePose (arr : MSM.EngineState) (b : nat) (o : Object3D.t) : Prop :=
  Object3D.position o = Swizzle.getPosition (MSM.xpos arr) b true /\
  Object3D.quaternion o = Swizzle.getQuaternion (MSM.xquat arr) b true.

(** Every group of a body below [nbody] sits where the engine has the body. *)
Definition posesFollowEngine (w : MSM.World) : Prop :=
  exists m arr,
    MSM.model (MSM.manager w) = Some m /\ MSM.engineArrays w = Some arr /\
    forall b g o, b < MSM.nbody m ->
      MSM.bodies (MSM.manager w) !! b = Some g -> MSM.objects w !! g = Some o ->
      hasEnginePose arr b o.

Lemma manager_syncBody arr w b : MSM.manager (MSM.syncBody arr w b) = MSM.manager w.
Proof. unfold MSM.syncBody. destruct (MSM.bodies (MSM.manager w) !! b); reflexivity. Qed.

Lemma syncBody_other arr w b g :
  distinctGroups (MSM.bodies (MSM.manager w)) ->
  (forall b0, MSM.bodies (MSM.manager w) !! b0 = Some g -> b0 <> b) ->
  MSM.objects (MSM.syncBody arr w b) !! g = MSM.objects w !! g.
Proof.
  intros Hd Hg. unfold MSM.syncBody.
  destruct (MSM.bodies (MSM.manager w) !! b) as [g0|] eqn:E; [|reflexivity].
  simpl. apply lookup_alter_ne. intros ->. now apply (Hg b).
Qed.

Lemma syncBody_self arr w b g o :
  MSM.bodies (MSM.manager w) !! b = Some g ->
  MSM.objects (MSM.syncBody arr w b) !! g = Some o -> hasEnginePose arr b o.
Proof.
  intros Hb. unfold MSM.syncBody. rewrite Hb. simpl. rewrite lookup_alter_eq.
  destruct (MSM.objects w !! g); simpl; [|discriminate].
  intros [= <-]. split; reflexivity.
Qed.

Lemma syncBodies_fold arr (bs : list nat) :
  forall w, distinctGroups (MSM.bodies (MSM.manager w)) ->
  forall b g, MSM.bodies (MSM.manager w) !! b = Some g ->
    (In b bs -> forall o, MSM.objects (fold_left (MSM.syncBody arr) bs w) !! g = Some o ->
                hasEnginePose arr b o) /\
    (~ In b bs -> MSM.objects (fold_left (MSM.syncBody arr) bs w) !! g = MSM.objects w !! g).
Proof.
  induction bs as [|b0 rest IH]; intros w Hd b g Hb; simpl.
  - split; [intros [] | reflexivity].
  - assert (Hm : MSM.manager (MSM.syncBody arr w b0) = MSM.manager w)
      by apply manager_syncBody.
    destruct (IH (MSM.syncBody arr w b0)) with (b := b) (g := g) as [Hin Hout];
      [now rewrite Hm | now rewrite Hm |].
    split.
    + intros Hor o Ho. destruct (in_dec Nat.eq_dec b rest) as [Hr|Hr]; [now apply Hin|].
      destruct Hor as [->|Hr']; [|contradiction].
      rewrite (Hout Hr) in Ho. now apply (syncBody_self arr w b g).
    + intros Hnot. rewrite Hout by tauto. apply syncBody_other; [assumption|].
      intros b1 H1 ->. apply Hnot. left. now apply (Hd b0 b g).
Qed.

Lemma syncBodies_poses m arr w b g o :
  distinctGroups (MSM.bodies (MSM.manager w)) ->
  b < MSM.nbody m ->
  MSM.bodies (MSM.manager w) !! b = Some g ->
  MSM.objects (MSM.syncBodies m arr w) !! g = Some o ->
  hasEnginePose arr b o.
Proof.
  intros Hd Hlt Hb. unfold MSM.syncBodies.
  apply (syncBodies_fold arr (seq 0 (MSM.nbody m)) w Hd b g Hb).
  apply List.in_seq. lia.
Qed.

Lemma engineArrays_manager w w' :
  MSM.manager w' = MSM.manager w -> MSM.engineArrays w' = MSM.engineArrays w.
Proof. unfold MSM.engineArrays. now intros ->. Qed.

Section Poses.
Variable mj_step : MSM.MjModel -> MSM.EngineState -> MSM.EngineState.
Variable simulation_step : MSM.EngineState -> MSM.EngineState.
Variable mj_applyFT :
  MSM.MjModel -> MSM.EngineState -> Vector3.t -> Vector3.t -> nat -> MSM.EngineState.
Variable dragUpdate : gmap loc Object3D.t -> MSM.DragStateManager -> MSM.DragStateManager.

Lemma update_poses fuel timeMS w w' :
  distinctGroups (MSM.bodies (MSM.manager w)) ->
  MSM.isLoaded (MSM.manager w) = true ->
  MSM.model (MSM.manager w) <> None ->
  MSM.returned (MSM.update mj_step simulation_step mj_applyFT dragUpdate fuel timeMS w)
    = Some w' ->
  posesFollowEngine w'.
Proof.
  intros Hd Hloaded Hmodel H.
  pose proof (keepsCore_update mj_step simulation_step mj_applyFT dragUpdate
                fuel timeMS w w') as Hcore.
  revert H Hcore. unfold MSM.update. rewrite Hloaded.
  destruct (MSM.model (MSM.manager w)) as [m|] eqn:Em; [|congruence].
  assert (Hloop : forall w1, MSM.worldOf
            (if MSM.paused (MSM.manager w) then MSM.Return 0 w
             else MSM.stepLoop mj_step simulation_step mj_applyFT dragUpdate fuel m timeMS
                    (MSM.syncTime timeMS w)) = Some w1 -> frameView w1 = frameView w).
  { intros w1. destruct (MSM.paused (MSM.manager w)); [now intros [= <-]|].
    intros H. rewrite (keepsView_stepLoop _ _ _ _ fuel m timeMS _ _ H).
    unfold MSM.syncTime. destruct (_ <? _)%float; reflexivity. }
  destruct (if MSM.paused (MSM.manager w) then _ else _) as [n w1|msg w1|];
    cbn [MSM.bind MSM.returned]; try discriminate.
  specialize (Hloop w1 eq_refl).
  destruct (MSM.engineArrays w1) as [arr|] eqn:Earr; cbn [MSM.returned MSM.worldOf];
    [|discriminate].
  intros [= <-] Hcore. specialize (Hcore eq_refl).
  assert (Hb : MSM.bodies (MSM.manager w1) = MSM.bodies (MSM.manager w)).
  { unfold frameView in Hloop. now injection Hloop. }
  exists m, arr. split; [|split].
  - unfold core in Hcore. injection Hcore as _ Hc _ _ _ _. now rewrite Hc.
  - rewrite (engineArrays_manager w1); [assumption | apply manager_syncBodies].
  - intros b g o Hlt Hg Ho. rewrite manager_syncBodies in Hg.
    apply (syncBodies_poses m arr w1 b g o); try assumption. now rewrite Hb.
Qed.

End Poses.

(** *** The groups stay distinct on every reachable world *)

Definition keepsBodies {A} (c : MSM.World -> MSM.outcome A) : Prop :=
  forall w w', MSM.worldOf (c w) = Some w' ->
    MSM.bodies (MSM.manager w') = MSM.bodies (MSM.manager w).

Lemma keepsBodies_init o : keepsBodies (MSM.init o).
Proof. intros w w'. unfold MSM.init. scene_cases. Qed.

Lemma keepsBodies_stage o : keepsBodies (MSM.stage o).
Proof. intros w w'. unfold MSM.stage, MSM.run. scene_cases. Qed.

Lemma keepsBodies_compileModel o xml : keepsBodies (MSM.compileModel o xml).
Proof. intros w w'. unfold MSM.compileModel, MSM.newNative. simpl. scene_cases. Qed.

Lemma keepsBodies_releaseEngine : keepsBodies MSM.releaseEngine.
Proof. intros w w'. unfold MSM.releaseEngine, MSM.release, MSM.run. scene_cases. Qed.

Lemma keepsBodies_clearVFS : keepsBodies MSM.clearVFS.
Proof.
  intros w w'. unfold MSM.clearVFS.
  destruct (MSM.mujoco (MSM.manager w)) as [mj|]; [|now intros [= <-]].
  destruct (FS.readdir ["working"] (MSM.FS mj)) as [files|msg]; [|now intros [= <-]].
  destruct (MSM.clearEach _ files (MSM.FS mj)); [now intros [= <-] | discriminate].
Qed.

Lemma distinctGroups_empty : distinctGroups ∅.
Proof. intros b b' g H. rewrite lookup_empty in H. discriminate. Qed.

Lemma bodies_detach l w :
  MSM.bodies (MSM.manager (MSM.detach l w)) = MSM.bodies (MSM.manager w).
Proof.
  unfold MSM.detach. destruct (MSM.objects w !! l) as [o|]; [|reflexivity].
  destruct (Object3D.parent o); reflexivity.
Qed.

Lemma distinct_clearScene w w' :
  MSM.worldOf (MSM.clearScene w) = Some w' ->
  distinctGroups (MSM.bodies (MSM.manager w)) ->
  distinctGroups (MSM.bodies (MSM.manager w')).
Proof.
  unfold MSM.clearScene. intros H Hd.
  pose proof (keepsBodies_releaseEngine w) as H1.
  destruct (MSM.releaseEngine w) as [[] w1|msg w1|]; simpl in H;
    [|injection H as <-; now rewrite (H1 w1 eq_refl)|discriminate].
  pose proof (keepsBodies_clearVFS w1) as H2.
  destruct (MSM.clearVFS w1) as [[] w2|msg w2|]; simpl in H;
    [|injection H as <-; now rewrite (H2 w2 eq_refl), (H1 w1 eq_refl)|discriminate].
  injection H as <-. apply distinctGroups_empty.
Qed.

Lemma distinct_createThreeScene o w w' :
  MSM.worldOf (MSM.createThreeScene o w) = Some w' ->
  distinctGroups (MSM.bodies (MSM.manager w)) ->
  distinctGroups (MSM.bodies (MSM.manager w')).
Proof.
  intros H Hd.
  destruct (MSM.model (MSM.manager w)) as [m|] eqn:Em.
  - destruct (MSM.createThreeScene o w) as [[] w1|msg w1|] eqn:E; try discriminate.
    + injection H as <-.
      destruct (createThreeScene_groups o w w1 m Em E) as (root & _ & _ & _ & [_ Hinj] & _).
      exact Hinj.
    + injection H as <-. revert E. unfold MSM.createThreeScene. rewrite Em. cbv zeta.
      unfold MSM.newObject. simpl.
      match goal with |- context [MSM.throwsAt ?f ?o ?x] =>
        destruct (throwsAt_cases f o x) as [E|[msg' E]]; rewrite E; clear E; simpl
      end; [discriminate|].
      intros [= _ <-]. apply distinctGroups_empty.
  - revert H. unfold MSM.createThreeScene. rewrite Em. now intros [= <-].
Qed.

Lemma bodies_startSimulation w :
  MSM.bodies (MSM.manager (MSM.startSimulation w)) = MSM.bodies (MSM.manager w).
Proof.
  unfold MSM.startSimulation. cbv zeta.
  destruct (clearHighlight_fields
              (MSM.setDragControls false (MSM.setDragEnabled true (MSM.hideOriginal
                 (MSM.showRoot (MSM.upd (fun m => MSM.set_isSimulating true
                    (MSM.set_paused false m)) w)))))) as (_ & -> & _).
  destruct (setDragControls_fields false
              (MSM.setDragEnabled true (MSM.hideOriginal
                 (MSM.showRoot (MSM.upd (fun m => MSM.set_isSimulating true
                    (MSM.set_paused false m)) w))))) as (_ & -> & _).
  set (w1 := MSM.hideOriginal _).
  assert (H1 : MSM.manager w1
               = MSM.set_isSimulating true (MSM.set_paused false (MSM.manager w))).
  { subst w1. destruct (hideOriginal_rest (MSM.showRoot (MSM.upd (fun m =>
      MSM.set_isSimulating true (MSM.set_paused false m)) w))) as [-> _].
    now destruct (showRoot_rest (MSM.upd (fun m =>
      MSM.set_isSimulating true (MSM.set_paused false m)) w)) as [-> _]. }
  unfold MSM.setDragEnabled. rewrite H1.
  destruct (MSM.dragStateManager _); simpl; rewrite ?H1; reflexivity.
Qed.

Lemma bodies_pauseSimulation w :
  MSM.bodies (MSM.manager (MSM.pauseSimulation w)) = MSM.bodies (MSM.manager w).
Proof.
  unfold MSM.pauseSimulation. cbv zeta.
  set (w0 := MSM.upd _ w).
  destruct (setDragControls_fields true (MSM.hideRoot (MSM.setDragEnabled false w0)))
    as (_ & -> & _).
  destruct (hideRoot_rest (MSM.setDragEnabled false w0)) as [-> _].
  unfold MSM.setDragEnabled. destruct (MSM.dragStateManager (MSM.manager w0)); reflexivity.
Qed.

Lemma distinct_loadScene mj_reset simulation_reset parseFromString serializeToString
    numberToString o xmlContent filename fileMap originalModel w w' :
  MSM.worldOf (MSM.loadScene mj_reset simulation_reset parseFromString serializeToString
                 numberToString o xmlContent filename fileMap originalModel w) = Some w' ->
  distinctGroups (MSM.bodies (MSM.manager w)) ->
  distinctGroups (MSM.bodies (MSM.manager w')).
Proof.
  unfold MSM.loadScene. intros H Hd.
  pose proof (keepsBodies_init o w) as H1.
  destruct (MSM.init o w) as [[] w1|msg w1|]; simpl in H;
    [|injection H as <-; now rewrite (H1 w1 eq_refl)|discriminate].
  rewrite <- (H1 w1 eq_refl) in Hd. clear H1.
  pose proof (distinct_clearScene w1) as H2.
  destruct (MSM.clearScene w1) as [[] w2|msg w2|]; simpl in H;
    [|injection H as <-; now apply H2|discriminate].
  specialize (H2 w2 eq_refl Hd). clear Hd.
  set (w3 := MSM.upd (MSM.set_originalModel (Some originalModel)) w2) in *.
  change (distinctGroups (MSM.bodies (MSM.manager w3))) in H2.
  pose proof (keepsBodies_stage o w3) as H4.
  destruct (MSM.stage o w3) as [[] w4|msg w4|]; simpl in H;
    [|injection H as <-; now rewrite (H4 w4 eq_refl)|discriminate].
  rewrite <- (H4 w4 eq_refl) in H2. clear H4.
  match type of H with context [MSM.compileModel o ?xml w4] =>
    pose proof (keepsBodies_compileModel o xml w4) as H5;
    destruct (MSM.compileModel o xml w4) as [[] w5|msg w5|]; simpl in H;
      [|injection H as <-; now rewrite (H5 w5 eq_refl)|discriminate]
  end.
  rewrite <- (H5 w5 eq_refl) in H2. clear H5.
  pose proof (distinct_createThreeScene o w5) as H6.
  destruct (MSM.createThreeScene o w5) as [[] w6|msg w6|]; simpl in H;
    [|injection H as <-; now apply H6|discriminate].
  specialize (H6 w6 eq_refl H2). clear H2.
  pose proof (resetEngine_rendered mj_reset simulation_reset o w6) as H7.
  destruct (MSM.resetEngine mj_reset simulation_reset o w6) as [[] w7|msg w7|]; simpl in H;
    [|injection H as <-; specialize (H7 w7 eq_refl); injection H7 as _ -> _; assumption
     |discriminate].
  specialize (H7 w7 eq_refl). injection H7 as _ H7 _.
  destruct (createDrag_rendered o _ w' H) as (H8 & _). injection H8 as _ -> _.
  simpl. now rewrite H7.
Qed.

Lemma reachable_distinctGroups (w : MSM.World) :
  reachable w -> distinctGroups (MSM.bodies (MSM.manager w)).
Proof.
  induction 1.
  - apply distinctGroups_empty.
  - eapply distinct_loadScene; eauto.
  - eapply distinct_clearScene; eauto.
  - now rewrite bodies_startSimulation.
  - now rewrite bodies_pauseSimulation.
  - match goal with H : MSM.worldOf _ = Some _ |- _ =>
      apply keepsView_update in H; unfold frameView in H; injection H as _ _ _ -> _ _ _ _
    end. assumption.
  - match goal with H : MSM.worldOf _ = Some _ |- _ =>
      apply keepsView_reset in H; unfold frameView in H; injection H as _ _ _ -> _ _ _ _
    end. assumption.
  - assumption.
Qed.

(** A scene as a load leaves it: a hidden root that hangs nowhere, and
    for every body of the model a group of its own under the root. *)
Definition oneGroupPerBody (w : MSM.World) : Prop :=
  exists m root rootObject,
    MSM.model (MSM.manager w) = Some m /\
    MSM.mujocoRoot (MSM.manager w) = Some root /\
    MSM.objects w !! root = Some rootObject /\
    Object3D.visible rootObject = false /\ Object3D.parent rootObject = None /\
    (forall b, b < MSM.nbody m ->
       exists g obj, MSM.bodies (MSM.manager w) !! b = Some g /\ g <> root /\
                     MSM.objects w !! g = Some obj /\ Object3D.parent obj = Some root) /\
    (forall b b' g, b < MSM.nbody m -> b' < MSM.nbody m ->
       MSM.bodies (MSM.manager w) !! b = Some g ->
       MSM.bodies (MSM.manager w) !! b' = Some g -> b = b').

(** A scene loaded on a new page (two bodies, the [MjData] API). *)
Definition loadedWorld : MSM.World :=
  default freshWorld
    (MSM.returned
       (MSM.loadScene (fun _ a => a) (fun a => a) (fun _ => sphereDocument) (fun _ => "")
          (fun _ => "0") (oracleWithTimestep 0.002) "" "scene.xml" []
          UnifiedRobotModel.new freshWorld)).

(** X10: a load that returns leaves the scene loaded and paused, with the
    physics root hidden and outside the scene graph, and with one render
    group per body of the model: each group hangs under the root, and no
    two bodies share a group. *)
Theorem loadScene_builds_one_group_per_body
    (mj_reset : MSM.MjModel -> MSM.EngineState -> MSM.EngineState)
    (simulation_reset : MSM.EngineState -> MSM.EngineState)
    (parseFromString : string -> Dom.node) (serializeToString : Dom.node -> string)
    (numberToString : float -> string) (o : MSM.LoadOracle)
    (xmlContent filename : string) (fileMap : JsMap.t File.t)
    (originalModel : UnifiedRobotModel.t) (w w' : MSM.World) :
  MSM.loadScene mj_reset simulation_reset parseFromString serializeToString
    numberToString o xmlContent filename fileMap originalModel w = MSM.Return tt w' ->
  MSM.isLoaded (MSM.manager w') = true /\ MSM.paused (MSM.manager w') = true /\
  oneGroupPerBody w'.
Proof.
  intros H.
  destruct (loadScene_groups _ _ _ _ _ _ _ _ _ _ _ _ H)
    as (m & root & Hm & Hroot & Hobj & Hloaded & Hpaused & Hall & Hgroups & Hinj).
  split; [assumption|]. split; [assumption|].
  exists m, root, (Object3D.setVisible false Object3D.new).
  repeat split; try assumption.
  - intros b Hb. destruct (Hall b Hb) as [g Hg].
    destruct (Hgroups b g Hg) as (Hne & obj & Ho & Hp). exists g, obj. auto.
  - intros b b' g _ _. apply Hinj.
Qed.

Lemma loadScene_builds_one_group_per_body_witness :
  MSM.loadScene (fun _ a => a) (fun a => a) (fun _ => sphereDocument) (fun _ => "")
    (fun _ => "0") (oracleWithTimestep 0.002) "" "scene.xml" []
    UnifiedRobotModel.new freshWorld = MSM.Return tt loadedWorld /\
  MSM.isLoaded (MSM.manager loadedWorld) = true /\
  MSM.paused (MSM.manager loadedWorld) = true /\
  oneGroupPerBody loadedWorld.
Proof.
  assert (H : MSM.loadScene (fun _ a => a) (fun a => a) (fun _ => sphereDocument)
                (fun _ => "") (fun _ => "0") (oracleWithTimestep 0.002) "" "scene.xml" []
                UnifiedRobotModel.new freshWorld = MSM.Return tt loadedWorld)
    by (vm_compute; reflexivity).
  split; [exact H|].
  exact (loadScene_builds_one_group_per_body (fun _ a => a) (fun a => a)
           (fun _ => sphereDocument) (fun _ => "") (fun _ => "0")
           (oracleWithTimestep 0.002) "" "scene.xml" [] UnifiedRobotModel.new
           freshWorld loadedWorld H).
Defined.

(** The loaded scene, started, and a frame of it 20 ms after the page
    opened; the engine's own stepping is left out. *)
Definition startedWorld : MSM.World := MSM.startSimulation loadedWorld.

Definition idleFrame (w : MSM.World) : MSM.outcome nat :=
  MSM.update (fun _ a => a) (fun a => a) (fun _ a _ _ _ => a) (fun _ d => d) 100 20 w.

Definition afterIdleFrame : MSM.World :=
  default freshWorld (MSM.returned (idleFrame startedWorld)).

(** X11: however a frame ends, by returning or by an exception, it
    changes neither the run flags, nor the table of body groups, nor the
    root, nor the scene manager, nor which scene objects exist, are shown
    and where they hang. *)
Theorem update_leaves_the_scene_graph_alone
    (mj_step : MSM.MjModel -> MSM.EngineState -> MSM.EngineState)
    (simulation_step : MSM.EngineState -> MSM.EngineState)
    (mj_applyFT : MSM.MjModel -> MSM.EngineState -> Vector3.t -> Vector3.t -> nat ->
                  MSM.EngineState)
    (dragUpdate : gmap loc Object3D.t -> MSM.DragStateManager -> MSM.DragStateManager)
    (fuel : nat) (timeMS : float) (w w' : MSM.World) :
  MSM.worldOf (MSM.update mj_step simulation_step mj_applyFT dragUpdate fuel timeMS w)
    = Some w' ->
  frameView w' = frameView w /\
  forall l, (is_Some (MSM.objects w' !! l) <-> is_Some (MSM.objects w !! l)) /\
            MSM.isVisible w' l = MSM.isVisible w l.
Proof.
  intros H. apply keepsView_update in H. split; [assumption|].
  unfold frameView in H. injection H as _ _ _ _ _ _ _ H. intros l.
  assert (Hl : (fun o => (Object3D.visible o, Object3D.parent o)) <$> MSM.objects w' !! l
               = (fun o => (Object3D.visible o, Object3D.parent o)) <$> MSM.objects w !! l)
    by (rewrite <- !lookup_fmap; now rewrite H).
  unfold MSM.isVisible.
  destruct (MSM.objects w' !! l), (MSM.objects w !! l); simpl in Hl; try discriminate.
  - injection Hl as -> _. split; [split; eauto | reflexivity].
  - split; [split; intros []; discriminate | reflexivity].
Qed.

Lemma update_leaves_the_scene_graph_alone_witness :
  let after := afterIdleFrame in
  MSM.worldOf (MSM.update (fun _ a => a) (fun a => a) (fun _ a _ _ _ => a) (fun _ d => d)
       100 20 startedWorld) = Some after /\
  frameView after = frameView startedWorld /\
  forall l, (is_Some (MSM.objects after !! l)
             <-> is_Some (MSM.objects startedWorld !! l)) /\
            MSM.isVisible after l = MSM.isVisible startedWorld l.
Proof.
  cbv zeta.
  assert (H : MSM.worldOf (MSM.update (fun _ a => a) (fun a => a) (fun _ a _ _ _ => a) (fun _ d => d)
       100 20 startedWorld)
              = Some afterIdleFrame)
    by (vm_compute; reflexivity).
  split; [exact H|].
  exact (update_leaves_the_scene_graph_alone (fun _ a => a) (fun a => a)
           (fun _ a _ _ _ => a) (fun _ d => d) 100 20 startedWorld afterIdleFrame H).
Defined.

(** X12: on every world the page can reach, a frame of a loaded scene
    that returns leaves each body's render group at the pose the engine
    has for that body at the end of the frame, in render coordinates;
    this holds whether the simulation is paused or running. *)
Theorem update_moves_every_group_to_its_body
    (mj_step : MSM.MjModel -> MSM.EngineState -> MSM.EngineState)
    (simulation_step : MSM.EngineState -> MSM.EngineState)
    (mj_applyFT : MSM.MjModel -> MSM.EngineState -> Vector3.t -> Vector3.t -> nat ->
                  MSM.EngineState)
    (dragUpdate : gmap loc Object3D.t -> MSM.DragStateManager -> MSM.DragStateManager)
    (fuel : nat) (timeMS : float) (w w' : MSM.World) :
  reachable w ->
  MSM.isLoaded (MSM.manager w) = true ->
  MSM.model (MSM.manager w) <> None ->
  MSM.returned (MSM.update mj_step simulation_step mj_applyFT dragUpdate fuel timeMS w)
    = Some w' ->
  posesFollowEngine w'.
Proof.
  intros Hr. apply update_poses. now apply reachable_distinctGroups.
Qed.

Lemma update_moves_every_group_to_its_body_witness :
  let after := afterIdleFrame in
  MSM.isLoaded (MSM.manager startedWorld) = true /\
  MSM.model (MSM.manager startedWorld) <> None /\
  MSM.returned (MSM.update (fun _ a => a) (fun a => a) (fun _ a _ _ _ => a) (fun _ d => d)
       100 20 startedWorld) = Some after /\
  posesFollowEngine after.
Proof.
  cbv zeta.
  assert (Hload : MSM.worldOf
            (MSM.loadScene (fun _ a => a) (fun a => a) (fun _ => sphereDocument)
               (fun _ => "") (fun _ => "0") (oracleWithTimestep 0.002) "" "scene.xml" []
               UnifiedRobotModel.new freshWorld) = Some loadedWorld)
    by (vm_compute; reflexivity).
  assert (Hreach : reachable startedWorld).
  { apply reach_start.
    apply (reach_load (fun _ a => a) (fun a => a) (fun _ => sphereDocument) (fun _ => "")
             (fun _ => "0") (oracleWithTimestep 0.002) "" "scene.xml" []
             UnifiedRobotModel.new freshWorld loadedWorld);
      [apply reach_new | split; reflexivity | exact Hload]. }
  assert (H1 : MSM.isLoaded (MSM.manager startedWorld) = true)
    by (vm_compute; reflexivity).
  assert (H2 : MSM.model (MSM.manager startedWorld) <> None)
    by (vm_compute; discriminate).
  assert (H3 : MSM.returned (MSM.update (fun _ a => a) (fun a => a) (fun _ a _ _ _ => a) (fun _ d => d)
       100 20 startedWorld)
               = Some afterIdleFrame)
    by (vm_compute; reflexivity).
  split; [exact H1|]. split; [exact H2|]. split; [exact H3|].
  exact (update_moves_every_group_to_its_body (fun _ a => a) (fun a => a)
           (fun _ a _ _ _ => a) (fun _ d => d) 100 20 startedWorld afterIdleFrame
           Hreach H1 H2 H3).
Defined.

(** ** Start, pause and toggle: the flags *)

(** [dragStateManager.enable()] or [disable()] on the manager's record. *)
Definition withDrag (b : bool) (m : MSM.Manager) : MSM.Manager :=
  match MSM.dragStateManager m with
  | Some dsm => MSM.set_dragStateManager (Some (MSM.set_drag_enabled b dsm)) m
  | None => m
  end.

Lemma manager_setDragEnabled b w :
  MSM.manager (MSM.setDragEnabled b w) = withDrag b (MSM.manager w).
Proof.
  unfold MSM.setDragEnabled, withDrag.
  destruct (MSM.dragStateManager (MSM.manager w)); reflexivity.
Qed.

Lemma manager_startSimulation w :
  MSM.manager (MSM.startSimulation w)
  = withDrag true (MSM.set_isSimulating true (MSM.set_paused false (MSM.manager w))).
Proof.
  unfold MSM.startSimulation. cbv zeta.
  set (w0 := MSM.upd _ w).
  destruct (clearHighlight_fields
              (MSM.setDragControls false (MSM.setDragEnabled true (MSM.hideOriginal
                 (MSM.showRoot w0))))) as (_ & -> & _).
  destruct (setDragControls_fields false
              (MSM.setDragEnabled true (MSM.hideOriginal (MSM.showRoot w0))))
    as (_ & -> & _).
  rewrite manager_setDragEnabled.
  destruct (hideOriginal_rest (MSM.showRoot w0)) as [-> _].
  now destruct (showRoot_rest w0) as [-> _].
Qed.

Lemma manager_pauseSimulation w :
  MSM.manager (MSM.pauseSimulation w)
  = withDrag false (MSM.set_isSimulating false (MSM.set_paused true (MSM.manager w))).
Proof.
  unfold MSM.pauseSimulation. cbv zeta.
  set (w0 := MSM.upd _ w).
  destruct (setDragControls_fields true (MSM.hideRoot (MSM.setDragEnabled false w0)))
    as (_ & -> & _).
  destruct (hideRoot_rest (MSM.setDragEnabled false w0)) as [-> _].
  now rewrite manager_setDragEnabled.
Qed.

(** X13: [toggleSimulation] returns the run state it leaves behind, which
    is the opposite of the one it found: afterwards [isSimulating] is the
    returned flag and [paused] its negation, physics dragging (if there is
    a drag manager) is enabled exactly when the simulation runs and the
    static model's drag controls (if any) exactly when it does not; whether
    a scene is loaded plays no part and does not change. *)
Theorem toggleSimulation_flags (w : MSM.World) :
  let flag := fst (MSM.toggleSimulation w) in
  let w' := snd (MSM.toggleSimulation w) in
  flag = MSM.paused (MSM.manager w) /\
  MSM.isSimulationRunning w' = flag /\
  MSM.paused (MSM.manager w') = negb flag /\
  MSM.hasScene w' = MSM.hasScene w /\
  option_map MSM.drag_enabled (MSM.dragStateManager (MSM.manager w'))
    = option_map (fun _ => flag) (MSM.dragStateManager (MSM.manager w)) /\
  option_map MSM.enabled (MSM.dragControls (MSM.sceneManager w'))
    = option_map (fun _ => negb flag) (MSM.dragControls (MSM.sceneManager w)).
Proof.
  cbv zeta. unfold MSM.toggleSimulation, MSM.isSimulationRunning, MSM.hasScene.
  destruct (MSM.paused (MSM.manager w)) eqn:Ep; cbn [fst snd].
  - destruct (startSimulation_fields w) as (_ & _ & _ & _ & Hdc).
    rewrite Hdc, manager_startSimulation. unfold withDrag. simpl.
    destruct (MSM.dragStateManager (MSM.manager w)) eqn:Ed; simpl; rewrite ?Ed;
      destruct (MSM.dragControls (MSM.sceneManager w)); simpl; repeat split; reflexivity.
  - destruct (pauseSimulation_fields w) as (_ & _ & _ & _ & Hdc).
    rewrite Hdc, manager_pauseSimulation. unfold withDrag. simpl.
    destruct (MSM.dragStateManager (MSM.manager w)) eqn:Ed; simpl; rewrite ?Ed;
      destruct (MSM.dragControls (MSM.sceneManager w)); simpl; repeat split; reflexivity.
Qed.

(** ** Reset *)

Lemma update_after_resync mj_step simulation_step mj_applyFT dragUpdate
    fuel timeMS w m :
  MSM.isLoaded (MSM.manager w) = true ->
  MSM.model (MSM.manager w) = Some m ->
  MSM.paused (MSM.manager w) = false ->
  MSM.engineArrays w <> None ->
  (35 <? timeMS - MSM.mujoco_time (MSM.manager w))%float = true ->
  exists w2,
    MSM.update mj_step simulation_step mj_applyFT dragUpdate fuel timeMS w
      = MSM.Return 0 w2 /\
    MSM.mujoco_time (MSM.manager w2) = timeMS.
Proof.
  intros Hloaded Hm Hpaused Harr Hgap. unfold MSM.update.
  rewrite Hloaded, Hm, Hpaused. unfold MSM.syncTime. rewrite Hgap.
  set (w0 := MSM.upd (MSM.set_mujoco_time timeMS) w).
  assert (Hloop : MSM.stepLoop mj_step simulation_step mj_applyFT dragUpdate
                    fuel m timeMS w0 = MSM.Return 0 w0).
  { destruct fuel; simpl; rewrite ltb_irrefl; reflexivity. }
  rewrite Hloop. cbn [MSM.bind].
  assert (Harr0 : MSM.engineArrays w0 = MSM.engineArrays w) by reflexivity.
  rewrite Harr0. destruct (MSM.engineArrays w) as [arr|]; [|congruence].
  eexists. split; [reflexivity|]. now rewrite manager_syncBodies.
Qed.

(** X14: [reset] puts the engine state back and the clock at zero, and
    changes nothing else: the scene stays loaded and a running simulation
    keeps running.  Because the clock restarts at zero while the page's
    time does not, the next frame of a running simulation (any time later
    than 35 ms after the page opened) takes no physics step: it moves the
    clock to the frame's time. *)
Theorem reset_restarts_the_clock
    (mj_reset : MSM.MjModel -> MSM.EngineState -> MSM.EngineState)
    (simulation_reset : MSM.EngineState -> MSM.EngineState)
    (w w1 : MSM.World) :
  MSM.model (MSM.manager w) <> None ->
  MSM.reset mj_reset simulation_reset w = MSM.Return tt w1 ->
  MSM.mujoco_time (MSM.manager w1) = 0%float /\
  frameView w1 = frameView w /\
  forall mj_step simulation_step mj_applyFT dragUpdate fuel timeMS,
    MSM.isLoaded (MSM.manager w) = true ->
    MSM.paused (MSM.manager w) = false ->
    (35 <? timeMS - 0)%float = true ->
    exists w2,
      MSM.update mj_step simulation_step mj_applyFT dragUpdate fuel timeMS w1
        = MSM.Return 0 w2 /\
      MSM.mujoco_time (MSM.manager w2) = timeMS.
Proof.
  intros Hmodel H.
  pose proof (keepsView_reset mj_reset simulation_reset w w1) as Hview.
  rewrite H in Hview. specialize (Hview eq_refl).
  pose proof (keepsCore_reset mj_reset simulation_reset w w1) as Hcore.
  rewrite H in Hcore. specialize (Hcore eq_refl).
  assert (Hfacts : MSM.mujoco_time (MSM.manager w1) = 0%float /\
                   MSM.engineArrays w1 <> None).
  { revert H. unfold MSM.reset.
    destruct (MSM.model (MSM.manager w)) as [m|]; [|congruence].
    unfold MSM.engineArrays.
    destruct (MSM.isOldAPI (MSM.manager w)) eqn:Eold.
    - destruct (MSM.data (MSM.manager w)) as [d|]; simpl; [|discriminate].
      intros [= <-]. simpl. rewrite Eold. split; [reflexivity | discriminate].
    - destruct (MSM.simulation (MSM.manager w)) as [s|]; simpl; [|discriminate].
      intros [= <-]. simpl. rewrite Eold. split; [reflexivity | discriminate]. }
  destruct Hfacts as [Htime Harr].
  split; [assumption|]. split; [assumption|].
  intros mj_step simulation_step mj_applyFT dragUpdate fuel timeMS Hloaded Hpaused Hgap.
  destruct (MSM.model (MSM.manager w)) as [m|] eqn:Em; [|congruence].
  unfold frameView in Hview. injection Hview as Hp Hl _ _ _ _ _ _.
  unfold core in Hcore. injection Hcore as _ Hc _ _ _ _.
  apply (update_after_resync _ _ _ _ fuel timeMS w1 m).
  - now rewrite Hl.
  - now rewrite Hc.
  - now rewrite Hp.
  - assumption.
  - now rewrite Htime.
Qed.

Definition afterReset : MSM.World :=
  default freshWorld (MSM.returned (MSM.reset (fun _ a => a) (fun a => a) startedWorld)).

Lemma reset_restarts_the_clock_witness :
  MSM.model (MSM.manager startedWorld) <> None /\
  MSM.reset (fun _ a => a) (fun a => a) startedWorld = MSM.Return tt afterReset /\
  MSM.mujoco_time (MSM.manager afterReset) = 0%float /\
  frameView afterReset = frameView startedWorld /\
  forall mj_step simulation_step mj_applyFT dragUpdate fuel timeMS,
    MSM.isLoaded (MSM.manager startedWorld) = true ->
    MSM.paused (MSM.manager startedWorld) = false ->
    (35 <? timeMS - 0)%float = true ->
    exists w2,
      MSM.update mj_step simulation_step mj_applyFT dragUpdate fuel timeMS afterReset
        = MSM.Return 0 w2 /\
      MSM.mujoco_time (MSM.manager w2) = timeMS.
Proof.
  assert (H1 : MSM.model (MSM.manager startedWorld) <> None)
    by (vm_compute; discriminate).
  assert (H2 : MSM.reset (fun _ a => a) (fun a => a) startedWorld
               = MSM.Return tt afterReset) by (vm_compute; reflexivity).
  split; [exact H1|]. split; [exact H2|].
  exact (reset_restarts_the_clock (fun _ a => a) (fun a => a) startedWorld afterReset
           H1 H2).
Defined.

(** ** The toggle handler with nothing to simulate *)

(** A page that shows a model without an MJCF file (scene object 1, under
    the scene 0), with no physics scene loaded. *)
Definition urdfPage : SimulationHandler.App :=
  SimulationHandler.mkApp
    (MSM.mkWorld MSM.newManager
       (MSM.mkSceneManager 0 (Some staticModel) (Some (MSM.mkDragControls true))
          (Some (MSM.mkHighlightManager true)) None)
       (<[1 := Object3D.setParent (Some 0) Object3D.new]> (<[0 := Object3D.new]> ∅))
       ∅)
    (AppState.mk (Some staticModel) None None "rad")
    [].

(** X15: with no physics scene loaded and no MJCF file (or model) at hand,
    the toggle handler does not load anything: it still switches the bridge
    to running and answers [true], and it hides the static model, while no
    scene is loaded and there is no physics root to show in its place. *)
Theorem toggle_without_mjcf_hides_the_model
    (mj_reset : MSM.MjModel -> MSM.EngineState -> MSM.EngineState)
    (simulation_reset : MSM.EngineState -> MSM.EngineState)
    (parseFromString : string -> Dom.node) (serializeToString : Dom.node -> string)
    (numberToString : float -> string) (o : MSM.LoadOracle)
    (app : SimulationHandler.App) (mdl : UnifiedRobotModel.t) (static : loc) :
  MSM.hasScene (SimulationHandler.world app) = false ->
  AppState.currentMJCFFile (SimulationHandler.state app) = None \/
  AppState.currentMJCFModel (SimulationHandler.state app) = None ->
  MSM.paused (MSM.manager (SimulationHandler.world app)) = true ->
  MSM.mujocoRoot (MSM.manager (SimulationHandler.world app)) = None ->
  AppState.currentModel (SimulationHandler.state app) = Some mdl ->
  UnifiedRobotModel.threeObject mdl = Some static ->
  is_Some (MSM.objects (SimulationHandler.world app) !! static) ->
  exists app1,
    SimulationHandler.handleMujocoToggleSimulate mj_reset simulation_reset
      parseFromString serializeToString numberToString o app = Some (true, app1) /\
    MSM.hasScene (SimulationHandler.world app1) = false /\
    MSM.isSimulationRunning (SimulationHandler.world app1) = true /\
    MSM.isVisible (SimulationHandler.world app1) static = false /\
    MSM.mujocoRoot (MSM.manager (SimulationHandler.world app1)) = None.
Proof.
  intros Hscene Hnone Hpaused Hroot Hst Hmdl Hstatic.
  assert (Hbranch :
    SimulationHandler.handleMujocoToggleSimulate mj_reset simulation_reset
      parseFromString serializeToString numberToString o app
    = Some (true, SimulationHandler.mkApp
                    (SimulationHandler.setStaticVisible false (SimulationHandler.state app)
                       (MSM.startSimulation (SimulationHandler.world app)))
                    (SimulationHandler.state app) (SimulationHandler.fileMap app))).
  { unfold SimulationHandler.handleMujocoToggleSimulate. cbv zeta. rewrite Hscene.
    unfold MSM.toggleSimulation. rewrite Hpaused.
    destruct (startSimulation_fields (SimulationHandler.world app)) as (_ & _ & -> & _).
    destruct Hnone as [-> | ->]; simpl;
      [|destruct (AppState.currentMJCFFile (SimulationHandler.state app))]; reflexivity. }
  eexists. split; [exact Hbranch|]. cbn [SimulationHandler.world].
  set (w1 := MSM.startSimulation (SimulationHandler.world app)).
  assert (Hm : MSM.manager (SimulationHandler.setStaticVisible false
                              (SimulationHandler.state app) w1) = MSM.manager w1).
  { unfold SimulationHandler.setStaticVisible. rewrite Hst, Hmdl. reflexivity. }
  destruct (startSimulation_fields (SimulationHandler.world app))
    as (Hobj & Hroot1 & _ & Hloaded & _).
  unfold MSM.hasScene, MSM.isSimulationRunning. rewrite Hm. subst w1.
  rewrite Hloaded, Hroot1, manager_startSimulation.
  split; [exact Hscene|]. split; [unfold withDrag; simpl;
    destruct (MSM.dragStateManager (MSM.manager (SimulationHandler.world app)));
    reflexivity|].
  split; [|exact Hroot].
  unfold SimulationHandler.setStaticVisible. rewrite Hst, Hmdl.
  apply isVisible_setVisible.
  rewrite Hobj. unfold MSM.showRoot. rewrite Hroot.
  unfold MSM.hideOriginal.
  destruct (MSM.currentModel (MSM.sceneManager (SimulationHandler.world app))) as [m0|];
    [|assumption].
  destruct (UnifiedRobotModel.threeObject m0); [|assumption].
  simpl. destruct Hstatic as [x Hx].
  destruct (decide (l = static)) as [->|Hne].
  - rewrite lookup_alter_eq, Hx. simpl. eauto.
  - rewrite lookup_alter_ne by assumption. eauto.
Qed.

Lemma toggle_without_mjcf_hides_the_model_witness :
  MSM.hasScene (SimulationHandler.world urdfPage) = false /\
  (AppState.currentMJCFFile (SimulationHandler.state urdfPage) = None \/
   AppState.currentMJCFModel (SimulationHandler.state urdfPage) = None) /\
  MSM.paused (MSM.manager (SimulationHandler.world urdfPage)) = true /\
  MSM.mujocoRoot (MSM.manager (SimulationHandler.world urdfPage)) = None /\
  AppState.currentModel (SimulationHandler.state urdfPage) = Some staticModel /\
  UnifiedRobotModel.threeObject staticModel = Some 1 /\
  is_Some (MSM.objects (SimulationHandler.world urdfPage) !! 1) /\
  exists app1,
    SimulationHandler.handleMujocoToggleSimulate (fun _ a => a) (fun a => a)
      (fun _ => sphereDocument) (fun _ => "") (fun _ => "0") failingOracle urdfPage
      = Some (true, app1) /\
    MSM.hasScene (SimulationHandler.world app1) = false /\
    MSM.isSimulationRunning (SimulationHandler.world app1) = true /\
    MSM.isVisible (SimulationHandler.world app1) 1 = false /\
    MSM.mujocoRoot (MSM.manager (SimulationHandler.world app1)) = None.
Proof.
  assert (H7 : is_Some (MSM.objects (SimulationHandler.world urdfPage) !! 1))
    by (vm_compute; eauto).
  repeat (split; [first [reflexivity | left; reflexivity | exact H7]|]).
  exact (toggle_without_mjcf_hides_the_model (fun _ a => a) (fun a => a)
           (fun _ => sphereDocument) (fun _ => "") (fun _ => "0") failingOracle
           urdfPage staticModel 1 eq_refl (or_introl eq_refl) eq_refl eq_refl eq_refl
           eq_refl H7).
Defined.

(** ** The loaded flag after a load that throws *)

Definition keepsLoaded {A} (c : MSM.World -> MSM.outcome A) : Prop :=
  forall w w', MSM.worldOf (c w) = Some w' ->
    MSM.isLoaded (MSM.manager w') = MSM.isLoaded (MSM.manager w).

Lemma keepsLoaded_init o : keepsLoaded (MSM.init o).
Proof. intros w w'. unfold MSM.init. scene_cases. Qed.

Lemma keepsLoaded_stage o : keepsLoaded (MSM.stage o).
Proof. intros w w'. unfold MSM.stage, MSM.run. scene_cases. Qed.

Lemma keepsLoaded_compileModel o xml : keepsLoaded (MSM.compileModel o xml).
Proof. intros w w'. unfold MSM.compileModel, MSM.newNative. simpl. scene_cases. Qed.

Lemma keepsLoaded_releaseEngine : keepsLoaded MSM.releaseEngine.
Proof. intros w w'. unfold MSM.releaseEngine, MSM.release, MSM.run. scene_cases. Qed.

Lemma keepsLoaded_clearVFS : keepsLoaded MSM.clearVFS.
Proof.
  intros w w'. unfold MSM.clearVFS.
  destruct (MSM.mujoco (MSM.manager w)) as [mj|]; [|now intros [= <-]].
  destruct (FS.readdir ["working"] (MSM.FS mj)) as [files|msg]; [|now intros [= <-]].
  destruct (MSM.clearEach _ files (MSM.FS mj)); [now intros [= <-] | discriminate].
Qed.

Lemma keepsLoaded_resetEngine mj_reset simulation_reset o :
  keepsLoaded (MSM.resetEngine mj_reset simulation_reset o).
Proof. intros w w'. unfold MSM.resetEngine. scene_cases. Qed.

Lemma isLoaded_addBodies root (bs : list nat) w :
  MSM.isLoaded (MSM.manager (fold_left (MSM.addBody root) bs w))
  = MSM.isLoaded (MSM.manager w).
Proof.
  revert w. induction bs as [|b bs IH]; intros w; simpl; [reflexivity|].
  now rewrite IH.
Qed.

Lemma keepsLoaded_createThreeScene o : keepsLoaded (MSM.createThreeScene o).
Proof.
  intros w w'. unfold MSM.createThreeScene.
  destruct (MSM.model (MSM.manager w)) as [m|]; [|now intros [= <-]].
  unfold MSM.newObject. cbv zeta.
  match goal with |- context [MSM.throwsAt ?f ?o ?x] =>
    destruct (throwsAt_cases f o x) as [E|[msg' E]]; rewrite E; clear E; simpl
  end; intros [= <-]; [|reflexivity].
  now rewrite isLoaded_addBodies.
Qed.

Lemma clearScene_notLoaded w w' :
  MSM.isLoaded (MSM.manager w) = false ->
  MSM.worldOf (MSM.clearScene w) = Some w' ->
  MSM.isLoaded (MSM.manager w') = false.
Proof.
  unfold MSM.clearScene. intros Hw H.
  pose proof (keepsLoaded_releaseEngine w) as H1.
  destruct (MSM.releaseEngine w) as [[] w1|msg w1|]; simpl in H;
    [|injection H as <-; now rewrite (H1 w1 eq_refl)|discriminate].
  pose proof (keepsLoaded_clearVFS w1) as H2.
  destruct (MSM.clearVFS w1) as [[] w2|msg w2|]; simpl in H;
    [|injection H as <-; now rewrite (H2 w2 eq_refl), (H1 w1 eq_refl)|discriminate].
  injection H as <-. reflexivity.
Qed.

(** X16: a load that is started with no scene loaded and ends in an
    exception leaves [hasScene()] false, with one exception: when it is the
    construction of the drag manager that throws, the scene already counts
    as loaded; the model and the physics root are then in place, the bridge
    is paused, and there is no drag manager. *)
Theorem failed_load_is_loaded_only_without_drag_manager
    (mj_reset : MSM.MjModel -> MSM.EngineState -> MSM.EngineState)
    (simulation_reset : MSM.EngineState -> MSM.EngineState)
    (parseFromString : string -> Dom.node) (serializeToString : Dom.node -> string)
    (numberToString : float -> string) (o : MSM.LoadOracle)
    (xmlContent filename : string) (fileMap : JsMap.t File.t)
    (originalModel : UnifiedRobotModel.t) (w w' : MSM.World) (msg : string) :
  MSM.hasScene w = false ->
  MSM.loadScene mj_reset simulation_reset parseFromString serializeToString
    numberToString o xmlContent filename fileMap originalModel w = MSM.Raise msg w' ->
  MSM.hasScene w' = true ->
  MSM.fault o = MSM.AtDrag /\
  MSM.model (MSM.manager w') <> None /\
  MSM.mujocoRoot (MSM.manager w') <> None /\
  MSM.paused (MSM.manager w') = true /\
  MSM.dragStateManager (MSM.manager w') = None.
Proof.
  unfold MSM.hasScene, MSM.loadScene. intros Hw H Hloaded.
  pose proof (keepsLoaded_init o w) as H1.
  destruct (MSM.init o w) as [[] w1|msg1 w1|]; simpl in H;
    [|injection H as _ <-; rewrite (H1 w1 eq_refl) in Hloaded; congruence|discriminate].
  rewrite <- (H1 w1 eq_refl) in Hw. clear H1.
  pose proof (clearScene_notLoaded w1) as H2.
  destruct (MSM.clearScene w1) as [[] w2|msg2 w2|]; simpl in H;
    [|injection H as _ <-; rewrite (H2 w2 Hw eq_refl) in Hloaded; discriminate|discriminate].
  specialize (H2 w2 Hw eq_refl). clear Hw.
  set (w3 := MSM.upd (MSM.set_originalModel (Some originalModel)) w2) in *.
  change (MSM.isLoaded (MSM.manager w3) = false) in H2.
  pose proof (keepsLoaded_stage o w3) as H4.
  destruct (MSM.stage o w3) as [[] w4|msg4 w4|]; simpl in H;
    [|injection H as _ <-; rewrite (H4 w4 eq_refl) in Hloaded; congruence|discriminate].
  rewrite <- (H4 w4 eq_refl) in H2. clear H4.
  match type of H with context [MSM.compileModel o ?xml w4] =>
    pose proof (keepsLoaded_compileModel o xml w4) as H5;
    destruct (MSM.compileModel o xml w4) as [[] w5|msg5 w5|]; simpl in H;
      [|injection H as _ <-; rewrite (H5 w5 eq_refl) in Hloaded; congruence|discriminate]
  end.
  rewrite <- (H5 w5 eq_refl) in H2. clear H5.
  pose proof (keepsLoaded_createThreeScene o w5) as H6.
  destruct (MSM.createThreeScene o w5) as [[] w6|msg6 w6|] eqn:E6; simpl in H;
    [|injection H as _ <-; rewrite (H6 w6 eq_refl) in Hloaded; congruence|discriminate].
  rewrite <- (H6 w6 eq_refl) in H2. clear H6.
  pose proof (keepsLoaded_resetEngine mj_reset simulation_reset o w6) as H7.
  destruct (MSM.resetEngine mj_reset simulation_reset o w6) as [[] w7|msg7 w7|] eqn:E7;
    simpl in H;
    [|injection H as _ <-; rewrite (H7 w7 eq_refl) in Hloaded; congruence|discriminate].
  clear H7 H2 Hloaded.
  assert (Hmodel5 : MSM.model (MSM.manager w5) <> None).
  { intros E. unfold MSM.createThreeScene in E6. rewrite E in E6. discriminate. }
  destruct (MSM.model (MSM.manager w5)) as [m|] eqn:Em; [clear Hmodel5|congruence].
  destruct (createThreeScene_groups o w5 w6 m Em E6) as (root & Hroot & _).
  pose proof (keepsCore_createThreeScene o w5 w6) as Hc6. rewrite E6 in Hc6.
  pose proof (keepsCore_resetEngine mj_reset simulation_reset o w6 w7) as Hc7.
  rewrite E7 in Hc7.
  pose proof (resetEngine_rendered mj_reset simulation_reset o w6 w7) as Hr7.
  rewrite E7 in Hr7.
  specialize (Hc6 eq_refl). specialize (Hc7 eq_refl). specialize (Hr7 eq_refl).
  assert (Hmodel7 : MSM.model (MSM.manager w7) = Some m).
  { assert (Hc : core w7 = core w5) by (rewrite Hc7, Hc6; reflexivity).
    unfold core in Hc. injection Hc as _ Hc _ _ _ _. now rewrite Hc. }
  assert (Hroot7 : MSM.mujocoRoot (MSM.manager w7) = Some root).
  { unfold rendered in Hr7. injection Hr7 as _ _ ->. assumption. }
  revert H. unfold MSM.createDrag. simpl.
  destruct (MSM.dragStateManager (MSM.manager w7)) eqn:Ed; [discriminate|].
  unfold MSM.throwsAt. simpl.
  destruct (MSM.fault o); simpl; try discriminate.
  intros [= _ <-]. simpl. rewrite Hmodel7, Hroot7, Ed.
  repeat split; congruence.
Qed.

(** A load on a new page in which everything works but the construction
    of the drag manager. *)
Definition dragFailOracle : MSM.LoadOracle :=
  MSM.mkLoadOracle MSM.AtDrag
    (MSM.mkMujoco MSM.MjDataApi (FS.Dir [ ("working", FS.Dir []) ]))
    stagedTree
    (fun _ => MSM.mkCompiled 0.002 2 [0; 1]%float (MSM.mkEngineState [] [] []))
    idleDrag.

Definition afterDragFailure : MSM.World :=
  default freshWorld
    (MSM.worldOf
       (MSM.loadScene (fun _ a => a) (fun a => a) (fun _ => sphereDocument) (fun _ => "")
          (fun _ => "0") dragFailOracle "" "scene.xml" [] UnifiedRobotModel.new freshWorld)).

Lemma failed_load_is_loaded_only_without_drag_manager_witness :
  MSM.hasScene freshWorld = false /\
  MSM.loadScene (fun _ a => a) (fun a => a) (fun _ => sphereDocument) (fun _ => "")
    (fun _ => "0") dragFailOracle "" "scene.xml" [] UnifiedRobotModel.new freshWorld
  = MSM.Raise "engine or browser error" afterDragFailure /\
  MSM.hasScene afterDragFailure = true /\
  MSM.fault dragFailOracle = MSM.AtDrag /\
  MSM.model (MSM.manager afterDragFailure) <> None /\
  MSM.mujocoRoot (MSM.manager afterDragFailure) <> None /\
  MSM.paused (MSM.manager afterDragFailure) = true /\
  MSM.dragStateManager (MSM.manager afterDragFailure) = None.
Proof.
  assert (H1 : MSM.hasScene freshWorld = false) by reflexivity.
  assert (H2 : MSM.loadScene (fun _ a => a) (fun a => a) (fun _ => sphereDocument)
                 (fun _ => "") (fun _ => "0") dragFailOracle "" "scene.xml" []
                 UnifiedRobotModel.new freshWorld
               = MSM.Raise "engine or browser error" afterDragFailure)
    by (vm_compute; reflexivity).
  assert (H3 : MSM.hasScene afterDragFailure = true) by (vm_compute; reflexivity).
  split; [exact H1|]. split; [exact H2|]. split; [exact H3|].
  exact (failed_load_is_loaded_only_without_drag_manager (fun _ a => a) (fun a => a)
           (fun _ => sphereDocument) (fun _ => "") (fun _ => "0") dragFailOracle ""
           "scene.xml" [] UnifiedRobotModel.new freshWorld afterDragFailure
           "engine or browser error" H1 H2 H3).
Defined.

(** ** Mesh vertices (createMeshGeometry) *)

Module MeshGeometry.

(** A typed-array view made by [subarray]: where it starts in the
    underlying buffer and how long it is. *)
Record view : Type := mkView { offset : nat; vlength : nat }.

(** [buffer.subarray(begin, end)] on a buffer of length [len]: both ends
    are clamped to the buffer. *)
Definition subarray (len begin end_ : nat) : view :=
  mkView (Nat.min begin len) (Nat.min end_ len - Nat.min begin len).

(** [view[i]] read as a number: past the end it is [undefined], which
    negation and a store into a typed array turn into NaN. *)
Definition viewGet (buf : list float) (vw : view) (i : nat) : float :=
  if (i <? vlength vw)%nat then Swizzle.read buf (offset vw + i) else PrimFloat.nan.

(** [view[i] = x]: a store past the end is ignored. *)
Definition viewSet (buf : list float) (vw : view) (i : nat) (x : float) : list float :=
  if (i <? vlength vw)%nat then <[offset vw + i := x]> buf else buf.

(** One turn of the loop:
    [temp = b[v+1]; b[v+1] = b[v+2]; b[v+2] = -temp]. *)
Definition swizzleStep (buf : list float) (vw : view) (v : nat) : list float :=
  let temp := viewGet buf vw (v + 1) in
  let buf1 := viewSet buf vw (v + 1) (viewGet buf vw (v + 2)) in
  viewSet buf1 vw (v + 2) (- temp)%float.

(** [for (let v = 0; v < b.length; v += 3) ...], from [v] on. *)
Fixpoint swizzleLoop (fuel : nat) (buf : list float) (vw : view) (v : nat) : list float :=
  match fuel with
  | O => buf
  | S fuel' =>
      if (v <? vlength vw)%nat
      then swizzleLoop fuel' (swizzleStep buf vw v) vw (v + 3)
      else buf
  end.

(** The whole loop; it ends within [b.length] turns. *)
Definition swizzleView (buf : list float) (vw : view) : list float :=
  swizzleLoop (vlength vw) buf vw 0.

(** What [createMeshGeometry(meshID)] does to [model.mesh_vert] (and, in
    the same way, to [model.mesh_normal]); [adr] and [num] are
    [mesh_vertadr[meshID]] and [mesh_vertnum[meshID]]. *)
Definition convertInPlace (buffer : list float) (adr num : nat) : list float :=
  swizzleView buffer (subarray (length buffer) (adr * 3) ((adr + num) * 3)).

End MeshGeometry.

Lemma swizzleStep_inside (buf : list float) (off n j : nat) :
  off + 3 * n <= length buf -> j < n ->
  MeshGeometry.swizzleStep buf (MeshGeometry.mkView off (3 * n)) (3 * j)
  = <[off + (3 * j + 2) := (- Swizzle.read buf (off + (3 * j + 1)))%float]>
      (<[off + (3 * j + 1) := Swizzle.read buf (off + (3 * j + 2))]> buf).
Proof.
  intros Hlen Hj. unfold MeshGeometry.swizzleStep, MeshGeometry.viewGet, MeshGeometry.viewSet.
  cbn [MeshGeometry.vlength MeshGeometry.offset].
  destruct (Nat.ltb_spec (3 * j + 1) (3 * n)); [|lia].
  destruct (Nat.ltb_spec (3 * j + 2) (3 * n)); [|lia].
  reflexivity.
Qed.

Lemma swizzleLoop_spec (off n : nat) :
  forall fuel j buf,
    off + 3 * n <= length buf -> j <= n -> n - j <= fuel ->
    let r := MeshGeometry.swizzleLoop fuel buf (MeshGeometry.mkView off (3 * n)) (3 * j) in
    length r = length buf /\
    (forall i, i < off + 3 * j \/ off + 3 * n <= i -> r !! i = buf !! i) /\
    (forall k, j <= k -> k < n ->
       r !! (off + 3 * k) = buf !! (off + 3 * k) /\
       r !! (off + (3 * k + 1)) = buf !! (off + (3 * k + 2)) /\
       r !! (off + (3 * k + 2)) = Some (- Swizzle.read buf (off + (3 * k + 1)))%float).
Proof.
  induction fuel as [|fuel IH]; intros j buf Hlen Hj Hfuel; cbv zeta.
  - cbn [MeshGeometry.swizzleLoop].
    split; [reflexivity|]. split; [reflexivity|]. intros k H1 H2. lia.
  - cbn [MeshGeometry.swizzleLoop MeshGeometry.vlength].
    destruct (Nat.ltb_spec (3 * j) (3 * n)) as [Hlt|Hge].
    + assert (Hjn : j < n) by lia.
      rewrite (swizzleStep_inside buf off n j Hlen Hjn).
      set (buf1 := <[off + (3 * j + 2) := _]> (<[off + (3 * j + 1) := _]> buf)).
      assert (Hlen1 : length buf1 = length buf)
        by (subst buf1; now rewrite !length_insert).
      assert (Hother : forall i, i <> off + (3 * j + 1) -> i <> off + (3 * j + 2) ->
                         buf1 !! i = buf !! i).
      { intros i H1 H2. subst buf1.
        rewrite list_lookup_insert_ne by congruence.
        now rewrite list_lookup_insert_ne by congruence. }
      assert (H1 : buf1 !! (off + (3 * j + 1)) = Some (Swizzle.read buf (off + (3 * j + 2)))).
      { subst buf1. rewrite list_lookup_insert_ne by lia.
        apply list_lookup_insert_eq. lia. }
      assert (H2 : buf1 !! (off + (3 * j + 2))
                   = Some (- Swizzle.read buf (off + (3 * j + 1)))%float).
      { subst buf1. apply list_lookup_insert_eq. rewrite length_insert. lia. }
      clearbody buf1.
      replace (3 * j + 3) with (3 * (S j)) by lia.
      destruct (IH (S j) buf1) as (Hl & Hout & Hin); [lia | lia | lia |].
      split; [congruence|]. split.
      * intros i Hi. rewrite Hout by lia. apply Hother; lia.
      * intros k Hk1 Hk2. destruct (decide (k = j)) as [->|Hne].
        -- rewrite !Hout by lia. rewrite H1, H2. split; [apply Hother; lia|].
           split; [|reflexivity].
           unfold Swizzle.read. destruct (buf !! (off + (3 * j + 2))) eqn:E; [reflexivity|].
           apply lookup_ge_None in E. lia.
        -- destruct (Hin k) as (Ha & Hb & Hc); [lia | lia |].
           rewrite Ha, Hb, Hc. unfold Swizzle.read.
           rewrite !Hother by lia. auto.
    + assert (j = n) by lia. subst j.
      split; [reflexivity|]. split; [reflexivity|]. intros k H1 H2. lia.
Qed.

Lemma convertInPlace_spec (buffer : list float) (adr num : nat) :
  (adr + num) * 3 <= length buffer ->
  let r := MeshGeometry.convertInPlace buffer adr num in
  length r = length buffer /\
  (forall i, i < adr * 3 \/ (adr + num) * 3 <= i -> r !! i = buffer !! i) /\
  (forall k, k < num ->
     Swizzle.read r ((adr + k) * 3 + 0) = Swizzle.read buffer ((adr + k) * 3 + 0) /\
     Swizzle.read r ((adr + k) * 3 + 1) = Swizzle.read buffer ((adr + k) * 3 + 2) /\
     Swizzle.read r ((adr + k) * 3 + 2) = (- Swizzle.read buffer ((adr + k) * 3 + 1))%float).
Proof.
  intros Hlen. cbv zeta.
  assert (E : MeshGeometry.convertInPlace buffer adr num
              = MeshGeometry.swizzleLoop (3 * num) buffer
                  (MeshGeometry.mkView (adr * 3) (3 * num)) (3 * 0)).
  { unfold MeshGeometry.convertInPlace, MeshGeometry.subarray.
    replace (Nat.min (adr * 3) (length buffer)) with (adr * 3) by lia.
    replace (Nat.min ((adr + num) * 3) (length buffer) - adr * 3) with (3 * num) by lia.
    reflexivity. }
  rewrite E. clear E.
  destruct (swizzleLoop_spec (adr * 3) num (3 * num) 0 buffer) as (Hl & Hout & Hin);
    [lia | lia | lia |].
  split; [exact Hl|]. split.
  - intros i Hi. apply Hout. lia.
  - intros k Hk. destruct (Hin k) as (Ha & Hb & Hc); [lia | assumption |].
    unfold Swizzle.read.
    replace ((adr + k) * 3 + 0) with (adr * 3 + 3 * k) by lia.
    replace ((adr + k) * 3 + 1) with (adr * 3 + (3 * k + 1)) by lia.
    replace ((adr + k) * 3 + 2) with (adr * 3 + (3 * k + 2)) by lia.
    rewrite Ha, Hb, Hc. auto.
Qed.

(** X17: [createMeshGeometry] converts the vertices of a mesh where they
    lie in the model's buffer.  For a mesh inside the buffer, each of its
    vertices ends up as the triple that [getPosition] with the swizzle
    reads from the original buffer, the rest of the buffer and its length
    are untouched; converting the same mesh a second time does not give the
    same vertices again but the original ones with [y] and [z] negated. *)
Theorem convertInPlace_swizzles_each_vertex (buffer : list float) (adr num : nat) :
  (adr + num) * 3 <= length buffer ->
  let once := MeshGeometry.convertInPlace buffer adr num in
  let twice := MeshGeometry.convertInPlace once adr num in
  length once = length buffer /\
  (forall i, i < adr * 3 \/ (adr + num) * 3 <= i -> once !! i = buffer !! i) /\
  (forall k, k < num ->
     Swizzle.getPosition once (adr + k) false = Swizzle.getPosition buffer (adr + k) true) /\
  (forall k, k < num ->
     Swizzle.getPosition twice (adr + k) false
     = Vector3.mk (Swizzle.read buffer ((adr + k) * 3 + 0))
                  (- Swizzle.read buffer ((adr + k) * 3 + 1))%float
                  (- Swizzle.read buffer ((adr + k) * 3 + 2))%float).
Proof.
  intros Hlen. cbv zeta.
  destruct (convertInPlace_spec buffer adr num Hlen) as (Hl & Hout & Hin).
  destruct (convertInPlace_spec (MeshGeometry.convertInPlace buffer adr num) adr num)
    as (_ & _ & Hin2); [now rewrite Hl|].
  split; [exact Hl|]. split; [exact Hout|]. split.
  - intros k Hk. destruct (Hin k Hk) as (Ha & Hb & Hc).
    unfold Swizzle.getPosition. now rewrite Ha, Hb, Hc.
  - intros k Hk. destruct (Hin k Hk) as (Ha & Hb & Hc).
    destruct (Hin2 k Hk) as (Ha2 & Hb2 & Hc2).
    unfold Swizzle.getPosition. now rewrite Ha2, Hb2, Hc2, Ha, Hb, Hc.
Qed.

Lemma convertInPlace_swizzles_each_vertex_witness :
  let buffer := [9; 9; 9; 1; 2; 3; 4; 5; 6; 7; 7; 7]%float in
  (1 + 2) * 3 <= length buffer /\
  length (MeshGeometry.convertInPlace buffer 1 2) = length buffer /\
  (forall i, i < 1 * 3 \/ (1 + 2) * 3 <= i ->
     MeshGeometry.convertInPlace buffer 1 2 !! i = buffer !! i) /\
  (forall k, k < 2 ->
     Swizzle.getPosition (MeshGeometry.convertInPlace buffer 1 2) (1 + k) false
     = Swizzle.getPosition buffer (1 + k) true) /\
  (forall k, k < 2 ->
     Swizzle.getPosition
       (MeshGeometry.convertInPlace (MeshGeometry.convertInPlace buffer 1 2) 1 2)
       (1 + k) false
     = Vector3.mk (Swizzle.read buffer ((1 + k) * 3 + 0))
                  (- Swizzle.read buffer ((1 + k) * 3 + 1))%float
                  (- Swizzle.read buffer ((1 + k) * 3 + 2))%float).
Proof.
  cbv zeta. split; [simpl; lia|].
  apply (convertInPlace_swizzles_each_vertex [9; 9; 9; 1; 2; 3; 4; 5; 6; 7; 7; 7]%float 1 2).
  simpl. lia.
Defined.

(** ** Assets of an MJCF document (writeAssetsToVFS, resolvePath) *)

Module MujocoAssets.
Import JsString.

(** [resolvePath(xmlFile, baseDir, file)] *)
Definition resolvePath (xmlFile baseDir file : string) : string :=
  let xmlDir :=
    match lastIndexOf "/" xmlFile with
    | Some i => substring_to i xmlFile
    | None => ""
    end in
  if startsWith file "/" then substring_from 1 file
  else
    join "/"
      ((if truthy xmlDir then [xmlDir] else []) ++
       (if truthy baseDir && negb (String.eqb baseDir ".") then [baseDir] else []) ++
       [file]).

(** [set.add(x)] on a [Set] kept in insertion order. *)
Definition setAdd (x : string) (s : list string) : list string :=
  if existsb (String.eqb x) s then s else s ++ [x].

(** The top-level directories of the bundle: for every key that starts
    with a slash, the component after it. *)
Definition topDirs (fileMap : JsMap.t File.t) : list string :=
  fold_left
    (fun dirs key =>
       if startsWith key "/" then
         match split "/" key with
         | _ :: second :: _ => setAdd second dirs
         | _ => dirs
         end
       else dirs)
    (JsMap.keys fileMap) [].

(** The keys under which an asset is looked up, in order. *)
Definition pathVariations (assetPath : string) (fileMap : JsMap.t File.t) : list string :=
  [ assetPath;
    "/" +:+ assetPath;
    "mjcf/" +:+ assetPath;
    "/mjcf/" +:+ assetPath;
    basename assetPath ] ++
  flat_map (fun topDir => [ "/" +:+ topDir +:+ "/mjcf/" +:+ assetPath;
                            topDir +:+ "/mjcf/" +:+ assetPath ])
           (topDirs fileMap).

(** The first variation the bundle has, with its file:
    [for (const variation of pathVariations) { file = fileMap.get(variation); if (file) ... break }] *)
Fixpoint firstMatch (variations : list string) (fileMap : JsMap.t File.t)
    : option (string * File.t) :=
  match variations with
  | [] => None
  | variation :: rest =>
      match JsMap.get variation fileMap with
      | Some file => Some (variation, file)
      | None => firstMatch rest fileMap
      end
  end.

(** The bundle file that is written to [/working/<assetPath>], if any. *)
Definition findAsset (assetPath : string) (fileMap : JsMap.t File.t)
    : option (string * File.t) :=
  firstMatch (pathVariations assetPath fileMap) fileMap.

End MujocoAssets.

Lemma basename_idempotent (s : string) :
  JsString.basename (JsString.basename s) = JsString.basename s.
Proof.
  unfold JsString.basename at 1 3. unfold JsString.pop.
  assert (H : JsString.indexOf "/" (JsString.basename s) = None).
  { unfold JsString.basename, JsString.pop.
    pose proof (split_parts_no_sep "/" s) as Hall.
    pose proof (split_nonempty "/" s) as Hne.
    induction Hall as [|p l Hp Hl IH]; [congruence|].
    destruct l as [|q l]; [exact Hp|]. apply IH. discriminate. }
  now rewrite (split_without_sep "/" _ H).
Qed.

Lemma firstMatch_Some variations fileMap key f :
  MujocoAssets.firstMatch variations fileMap = Some (key, f) ->
  In key variations /\ In (key, f) fileMap.
Proof.
  induction variations as [|v rest IH]; simpl; [discriminate|].
  destruct (JsMap.get v fileMap) as [f0|] eqn:E.
  - intros [= <- <-]. split; [now left | now apply get_In].
  - intros H. destruct (IH H). auto.
Qed.

Lemma firstMatch_None variations fileMap :
  MujocoAssets.firstMatch variations fileMap = None <->
  forall v, In v variations -> JsMap.get v fileMap = None.
Proof.
  induction variations as [|v rest IH]; simpl.
  - split; [intros _ v [] | reflexivity].
  - destruct (JsMap.get v fileMap) as [f0|] eqn:E.
    + split; [discriminate|]. intros H. rewrite (H v) in E; [discriminate | now left].
    + rewrite IH. split.
      * intros H v0 [<-|Hin]; auto.
      * intros H v0 Hin. apply H. now right.
Qed.

Lemma pathVariations_basename assetPath fileMap v :
  In v (MujocoAssets.pathVariations assetPath fileMap) ->
  JsString.basename v = JsString.basename assetPath.
Proof.
  unfold MujocoAssets.pathVariations. intros H. apply in_app_or in H as [H|H].
  - simpl in H. destruct H as [<-|[<-|[<-|[<-|[<-|[]]]]]].
    + reflexivity.
    + apply (basename_after_slash "" assetPath).
    + apply (basename_after_slash "mjcf" assetPath).
    + apply (basename_after_slash "/mjcf" assetPath).
    + apply basename_idempotent.
  - apply in_flat_map in H as (topDir & _ & [<-|[<-|[]]]).
    + replace ("/" +:+ topDir +:+ "/mjcf/" +:+ assetPath)
        with (("/" +:+ topDir +:+ "/mjcf") +:+ String "/" assetPath).
      * apply basename_after_slash.
      * rewrite !append_assoc. reflexivity.
    + replace (topDir +:+ "/mjcf/" +:+ assetPath)
        with ((topDir +:+ "/mjcf") +:+ String "/" assetPath).
      * apply basename_after_slash.
      * rewrite !append_assoc. reflexivity.
Qed.

Lemma resolvePath_basename xmlFile baseDir file :
  JsString.basename (MujocoAssets.resolvePath xmlFile baseDir file) = JsString.basename file.
Proof.
  unfold MujocoAssets.resolvePath. cbv zeta.
  destruct (JsString.startsWith file "/") eqn:Eabs.
  - unfold JsString.startsWith in Eabs. apply prefix_split in Eabs.
    rewrite Eabs at 2. simpl String.length.
    symmetry. apply (basename_after_slash "" (JsString.substring_from 1 file)).
  - set (xmlDir := match JsString.lastIndexOf "/" xmlFile with
                   | Some i => JsString.substring_to i xmlFile | None => "" end).
    destruct (JsString.truthy xmlDir);
      destruct (JsString.truthy baseDir && negb (String.eqb baseDir ".")); simpl app.
    + rewrite !join_cons2.
      replace (xmlDir +:+ "/" +:+ baseDir +:+ "/" +:+ JsString.join "/" [file])
        with ((xmlDir +:+ "/" +:+ baseDir) +:+ String "/" file)
        by (rewrite !append_assoc; reflexivity).
      apply basename_after_slash.
    + rewrite join_cons2. apply (basename_after_slash xmlDir file).
    + rewrite join_cons2. apply (basename_after_slash baseDir file).
    + reflexivity.
Qed.

(** X18: an asset reference of an MJCF document is staged only from a
    bundle file whose key has the file name of the reference: the path
    [resolvePath] builds keeps the file name, and so does every key the
    lookup tries.  Nothing is staged exactly when none of those keys is in
    the bundle; the bundle is not scanned by file name. *)
Theorem findAsset_matches_the_file_name
    (xmlFile baseDir file : string) (fileMap : JsMap.t File.t) :
  let assetPath := MujocoAssets.resolvePath xmlFile baseDir file in
  (forall key f, MujocoAssets.findAsset assetPath fileMap = Some (key, f) ->
     In (key, f) fileMap /\ JsString.basename key = JsString.basename file) /\
  (MujocoAssets.findAsset assetPath fileMap = None <->
     forall v, In v (MujocoAssets.pathVariations assetPath fileMap) ->
       JsMap.get v fileMap = None).
Proof.
  cbv zeta. split.
  - intros key f H. apply firstMatch_Some in H as [Hv Hin]. split; [assumption|].
    rewrite (pathVariations_basename _ _ _ Hv). apply resolvePath_basename.
  - apply firstMatch_None.
Qed.

(** ** The ground plane, a second time *)

Lemma groundGeom_is_plane (numberToString : float -> string) (y : float) :
  Dom.matches MSM.planeSelector (MSM.groundGeom numberToString y) = true.
Proof. reflexivity. Qed.

(** X19: [addGroundPlane] does not add a second plane.  If the browser's
    parser reads back the document that the first call serialized, a
    second call (whatever the height of the rendered ground is by then)
    returns the text of the first call unchanged. *)
Theorem addGroundPlane_is_idempotent
    (parseFromString : string -> Dom.node) (serializeToString : Dom.node -> string)
    (numberToString : float -> string) (sm sm' : MSM.SceneManager) (xmlContent : string) :
  (forall doc',
     Dom.updateFirst (Dom.matches MSM.worldbodySelector)
       (MSM.insertGround (MSM.groundGeom numberToString (MSM.threeGroundY sm)))
       (parseFromString xmlContent) = Some doc' ->
     parseFromString (serializeToString doc') = doc') ->
  MSM.addGroundPlane parseFromString serializeToString numberToString sm'
    (MSM.addGroundPlane parseFromString serializeToString numberToString sm xmlContent)
  = MSM.addGroundPlane parseFromString serializeToString numberToString sm xmlContent.
Proof.
  intros Hround.
  unfold MSM.addGroundPlane at 2 3.
  set (doc := parseFromString xmlContent) in *.
  set (ground := MSM.groundGeom numberToString (MSM.threeGroundY sm)) in *.
  destruct (Dom.querySelectorDoc MSM.worldbodySelector doc) as [wb|] eqn:Hwb.
  - destruct (Dom.querySelector MSM.planeSelector wb) as [plane|] eqn:Hplane.
    + unfold MSM.addGroundPlane. fold doc. now rewrite Hwb, Hplane.
    + pose proof (findFirst_satisfies _ _ _ Hwb) as Hp.
      destruct (matches_worldbody_is_element wb Hp) as (attrs & children & ->).
      assert (Hshallow : forall t a cs cs',
        Dom.matches MSM.worldbodySelector (Dom.Element t a cs) =
        Dom.matches MSM.worldbodySelector (Dom.Element t a cs')) by reflexivity.
      assert (Hafter : forall x,
        Dom.matches MSM.worldbodySelector x = true ->
        Dom.matches MSM.worldbodySelector (MSM.insertGround ground x) = true).
      { intros x Hx. destruct (matches_worldbody_is_element x Hx) as (a & cs & ->).
        now rewrite insertGround_children. }
      destruct (updateFirst_agrees_all _ (MSM.insertGround ground) "geom"
                  Hshallow Hafter doc) as [_ Hsome].
      destruct (Hsome _ Hwb) as (doc' & Hu & Hfirst & _).
      rewrite Hu. unfold MSM.addGroundPlane. rewrite (Hround doc' Hu).
      unfold Dom.querySelectorDoc. rewrite Hfirst, insertGround_children.
      unfold Dom.querySelector. cbn [Dom.childNodesOf Dom.findFirstIn].
      rewrite (findFirst_hit _ ground (groundGeom_is_plane numberToString _)).
      reflexivity.
  - unfold MSM.addGroundPlane. fold doc. now rewrite Hwb.
Qed.

(** A parser and a serializer for two documents: the sphere without a
    plane (the text [sphere]) and with one (the text [sphere+ground]). *)
Definition sphereWithGround : Dom.node :=
  Dom.Element "mujoco" []
    [ Dom.Element "worldbody" []
        [ MSM.groundGeom (fun _ => "0") 0%float;
          Dom.Element "body" [("name", "ball")]
            [ Dom.Element "geom" [("type", "sphere"); ("size", "0.1")] [] ] ] ].

Definition parseTwo (text : string) : Dom.node :=
  if String.eqb text "sphere+ground" then sphereWithGround else sphereDocument.

Definition serializeTwo (doc : Dom.node) : string :=
  match Dom.querySelectorDoc MSM.planeSelector doc with
  | Some _ => "sphere+ground"
  | None => "sphere"
  end.

Lemma addGroundPlane_is_idempotent_witness :
  (forall doc',
     Dom.updateFirst (Dom.matches MSM.worldbodySelector)
       (MSM.insertGround (MSM.groundGeom (fun _ => "0") (MSM.threeGroundY emptyScene)))
       (parseTwo "sphere") = Some doc' ->
     parseTwo (serializeTwo doc') = doc') /\
  MSM.addGroundPlane parseTwo serializeTwo (fun _ => "0") emptyScene "sphere"
  = "sphere+ground" /\
  MSM.addGroundPlane parseTwo serializeTwo (fun _ => "0") emptyScene
    (MSM.addGroundPlane parseTwo serializeTwo (fun _ => "0") emptyScene "sphere")
  = MSM.addGroundPlane parseTwo serializeTwo (fun _ => "0") emptyScene "sphere".
Proof.
  assert (H : forall doc',
     Dom.updateFirst (Dom.matches MSM.worldbodySelector)
       (MSM.insertGround (MSM.groundGeom (fun _ => "0") (MSM.threeGroundY emptyScene)))
       (parseTwo "sphere") = Some doc' ->
     parseTwo (serializeTwo doc') = doc').
  { intros doc' Hd. vm_compute in Hd. injection Hd as <-. reflexivity. }
  split; [exact H|]. split; [reflexivity|].
  exact (addGroundPlane_is_idempotent parseTwo serializeTwo (fun _ => "0")
           emptyScene emptyScene "sphere" H).
Defined.

(** ** File types and clicks (FileHandler.ts) *)

Module FileHandler.
Import JsString.

(** [filename.split('.').pop().toLowerCase()].  The names it is compared
    with are plain ASCII without a [k], the one ASCII letter that a
    character outside ASCII lower-cases to, so lower-casing the ASCII
    letters decides the same comparisons. *)
Definition extension (filename : string) : string :=
  toLowerCase (pop (split "." filename)).

(** [list.includes(x)] on strings. *)
Definition includes (l : list string) (x : string) : bool :=
  existsb (String.eqb x) l.

(** [detectFileType(filename)] *)
Definition detectFileType (filename : string) : string :=
  let ext := extension filename in
  if includes ["urdf"; "xacro"] ext then "urdf"
  else if includes ["mjcf"; "xml"] ext then "mjcf"
  else if includes ["usd"; "usda"; "usdc"; "usdz"] ext then "usd"
  else if includes ["obj"; "stl"; "dae"; "gltf"; "glb"] ext then "mesh"
  else "unknown".

(** What a click on an entry of the file tree starts. *)
Inductive ClickAction : Type :=
| LoadFile            (* [fileHandler.loadFile(fileInfo.file)] *)
| LoadMeshAsModel     (* [fileHandler.loadMeshAsModel(fileInfo.file, fileInfo.name)] *)
| NoAction.

(** [handleFileClick(fileInfo)], by [fileInfo.ext]. *)
Definition handleFileClick (ext : string) : ClickAction :=
  if includes ["urdf"; "xacro"; "xml"; "usd"; "usda"; "usdc"; "usdz"] ext then LoadFile
  else if includes ["dae"; "stl"; "obj"; "collada"] ext then LoadMeshAsModel
  else NoAction.

(** An entry of the file tree as [handleVSCodeFile] and the editor's
    save-as callback build it. *)
Record FileInfo : Type := mkFileInfo { name : string; type : string; ext : string }.

Definition fileInfoOf (filename : string) : FileInfo :=
  mkFileInfo filename (detectFileType filename) (extension filename).

End FileHandler.

Ltac ext_cases e :=
  repeat match goal with
         | |- context [String.eqb e ?s] =>
             destruct (String.eqb_spec e s) as [->|?]; cbn
         end.

(** X20: the file type shown for an entry and what a click on it does are
    decided by two different tables.  A click loads a model only for an
    entry typed [urdf], [mjcf] or [usd], and does so for every [urdf] and
    [usd] entry; but an [mjcf] entry is loaded only if its extension is
    [xml] (a click on a [.mjcf] file does nothing), a [mesh] entry with
    extension [gltf] or [glb] is not loaded either, and an entry with
    extension [collada] is loaded as a mesh although its type is
    [unknown]. *)
Theorem click_follows_the_type_except_for_four_extensions (filename : string) :
  let info := FileHandler.fileInfoOf filename in
  let click := FileHandler.handleFileClick (FileHandler.ext info) in
  (click = FileHandler.LoadFile <->
     FileHandler.type info = "urdf" \/ FileHandler.type info = "usd" \/
     FileHandler.ext info = "xml") /\
  (FileHandler.type info = "mjcf" <->
     FileHandler.ext info = "xml" \/ FileHandler.ext info = "mjcf") /\
  (click = FileHandler.LoadMeshAsModel <->
     (FileHandler.type info = "mesh" /\ FileHandler.ext info <> "gltf" /\
      FileHandler.ext info <> "glb") \/
     FileHandler.ext info = "collada") /\
  (FileHandler.ext info = "collada" -> FileHandler.type info = "unknown") /\
  (FileHandler.ext info = "mjcf" -> click = FileHandler.NoAction).
Proof.
  cbv zeta. unfold FileHandler.fileInfoOf. cbn [FileHandler.ext FileHandler.type].
  unfold FileHandler.detectFileType. cbv zeta.
  generalize (FileHandler.extension filename). intros e.
  unfold FileHandler.handleFileClick, FileHandler.includes. cbn [existsb].
  ext_cases e;
    repeat split; intros; try discriminate; try congruence;
    repeat match goal with
           | H : _ \/ _ |- _ => destruct H
           | H : _ /\ _ |- _ => destruct H
           end;
    try discriminate; try congruence; auto 6.
Qed.

(** ** Simulation controls of a loaded model (ModelHandler.ts) *)

Module ModelHandler.

(** [isMJCF(file, model)]; [userDataType] is [model?.userData?.type]. *)
Definition isMJCF (file : File.t) (userDataType : option string) : bool :=
  String.eqb (FileHandler.extension (File.name file)) "xml" &&
  match userDataType with
  | Some t => String.eqb t "mjcf"
  | None => false
  end.

(** [setupMJCFSimulationControls(file, model)], as far as the application
    state goes (the rest shows or hides the simulation bar). *)
Definition setupMJCFSimulationControls (file : File.t) (model : UnifiedRobotModel.t)
    (userDataType : option string) (st : AppState.t) : AppState.t :=
  if isMJCF file userDataType
     && (0 <? JsMap.size (UnifiedRobotModel.joints model))%nat
  then AppState.mk (AppState.currentModel st) (Some file) (Some model) (AppState.angleUnit st)
  else AppState.mk (AppState.currentModel st) None None (AppState.angleUnit st).

End ModelHandler.

(** X21: after [setupMJCFSimulationControls] the application holds an MJCF
    file and an MJCF model together or neither, and it holds them exactly
    when the file's extension is [xml], the model is marked [mjcf] and has
    at least one joint.  In every other case (a [.mjcf] file, a model
    without joints) a later call of the toggle handler never loads a
    physics scene: it only toggles. *)
Theorem setupMJCFSimulationControls_sets_both_or_neither
    (file : File.t) (model : UnifiedRobotModel.t) (userDataType : option string)
    (st : AppState.t) :
  let st' := ModelHandler.setupMJCFSimulationControls file model userDataType st in
  let simulable :=
    FileHandler.extension (File.name file) = "xml" /\ userDataType = Some "mjcf" /\
    0 < JsMap.size (UnifiedRobotModel.joints model) in
  AppState.currentModel st' = AppState.currentModel st /\
  (simulable ->
     AppState.currentMJCFFile st' = Some file /\ AppState.currentMJCFModel st' = Some model) /\
  (~ simulable ->
     AppState.currentMJCFFile st' = None /\ AppState.currentMJCFModel st' = None /\
     forall mj_reset simulation_reset parseFromString serializeToString numberToString
            o w fileMap,
       SimulationHandler.handleMujocoToggleSimulate mj_reset simulation_reset
         parseFromString serializeToString numberToString o
         (SimulationHandler.mkApp w st' fileMap)
       = Some (fst (MSM.toggleSimulation w),
               SimulationHandler.mkApp
                 (SimulationHandler.setStaticVisible
                    (negb (fst (MSM.toggleSimulation w))) st'
                    (snd (MSM.toggleSimulation w)))
                 st' fileMap)).
Proof.
  cbv zeta. unfold ModelHandler.setupMJCFSimulationControls, ModelHandler.isMJCF.
  destruct (String.eqb_spec (FileHandler.extension (File.name file)) "xml") as [Hx|Hx];
    cbn [andb].
  - destruct userDataType as [t|]; cbn [andb].
    + destruct (String.eqb_spec t "mjcf") as [->|Ht]; cbn [andb].
      * destruct (Nat.ltb_spec 0 (JsMap.size (UnifiedRobotModel.joints model))) as [Hj|Hj].
        -- split; [reflexivity|]. split; [auto|]. intros Hn. elim Hn. auto.
        -- split; [reflexivity|]. split; [intros (_ & _ & H); lia|].
           intros _. split; [reflexivity|]. split; [reflexivity|]. intros.
           unfold SimulationHandler.handleMujocoToggleSimulate. cbn.
           destruct (negb (MSM.hasScene w)), (MSM.toggleSimulation w); reflexivity.
      * split; [reflexivity|]. split; [intros (_ & H & _); congruence|].
        intros _. split; [reflexivity|]. split; [reflexivity|]. intros.
        unfold SimulationHandler.handleMujocoToggleSimulate. cbn.
        destruct (negb (MSM.hasScene w)), (MSM.toggleSimulation w); reflexivity.
    + split; [reflexivity|]. split; [intros (_ & H & _); discriminate|].
      intros _. split; [reflexivity|]. split; [reflexivity|]. intros.
      unfold SimulationHandler.handleMujocoToggleSimulate. cbn.
      destruct (negb (MSM.hasScene w)), (MSM.toggleSimulation w); reflexivity.
  - split; [reflexivity|]. split; [intros (H & _); contradiction|].
    intros _. split; [reflexivity|]. split; [reflexivity|]. intros.
    unfold SimulationHandler.handleMujocoToggleSimulate. cbn.
    destruct (negb (MSM.hasScene w)), (MSM.toggleSimulation w); reflexivity.
Qed.

(** ** Transparency of the visual meshes (VisualizationManager.js) *)

Module VisualizationManager.

(** A render material, as far as [setMeshTransparency] reads and writes
    it; [None] is [undefined]. *)
Record MaterialT : Type := mkMaterial {
  opacity : option float;
  transparent : option bool;
  needsUpdate : bool;
  originalOpacity : option float;          (* [userData.originalOpacity] *)
  originalTransparent : option bool        (* [userData.originalTransparent] *)
}.

(** The body of [materials.forEach] in [setMeshTransparency]. *)
Definition setMaterialTransparency (shouldBeTransparent : bool) (m : MaterialT)
    : MaterialT :=
  let m1 :=
    match originalOpacity m with
    | None =>
        mkMaterial (opacity m) (transparent m) (needsUpdate m)
          (Some (match opacity m with Some o => o | None => 1%float end))
          (Some (match transparent m with Some b => b | None => false end))
    | Some _ => m
    end in
  if shouldBeTransparent then
    mkMaterial (Some 0.5%float) (Some true) true
      (originalOpacity m1) (originalTransparent m1)
  else
    match originalOpacity m1 with
    | Some o =>
        mkMaterial (Some o) (originalTransparent m1) true
          (originalOpacity m1) (originalTransparent m1)
    | None => m1
    end.

(** The calls a material sees over time, one flag per call. *)
Definition afterCalls (flags : list bool) (m : MaterialT) : MaterialT :=
  fold_left (fun m b => setMaterialTransparency b m) flags m.

End VisualizationManager.

Lemma afterCalls_saved (flags : list bool) (m : VisualizationManager.MaterialT) o t :
  VisualizationManager.originalOpacity m = Some o ->
  VisualizationManager.originalTransparent m = t ->
  VisualizationManager.originalOpacity (VisualizationManager.afterCalls flags m) = Some o /\
  VisualizationManager.originalTransparent (VisualizationManager.afterCalls flags m) = t.
Proof.
  revert m. induction flags as [|b flags IH]; intros m Ho Ht; [auto|].
  unfold VisualizationManager.afterCalls. simpl fold_left. apply IH.
  - unfold VisualizationManager.setMaterialTransparency. rewrite Ho.
    destruct b; simpl; rewrite ?Ho; simpl; congruence.
  - unfold VisualizationManager.setMaterialTransparency. rewrite Ho.
    destruct b; simpl; rewrite ?Ho; simpl; congruence.
Qed.

(** X22: a material whose original look has not been saved yet keeps that
    look on record through any sequence of transparency calls: whatever
    was called before, a call with [false] gives it back the opacity and
    the transparency flag it had before the first call (1 and [false]
    where they were undefined), and a call with [true] makes it
    half-transparent. *)
Theorem setMeshTransparency_restores_the_first_look
    (m0 : VisualizationManager.MaterialT) (flags : list bool) :
  VisualizationManager.originalOpacity m0 = None ->
  let m := VisualizationManager.afterCalls flags m0 in
  let restored := VisualizationManager.setMaterialTransparency false m in
  let dimmed := VisualizationManager.setMaterialTransparency true m in
  VisualizationManager.opacity restored
    = Some (match VisualizationManager.opacity m0 with Some o => o | None => 1%float end) /\
  VisualizationManager.transparent restored
    = Some (match VisualizationManager.transparent m0 with Some b => b | None => false end) /\
  VisualizationManager.opacity dimmed = Some 0.5%float /\
  VisualizationManager.transparent dimmed = Some true.
Proof.
  intros Hfresh. cbv zeta.
  set (o := match VisualizationManager.opacity m0 with Some o => o | None => 1%float end).
  set (t := match VisualizationManager.transparent m0 with Some b => b | None => false end).
  assert (Hsaved : forall b,
    VisualizationManager.originalOpacity
      (VisualizationManager.setMaterialTransparency b
         (VisualizationManager.afterCalls flags m0)) = Some o /\
    VisualizationManager.originalTransparent
      (VisualizationManager.setMaterialTransparency b
         (VisualizationManager.afterCalls flags m0)) = Some t).
  { intros b.
    change (VisualizationManager.setMaterialTransparency b
              (VisualizationManager.afterCalls flags m0))
      with (VisualizationManager.afterCalls [b] (VisualizationManager.afterCalls flags m0)).
    unfold VisualizationManager.afterCalls. rewrite <- fold_left_app.
    destruct (flags ++ [b]) as [|b0 rest] eqn:E; [destruct flags; discriminate|].
    simpl fold_left.
    apply (afterCalls_saved rest);
      unfold VisualizationManager.setMaterialTransparency; rewrite Hfresh;
      destruct b0; reflexivity. }
  destruct (Hsaved false) as [Ho Ht].
  split; [|split; [|split; reflexivity]].
  - revert Ho Ht. unfold VisualizationManager.setMaterialTransparency.
    destruct (VisualizationManager.originalOpacity (VisualizationManager.afterCalls flags m0))
      eqn:E; simpl; rewrite ?E; simpl; intros; congruence.
  - revert Ho Ht. unfold VisualizationManager.setMaterialTransparency.
    destruct (VisualizationManager.originalOpacity (VisualizationManager.afterCalls flags m0))
      eqn:E; simpl; rewrite ?E; simpl; intros; congruence.
Qed.

Lemma setMeshTransparency_restores_the_first_look_witness :
  let m0 := VisualizationManager.mkMaterial (Some 0.8%float) None false None None in
  VisualizationManager.originalOpacity m0 = None /\
  VisualizationManager.opacity
    (VisualizationManager.setMaterialTransparency false
       (VisualizationManager.afterCalls [true; true; false; true] m0)) = Some 0.8%float /\
  VisualizationManager.transparent
    (VisualizationManager.setMaterialTransparency false
       (VisualizationManager.afterCalls [true; true; false; true] m0)) = Some false /\
  VisualizationManager.opacity
    (VisualizationManager.setMaterialTransparency true
       (VisualizationManager.afterCalls [true; true; false; true] m0)) = Some 0.5%float /\
  VisualizationManager.transparent
    (VisualizationManager.setMaterialTransparency true
       (VisualizationManager.afterCalls [true; true; false; true] m0)) = Some true.
Proof.
  cbv zeta. split; [reflexivity|].
  apply (setMeshTransparency_restores_the_first_look
           (VisualizationManager.mkMaterial (Some 0.8%float) None false None None)
           [true; true; false; true]).
  reflexivity.
Defined.

(** ** Showing and hiding one link (VisualizationManager.js) *)

Module LinkVisibility.

(** What [setLinkVisibility] reads of a scene object. *)
Record ObjInfo : Type := mkObjInfo {
  type : string;
  name : string;
  isURDFLink : bool;
  isURDFJoint : bool;
  isMesh : bool;
  isURDFCollider : bool;
  isCollision : bool;        (* [userData.isCollision] *)
  isInertiaBox : bool;       (* [userData.isInertiaBox] *)
  isCOMMarker : bool;        (* [userData.isCOMMarker] *)
  isCenterOfMass : bool      (* [userData.isCenterOfMass] *)
}.

(** A scene object with its subtree. *)
#[warnings="-register-all"]
Inductive object3d : Type :=
| Node (info : ObjInfo) (visible : bool) (children : list object3d).

Section ObjectInd.
Variable P : object3d -> Prop.
Hypothesis HNode : forall i v cs, Forall P cs -> P (Node i v cs).

Fixpoint object3d_ind' (o : object3d) : P o :=
  match o with
  | Node i v cs =>
      HNode i v cs
        ((fix children (l : list object3d) : Forall P l :=
            match l with
            | [] => @List.Forall_nil _ P
            | c :: r => @List.Forall_cons _ P c r (object3d_ind' c) (children r)
            end) cs)
  end.
End ObjectInd.

(** [isAuxiliaryVisualization(obj)] *)
Definition isAuxiliaryVisualization (i : ObjInfo) : bool :=
  isInertiaBox i || isCOMMarker i || isCollision i.

Section SetLinkVisibility.
Variable currentModel : option UnifiedRobotModel.t.
Variable showVisual : bool.       (* [this.showVisual] *)
Variable visible : bool.

(** "Check if it's a fixed joint" *)
Definition isFixed (jointName : string) : bool :=
  JsString.truthy jointName &&
  match currentModel with
  | Some model =>
      match JsMap.get jointName (UnifiedRobotModel.joints model) with
      | Some joint => String.eqb (Joint.type joint) "fixed"
      | None => false
      end
  | None => false
  end.

(** [traverseNonRecursive(obj, isRoot)]: the object afterwards. *)
Fixpoint traverseNonRecursive (isRoot : bool) (obj : object3d) : object3d :=
  match obj with
  | Node i v cs =>
      if negb isRoot && (String.eqb (type i) "URDFLink" || isURDFLink i) then obj
      else if isURDFJoint i || String.eqb (type i) "URDFJoint" then
        if isFixed (name i)
        then Node i v (List.map (traverseNonRecursive false) cs)
        else obj
      else if isAuxiliaryVisualization i || isCenterOfMass i || isInertiaBox i then obj
      else if JsString.truthy (name i) && JsString.endsWith (name i) "_axes" then obj
      else if String.eqb (type i) "Mesh" || isMesh i then
        if isURDFCollider i || isCollision i then obj
        else Node i (visible && showVisual) (List.map (traverseNonRecursive false) cs)
      else Node i v (List.map (traverseNonRecursive false) cs)
  end.

(** [setLinkVisibility(linkObject, visible, currentModel)] *)
Definition setLinkVisibility (linkObject : object3d) : object3d :=
  traverseNonRecursive true linkObject.

(** The [visible] flags of the objects that a call of
    [traverseNonRecursive(obj, isRoot)] gets to the assignment
    [obj.visible = ...] with, in the order of the calls: the same tests in
    the same order, the flag read where the traversal writes it. *)
Fixpoint writtenFlags (isRoot : bool) (obj : object3d) : list bool :=
  match obj with
  | Node i v cs =>
      if negb isRoot && (String.eqb (type i) "URDFLink" || isURDFLink i) then []
      else if isURDFJoint i || String.eqb (type i) "URDFJoint" then
        if isFixed (name i)
        then List.concat (List.map (writtenFlags false) cs)
        else []
      else if isAuxiliaryVisualization i || isCenterOfMass i || isInertiaBox i then []
      else if JsString.truthy (name i) && JsString.endsWith (name i) "_axes" then []
      else if String.eqb (type i) "Mesh" || isMesh i then
        if isURDFCollider i || isCollision i then []
        else v :: List.concat (List.map (writtenFlags false) cs)
      else List.concat (List.map (writtenFlags false) cs)
  end.

End SetLinkVisibility.

(** A mesh that is not a collider. *)
Definition visualMesh (i : ObjInfo) : bool :=
  (String.eqb (type i) "Mesh" || isMesh i) && negb (isURDFCollider i || isCollision i).

(** The tree with the [visible] flag of every visual mesh blanked. *)
Fixpoint maskVisualMeshes (obj : object3d) : object3d :=
  match obj with
  | Node i v cs =>
      Node i (if visualMesh i then false else v) (List.map maskVisualMeshes cs)
  end.

End LinkVisibility.

Lemma map_ext_Forall {A B} (f g : A -> B) (l : list A) :
  Forall (fun x => f x = g x) l -> List.map f l = List.map g l.
Proof. induction 1 as [|x l Hx _ IH]; simpl; [reflexivity|]. now rewrite Hx, IH. Qed.

Lemma traverse_masked model showVisual visible (obj : LinkVisibility.object3d) :
  forall isRoot,
    LinkVisibility.maskVisualMeshes
      (LinkVisibility.traverseNonRecursive model showVisual visible isRoot obj)
    = LinkVisibility.maskVisualMeshes obj.
Proof.
  induction obj as [i v cs IH] using LinkVisibility.object3d_ind'. intros isRoot.
  assert (Hcs : List.map LinkVisibility.maskVisualMeshes
                  (List.map (LinkVisibility.traverseNonRecursive model showVisual visible false) cs)
                = List.map LinkVisibility.maskVisualMeshes cs).
  { rewrite List.map_map. apply map_ext_Forall.
    induction IH as [|c r Hc _ IHr]; constructor; auto. }
  cbn [LinkVisibility.traverseNonRecursive].
  destruct (negb isRoot && _); [reflexivity|].
  destruct (LinkVisibility.isURDFJoint i || _).
  { destruct (LinkVisibility.isFixed model (LinkVisibility.name i)); [|reflexivity].
    cbn [LinkVisibility.maskVisualMeshes]. now rewrite Hcs. }
  destruct (LinkVisibility.isAuxiliaryVisualization i || _ || _); [reflexivity|].
  destruct (JsString.truthy (LinkVisibility.name i) && _); [reflexivity|].
  destruct (String.eqb (LinkVisibility.type i) "Mesh" || LinkVisibility.isMesh i) eqn:Emesh.
  - destruct (LinkVisibility.isURDFCollider i || LinkVisibility.isCollision i) eqn:Ecol;
      [reflexivity|].
    cbn [LinkVisibility.maskVisualMeshes]. unfold LinkVisibility.visualMesh.
    rewrite Emesh, Ecol, Hcs. reflexivity.
  - cbn [LinkVisibility.maskVisualMeshes]. now rewrite Hcs.
Qed.

Lemma traverse_last_wins model sv1 v1 sv2 v2 (obj : LinkVisibility.object3d) :
  forall isRoot,
    LinkVisibility.traverseNonRecursive model sv2 v2 isRoot
      (LinkVisibility.traverseNonRecursive model sv1 v1 isRoot obj)
    = LinkVisibility.traverseNonRecursive model sv2 v2 isRoot obj.
Proof.
  induction obj as [i v cs IH] using LinkVisibility.object3d_ind'. intros isRoot.
  assert (Hcs : List.map (LinkVisibility.traverseNonRecursive model sv2 v2 false)
                  (List.map (LinkVisibility.traverseNonRecursive model sv1 v1 false) cs)
                = List.map (LinkVisibility.traverseNonRecursive model sv2 v2 false) cs).
  { rewrite List.map_map. apply map_ext_Forall.
    induction IH as [|c r Hc _ IHr]; constructor; auto. }
  cbn [LinkVisibility.traverseNonRecursive].
  destruct (negb isRoot && _) eqn:E1;
    [cbn [LinkVisibility.traverseNonRecursive]; now rewrite E1|].
  destruct (LinkVisibility.isURDFJoint i || _) eqn:E2.
  { destruct (LinkVisibility.isFixed model (LinkVisibility.name i)) eqn:E3;
      cbn [LinkVisibility.traverseNonRecursive]; rewrite E1, E2, E3, ?Hcs; reflexivity. }
  destruct (LinkVisibility.isAuxiliaryVisualization i || _ || _) eqn:E4;
    [cbn [LinkVisibility.traverseNonRecursive]; now rewrite E1, E2, E4|].
  destruct (JsString.truthy (LinkVisibility.name i) && _) eqn:E5;
    [cbn [LinkVisibility.traverseNonRecursive]; now rewrite E1, E2, E4, E5|].
  destruct (String.eqb (LinkVisibility.type i) "Mesh" || LinkVisibility.isMesh i) eqn:E6.
  - destruct (LinkVisibility.isURDFCollider i || LinkVisibility.isCollision i) eqn:E7;
      cbn [LinkVisibility.traverseNonRecursive]; rewrite E1, E2, E4, E5, E6, E7, ?Hcs;
      reflexivity.
  - cbn [LinkVisibility.traverseNonRecursive]. now rewrite E1, E2, E4, E5, E6, Hcs.
Qed.

Lemma traverse_visuals_off model v1 v2 (obj : LinkVisibility.object3d) :
  forall isRoot,
    LinkVisibility.traverseNonRecursive model false v1 isRoot obj
    = LinkVisibility.traverseNonRecursive model false v2 isRoot obj.
Proof.
  induction obj as [i v cs IH] using LinkVisibility.object3d_ind'. intros isRoot.
  assert (Hcs : List.map (LinkVisibility.traverseNonRecursive model false v1 false) cs
                = List.map (LinkVisibility.traverseNonRecursive model false v2 false) cs).
  { apply map_ext_Forall. induction IH as [|c r Hc _ IHr]; constructor; auto. }
  cbn [LinkVisibility.traverseNonRecursive]. rewrite Hcs, !andb_false_r. reflexivity.
Qed.

Lemma concat_map_ext_Forall {A B} (f g : A -> list B) (l : list A) :
  Forall (fun x => f x = g x) l ->
  List.concat (List.map f l) = List.concat (List.map g l).
Proof. intros H. now rewrite (map_ext_Forall f g l H). Qed.

Lemma concat_map_const {A B} (b : B) (f : A -> list B) (l : list A) :
  List.concat (List.map (fun x => List.map (fun _ => b) (f x)) l)
  = List.map (fun _ => b) (List.concat (List.map f l)).
Proof.
  induction l as [|x l IH]; simpl; [reflexivity|].
  now rewrite IH, List.map_app.
Qed.

(** Every flag the traversal gets to is [visible && showVisual]
    afterwards, and a second traversal gets to the same objects. *)
Lemma traverse_writes model showVisual visible (obj : LinkVisibility.object3d) :
  forall isRoot,
    LinkVisibility.writtenFlags model isRoot
      (LinkVisibility.traverseNonRecursive model showVisual visible isRoot obj)
    = List.map (fun _ => visible && showVisual)
        (LinkVisibility.writtenFlags model isRoot obj).
Proof.
  induction obj as [i v cs IH] using LinkVisibility.object3d_ind'. intros isRoot.
  assert (Hcs : List.concat (List.map (LinkVisibility.writtenFlags model false)
                  (List.map (LinkVisibility.traverseNonRecursive model showVisual visible false)
                     cs))
                = List.map (fun _ => visible && showVisual)
                    (List.concat (List.map (LinkVisibility.writtenFlags model false) cs))).
  { rewrite List.map_map, <- concat_map_const. apply concat_map_ext_Forall.
    induction IH as [|c r Hc _ IHr]; constructor; auto. }
  cbn [LinkVisibility.traverseNonRecursive LinkVisibility.writtenFlags].
  destruct (negb isRoot && _) eqn:E1;
    [cbn [LinkVisibility.writtenFlags]; now rewrite E1|].
  destruct (LinkVisibility.isURDFJoint i || _) eqn:E2.
  { destruct (LinkVisibility.isFixed model (LinkVisibility.name i)) eqn:E3;
      cbn [LinkVisibility.writtenFlags]; rewrite E1, E2, E3, ?Hcs; reflexivity. }
  destruct (LinkVisibility.isAuxiliaryVisualization i || _ || _) eqn:E4;
    [cbn [LinkVisibility.writtenFlags]; now rewrite E1, E2, E4|].
  destruct (JsString.truthy (LinkVisibility.name i) && _) eqn:E5;
    [cbn [LinkVisibility.writtenFlags]; now rewrite E1, E2, E4, E5|].
  destruct (String.eqb (LinkVisibility.type i) "Mesh" || LinkVisibility.isMesh i) eqn:E6.
  - destruct (LinkVisibility.isURDFCollider i || LinkVisibility.isCollision i) eqn:E7;
      cbn [LinkVisibility.writtenFlags]; rewrite E1, E2, E4, E5, E6, E7, ?Hcs;
      reflexivity.
  - cbn [LinkVisibility.writtenFlags]. now rewrite E1, E2, E4, E5, E6, Hcs.
Qed.

(** A visual mesh that none of the earlier tests of the traversal stops
    at: not a link, not a joint, not an auxiliary object, not a set of
    axes. *)
Definition plainVisualMesh (i : LinkVisibility.ObjInfo) : bool :=
  LinkVisibility.visualMesh i &&
  negb (String.eqb (LinkVisibility.type i) "URDFLink" || LinkVisibility.isURDFLink i) &&
  negb (LinkVisibility.isURDFJoint i || String.eqb (LinkVisibility.type i) "URDFJoint") &&
  negb (LinkVisibility.isAuxiliaryVisualization i || LinkVisibility.isCenterOfMass i
        || LinkVisibility.isInertiaBox i) &&
  negb (JsString.truthy (LinkVisibility.name i)
        && JsString.endsWith (LinkVisibility.name i) "_axes").

(** An object the traversal passes through when it starts there: not a
    joint, not an auxiliary object, not a set of axes, not a mesh. *)
Definition plainRoot (i : LinkVisibility.ObjInfo) : bool :=
  negb (LinkVisibility.isURDFJoint i || String.eqb (LinkVisibility.type i) "URDFJoint") &&
  negb (LinkVisibility.isAuxiliaryVisualization i || LinkVisibility.isCenterOfMass i
        || LinkVisibility.isInertiaBox i) &&
  negb (JsString.truthy (LinkVisibility.name i)
        && JsString.endsWith (LinkVisibility.name i) "_axes") &&
  negb (String.eqb (LinkVisibility.type i) "Mesh" || LinkVisibility.isMesh i).

Lemma traverse_plain_mesh model showVisual visible isRoot i v cs :
  plainVisualMesh i = true ->
  LinkVisibility.traverseNonRecursive model showVisual visible isRoot
    (LinkVisibility.Node i v cs)
  = LinkVisibility.Node i (visible && showVisual)
      (List.map (LinkVisibility.traverseNonRecursive model showVisual visible false) cs).
Proof.
  unfold plainVisualMesh, LinkVisibility.visualMesh. intros H.
  apply andb_prop in H as [H Haxes]. apply andb_prop in H as [H Haux].
  apply andb_prop in H as [H Hjoint]. apply andb_prop in H as [H Hlink].
  apply andb_prop in H as [Hmesh Hcol].
  apply negb_true_iff in Haxes, Haux, Hjoint, Hlink, Hcol.
  cbn [LinkVisibility.traverseNonRecursive].
  rewrite Hlink, andb_false_r, Hjoint, Haux, Haxes, Hmesh, Hcol. reflexivity.
Qed.

Lemma traverse_plain_root model showVisual visible i v cs :
  plainRoot i = true ->
  LinkVisibility.traverseNonRecursive model showVisual visible true
    (LinkVisibility.Node i v cs)
  = LinkVisibility.Node i v
      (List.map (LinkVisibility.traverseNonRecursive model showVisual visible false) cs).
Proof.
  unfold plainRoot. intros H.
  apply andb_prop in H as [H Hmesh]. apply andb_prop in H as [H Haxes].
  apply andb_prop in H as [Hjoint Haux].
  apply negb_true_iff in Haxes, Haux, Hjoint, Hmesh.
  cbn [LinkVisibility.traverseNonRecursive].
  rewrite Hjoint, Haux, Haxes, Hmesh. reflexivity.
Qed.

(** X23: [setLinkVisibility] only ever writes the [visible] flag of meshes
    that are not colliders: apart from those flags the subtree of the link
    is what it was (objects and order included).  What it leaves behind
    depends on the last call only, and while the global visual display is
    off a call to show the link hides it just like a call to hide it.
    Every object the traversal gets to the assignment with has
    [visible = visible && showVisual] afterwards, so all of them are hidden
    while the global visual display is off, whatever [visible] is asked for.
    A visual mesh that no earlier test stops at is written wherever the
    traversal meets it, and from a link object that is a plain group the
    traversal goes on to every child. *)
Theorem setLinkVisibility_touches_visual_meshes_only
    (currentModel : option UnifiedRobotModel.t) (showVisual visible : bool)
    (linkObject : LinkVisibility.object3d) :
  LinkVisibility.maskVisualMeshes
    (LinkVisibility.setLinkVisibility currentModel showVisual visible linkObject)
  = LinkVisibility.maskVisualMeshes linkObject /\
  (forall showVisual' visible',
     LinkVisibility.setLinkVisibility currentModel showVisual' visible'
       (LinkVisibility.setLinkVisibility currentModel showVisual visible linkObject)
     = LinkVisibility.setLinkVisibility currentModel showVisual' visible' linkObject) /\
  LinkVisibility.setLinkVisibility currentModel false true linkObject
  = LinkVisibility.setLinkVisibility currentModel false false linkObject /\
  LinkVisibility.writtenFlags currentModel true
    (LinkVisibility.setLinkVisibility currentModel showVisual visible linkObject)
  = List.map (fun _ => visible && showVisual)
      (LinkVisibility.writtenFlags currentModel true linkObject) /\
  Forall (fun flag => flag = false)
    (LinkVisibility.writtenFlags currentModel true
       (LinkVisibility.setLinkVisibility currentModel false visible linkObject)) /\
  (forall isRoot i v cs,
     plainVisualMesh i = true ->
     LinkVisibility.traverseNonRecursive currentModel showVisual visible isRoot
       (LinkVisibility.Node i v cs)
     = LinkVisibility.Node i (visible && showVisual)
         (List.map (LinkVisibility.traverseNonRecursive currentModel showVisual visible false)
            cs)) /\
  (forall i v cs,
     plainRoot i = true ->
     LinkVisibility.setLinkVisibility currentModel showVisual visible
       (LinkVisibility.Node i v cs)
     = LinkVisibility.Node i v
         (List.map (LinkVisibility.traverseNonRecursive currentModel showVisual visible false)
            cs)).
Proof.
  unfold LinkVisibility.setLinkVisibility. split; [apply traverse_masked|].
  split; [intros; apply traverse_last_wins|].
  split; [apply traverse_visuals_off|].
  split; [apply traverse_writes|].
  split.
  { rewrite traverse_writes, andb_false_r.
    induction (LinkVisibility.writtenFlags currentModel true linkObject);
      simpl; constructor; auto. }
  split; [intros isRoot i v cs Hi; now apply traverse_plain_mesh|].
  intros i v cs Hi. now apply traverse_plain_root.
Qed.

(** A link as the URDF loader builds it: a visual with its mesh, a collider
    with its mesh, the frame axes, and a fixed joint to a child link that
    has a mesh of its own. *)
Definition plainInfo (type name : string) : LinkVisibility.ObjInfo :=
  LinkVisibility.mkObjInfo type name false false false false false false false false.

Definition meshInfo (name : string) (collider : bool) : LinkVisibility.ObjInfo :=
  LinkVisibility.mkObjInfo "Mesh" name false false true collider false false false false.

Definition forearmObject : LinkVisibility.object3d :=
  LinkVisibility.Node
    (LinkVisibility.mkObjInfo "URDFLink" "forearm" true false false false false false false
       false) true
    [ LinkVisibility.Node (plainInfo "URDFVisual" "")
        true [ LinkVisibility.Node (meshInfo "shell" false) true [] ];
      LinkVisibility.Node
        (LinkVisibility.mkObjInfo "URDFCollider" "" false false false true false false false
           false)
        false [ LinkVisibility.Node (meshInfo "hull" true) false [] ];
      LinkVisibility.Node (plainInfo "Group" "forearm_axes")
        true [ LinkVisibility.Node (meshInfo "arrow" false) true [] ];
      LinkVisibility.Node
        (LinkVisibility.mkObjInfo "URDFJoint" "elbow" false true false false false false false
           false) true
        [ LinkVisibility.Node
            (LinkVisibility.mkObjInfo "URDFLink" "hand" true false false false false false
               false false) true
            [ LinkVisibility.Node (meshInfo "palm" false) true [] ] ] ].

Lemma setLinkVisibility_touches_visual_meshes_only_witness :
  LinkVisibility.writtenFlags (Some armModel) true forearmObject = [true] /\
  LinkVisibility.writtenFlags (Some armModel) true
    (LinkVisibility.setLinkVisibility (Some armModel) true false forearmObject) = [false] /\
  LinkVisibility.setLinkVisibility (Some armModel) true false forearmObject
  <> forearmObject /\
  LinkVisibility.setLinkVisibility (Some armModel) true true
    (LinkVisibility.setLinkVisibility (Some armModel) true false forearmObject)
  = forearmObject.
Proof.
  destruct (setLinkVisibility_touches_visual_meshes_only (Some armModel) true false
              forearmObject) as (_ & Hlast & _ & Hflags & _).
  split; [reflexivity|].
  split; [rewrite Hflags; reflexivity|].
  split; [discriminate|].
  rewrite Hlast. reflexivity.
Defined.

(** ** The model summary (AppState.ts) *)

Module ModelSummary.

Record t : Type := mk {
  hasLinks : bool;
  hasJoints : bool;
  controllableJoints : nat;
  hasConstraints : bool;
  rootLink : option string
}.

(** [j.type !== 'fixed'] *)
Definition controllable (j : Joint.t) : bool := negb (String.eqb (Joint.type j) "fixed").

(** [Array.from(joints.values()).filter(j => j.type !== 'fixed').length] *)
Definition countControllable (joints : JsMap.t Joint.t) : nat :=
  length (List.filter controllable (List.map snd joints)).

(** [getModelSummary()]; [None] is [null].  The three mappings of a
    unified model are always there, so their guards do not show. *)
Definition getModelSummary (st : AppState.t) : option t :=
  match AppState.currentModel st with
  | None => None
  | Some model =>
      Some (mk (0 <? JsMap.size (UnifiedRobotModel.links model))%nat
               (0 <? JsMap.size (UnifiedRobotModel.joints model))%nat
               (countControllable (UnifiedRobotModel.joints model))
               (0 <? JsMap.size (UnifiedRobotModel.constraints model))%nat
               (match UnifiedRobotModel.rootLink model with
                | Some r => if JsString.truthy r then Some r else None
                | None => None
                end))
  end.

End ModelSummary.

Lemma countControllable_le (joints : JsMap.t Joint.t) :
  ModelSummary.countControllable joints <= JsMap.size joints.
Proof.
  unfold ModelSummary.countControllable, JsMap.size.
  induction joints as [|[k j] m IH]; simpl; [lia|].
  destruct (ModelSummary.controllable j); simpl; lia.
Qed.

Lemma countControllable_set (k : string) (j : Joint.t) (joints : JsMap.t Joint.t) :
  ModelSummary.countControllable (JsMap.set k j joints)
  + match JsMap.get k joints with
    | Some old => if ModelSummary.controllable old then 1 else 0
    | None => 0
    end
  = ModelSummary.countControllable joints
    + (if ModelSummary.controllable j then 1 else 0).
Proof.
  unfold ModelSummary.countControllable.
  induction joints as [|[k0 j0] m IH]; simpl.
  - destruct (ModelSummary.controllable j); simpl; lia.
  - destruct (String.eqb k0 k); simpl.
    + destruct (ModelSummary.controllable j), (ModelSummary.controllable j0); simpl; lia.
    + destruct (ModelSummary.controllable j0); simpl; lia.
Qed.

(** X24: the summary counts joints by name.  The number of controllable
    joints never exceeds the number of joints, and adding a joint moves it
    by what the joint contributes (one unless its type is [fixed]) minus
    what a joint of the same name, which the new one replaces, contributed
    before. *)
Theorem getModelSummary_counts_joints_by_name
    (st : AppState.t) (model : UnifiedRobotModel.t) (joint : Joint.t) :
  AppState.currentModel st = Some model ->
  exists before after,
    ModelSummary.getModelSummary st = Some before /\
    ModelSummary.getModelSummary
      (AppState.mk (Some (UnifiedRobotModel.addJoint joint model))
         (AppState.currentMJCFFile st) (AppState.currentMJCFModel st)
         (AppState.angleUnit st)) = Some after /\
    ModelSummary.controllableJoints before
      <= JsMap.size (UnifiedRobotModel.joints model) /\
    ModelSummary.hasJoints after = true /\
    ModelSummary.controllableJoints after
    + match UnifiedRobotModel.getJoint (Joint.name joint) model with
      | Some old => if ModelSummary.controllable old then 1 else 0
      | None => 0
      end
    = ModelSummary.controllableJoints before
      + (if ModelSummary.controllable joint then 1 else 0).
Proof.
  intros Hst. unfold ModelSummary.getModelSummary. rewrite Hst. cbn [AppState.currentModel].
  eexists. eexists. split; [reflexivity|]. split; [reflexivity|].
  cbn [ModelSummary.controllableJoints ModelSummary.hasJoints].
  split; [apply countControllable_le|]. split.
  - unfold UnifiedRobotModel.addJoint, UnifiedRobotModel.with_joints.
    cbn [UnifiedRobotModel.joints].
    assert (H : 0 < JsMap.size (JsMap.set (Joint.name joint) joint
                                  (UnifiedRobotModel.joints model))).
    { unfold JsMap.size. destruct (UnifiedRobotModel.joints model) as [|[k0 j0] m];
        simpl; [lia|]. destruct (String.eqb k0 (Joint.name joint)); simpl; lia. }
    now apply Nat.ltb_lt.
  - apply countControllable_set.
Qed.

Lemma getModelSummary_counts_joints_by_name_witness :
  let arm := UnifiedRobotModel.addJoint (sampleJoint "elbow") UnifiedRobotModel.new in
  let st := AppState.mk (Some arm) None None "rad" in
  AppState.currentModel st = Some arm /\
  exists before after,
    ModelSummary.getModelSummary st = Some before /\
    ModelSummary.getModelSummary
      (AppState.mk (Some (UnifiedRobotModel.addJoint (sampleJoint "elbow") arm))
         (AppState.currentMJCFFile st) (AppState.currentMJCFModel st)
         (AppState.angleUnit st)) = Some after /\
    ModelSummary.controllableJoints before
      <= JsMap.size (UnifiedRobotModel.joints arm) /\
    ModelSummary.hasJoints after = true /\
    ModelSummary.controllableJoints after
    + match UnifiedRobotModel.getJoint (Joint.name (sampleJoint "elbow")) arm with
      | Some old => if ModelSummary.controllable old then 1 else 0
      | None => 0
      end
    = ModelSummary.controllableJoints before
      + (if ModelSummary.controllable (sampleJoint "elbow") then 1 else 0).
Proof.
  cbv zeta. split; [reflexivity|].
  apply (getModelSummary_counts_joints_by_name
           (AppState.mk (Some (UnifiedRobotModel.addJoint (sampleJoint "elbow")
                                 UnifiedRobotModel.new)) None None "rad")
           (UnifiedRobotModel.addJoint (sampleJoint "elbow") UnifiedRobotModel.new)
           (sampleJoint "elbow")).
  reflexivity.
Defined.

(** ** A frame while paused *)

(** X25: while the bridge is paused, a frame takes no physics step and
    leaves the manager as it is (clock, engine state, drag state and
    flags): all it may do is put the body groups at the engine's poses.
    It ends whatever the number of turns granted to the loop, and when it
    throws (the engine state is missing) nothing has changed. *)
Theorem update_while_paused_only_syncs
    (mj_step : MSM.MjModel -> MSM.EngineState -> MSM.EngineState)
    (simulation_step : MSM.EngineState -> MSM.EngineState)
    (mj_applyFT : MSM.MjModel -> MSM.EngineState -> Vector3.t -> Vector3.t -> nat ->
                  MSM.EngineState)
    (dragUpdate : gmap loc Object3D.t -> MSM.DragStateManager -> MSM.DragStateManager)
    (fuel : nat) (timeMS : float) (w : MSM.World) :
  MSM.paused (MSM.manager w) = true ->
  (exists w', MSM.update mj_step simulation_step mj_applyFT dragUpdate fuel timeMS w
              = MSM.Return 0 w' /\
              MSM.manager w' = MSM.manager w /\
              MSM.sceneManager w' = MSM.sceneManager w /\
              frameView w' = frameView w) \/
  (exists msg, MSM.update mj_step simulation_step mj_applyFT dragUpdate fuel timeMS w
               = MSM.Raise msg w /\
               MSM.isLoaded (MSM.manager w) = true /\ MSM.engineArrays w = None).
Proof.
  intros Hp. unfold MSM.update. rewrite Hp.
  destruct (MSM.isLoaded (MSM.manager w)); [|left; eauto].
  destruct (MSM.model (MSM.manager w)) as [m|]; [|left; eauto].
  cbn [MSM.bind].
  destruct (MSM.engineArrays w) as [arr|]; [left|right; eauto].
  eexists. split; [reflexivity|].
  split; [apply manager_syncBodies|].
  pose proof (frameView_syncBodies m arr w) as Hv.
  split; [|assumption].
  unfold frameView in Hv. now injection Hv.
Qed.

Lemma update_while_paused_only_syncs_witness :
  MSM.paused (MSM.manager loadedWorld) = true /\
  ((exists w', MSM.update (fun _ a => a) (fun a => a) (fun _ a _ _ _ => a) (fun _ d => d)
                 0 20 loadedWorld = MSM.Return 0 w' /\
               MSM.manager w' = MSM.manager loadedWorld /\
               MSM.sceneManager w' = MSM.sceneManager loadedWorld /\
               frameView w' = frameView loadedWorld) \/
   (exists msg, MSM.update (fun _ a => a) (fun a => a) (fun _ a _ _ _ => a) (fun _ d => d)
                  0 20 loadedWorld = MSM.Raise msg loadedWorld /\
                MSM.isLoaded (MSM.manager loadedWorld) = true /\
                MSM.engineArrays loadedWorld = None)).
Proof.
  assert (H : MSM.paused (MSM.manager loadedWorld) = true) by (vm_compute; reflexivity).
  split; [exact H|].
  exact (update_while_paused_only_syncs (fun _ a => a) (fun a => a) (fun _ a _ _ _ => a)
           (fun _ d => d) 0 20 loadedWorld H).
Defined.

(** ** Package names of an expanded document *)

Module XacroPackages.
Import JsString.

(** [/package:\/\/([^\/]+)/] tried at the start of [s]: the captured
    name, the longest run of characters other than a slash (at least
    one). *)
Definition matchPackageAt (s : string) : option string :=
  if String.prefix "package://" s then
    match span_no_slash (substring_from 10 s) with
    | (String c name, _) => Some (String c name)
    | _ => None
    end
  else None.

(** The [while ((match = packageRegex.exec(urdfContent)) !== null)] loop:
    [skip] characters of the last match are still to be passed over, then
    the search goes on, character by character. *)
Fixpoint scanPackages (skip : nat) (s : string) (packages : list string) : list string :=
  match s with
  | EmptyString => packages
  | String _ s' =>
      match skip with
      | S k => scanPackages k s' packages
      | O =>
          match matchPackageAt s with
          | Some name =>
              scanPackages (9 + String.length name) s' (MujocoAssets.setAdd name packages)
          | None => scanPackages 0 s' packages
          end
      end
  end.

(** [extractPackagesFromURDF(urdfContent)]: the set, in insertion order. *)
Definition extractPackagesFromURDF (urdfContent : string) : list string :=
  scanPackages 0 urdfContent [].

End XacroPackages.

Lemma span_no_slash_spec (s a b : string) :
  JsString.span_no_slash s = (a, b) ->
  s = a +:+ b /\ JsString.indexOf "/" a = None.
Proof.
  revert a b. induction s as [|c s IH]; intros a b; simpl.
  - intros [= <- <-]. auto.
  - destruct (Ascii.eqb c "/") eqn:E.
    + intros [= <- <-]. auto.
    + destruct (JsString.span_no_slash s) as [a0 b0]. intros [= <- <-].
      destruct (IH a0 b0 eq_refl) as [-> Ha]. rewrite append_cons. split; [reflexivity|].
      simpl. now rewrite E, Ha.
Qed.

Lemma prefix_append (p x : string) : String.prefix p (p +:+ x) = true.
Proof.
  induction p as [|c p IH]; [now destruct x|].
  rewrite append_cons. simpl. destruct (Ascii.ascii_dec c c); [exact IH | congruence].
Qed.

Lemma includes_prefix (t s : string) : String.prefix t s = true -> JsString.includes t s = true.
Proof. intros H. destruct s; cbn [JsString.includes]; now rewrite H. Qed.

(** A package name as the expression captures it. *)
Definition capturedIn (content name : string) : Prop :=
  name <> "" /\ JsString.indexOf "/" name = None /\
  JsString.includes ("package://" +:+ name) content = true.

Lemma matchPackageAt_captured (s name : string) :
  XacroPackages.matchPackageAt s = Some name -> capturedIn s name.
Proof.
  unfold XacroPackages.matchPackageAt.
  destruct (String.prefix "package://" s) eqn:Ep; [|discriminate].
  apply prefix_split in Ep. simpl String.length in Ep.
  destruct (JsString.span_no_slash (JsString.substring_from 10 s)) as [a b] eqn:Es.
  destruct a as [|c a]; [discriminate|]. intros [= <-].
  destruct (span_no_slash_spec _ _ _ Es) as [Hs Ha].
  split; [discriminate|]. split; [exact Ha|].
  apply includes_prefix. rewrite Ep, Hs, <- append_assoc. apply prefix_append.
Qed.

Lemma capturedIn_cons (c : ascii) (s name : string) :
  capturedIn s name -> capturedIn (String c s) name.
Proof.
  intros (H1 & H2 & H3). split; [assumption|]. split; [assumption|].
  rewrite includes_cons, H3. apply orb_true_r.
Qed.

Lemma In_setAdd (x n : string) (l : list string) :
  In n (MujocoAssets.setAdd x l) -> n = x \/ In n l.
Proof.
  unfold MujocoAssets.setAdd. destruct (existsb (String.eqb x) l); [auto|].
  intros H. apply in_app_or in H as [H|[<-|[]]]; auto.
Qed.

Lemma NoDup_setAdd (x : string) (l : list string) :
  List.NoDup l -> List.NoDup (MujocoAssets.setAdd x l).
Proof.
  intros Hl. unfold MujocoAssets.setAdd.
  destruct (existsb (String.eqb x) l) eqn:E; [assumption|].
  assert (Hx : ~ In x l).
  { intros Hin. assert (existsb (String.eqb x) l = true); [|congruence].
    apply existsb_exists. exists x. split; [assumption | apply String.eqb_refl]. }
  clear E. induction Hl as [|y l Hy Hl IH]; simpl.
  - constructor; [intros [] | constructor].
  - constructor.
    + intros Hin. apply in_app_or in Hin as [Hin|[<-|[]]]; [contradiction|].
      apply Hx. now left.
    + apply IH. intros Hin. apply Hx. now right.
Qed.

Lemma scanPackages_spec (s : string) :
  forall skip packages,
    (forall n, In n (XacroPackages.scanPackages skip s packages) ->
       In n packages \/ capturedIn s n) /\
    (List.NoDup packages -> List.NoDup (XacroPackages.scanPackages skip s packages)) /\
    (JsString.includes "package://" s = false ->
     XacroPackages.scanPackages skip s packages = packages).
Proof.
  induction s as [|c s IH]; intros skip packages.
  - simpl. auto.
  - cbn [XacroPackages.scanPackages]. destruct skip as [|k].
    + destruct (XacroPackages.matchPackageAt (String c s)) as [name|] eqn:Em.
      * destruct (IH (9 + String.length name) (MujocoAssets.setAdd name packages))
          as (Hin & Hnd & _).
        split; [|split].
        -- intros n Hn. destruct (Hin n Hn) as [H|H].
           ++ apply In_setAdd in H as [->|H]; [|auto].
              right. now apply matchPackageAt_captured.
           ++ right. now apply capturedIn_cons.
        -- intros Hp. apply Hnd. now apply NoDup_setAdd.
        -- intros Hno. exfalso. rewrite includes_cons in Hno.
           apply orb_false_elim in Hno as [Hno _].
           unfold XacroPackages.matchPackageAt in Em. rewrite Hno in Em. discriminate.
      * destruct (IH 0 packages) as (Hin & Hnd & Hnone).
        split; [|split; [exact Hnd|]].
        -- intros n Hn. destruct (Hin n Hn); [auto|]. right. now apply capturedIn_cons.
        -- intros Hno. apply Hnone. rewrite includes_cons in Hno.
           now apply orb_false_elim in Hno as [_ Hno].
    + destruct (IH k packages) as (Hin & Hnd & Hnone).
      split; [|split; [exact Hnd|]].
      * intros n Hn. destruct (Hin n Hn); [auto|]. right. now apply capturedIn_cons.
      * intros Hno. apply Hnone. rewrite includes_cons in Hno.
        now apply orb_false_elim in Hno as [_ Hno].
Qed.

(** X26: every package name [extractPackagesFromURDF] returns is not
    empty, has no slash, and stands in the document right after
    [package://]; no name is returned twice, and a document without
    [package://] gives no name at all. *)
Theorem extractPackagesFromURDF_names (urdfContent : string) :
  (forall name, In name (XacroPackages.extractPackagesFromURDF urdfContent) ->
     name <> "" /\ JsString.indexOf "/" name = None /\
     JsString.includes ("package://" +:+ name) urdfContent = true) /\
  List.NoDup (XacroPackages.extractPackagesFromURDF urdfContent) /\
  (JsString.includes "package://" urdfContent = false ->
   XacroPackages.extractPackagesFromURDF urdfContent = []).
Proof.
  unfold XacroPackages.extractPackagesFromURDF.
  destruct (scanPackages_spec urdfContent 0 []) as (Hin & Hnd & Hnone).
  split; [|split].
  - intros name Hn. destruct (Hin name Hn) as [[]|H]. exact H.
  - apply Hnd. constructor.
  - exact Hnone.
Qed.
